(* ===== verification/_CoqProject ===== *)
-Q . S2P
Prelude.v
GoStrings.v
Base64.v
RFC3339.v
Regex.v
Errors.v
Strconv.v
Numbers.v
Json.v
ApiSpec.v
Uuid.v
ValueObjects.v
Notification.v
Batch.v
Template.v
Ports.v
RetryPolicy.v
RepoSpec.v
ProcessNotification.v
CreateNotification.v
CancelNotification.v
Reconcile.v
CreateBatch.v
Queries.v
TemplateUseCases.v
Sql.v
Postgres.v
PostgresSpec.v
Pagination.v
Discipline.v
Accounting.v
System.v
Budget.v
Reports.v
Telemetry.v
Liveness.v
Redis.v
RateLimiter.v
Hub.v
RedisStores.v
WsClient.v
Asynq.v
Providers.v
Config.v
WorkerProcess.v
Spans.v
Sha256.v
Http.v
Metrics.v
ApiTypes.v
Handlers.v
Middleware.v
ApiServer.v
Docs.v
ApiFailures.v
ApiProcess.v
ApiProbes.v
Lifecycle.v
Migrate.v
Scenario.v
MetricsScenario.v
WorkerScenario.v
ApiScenario.v
