(* ===== verification/Prelude.v ===== *)
(** * Verification of the event-driven notification service

    The service (src/internal, src/cmd) accepts notification requests over
    HTTP, stores them in PostgreSQL, hands them to workers through a Redis
    queue and delivers them through a provider per channel.  An API process
    creates, schedules, lists, cancels and batches notifications; a worker
    claims one, asks the outbound rate limiter, sends it and settles its row; a
    reconciler puts rows that stopped making progress back into circulation.

    ** How the model is built

    Values and entities (internal/domain) are pure functions returning
    [result error A].  A use case (internal/application) is a [proc]: a tree of
    port calls, each with a continuation of the answer.  Adapters implement the
    ports as programs over their own state; [Ports.handle] dispatches one call,
    [Ports.run] runs a use case to its end on a [World] of adapter states, and
    System.v interleaves any number of use cases one call at a time.

    The use cases are verified against [RepoSpec.StoreLaws], the contract of the
    persistence ports; PostgresSpec.v proves that the PostgreSQL adapter keeps it.

    ** Files

    - Prelude: results, the state-and-error monad with its weakest
      precondition, 64- and 32-bit integers with wrap-around, time in
      nanoseconds, list lemmas, the hint database [go].
    - GoStrings, Base64, RFC3339, Regex: the parts of Go's standard library
      the source relies on, as executable functions: strings and their normal
      form, URL-safe base64, time stamps, regular expressions by derivatives.
    - Errors: the sentinel errors, wrapping, errors.Is and errors.As
      (domain/errors.go, ports/ports.go).
    - Uuid: row keys and their text; pgx's parser is an interface.
    - ValueObjects: channel.go, priority.go, status.go, the log events, and the
      state machine of a notification as the relation [fsm].
    - Notification, Batch, Template: the entities and their methods.
    - Ports: ports.go and tracing.go, programs, worlds, symbolic execution.
    - RetryPolicy: backoff and jitter (application/errors.go, cmd/worker).
    - RepoSpec: what a use case may rely on about rows and audit trail.
    - ProcessNotification, CreateNotification (with scheduling),
      CancelNotification, Reconcile, CreateBatch, Queries, TemplateUseCases:
      one file per use case of internal/application, each with the complete
      list of its outcomes.
    - Strconv, Numbers, Json, Sha256: more of the standard library, executable:
      integers, floats and durations as text, encoding/json, SHA-256.
    - Redis, RateLimiter, RedisStores: the Redis commands as an interface with
      a concrete server; outbound_rate_limiter.go with its Lua script;
      idempotency_store.go and status_broadcaster.go.
    - Hub: adapters/websocket and http/websocket_handler.go, the goroutines
      interleaved one critical section at a time.
    - WsClient: the client of websocket_handler.go over its connection, and the
      take-over of a connection behind wrapped response writers.
    - Asynq: adapters/asynq, tasks and their processor over the asynq client.
    - Providers: adapters/provider and infrastructure/circuit.
    - Config: infrastructure/config, every variable with its validation.
    - WorkerProcess: the wiring of cmd/worker, a task followed to the webhook.
    - Http: problem.go and error_handler.go; a response is a list of events.
    - Middleware: correlation.go, inbound_rate_limit.go, metrics_middleware.go,
      idempotency.go and router.go.
    - ApiTypes, ApiServer, ApiFailures: the generated api.gen.go - wire types
      with their JSON, the server interface and its two implementations, the
      strict server interface that [http_Server] implements, parameter binding,
      strict handlers, routes; the writers of the failures.  ApiSpec: the
      embedded document.
    - Handlers: server.go, mapping.go and the operations of the HTTP server.
    - Docs: docs_handler.go.
    - ApiProcess: the wiring of cmd/api and infrastructure/id, a POST followed
      to the database and back; ApiProbes: the operational endpoints.
    - Telemetry, Metrics: infrastructure/logger and tracing over log/slog and
      OpenTelemetry; infrastructure/metrics over the Prometheus client.
    - Lifecycle, Migrate: [run] and [main] of cmd/api, cmd/worker,
      cmd/reconciler and cmd/migrate.
    - Liveness: with ports that answer, every notification settles.
    - WorkerScenario, ApiScenario, MetricsScenario: the two processes and the
      registry in concrete deployments.
    - Sql: the schema and every statement of adapters/postgres/sqlc.
    - Postgres: the repositories of adapters/postgres over those statements.
    - PostgresSpec: the repositories keep the contract; storage round trip.
    - Pagination: keyset pagination visits every row once; cursors.
    - Discipline: which calls a use case may make depending on its claim; every
      use case keeps to it.
    - System: any number of use cases interleaved with crashes; claims are
      exclusive, sends are bounded, rows follow the state machine.
    - Accounting: what a program may call next, given what the calls before it
      were answered: an account, and the programs that keep to it.
    - Budget, Reports, Spans: three accounts - how many calls a request may
      make, which metrics a delivery may report, which spans are open.
    - Scenario: a concrete deployment the theorems are applied to.

    ** What is proved

    - Under any interleaving and any fault: a notification is sent only under
      an exclusive claim and at most five times, rows follow the state machine,
      terminal rows stay (System); a request ends within its budget of calls
      (Budget); the hub leaks no subscription and sends to subscribers only
      (Hub).
    - Every outcome of every use case, with its effects and errors, against the
      store contract; PostgreSQL keeps that contract (PostgresSpec).
    - Progress without faults, for failure reasons that are text (Liveness),
      and the limits of the rate limiter,
      the retry delays, the mock provider and pagination.
    - The HTTP layer: one problem document per error, wrappers that change a
      response only when its first status is informational, replay of retries,
      a creation and the operational endpoints end to end, 501 for what is not
      wired.
    - The worker process: a task reaches the webhook exactly once, with the
      stored text, when claim, event, limiter, breaker and channel allow it,
      and not at all otherwise; the breaker cuts off a sick provider, whatever
      happens to it during a call; the configuration is well formed or refused
      by name.
    - From the worker to the browser: a published status is written byte for
      byte on the connection of every subscriber (WsClient).
    - Telemetry: the metrics of a delivery refine what it did, the registry
      shows the count of what was reported, spans are closed in order except
      that a panic of the provider leaves its own span open, log records are
      stamped (Reports, Metrics, Spans, Telemetry).
    - The binaries: what ends a start, what is done until the signal, and that
      everything opened is closed (Lifecycle, Migrate).

    ** Conventions

    An [error] is a chain of wrappings around a sentinel, a typed error or an
    opaque library error; the ids formatted into a message are left out, its
    constant text is the label.  A port call that fails may have taken effect
    (a lost acknowledgement), unless its error says that it did not.  Go's
    [int] is 64 bits wide; the attempts column and LIMIT are 32 bits wide.
    [Errors.Panicked] is not an error but a panic on its way up: only what is
    deferred runs, and only the provider is taken to panic.  A span is named by
    the position of its start among the observations.  A text column takes
    valid UTF-8 without NUL ([Sql.text_ok]).
    Times are nanoseconds since the Unix epoch, in Z.  Recursion is structural
    but for: [RFC3339.ndigits], whose fuel of 20 exceeds the 19 digits of a
    64-bit integer; [Pagination.walk], whose fuel the theorem gives;
    [Json.json_value], which [Json.parse] gives twice the length of its input
    and whose nesting is bounded separately; [Numbers.duration_groups], which
    gets the length of its input and takes at least one byte per round; and
    [Hub.run], whose [Hub.rounds] bounds the work a method leaves behind
    ([Hub.run_saturated]: more fuel gives the same result).

    ** Parameters

    Third-party behaviour is an interface with its documented laws:
    PostgreSQL's precision, scan order, locks, collation, jsonb and faults
    ([Sql.Server]), pgx's UUID parser ([Uuid.PgtypeUUID]), text/template
    ([Template.TextTemplate]), JSON of audit details ([Postgres.DetailsCodec]),
    the layout-driven path of time.Parse ([Postgres.CursorTime]),
    Redis ([Redis.Redis]), the asynq client ([Asynq.Asynq]), net/http as a
    client ([Providers.HTTPClient]), gobreaker ([Providers.Gobreaker]), the
    frames of a WebSocket ([WsClient.WSConn]) and Go's map iteration order
    ([Hub.range_order]), google/uuid ([ApiTypes.GoogleUUID],
    [ApiProcess.UUIDSource]), time.Parse in JSON bodies ([ApiTypes.TimeParse]),
    the oapi-codegen runtime ([ApiServer.ParamBinding]), chi ([ApiServer.Chi])
    and its Recoverer middleware, an argument of [Middleware.NewRouter],
    the Prometheus client ([Metrics.PrometheusLaws]), OpenTelemetry
    ([Telemetry.OTelSDK], [Telemetry.OTelTrace]) and golang-migrate
    ([Migrate.Migrator]), compress/flate and kin-openapi
    ([ApiSpec.SpecLibraries]).

    ** Not modelled

    The embedded OpenAPI document is data, an argument of ApiSpec.v. Left
    out are the constructors of api.gen.go nothing calls (a base URL, other
    error handlers, cookie and header errors); the spans the asynq producer
    opens around an enqueue; the HTTP listeners of /metrics in the worker
    and the reconciler, of which only the opening and closing is kept. When
    a request, a tick or the shutdown signal arrives is an argument of the
    processes. The asynq server's own scheduling of retries and its queue
    weights, the Prometheus text format and the wire protocols are library
    code. *)

From stdpp Require Export base tactics option list numbers strings gmap sorting relations.
From Stdlib Require Export ZArith Lia.
From Stdlib Require Ascii String.
Export Stdlib.Strings.Ascii (ascii(..), N_of_ascii, ascii_of_N, ascii_N_embedding,
  N_ascii_embedding, N_ascii_bounded).
Export (notations) Stdlib.Strings.Ascii.

#[global] Open Scope Z_scope.

Declare Scope go_scope.
Delimit Scope go_scope with go.
#[global] Open Scope go_scope.

(** ** Results and stateful programs

    A Go function returning [(A, error)] over a piece of mutable state [W] is
    a [prog E W A]: it maps the state to a result and the state it leaves
    behind.  The state survives an error, as it does in Go. *)

Inductive result (E A : Type) : Type :=
| Ok (a : A)
| Err (e : E).
Arguments Ok {E A} a.
Arguments Err {E A} e.

#[export] Instance result_mret E : MRet (result E) := λ A a, Ok a.
#[export] Instance result_mbind E : MBind (result E) :=
  λ A B f r, match r with Ok a => f a | Err e => Err e end.
(** [fmt.Errorf("...: %w", err)] on a result. *)
Definition on_error {E A} (f : E → E) (r : result E A) : result E A :=
  match r with Ok a => Ok a | Err e => Err (f e) end.

Definition prog (E W A : Type) : Type := W → result E A * W.

Section prog.
Context {E W : Type}.

Definition ret {A} (a : A) : prog E W A := λ w, (Ok a, w).
Definition throw {A} (e : E) : prog E W A := λ w, (Err e, w).
Definition bind {A B} (c : prog E W A) (k : A → prog E W B) : prog E W B :=
  λ w, match c w with
       | (Ok a, w') => k a w'
       | (Err e, w') => (Err e, w')
       end.
(** Run [c] and hand its outcome, error included, to the caller: Go code
    that inspects [err] instead of returning it. *)
Definition attempt {A} (c : prog E W A) : prog E W (result E A) :=
  λ w, let '(r, w') := c w in (Ok r, w').
Definition map_err {A} (f : E → E) (c : prog E W A) : prog E W A :=
  λ w, match c w with
       | (Ok a, w') => (Ok a, w')
       | (Err e, w') => (Err (f e), w')
       end.
Definition gets {A} (f : W → A) : prog E W A := λ w, (Ok (f w), w).
Definition modify (f : W → W) : prog E W unit := λ w, (Ok tt, f w).
Definition of_result {A} (r : result E A) : prog E W A := λ w, (r, w).

(** [for _, x := range l { if err := f(x); err != nil { return err } }] *)
Fixpoint for_each {A} (f : A → prog E W unit) (l : list A) : prog E W unit :=
  match l with
  | [] => ret tt
  | x :: l => bind (f x) (λ _, for_each f l)
  end.
(** The same loop when the body yields the element's new value. *)
Fixpoint map_each {A B} (f : A → prog E W B) (l : list A) : prog E W (list B) :=
  match l with
  | [] => ret []
  | x :: l => bind (f x) (λ y, bind (map_each f l) (λ ys, ret (y :: ys)))
  end.
End prog.

(** Run a program on the component [get w] of a larger state [w]. *)
Definition zoom {E W S A} (get : W → S) (put : S → W → W) (c : prog E S A) : prog E W A :=
  λ w, let '(r, s) := c (get w) in (r, put s w).

Notation "'let*' x ':=' c 'in' k" := (bind c (λ x, k))
  (at level 10, x pattern, c at level 100, k at level 200) : go_scope.
Notation "c ';;;' k" := (bind c (λ _, k)) (at level 199, k at level 200, right associativity) : go_scope.

Definition is_Ok {E A} (r : result E A) : bool := match r with Ok _ => true | Err _ => false end.

(** ** Weakest preconditions

    [wp c Φ w]: running [c] from [w] ends in a result and a state that
    satisfy [Φ].  Every program of the development terminates, so this is
    total correctness. *)
Definition wp {E W A} (c : prog E W A) (Φ : result E A → W → Prop) (w : W) : Prop :=
  Φ (c w).1 (c w).2.

Section wp.
Context {E W : Type}.
Implicit Types w : W.

Lemma wp_run {A} (c : prog E W A) Φ w r w' :
  wp c Φ w → c w = (r, w') → Φ r w'.
Proof. unfold wp. intros H E0. by rewrite E0 in H. Qed.

Lemma wp_intro {A} (c : prog E W A) (Φ : result E A → W → Prop) w :
  (∀ r w', c w = (r, w') → Φ r w') → wp c Φ w.
Proof. intros H. apply H, surjective_pairing. Qed.

Lemma wp_mono {A} (c : prog E W A) (Φ Ψ : result E A → W → Prop) w :
  wp c Φ w → (∀ r w', Φ r w' → Ψ r w') → wp c Ψ w.
Proof. unfold wp. auto. Qed.

Lemma wp_conj {A} (c : prog E W A) (Φ Ψ : result E A → W → Prop) w :
  wp c Φ w → wp c Ψ w → wp c (λ r w', Φ r w' ∧ Ψ r w') w.
Proof. by unfold wp. Qed.

Lemma wp_ret {A} (a : A) (Φ : result E A → W → Prop) w : Φ (Ok a) w → wp (ret a) Φ w.
Proof. done. Qed.

Lemma wp_throw {A} (e : E) (Φ : result E A → W → Prop) w : Φ (Err e) w → wp (throw e) Φ w.
Proof. done. Qed.

Lemma wp_gets {A} (f : W → A) (Φ : result E A → W → Prop) w :
  Φ (Ok (f w)) w → wp (gets f) Φ w.
Proof. done. Qed.

Lemma wp_modify f (Φ : result E unit → W → Prop) w : Φ (Ok tt) (f w) → wp (modify f) Φ w.
Proof. done. Qed.

Lemma wp_of_result {A} (r : result E A) (Φ : result E A → W → Prop) w :
  Φ r w → wp (of_result r) Φ w.
Proof. done. Qed.

Lemma wp_bind {A B} (c : prog E W A) (k : A → prog E W B) Φ w :
  wp c (λ r w', match r with Ok a => wp (k a) Φ w' | Err e => Φ (Err e) w' end) w →
  wp (bind c k) Φ w.
Proof. unfold wp, bind. by destruct (c w) as [[a|e] w']. Qed.

Lemma wp_map_err {A} f (c : prog E W A) Φ w :
  wp c (λ r w', match r with Ok a => Φ (Ok a) w' | Err e => Φ (Err (f e)) w' end) w →
  wp (map_err f c) Φ w.
Proof. unfold wp, map_err. by destruct (c w) as [[a|e] w']. Qed.

Lemma wp_attempt {A} (c : prog E W A) Φ w :
  wp c (λ r w', Φ (Ok r) w') w → wp (attempt c) Φ w.
Proof. unfold wp, attempt. by destruct (c w). Qed.

Lemma wp_zoom {S A} (get : W → S) put (c : prog E S A) Φ w :
  wp c (λ r s, Φ r (put s w)) (get w) → wp (zoom get put c) Φ w.
Proof. unfold wp, zoom. by destruct (c (get w)). Qed.

(** The invariant rule of the early-returning loop: [I done w] holds when
    the elements of [done] have been handled. *)
Lemma wp_for_each {A} (f : A → prog E W unit) (I : list A → W → Prop) (X : E → W → Prop)
    (l : list A) w :
  I [] w →
  (∀ done x rest w', l = done ++ x :: rest → I done w' →
     wp (f x) (λ r w'', match r with Ok _ => I (done ++ [x]) w'' | Err e => X e w'' end) w') →
  wp (for_each f l) (λ r w', match r with Ok _ => I l w' | Err e => X e w' end) w.
Proof.
  intros H0 Hstep.
  enough (∀ rest done w', l = done ++ rest → I done w' →
    wp (for_each f rest) (λ r w'', match r with Ok _ => I l w'' | Err e => X e w'' end) w')
    as H by by apply (H l []).
  induction rest as [|x rest IH]; intros done w' -> HI; simpl.
  - apply wp_ret. by rewrite app_nil_r.
  - apply wp_bind. eapply wp_mono; [by eapply Hstep|].
    intros [_|e] w'' Hr; [|done].
    apply (IH (done ++ [x])); [by rewrite <-app_assoc|done].
Qed.

Lemma wp_map_each {A B} (f : A → prog E W B) (I : list A → list B → W → Prop)
    (X : E → W → Prop) (l : list A) w :
  I [] [] w →
  (∀ done x rest ys w', l = done ++ x :: rest → I done ys w' →
     wp (f x) (λ r w'', match r with Ok y => I (done ++ [x]) (ys ++ [y]) w'' | Err e => X e w'' end) w') →
  wp (map_each f l) (λ r w', match r with Ok ys => I l ys w' | Err e => X e w' end) w.
Proof.
  intros H0 Hstep.
  enough (∀ rest done ys w', l = done ++ rest → I done ys w' →
    wp (map_each f rest)
      (λ r w'', match r with Ok zs => I l (ys ++ zs) w'' | Err e => X e w'' end) w')
    as H by by apply (H l [] []).
  induction rest as [|x rest IH]; intros done ys w' -> HI; simpl.
  - apply wp_ret. by rewrite !app_nil_r.
  - apply wp_bind. eapply wp_mono; [by eapply Hstep|].
    intros [y|e] w'' Hr; [|done]. apply wp_bind.
    eapply wp_mono; [apply (IH (done ++ [x]) (ys ++ [y])); [by rewrite <-app_assoc|done]|].
    intros [zs|e] w3 Hz; [|done]. apply wp_ret. by rewrite <-app_assoc in Hz.
Qed.
End wp.

(** One symbolic step of a program. *)
Ltac wp_step :=
  lazymatch goal with
  | |- wp (ret _) _ _ => apply wp_ret
  | |- wp (throw _) _ _ => apply wp_throw
  | |- wp (gets _) _ _ => apply wp_gets
  | |- wp (modify _) _ _ => apply wp_modify
  | |- wp (of_result _) _ _ => apply wp_of_result
  | |- wp (bind _ _) _ _ => apply wp_bind
  | |- wp (map_err _ _) _ _ => apply wp_map_err
  | |- wp (attempt _) _ _ => apply wp_attempt
  | |- wp (zoom _ _ _) _ _ => apply wp_zoom
  end.
Ltac wp_steps := repeat (wp_step; cbn beta iota).
(** Use a known specification [H] of the program at the head of the goal. *)
Tactic Notation "wp_use" uconstr(H) := eapply wp_mono; [apply H|cbn beta].

(** ** Machine integers

    Go's [int], [int64] and [time.Duration] are 64-bit two's complement;
    [int32] is the width of the [attempts] column. *)
Definition wrap (w : Z) (z : Z) : Z := (z + 2 ^ (w - 1)) mod 2 ^ w - 2 ^ (w - 1).
Definition int64 (z : Z) : Z := wrap 64 z.
Definition int32 (z : Z) : Z := wrap 32 z.

Definition in_int64 (z : Z) : Prop := - 2 ^ 63 ≤ z < 2 ^ 63.
Definition in_int32 (z : Z) : Prop := - 2 ^ 31 ≤ z < 2 ^ 31.

Lemma wrap_small w z : 0 < w → - 2 ^ (w - 1) ≤ z < 2 ^ (w - 1) → wrap w z = z.
Proof.
  intros Hw Hz. unfold wrap.
  assert (2 ^ w = 2 * 2 ^ (w - 1)) as E.
  { rewrite <-Z.pow_succ_r by lia. f_equal. lia. }
  rewrite Z.mod_small; lia.
Qed.
Lemma wrap_range w z : 0 < w → - 2 ^ (w - 1) ≤ wrap w z < 2 ^ (w - 1).
Proof.
  intros Hw. unfold wrap.
  assert (2 ^ w = 2 * 2 ^ (w - 1)) as E.
  { rewrite <-Z.pow_succ_r by lia. f_equal. lia. }
  pose proof (Z.mod_pos_bound (z + 2 ^ (w - 1)) (2 ^ w)).
  assert (0 < 2 ^ (w - 1)) by (apply Z.pow_pos_nonneg; lia). lia.
Qed.
Lemma int64_small z : in_int64 z → int64 z = z.
Proof. intros H. apply wrap_small; [lia|exact H]. Qed.
Lemma int32_small z : in_int32 z → int32 z = z.
Proof. intros H. apply wrap_small; [lia|exact H]. Qed.
Lemma int64_range z : in_int64 (int64 z).
Proof. apply (wrap_range 64); lia. Qed.
Lemma int32_range z : in_int32 (int32 z).
Proof. apply (wrap_range 32); lia. Qed.

(** ** Time

    A [time.Time] is its instant in nanoseconds since the Unix epoch, a
    [time.Duration] a 64-bit count of nanoseconds. *)
Abbreviation Time := Z (only parsing).
Abbreviation Duration := Z (only parsing).
Definition Millisecond : Duration := 1000000.
Definition Second : Duration := 1000000000.
Definition Minute : Duration := 60 * Second.
Definition Hour : Duration := 60 * Minute.

Definition time_Add (t : Time) (d : Duration) : Time := t + d.
(** [Time.Sub] saturates at the ends of the [Duration] range. *)
Definition time_Sub (t u : Time) : Duration := Z.max (- 2 ^ 63) (Z.min (2 ^ 63 - 1) (t - u)).
Definition time_After (t u : Time) : bool := u <? t.

(** ** Automation shared by the components *)
Create HintDb go discriminated.
Create Rewrite HintDb go.
#[export] Hint Resolve wp_ret wp_throw : go.
#[export] Hint Rewrite @app_nil_r @length_app @length_map : go.

(** Split every boolean test and option of the goal, closing what is trivial. *)
Ltac split_ifs :=
  repeat (case_match; try done; simplify_eq/=).

(** ** Lists *)
Lemma filter_all {A} (P : A → Prop) `{∀ x, Decision (P x)} (l : list A) :
  Forall P l → filter P l = l.
Proof.
  induction 1 as [|x l Hx _ IH]; [done|]. rewrite filter_cons_True by done. by rewrite IH.
Qed.

Lemma filter_none {A} (P : A → Prop) `{∀ x, Decision (P x)} (l : list A) :
  Forall (λ x, ¬ P x) l → filter P l = [].
Proof. induction 1; [done|]. by rewrite filter_cons_False. Qed.

Lemma Forall_filter_both {A} (P Q : A → Prop) `{∀ x, Decision (P x)} (l : list A) :
  Forall Q l → Forall (λ x, P x ∧ Q x) (filter P l).
Proof.
  rewrite !Forall_forall. intros HQ x [HP Hx]%list_elem_of_filter. auto.
Qed.

Lemma last_take_lookup {A} (l : list A) n x :
  l !! n = Some x → take (S n) l = take n l ++ [x].
Proof. apply take_S_r. Qed.
