(* ===== verification/GoStrings.v ===== *)
(** The parts of Go's [strings], [encoding/base64] and [fmt] packages the
    service uses, over byte strings, with the facts the components share. *)

From S2P Require Import Prelude.

(** ** Bytes *)
Definition code (a : ascii) : N := N_of_ascii a.
Definition byte (n : N) : ascii := ascii_of_N n.

Lemma byte_code a : byte (code a) = a.
Proof. apply ascii_N_embedding. Qed.
Lemma code_byte n : (n < 256)%N → code (byte n) = n.
Proof. apply N_ascii_embedding. Qed.
Lemma code_bound a : (code a < 256)%N.
Proof. apply N_ascii_bounded. Qed.

Fixpoint bytes (s : string) : list ascii :=
  match s with EmptyString => [] | String a s => a :: bytes s end.
Fixpoint of_bytes (l : list ascii) : string :=
  match l with [] => EmptyString | a :: l => String a (of_bytes l) end.

Lemma of_bytes_bytes s : of_bytes (bytes s) = s.
Proof. induction s; simpl; first [done|congruence|by f_equal]. Qed.
Lemma bytes_of_bytes l : bytes (of_bytes l) = l.
Proof. induction l; simpl; first [done|congruence|by f_equal]. Qed.
Lemma bytes_app s t : bytes (s +:+ t) = bytes s ++ bytes t.
Proof. induction s; simpl; first [done|congruence|by f_equal]. Qed.
Lemma of_bytes_app l k : of_bytes (l ++ k) = of_bytes l +:+ of_bytes k.
Proof. induction l as [|a l IH]; [done|]. simpl. by rewrite IH. Qed.
#[export] Hint Rewrite of_bytes_bytes bytes_of_bytes bytes_app : go.

(** Go's [len]: the number of bytes. *)
Definition len (s : string) : Z := Z.of_nat (String.length s).

Lemma len_nonneg s : 0 ≤ len s.
Proof. unfold len. lia. Qed.
Lemma length_bytes s : length (bytes s) = String.length s.
Proof. induction s; simpl; first [done|congruence|by f_equal]. Qed.

(** [strings.IndexByte], with the text before and after the byte. *)
Fixpoint cut (c : ascii) (s : string) : option (string * string) :=
  match s with
  | EmptyString => None
  | String a s =>
      if decide (a = c) then Some (EmptyString, s)
      else match cut c s with
           | Some (u, v) => Some (String a u, v)
           | None => None
           end
  end.

Fixpoint contains (c : ascii) (s : string) : bool :=
  match s with
  | EmptyString => false
  | String a s => bool_decide (a = c) || contains c s
  end.

Lemma cut_app c u v : contains c u = false → cut c (u +:+ String c v) = Some (u, v).
Proof.
  induction u as [|a u IH]; simpl.
  - intros _. by rewrite decide_True.
  - intros [Ha Hu]%orb_false_iff. apply bool_decide_eq_false in Ha.
    rewrite decide_False by done. by rewrite IH.
Qed.
Lemma cut_None c s : cut c s = None ↔ contains c s = false.
Proof.
  induction s as [|a s IH]; [done|]. simpl. case_decide as E.
  - by rewrite bool_decide_true by done.
  - rewrite bool_decide_false by done. simpl. rewrite <-IH.
    by destruct (cut c s) as [[? ?]|].
Qed.

(** ** White space and case

    [strings.TrimSpace] strips the runes of [unicode.IsSpace]: six ASCII
    bytes and nineteen runes whose UTF-8 encodings take two or three bytes. *)
Definition ascii_space (a : ascii) : bool :=
  let n := code a in ((9 <=? n) && (n <=? 13) || (n =? 32))%N.
(** U+0085, U+00A0 *)
Definition space2 (a b : ascii) : bool :=
  ((code a =? 194) && ((code b =? 133) || (code b =? 160)))%N.
(** U+1680, U+2000 to U+200A, U+2028, U+2029, U+202F, U+205F, U+3000 *)
Definition space3 (a b c : ascii) : bool :=
  let x := code a in let y := code b in let z := code c in
  ((x =? 225) && (y =? 154) && (z =? 128)
   || (x =? 226) && (y =? 128) && ((128 <=? z) && (z <=? 138) || (z =? 168) || (z =? 169) || (z =? 175))
   || (x =? 226) && (y =? 129) && (z =? 159)
   || (x =? 227) && (y =? 128) && (z =? 128))%N.

(** Drop leading white space; [p2] and [p3] recognise its multi-byte runes. *)
Fixpoint trim_with (p2 : ascii → ascii → bool) (p3 : ascii → ascii → ascii → bool)
    (l : list ascii) : list ascii :=
  match l with
  | [] => []
  | a :: l1 =>
      if ascii_space a then trim_with p2 p3 l1 else
      match l1 with
      | [] => l
      | b :: l2 =>
          if p2 a b then trim_with p2 p3 l2 else
          match l2 with
          | [] => l
          | c :: l3 => if p3 a b c then trim_with p2 p3 l3 else l
          end
      end
  end.
Definition trim_left (l : list ascii) : list ascii := trim_with space2 space3 l.
Definition trim_right (l : list ascii) : list ascii :=
  reverse (trim_with (λ b a, space2 a b) (λ c b a, space3 a b c) (reverse l)).
Definition TrimSpace (s : string) : string := of_bytes (trim_right (trim_left (bytes s))).

(** [strings.ToLower].  Two non-ASCII runes have an ASCII lower case, U+0130
    ([i]) and U+212A ([k]).  The other non-ASCII runes keep their bytes here:
    Go maps them to non-ASCII runes too, so a comparison of the result with
    an ASCII constant, the only use the service makes of it, is the same. *)
Fixpoint lower_bytes (l : list ascii) : list ascii :=
  match l with
  | [] => []
  | a :: l1 =>
      if ((65 <=? code a) && (code a <=? 90))%N then byte (code a + 32)%N :: lower_bytes l1 else
      match l1 with
      | b :: l2 =>
          if ((code a =? 196) && (code b =? 176))%N then byte 105 :: lower_bytes l2 else
          match l2 with
          | c :: l3 =>
              if ((code a =? 226) && (code b =? 132) && (code c =? 170))%N
              then byte 107 :: lower_bytes l3 else a :: lower_bytes l1
          | [] => a :: lower_bytes l1
          end
      | [] => a :: lower_bytes l1
      end
  end.
Definition ToLower (s : string) : string := of_bytes (lower_bytes (bytes s)).

(** [strings.ToLower(strings.TrimSpace(s))], the normal form of the parsers. *)
Definition normalise (s : string) : string := ToLower (TrimSpace s).

Example normalise_pads : normalise "  SmS	" = "sms".
Proof. reflexivity. Qed.

(** ** Hexadecimal and decimal digits *)
Definition hex_digit (n : N) : ascii :=
  if (n <? 10)%N then byte (48 + n) else byte (87 + n).
Definition unhex_digit (a : ascii) : option N :=
  let n := code a in
  (if (48 <=? n) && (n <=? 57) then Some (n - 48)
   else if (97 <=? n) && (n <=? 102) then Some (n - 87)
   else if (65 <=? n) && (n <=? 70) then Some (n - 55) else None)%N.

Lemma below_16_ind (P : N → Prop) :
  Forall P [0;1;2;3;4;5;6;7;8;9;10;11;12;13;14;15]%N → ∀ n, (n < 16)%N → P n.
Proof.
  intros HP n Hn. rewrite Forall_forall in HP. apply HP.
  rewrite !elem_of_cons, elem_of_nil. lia.
Qed.

Lemma unhex_hex n : (n < 16)%N → unhex_digit (hex_digit n) = Some n.
Proof. revert n. apply below_16_ind. repeat constructor. Qed.
Lemma hex_digit_hyphen n : (n < 16)%N → hex_digit n ≠ "-"%char.
Proof. revert n. apply below_16_ind. repeat (constructor; [discriminate|]). constructor. Qed.
