(* ===== verification/Base64.v ===== *)
(** [base64.URLEncoding] of Go's standard library, as the list cursors use it:
    the URL alphabet with padding. *)

From S2P Require Import Prelude GoStrings.

Definition sextet_char (n : N) : ascii :=
  (if n <? 26 then byte (65 + n)
   else if n <? 52 then byte (71 + n)
   else if n <? 62 then byte (n - 4)
   else if n =? 62 then byte 45 else byte 95)%N.
Definition char_sextet (a : ascii) : option N :=
  let n := code a in
  (if (65 <=? n) && (n <=? 90) then Some (n - 65)
   else if (97 <=? n) && (n <=? 122) then Some (n - 71)
   else if (48 <=? n) && (n <=? 57) then Some (n + 4)
   else if n =? 45 then Some 62
   else if n =? 95 then Some 63 else None)%N.
Definition pad : ascii := "="%char.

Fixpoint encode_bytes (l : list N) : list ascii :=
  match l with
  | [] => []
  | [x] => [sextet_char (x / 4); sextet_char (x mod 4 * 16); pad; pad]%N
  | [x; y] => [sextet_char (x / 4); sextet_char (x mod 4 * 16 + y / 16);
               sextet_char (y mod 16 * 4); pad]%N
  | x :: y :: z :: l =>
      [sextet_char (x / 4); sextet_char (x mod 4 * 16 + y / 16);
       sextet_char (y mod 16 * 4 + z / 64); sextet_char (z mod 64)]%N ++ encode_bytes l
  end.
(** One quantum at a time.  The unused low bits of a padded quantum are ignored
    (the encoding is not Strict). *)
Fixpoint decode_bytes (l : list ascii) : option (list N) :=
  match l with
  | [] => Some []
  | a :: b :: c :: d :: l =>
      s ← char_sextet a; t ← char_sextet b;
      if bool_decide (d = pad) then
        if bool_decide (l = []) then
          if bool_decide (c = pad) then Some [s * 4 + t / 16]%N
          else u ← char_sextet c; Some [s * 4 + t / 16; t mod 16 * 16 + u / 4]%N
        else None
      else
        u ← char_sextet c; v ← char_sextet d; k ← decode_bytes l;
        Some (s * 4 + t / 16 :: t mod 16 * 16 + u / 4 :: u mod 4 * 64 + v :: k)%N
  | _ => None
  end.
Definition EncodeToString (s : string) : string := of_bytes (encode_bytes (code <$> bytes s)).
(** Line breaks are skipped. *)
Definition is_newline (a : ascii) : Prop := code a = 10%N ∨ code a = 13%N.
#[export] Instance is_newline_dec a : Decision (is_newline a).
Proof. unfold is_newline. apply _. Defined.
Definition DecodeString (s : string) : option string :=
  k ← decode_bytes (filter (λ a, ¬ is_newline a) (bytes s)); Some (of_bytes (byte <$> k)).

(** ** Round trip *)
Definition below_64 : list N := N.of_nat <$> seq 0 64.
Lemma below_64_ind (P : N → Prop) : Forall P below_64 → ∀ n, (n < 64)%N → P n.
Proof.
  intros HP n Hn. rewrite Forall_forall in HP. apply HP. unfold below_64.
  apply list_elem_of_fmap. exists (N.to_nat n). split; [lia|]. apply elem_of_seq. lia.
Qed.

Lemma below_64_check (P : N → bool) :
  forallb P below_64 = true → ∀ n, (n < 64)%N → P n = true.
Proof.
  intros HP. apply below_64_ind, Forall_forall. intros n Hn.
  rewrite forallb_forall in HP. by apply HP, list_elem_of_In.
Qed.

Lemma char_sextet_char n : (n < 64)%N → char_sextet (sextet_char n) = Some n.
Proof. revert n. apply below_64_ind. unfold below_64. simpl. repeat constructor. Qed.
Lemma sextet_char_pad n : (n < 64)%N → sextet_char n ≠ pad.
Proof.
  revert n. apply below_64_ind. unfold below_64. simpl.
  repeat (constructor; [discriminate|]). constructor.
Qed.
Lemma sextet_char_newline n : (n < 64)%N → ¬ is_newline (sextet_char n).
Proof.
  intros Hn. assert (bool_decide (is_newline (sextet_char n)) = false) as E.
  { revert n Hn. apply below_64_ind. unfold below_64. simpl. repeat (constructor; [reflexivity|]). constructor. }
  by apply bool_decide_eq_false in E.
Qed.

Lemma list_ind_3 {A} (P : list A → Prop) :
  P [] → (∀ x, P [x]) → (∀ x y, P [x; y]) → (∀ x y z l, P l → P (x :: y :: z :: l)) → ∀ l, P l.
Proof.
  intros H0 H1 H2 H3. fix IH 1.
  intros [|x [|y [|z l]]]; [exact H0|exact (H1 x)|exact (H2 x y)|apply H3, IH].
Qed.

#[local] Ltac Zify.zify_post_hook ::= Z.to_euclidean_division_equations.

Lemma encode_alphabet l : Forall (λ x, x < 256)%N l →
  Forall (λ a, a = pad ∨ ∃ n, (n < 64)%N ∧ a = sextet_char n) (encode_bytes l).
Proof.
  assert (∀ n k, (n < 64)%N → Forall (λ a, a = pad ∨ ∃ n, (n < 64)%N ∧ a = sextet_char n) k →
    Forall (λ a, a = pad ∨ ∃ n, (n < 64)%N ∧ a = sextet_char n) (sextet_char n :: k)) as Hc.
  { intros. apply Forall_cons_2; eauto. }
  assert (∀ k, Forall (λ a, a = pad ∨ ∃ n, (n < 64)%N ∧ a = sextet_char n) k →
    Forall (λ a, a = pad ∨ ∃ n, (n < 64)%N ∧ a = sextet_char n) (pad :: k)) as Hp.
  { intros. apply Forall_cons_2; eauto. }
  induction l as [|x|x y|x y z l IH] using list_ind_3; rewrite ?Forall_cons; intros Hl;
    cbn [encode_bytes app]; [apply Forall_nil_2| | |]; destruct_and! Hl;
    repeat first [apply Hp|apply Hc; [lia|]]; auto using Forall_nil_2.
Qed.

Lemma decode_encode l : Forall (λ x, x < 256)%N l → decode_bytes (encode_bytes l) = Some l.
Proof.
  induction l as [|x|x y|x y z l IH] using list_ind_3; rewrite ?Forall_cons; intros Hl; cbn [encode_bytes app decode_bytes].
  - done.
  - destruct Hl as [Hx _]. rewrite !char_sextet_char by lia. simpl. do 2 f_equal. lia.
  - destruct Hl as (Hx & Hy & _). rewrite !char_sextet_char by lia.
    rewrite (bool_decide_false (sextet_char _ = pad)) by (apply sextet_char_pad; lia).
    simpl. f_equal. f_equal; [lia|]. f_equal. lia.
  - destruct Hl as (Hx & Hy & Hz & Hl). rewrite !char_sextet_char by lia.
    rewrite (bool_decide_false (sextet_char _ = pad)) by (apply sextet_char_pad; lia).
    rewrite (IH Hl). simpl. f_equal. f_equal; [lia|]. f_equal; [lia|]. f_equal. lia.
Qed.

Lemma codes_below_256 s : Forall (λ x, x < 256)%N (code <$> bytes s).
Proof. apply Forall_fmap, Forall_true. intros a. apply code_bound. Qed.

Lemma encode_no_newline s :
  filter (λ a, ¬ is_newline a) (encode_bytes (code <$> bytes s)) = encode_bytes (code <$> bytes s).
Proof.
  apply filter_all. eapply Forall_impl; [apply encode_alphabet, codes_below_256|].
  intros a [->|(n & Hn & ->)]; [by intros []|by apply sextet_char_newline].
Qed.

Lemma DecodeString_EncodeToString s : DecodeString (EncodeToString s) = Some s.
Proof.
  unfold DecodeString, EncodeToString. rewrite bytes_of_bytes, encode_no_newline.
  rewrite decode_encode by apply codes_below_256. simpl. f_equal.
  rewrite <-list_fmap_compose. transitivity (of_bytes (id <$> bytes s)).
  - f_equal. apply list_fmap_ext. intros _ a _. apply byte_code.
  - by rewrite list_fmap_id, of_bytes_bytes.
Qed.

Example EncodeToString_ex : EncodeToString "Hi?>" = "SGk_Pg==".
Proof. reflexivity. Qed.
