(* ===== verification/RFC3339.v ===== *)
(** RFC 3339 times with nanoseconds, as Go's [time] package formats them in UTC
    and parses them ([Time.Format] and the direct path of [time.Parse] for the
    layout [RFC3339Nano]): the time half of a pagination cursor. *)

From S2P Require Import Prelude GoStrings.

(** ** The calendar: days are counted from 1 January of year 0 *)
Definition days_before_year (y : Z) : Z := 365 * y + (y + 3) / 4 - (y + 99) / 100 + (y + 399) / 400.
Definition is_leap (y : Z) : bool := (y mod 4 =? 0) && (negb (y mod 100 =? 0) || (y mod 400 =? 0)).
Definition year_of_day (d : Z) : Z :=
  let y := d * 400 / 146097 in
  if d <? days_before_year y then y - 1
  else if days_before_year (y + 1) <=? d then y + 1 else y.
Definition month_lengths (leap : bool) : list Z :=
  [31; if leap then 29 else 28; 31; 30; 31; 30; 31; 31; 30; 31; 30; 31].
Definition daysIn (m y : Z) : Z := default 0 (month_lengths (is_leap y) !! Z.to_nat (m - 1)).
(** The month and the day of the [d]-th day (from 0) of the months [lens]. *)
Fixpoint month_day (lens : list Z) (m d : Z) : Z * Z :=
  match lens with
  | [] => (m, d + 1)
  | len :: lens => if d <? len then (m, d + 1) else month_day lens (m + 1) (d - len)
  end.
Definition days_before_month (leap : bool) (m : Z) : Z :=
  foldr Z.add 0 (take (Z.to_nat (m - 1)) (month_lengths leap)).
(** 1 January 1970 *)
Definition epoch_day : Z := 719528.
Definition date_of_day (day : Z) : Z * Z * Z :=
  let y := year_of_day day in
  let '(m, d) := month_day (month_lengths (is_leap y)) 1 (day - days_before_year y) in (y, m, d).
Definition day_of_date (y m d : Z) : Z :=
  days_before_year y + days_before_month (is_leap y) m + (d - 1).

Lemma days_before_next y : days_before_year (y + 1) = days_before_year y + if is_leap y then 366 else 365.
Proof.
  unfold days_before_year, is_leap.
  destruct (Z.eqb_spec (y mod 4) 0), (Z.eqb_spec (y mod 100) 0), (Z.eqb_spec (y mod 400) 0);
    simpl; Z.div_mod_to_equations; lia.
Qed.
Lemma year_of_day_spec d :
  let y := year_of_day d in days_before_year y ≤ d < days_before_year (y + 1).
Proof.
  assert (∀ y, y * 146097 - 400 ≤ 400 * days_before_year y ≤ y * 146097 + 400 * 3) as Hb.
  { intros y. unfold days_before_year. Z.div_mod_to_equations. lia. }
  unfold year_of_day. set (y := d * 400 / 146097).
  assert (y * 146097 ≤ 400 * d < (y + 1) * 146097) as Hy by (unfold y; Z.div_mod_to_equations; lia).
  pose proof (Hb (y - 1)). pose proof (Hb y). pose proof (Hb (y + 1)). pose proof (Hb (y + 1 + 1)).
  destruct (Z.ltb_spec d (days_before_year y)); [rewrite Z.sub_add; lia|].
  destruct (Z.leb_spec (days_before_year (y + 1)) d); lia.
Qed.

Lemma month_day_spec lens m d : Forall (λ x, 0 < x) lens → 0 ≤ d < foldr Z.add 0 lens →
  let '(m', d') := month_day lens m d in
  m ≤ m' < m + Z.of_nat (length lens) ∧ 1 ≤ d' ≤ default 0 (lens !! Z.to_nat (m' - m)) ∧
  foldr Z.add 0 (take (Z.to_nat (m' - m)) lens) + (d' - 1) = d.
Proof.
  intros Hl. revert m d. induction Hl as [|len lens Hlen _ IH]; intros m d Hd; simpl in *; [lia|].
  destruct (Z.ltb_spec d len).
  - rewrite Z.sub_diag. simpl. lia.
  - specialize (IH (m + 1) (d - len) ltac:(lia)). destruct (month_day _ _ _) as [m' d'].
    replace (Z.to_nat (m' - m)) with (S (Z.to_nat (m' - (m + 1)))) by lia. simpl. lia.
Qed.

Lemma year_length leap : foldr Z.add 0 (month_lengths leap) = if leap then 366 else 365.
Proof. by destruct leap. Qed.
(** The date of a day is a valid one, and that day's. *)
Lemma date_of_day_spec day : let '(y, m, d) := date_of_day day in
  y = year_of_day day ∧ 1 ≤ m ≤ 12 ∧ 1 ≤ d ≤ daysIn m y ∧ day_of_date y m d = day.
Proof.
  unfold date_of_day, day_of_date. pose proof (year_of_day_spec day) as Hy. simpl in Hy.
  set (y := year_of_day day) in *. rewrite days_before_next in Hy.
  pose proof (month_day_spec (month_lengths (is_leap y)) 1 (day - days_before_year y)) as Hm.
  rewrite year_length in Hm. destruct (month_day _ _ _) as [m d].
  destruct Hm as (Hm & Hd & Hs); [by destruct (is_leap y); repeat constructor|destruct (is_leap y); lia|].
  change (length _) with 12%nat in Hm. split_and!; try done; try lia; [by apply Hd|].
  unfold days_before_month. lia.
Qed.

(** ** Decimal digits *)
Definition digit (z : Z) : ascii := byte (Z.to_N (48 + z)).
Definition isDigit (a : ascii) : bool := (48 <=? code a)%N && (code a <=? 57)%N.
Definition digit_value (a : ascii) : Z := Z.of_N (code a) - 48.
(** The last [w] digits of [z]. *)
Fixpoint digits (w : nat) (z : Z) : list ascii :=
  match w with O => [] | S w => digits w (z / 10) ++ [digit (z mod 10)] end.
Fixpoint ndigits (fuel : nat) (z : Z) : nat :=
  match fuel with O => O | S fuel => if z <? 10 then 1 else S (ndigits fuel (z / 10)) end.
(** [appendInt]: at least [width] digits; an int has at most 19. *)
Definition appendInt (x : Z) (width : nat) : list ascii :=
  (if x <? 0 then ["-"%char] else []) ++ digits (width `max` ndigits 20 (Z.abs x)) (Z.abs x).
Definition value (l : list ascii) : Z := foldl (λ x a, x * 10 + digit_value a) 0 l.

Lemma digit_spec z : 0 ≤ z < 10 → isDigit (digit z) = true ∧ digit_value (digit z) = z.
Proof.
  intros Hz. unfold isDigit, digit_value, digit. rewrite code_byte by lia.
  split; [|lia]. apply andb_true_iff. rewrite !N.leb_le. lia.
Qed.
Lemma length_digits w z : length (digits w z) = w.
Proof. revert z. induction w as [|w IH]; intros z; simpl; [done|]. rewrite length_app, IH. simpl. lia. Qed.
Lemma digits_isDigit w z : 0 ≤ z → Forall (λ a, isDigit a = true) (digits w z).
Proof.
  revert z. induction w as [|w IH]; intros z Hz; cbn [digits]; [constructor|]. apply Forall_app. split.
  - apply IH. Z.div_mod_to_equations. lia.
  - repeat constructor. apply digit_spec. by apply Z.mod_pos_bound.
Qed.
Lemma value_snoc l a : value (l ++ [a]) = value l * 10 + digit_value a.
Proof. unfold value. by rewrite foldl_app. Qed.
Lemma value_digits w z : 0 ≤ z < 10 ^ Z.of_nat w → value (digits w z) = z.
Proof.
  revert z. induction w as [|w IH]; intros z Hz; cbn [digits]; [simpl in Hz; unfold value; simpl; lia|].
  rewrite Nat2Z.inj_succ, Z.pow_succ_r in Hz by lia.
  rewrite value_snoc, IH by (Z.div_mod_to_equations; lia).
  destruct (digit_spec (z mod 10)) as [_ ->]; [by apply Z.mod_pos_bound|]. Z.div_mod_to_equations. lia.
Qed.
Lemma ndigits_le fuel w z : z < 10 ^ Z.of_nat (S w) → (ndigits fuel z ≤ S w)%nat.
Proof.
  revert w z. induction fuel as [|fuel IH]; intros w z Hz; simpl; [lia|].
  destruct (Z.ltb_spec z 10); [lia|]. destruct w as [|w]; [simpl in Hz; lia|].
  apply le_n_S, IH. rewrite Nat2Z.inj_succ, Z.pow_succ_r in Hz by lia. Z.div_mod_to_equations. lia.
Qed.
Lemma appendInt_digits x w : 0 ≤ x < 10 ^ Z.of_nat (S w) → appendInt x (S w) = digits (S w) x.
Proof.
  intros Hx. unfold appendInt. destruct (Z.ltb_spec x 0); [lia|]. rewrite Z.abs_eq by lia.
  rewrite Nat.max_l by (apply ndigits_le; lia). done.
Qed.

(** ** Formatting *)
Definition is_zero (a : ascii) : bool := bool_decide (a = "0"%char).
Fixpoint drop_while (p : ascii → bool) (l : list ascii) : list ascii :=
  match l with a :: l' => if p a then drop_while p l' else l | [] => [] end.
Definition trim_zeros (l : list ascii) : list ascii := reverse (drop_while is_zero (reverse l)).
(** [appendNano] for [.999999999]: the fraction without its trailing zeros. *)
Definition appendNano (nsec : Z) : list ascii :=
  match trim_zeros (digits 9 nsec) with [] => [] | ds => "."%char :: ds end.

Definition format_bytes (t : Z) : list ascii :=
  let secs := t / Second in
  let '(y, m, d) := date_of_day (secs / 86400 + epoch_day) in
  let sod := secs mod 86400 in
  appendInt y 4 ++ "-"%char :: appendInt m 2 ++ "-"%char :: appendInt d 2 ++
  "T"%char :: appendInt (sod / 3600) 2 ++ ":"%char :: appendInt (sod mod 3600 / 60) 2 ++
  ":"%char :: appendInt (sod mod 60) 2 ++ appendNano (t mod Second) ++ ["Z"%char].
Definition FormatRFC3339Nano (t : Time) : string := of_bytes (format_bytes t).

(** ** Parsing *)
Definition parseUint (l : list ascii) (min max : Z) : option Z :=
  if forallb isDigit l && (min <=? value l) && (value l <=? max) then Some (value l) else None.
Fixpoint span_digits (l : list ascii) : list ascii * list ascii :=
  match l with
  | a :: l' => if isDigit a then let '(ds, rest) := span_digits l' in (a :: ds, rest) else ([], l)
  | [] => ([], [])
  end.
(** [parseNanoseconds]: nine digits count. *)
Definition parseNanoseconds (ds : list ascii) : Z :=
  let ds := take 9 ds in value ds * 10 ^ (9 - Z.of_nat (length ds)).
Definition parse_fraction (l : list ascii) : Z * list ascii :=
  match l with
  | "."%char :: rest =>
      match span_digits rest with ([], _) => (0, l) | (ds, rest) => (parseNanoseconds ds, rest) end
  | _ => (0, l)
  end.
(** Seconds east of UTC. *)
Definition parse_zone (l : list ascii) : option Z :=
  match l with
  | ["Z"%char] => Some 0
  | [sign; h1; h2; ":"%char; m1; m2] =>
      match parseUint [h1; h2] 0 23, parseUint [m1; m2] 0 59 with
      | Some hr, Some mm =>
          if bool_decide (sign = "-"%char) then Some (- ((hr * 60 + mm) * 60))
          else if bool_decide (sign = "+"%char) then Some ((hr * 60 + mm) * 60) else None
      | _, _ => None
      end
  | _ => None
  end.
Definition unix_nanos (y m d hour min sec nsec : Z) : Z :=
  (((day_of_date y m d - epoch_day) * 86400) + hour * 3600 + min * 60 + sec) * Second + nsec.
Definition parseRFC3339 (l : list ascii) : option Time :=
  match l with
  | y1 :: y2 :: y3 :: y4 :: "-"%char :: m1 :: m2 :: "-"%char :: d1 :: d2 :: "T"%char
      :: h1 :: h2 :: ":"%char :: i1 :: i2 :: ":"%char :: s1 :: s2 :: rest =>
      y ← parseUint [y1; y2; y3; y4] 0 9999;
      m ← parseUint [m1; m2] 1 12;
      d ← parseUint [d1; d2] 1 (daysIn m y);
      hour ← parseUint [h1; h2] 0 23;
      min ← parseUint [i1; i2] 0 59;
      sec ← parseUint [s1; s2] 0 59;
      let '(nsec, rest) := parse_fraction rest in
      offset ← parse_zone rest;
      Some (unix_nanos y m d hour min sec nsec - offset * Second)
  | _ => None
  end.

Example format_example : FormatRFC3339Nano (1735787045 * Second + 120300000) = "2025-01-02T03:04:05.1203Z".
Proof. vm_compute. reflexivity. Qed.
Example parse_offset : parseRFC3339 (bytes "2025-01-02T05:04:05.1203+02:00") = Some (1735787045 * Second + 120300000).
Proof. vm_compute. reflexivity. Qed.
Example parse_leap : parseRFC3339 (bytes "2023-02-29T00:00:00Z") = None.
Proof. vm_compute. reflexivity. Qed.

(** ** Round trip *)
Definition representable (t : Time) : Prop := 0 ≤ year_of_day (t / Second / 86400 + epoch_day) ≤ 9999.

Lemma parseUint_digits w x min max : 0 ≤ x < 10 ^ Z.of_nat w → min ≤ x ≤ max →
  parseUint (digits w x) min max = Some x.
Proof.
  intros Hx Hm. unfold parseUint. rewrite value_digits by done.
  assert (forallb isDigit (digits w x) = true) as ->.
  { apply forallb_forall. intros a Ha. pose proof (digits_isDigit w x ltac:(lia)) as Hd.
    rewrite Forall_forall in Hd. by apply Hd, list_elem_of_In. }
  destruct (Z.leb_spec min x), (Z.leb_spec x max); try lia. done.
Qed.

Lemma drop_zeros l : ∃ k, l = replicate k "0"%char ++ drop_while is_zero l.
Proof.
  induction l as [|a l [k IH]]; [by exists 0%nat|]. simpl. unfold is_zero at 1. case_bool_decide as Ha.
  - exists (S k). simpl. by rewrite Ha, <-IH.
  - by exists 0%nat.
Qed.
Lemma trim_zeros_spec l : ∃ k, l = trim_zeros l ++ replicate k "0"%char.
Proof.
  destruct (drop_zeros (reverse l)) as [k Hk]. exists k. unfold trim_zeros.
  rewrite <-(reverse_involutive l) at 1. rewrite Hk at 1. rewrite reverse_app. by rewrite reverse_replicate.
Qed.
Lemma value_zeros l k : value (l ++ replicate k "0"%char) = value l * 10 ^ Z.of_nat k.
Proof.
  induction k as [|k IH]; [by rewrite app_nil_r, Z.mul_1_r|].
  rewrite replicate_S_end, app_assoc, value_snoc, IH, Nat2Z.inj_succ, Z.pow_succ_r by lia.
  change (digit_value "0"%char) with 0. lia.
Qed.
Lemma span_digits_app ds a rest : Forall (λ a, isDigit a = true) ds → isDigit a = false →
  span_digits (ds ++ a :: rest) = (ds, a :: rest).
Proof. intros Hds Ha. induction Hds as [|b ds Hb _ IH]; simpl; [by rewrite Ha|]. by rewrite Hb, IH. Qed.

Lemma parse_appendNano nsec : 0 ≤ nsec < Second →
  parse_fraction (appendNano nsec ++ ["Z"%char]) = (nsec, ["Z"%char]).
Proof.
  intros Hn. unfold appendNano. destruct (trim_zeros_spec (digits 9 nsec)) as [k Hk].
  pose proof (value_digits 9 nsec Hn) as Hv. pose proof (length_digits 9 nsec) as Hlen.
  pose proof (digits_isDigit 9 nsec ltac:(lia)) as Hd. rewrite Hk in Hv, Hlen, Hd.
  rewrite length_app, length_replicate in Hlen. apply Forall_app in Hd as [Hd _].
  rewrite value_zeros in Hv. destruct (trim_zeros (digits 9 nsec)) as [|a ds] eqn:E.
  - change (value []) with 0 in Hv. rewrite <-Hv. done.
  - cbn [app parse_fraction]. change (a :: (ds ++ ["Z"%char])) with ((a :: ds) ++ ["Z"%char]).
    rewrite span_digits_app by done. unfold parseNanoseconds. rewrite take_ge by lia.
    replace (9 - Z.of_nat (length (a :: ds))) with (Z.of_nat k) by lia. by rewrite Hv.
Qed.

Lemma length_2 {A} (l : list A) : length l = 2%nat → ∃ a b, l = [a; b].
Proof. destruct l as [|a [|b [|]]]; try done. by exists a, b. Qed.
Lemma length_4 {A} (l : list A) : length l = 4%nat → ∃ a b c d, l = [a; b; c; d].
Proof. destruct l as [|a [|b [|c [|d [|]]]]]; try done. by exists a, b, c, d. Qed.

(** A date and time of day, field by field. *)
Lemma parse_fields y m d hour min sec nsec :
  0 ≤ y ≤ 9999 → 1 ≤ m ≤ 12 → 1 ≤ d ≤ daysIn m y → d < 100 → 0 ≤ hour ≤ 23 → 0 ≤ min ≤ 59 → 0 ≤ sec ≤ 59 →
  0 ≤ nsec < Second →
  parseRFC3339 (digits 4 y ++ "-"%char :: digits 2 m ++ "-"%char :: digits 2 d ++ "T"%char ::
    digits 2 hour ++ ":"%char :: digits 2 min ++ ":"%char :: digits 2 sec ++ appendNano nsec ++ ["Z"%char])
  = Some (unix_nanos y m d hour min sec nsec).
Proof.
  intros Hy Hm Hd Hd' Hh Hi Hs Hn.
  pose proof (parseUint_digits 4 y 0 9999 ltac:(lia) Hy) as Py.
  pose proof (parseUint_digits 2 m 1 12 ltac:(lia) Hm) as Pm.
  pose proof (parseUint_digits 2 d 1 (daysIn m y) ltac:(lia) Hd) as Pd.
  pose proof (parseUint_digits 2 hour 0 23 ltac:(lia) Hh) as Ph.
  pose proof (parseUint_digits 2 min 0 59 ltac:(lia) Hi) as Pi.
  pose proof (parseUint_digits 2 sec 0 59 ltac:(lia) Hs) as Ps.
  destruct (length_4 _ (length_digits 4 y)) as (y1 & y2 & y3 & y4 & Ey).
  destruct (length_2 _ (length_digits 2 m)) as (m1 & m2 & Em).
  destruct (length_2 _ (length_digits 2 d)) as (d1 & d2 & Ed).
  destruct (length_2 _ (length_digits 2 hour)) as (h1 & h2 & Eh).
  destruct (length_2 _ (length_digits 2 min)) as (i1 & i2 & Ei).
  destruct (length_2 _ (length_digits 2 sec)) as (s1 & s2 & Es).
  rewrite Ey in *. rewrite Em in *. rewrite Ed in *. rewrite Eh in *. rewrite Ei in *. rewrite Es in *.
  cbn [app parseRFC3339]. rewrite Py. cbn [mbind option_bind]. rewrite Pm. cbn [mbind option_bind].
  rewrite Pd. cbn [mbind option_bind]. rewrite Ph. cbn [mbind option_bind]. rewrite Pi.
  cbn [mbind option_bind]. rewrite Ps. cbn [mbind option_bind].
  rewrite parse_appendNano by done. cbn [parse_zone mbind option_bind]. f_equal. lia.
Qed.

Lemma daysIn_le m y : daysIn m y ≤ 31.
Proof.
  unfold daysIn. destruct (is_leap y);
    (destruct (Z.to_nat (m - 1)) as [|[|[|[|[|[|[|[|[|[|[|[|]]]]]]]]]]]]; simpl; lia).
Qed.

Lemma format_bytes_parse t : representable t → parseRFC3339 (format_bytes t) = Some t.
Proof.
  unfold representable, format_bytes. intros Hy.
  pose proof (date_of_day_spec (t / Second / 86400 + epoch_day)) as Hd.
  destruct (date_of_day _) as [[y m] d]. destruct Hd as (-> & Hm & Hd & Hday).
  set (secs := t / Second) in *. pose proof (daysIn_le m (year_of_day (secs / 86400 + epoch_day))).
  assert (0 ≤ secs mod 86400 < 86400) as Hs by (by apply Z.mod_pos_bound).
  assert (0 ≤ t mod Second < Second) as Hn by (by apply Z.mod_pos_bound).
  rewrite !appendInt_digits by (simpl; Z.div_mod_to_equations; lia).
  rewrite parse_fields; try done; try lia; try (Z.div_mod_to_equations; lia).
  f_equal. unfold unix_nanos. rewrite Hday. unfold secs in *.
  change Second with 1000000000 in *. Z.div_mod_to_equations. lia.
Qed.

Lemma FormatRFC3339Nano_parse t : representable t →
  parseRFC3339 (bytes (FormatRFC3339Nano t)) = Some t.
Proof. intros Ht. unfold FormatRFC3339Nano. rewrite bytes_of_bytes. by apply format_bytes_parse. Qed.

(** ** The alphabet of a formatted time *)
Definition time_byte (a : ascii) : bool :=
  isDigit a || bool_decide (a ∈ ["-"; "T"; ":"; "."; "Z"]%char).
Lemma appendInt_bytes x w : Forall (λ a, time_byte a = true) (appendInt x w).
Proof.
  unfold appendInt. apply Forall_app. split; [destruct (x <? 0); repeat constructor|].
  eapply Forall_impl; [apply digits_isDigit; lia|]. intros a Ha. unfold time_byte. by rewrite Ha.
Qed.
Lemma appendNano_bytes n : 0 ≤ n → Forall (λ a, time_byte a = true) (appendNano n).
Proof.
  intros Hn. unfold appendNano. destruct (trim_zeros_spec (digits 9 n)) as [k Hk].
  pose proof (digits_isDigit 9 n Hn) as Hd. rewrite Hk in Hd. apply Forall_app in Hd as [Hd _].
  destruct (trim_zeros _); constructor; [done|]. eapply Forall_impl; [exact Hd|].
  intros b Hb. unfold time_byte. by rewrite Hb.
Qed.
Lemma format_bytes_alphabet t : Forall (λ a, time_byte a = true) (format_bytes t).
Proof.
  unfold format_bytes. destruct (date_of_day _) as [[y m] d].
  repeat first [apply appendInt_bytes | apply Forall_app; split | apply Forall_cons; split | constructor].
  all: try done. apply appendNano_bytes. by apply Z.mod_pos_bound.
Qed.
