(* ===== verification/Regex.v ===== *)
(** The fragment of Go's [regexp] the domain uses: anchored patterns made of
    byte classes, concatenation, [+] and bounded repetition.  [matchb] decides
    a match by Brzozowski derivatives; [matchb_spec] shows it agrees with the
    inductive meaning of a pattern.  Go matches runes: a class that excludes
    only ASCII bytes takes every byte of a multi-byte rune (and Go's
    replacement rune for an invalid byte), so under [+] the byte-level
    patterns below accept the same texts. *)

From S2P Require Import Prelude GoStrings.

Inductive regex :=
| RNone
| REps
| RClass (p : ascii → bool)
| RCat (r s : regex)
| RAlt (r s : regex)
| RStar (r : regex).

(** What a pattern matches. *)
Inductive matches : regex → list ascii → Prop :=
| M_eps : matches REps []
| M_class p a : p a = true → matches (RClass p) [a]
| M_cat r s u v : matches r u → matches s v → matches (RCat r s) (u ++ v)
| M_alt_l r s u : matches r u → matches (RAlt r s) u
| M_alt_r r s u : matches s u → matches (RAlt r s) u
| M_star_nil r : matches (RStar r) []
| M_star_app r u v : matches r u → matches (RStar r) v → matches (RStar r) (u ++ v).

Fixpoint nullable (r : regex) : bool :=
  match r with
  | RNone | RClass _ => false
  | REps | RStar _ => true
  | RCat r s => nullable r && nullable s
  | RAlt r s => nullable r || nullable s
  end.

Fixpoint deriv (a : ascii) (r : regex) : regex :=
  match r with
  | RNone | REps => RNone
  | RClass p => if p a then REps else RNone
  | RCat r s =>
      if nullable r then RAlt (RCat (deriv a r) s) (deriv a s) else RCat (deriv a r) s
  | RAlt r s => RAlt (deriv a r) (deriv a s)
  | RStar r => RCat (deriv a r) (RStar r)
  end.

Fixpoint matchb (r : regex) (l : list ascii) : bool :=
  match l with
  | [] => nullable r
  | a :: l => matchb (deriv a r) l
  end.

(** [r+], [r{n}] and [r{m,n}] *)
Definition RPlus (r : regex) : regex := RCat r (RStar r).
Fixpoint RRepeat (n : nat) (r : regex) : regex :=
  match n with O => REps | S n => RCat r (RRepeat n r) end.
Fixpoint RUpTo (n : nat) (r : regex) : regex :=
  match n with O => REps | S n => RAlt REps (RCat r (RUpTo n r)) end.
Definition RBetween (m n : nat) (r : regex) : regex := RCat (RRepeat m r) (RUpTo (n - m) r).

#[export] Hint Constructors matches : go.

Lemma nullable_spec r : nullable r = true ↔ matches r [].
Proof.
  split.
  - induction r as [| |p|r IHr s IHs|r IHr s IHs|r IHr]; simpl; try done; eauto with go.
    + intros [Hr Hs]%andb_true_iff. apply (M_cat r s [] []); auto.
    + intros [Hr|Hs]%orb_true_iff; eauto with go.
  - intros H. remember [] as l eqn:E. induction H; simplify_eq/=; try done.
    + apply app_eq_nil in E as [-> ->]. by rewrite IHmatches1, IHmatches2.
    + by rewrite IHmatches.
    + rewrite IHmatches by done. apply orb_true_r.
Qed.

Lemma deriv_sound a r l : matches (deriv a r) l → matches r (a :: l).
Proof.
  revert l. induction r as [| |p|r IHr s IHs|r IHr s IHs|r IHr]; simpl; intros l.
  - by inversion 1.
  - by inversion 1.
  - destruct (p a) eqn:E; inversion 1; subst. by constructor.
  - assert (matches (RCat (deriv a r) s) l → matches (RCat r s) (a :: l)) as Hcat.
    { inversion 1 as [| |? ? u v Hu Hv| | | |]; subst.
      apply (M_cat r s (a :: u) v); auto. }
    destruct (nullable r) eqn:E; [|done].
    inversion 1; subst; [by apply Hcat|].
    apply (M_cat r s [] (a :: l)); [by apply nullable_spec|auto].
  - inversion 1; subst; eauto with go.
  - inversion 1 as [| |? ? u v Hu Hv| | | |]; subst.
    apply (M_star_app r (a :: u) v); auto.
Qed.

Lemma deriv_complete a r l : matches r (a :: l) → matches (deriv a r) l.
Proof.
  intros H. remember (a :: l) as k eqn:E. revert l E.
  induction H as [|p b Hb|r s u v Hu IHu Hv IHv|r s u Hu IHu|r s u Hu IHu|r|r u v Hu IHu Hv IHv];
    intros l E; simplify_eq/=; auto with go.
  - rewrite Hb. constructor.
  - destruct u as [|b u]; simplify_eq/=.
    + rewrite (proj2 (nullable_spec r) Hu). auto with go.
    + assert (matches (RCat (deriv a r) s) (u ++ v)) by auto with go.
      destruct (nullable r); auto with go.
  - destruct u as [|b u]; simplify_eq/=; auto with go.
Qed.

Lemma matchb_spec r l : matchb r l = true ↔ matches r l.
Proof.
  revert r. induction l as [|a l IH]; intros r; simpl; [apply nullable_spec|].
  rewrite IH. split; [apply deriv_sound|apply deriv_complete].
Qed.

(** ** Shapes of the repetition operators *)
Lemma matches_cat_inv r s l :
  matches (RCat r s) l → ∃ u v, l = u ++ v ∧ matches r u ∧ matches s v.
Proof. inversion 1; subst; eauto. Qed.

Lemma matches_class_inv p l : matches (RClass p) l → ∃ a, l = [a] ∧ p a = true.
Proof. inversion 1; subst; eauto. Qed.

Lemma matches_star_class p l : matches (RStar (RClass p)) l ↔ Forall (λ a, p a = true) l.
Proof.
  split.
  - intros H. remember (RStar (RClass p)) as r eqn:E.
    induction H; simplify_eq; [done|].
    apply Forall_app. split; [|auto].
    apply matches_class_inv in H as (a & -> & Ha). by constructor.
  - induction 1 as [|a l Ha Hl IH]; [constructor|].
    apply (M_star_app _ [a]); eauto with go.
Qed.

Lemma matches_plus_class p l :
  matches (RPlus (RClass p)) l ↔ l ≠ [] ∧ Forall (λ a, p a = true) l.
Proof.
  split.
  - intros (u & v & -> & (a & -> & Ha)%matches_class_inv & Hv)%matches_cat_inv.
    rewrite matches_star_class in Hv. split; [done|]. by constructor.
  - intros [Hl H]. destruct l as [|a l]; [done|]. apply Forall_cons in H as [Ha H].
    apply (M_cat _ _ [a] l); [by constructor|]. by apply matches_star_class.
Qed.

Lemma matches_repeat_class n p l :
  matches (RRepeat n (RClass p)) l ↔ length l = n ∧ Forall (λ a, p a = true) l.
Proof.
  revert l. induction n as [|n IH]; intros l; simpl; split.
  - by inversion 1.
  - intros [->%nil_length_inv _]. constructor.
  - intros (u & v & -> & (a & -> & Ha)%matches_class_inv & [Hv1 Hv2]%IH)%matches_cat_inv.
    split; [simpl; lia|by constructor].
  - intros [Hl H]. destruct l as [|a l]; [done|]. apply Forall_cons in H as [Ha H].
    apply (M_cat _ _ [a] l); [by constructor|]. apply IH. split; [|done]. simpl in Hl. lia.
Qed.

Lemma matches_upto_class n p l :
  matches (RUpTo n (RClass p)) l ↔ (length l ≤ n)%nat ∧ Forall (λ a, p a = true) l.
Proof.
  revert l. induction n as [|n IH]; intros l; simpl; split.
  - inversion 1; subst; simpl; auto.
  - intros [Hl _]. destruct l; [constructor|simpl in Hl; lia].
  - inversion 1 as [| | |? ? ? He|? ? ? Hc| |]; subst.
    + inversion He; subst. simpl. split; [lia|done].
    + apply matches_cat_inv in Hc as (u & v & -> & (a & -> & Ha)%matches_class_inv & [Hv1 Hv2]%IH).
      split; [simpl; lia|by constructor].
  - intros [Hl H]. destruct l as [|a l]; [apply M_alt_l; constructor|].
    apply Forall_cons in H as [Ha H]. apply M_alt_r.
    apply (M_cat _ _ [a] l); [by constructor|]. apply IH. split; [|done]. simpl in Hl. lia.
Qed.

Lemma matches_between_class m n p l : (m ≤ n)%nat →
  matches (RBetween m n (RClass p)) l ↔ (m ≤ length l ≤ n)%nat ∧ Forall (λ a, p a = true) l.
Proof.
  intros Hmn. unfold RBetween. split.
  - intros (u & v & -> & [Hu1 Hu2]%matches_repeat_class & [Hv1 Hv2]%matches_upto_class)%matches_cat_inv.
    rewrite length_app. split; [lia|]. by apply Forall_app.
  - intros [Hl H]. rewrite <-(take_drop m l) in H |- *. apply Forall_app in H as [H1 H2].
    constructor.
    + apply matches_repeat_class. split; [|done]. rewrite length_take. lia.
    + apply matches_upto_class. split; [|done]. rewrite length_drop. lia.
Qed.

(** ** Byte classes *)
Definition is_digit (a : ascii) : bool := ((48 <=? code a) && (code a <=? 57))%N.
Definition is_nonzero_digit (a : ascii) : bool := ((49 <=? code a) && (code a <=? 57))%N.
(** [\s] is [[\t\n\f\r ]]. *)
Definition is_re_space (a : ascii) : bool :=
  let n := code a in ((n =? 9) || (n =? 10) || (n =? 12) || (n =? 13) || (n =? 32))%N.
Definition RByte (c : ascii) : regex := RClass (λ a, bool_decide (a = c)).

Lemma matches_byte c l : matches (RByte c) l ↔ l = [c].
Proof.
  split.
  - intros (a & -> & Ha%bool_decide_eq_true)%matches_class_inv. by subst.
  - intros ->. constructor. by apply bool_decide_eq_true.
Qed.
