(* ===== verification/Errors.v ===== *)
(** Error values (internal/domain/errors.go, internal/ports/ports.go,
    internal/application/errors.go): the sentinels, the typed errors, wrapping
    with [%w], and the traversals [errors.Is] and [errors.As].

    [Wrapped ctx e] is [fmt.Errorf("ctx...: %w", e)]; [ctx] keeps the constant
    text of the format and drops its operands, since no code of the service
    reads an error's text back. *)

From S2P Require Import Prelude.

Inductive sentinel :=
(* internal/domain/errors.go *)
| ErrInvalidChannel | ErrInvalidPriority | ErrInvalidStatus | ErrInvalidLogEvent
| ErrInvalidNotificationID | ErrInvalidCorrelationID | ErrInvalidBatchID
| ErrInvalidTemplateID | ErrInvalidLogID
| ErrInvalidRecipient | ErrInvalidContent
| ErrInvalidTransition
| ErrInvalidBatchSize | ErrBatchInconsistentCorrelation
| ErrInvalidTemplateName | ErrInvalidTemplateBody | ErrTemplateRenderFailed
(* internal/ports/ports.go *)
| ErrNotFound | ErrAlreadyClaimed | ErrConcurrentUpdate
(* internal/application *)
| ErrProviderTransient | ErrOutboundRateLimited | ErrScheduledInPast
(* internal/adapters/http *)
| ErrNotImplemented | ErrIdempotencyBodyTooLarge
(* exported by the libraries the adapters call *)
| LibErrNoRows | LibErrTaskNotFound | LibErrQueueNotFound | LibErrTaskIDConflict
| LibErrRedisNil | LibErrOpenState | LibErrTooManyRequests
| LibErrUnexpectedEOF | LibErrCanceled | LibErrNoChange | LibErrNilVersion.

#[export] Instance sentinel_eq_dec : EqDecision sentinel.
Proof. solve_decision. Defined.

(** The sentinels internal/domain/errors.go declares. *)
Definition domain_sentinels : list sentinel :=
  [ErrInvalidChannel; ErrInvalidPriority; ErrInvalidStatus; ErrInvalidLogEvent;
   ErrInvalidNotificationID; ErrInvalidCorrelationID; ErrInvalidBatchID;
   ErrInvalidTemplateID; ErrInvalidLogID; ErrInvalidRecipient; ErrInvalidContent;
   ErrInvalidTransition; ErrInvalidBatchSize; ErrBatchInconsistentCorrelation;
   ErrInvalidTemplateName; ErrInvalidTemplateBody; ErrTemplateRenderFailed].
(** The sentinels internal/ports/ports.go declares. *)
Definition port_sentinels : list sentinel :=
  [ErrNotFound; ErrAlreadyClaimed; ErrConcurrentUpdate].

#[warnings="-register-all"]
Inductive error :=
| Sentinel (s : sentinel)
| Wrapped (ctx : string) (e : error)
| ValidationError (Field Reason : string) (Err : option error)
| TransitionError (From To : string)
| JSONSyntaxError
| JSONUnmarshalTypeError
| Opaque (msg : string)
(** not an error value: a panic on its way up the stack *)
| Panicked (v : string).

Definition panicking (e : error) : bool := match e with Panicked _ => true | _ => false end.

(** The programs of the service: a result or an [error], over a state. *)
Abbreviation res := (result error).
Abbreviation M := (prog error).

Definition wrap_err {W A} (ctx : string) (c : M W A) : M W A := map_err (Wrapped ctx) c.
Definition fail {W A} (s : sentinel) : M W A := throw (Sentinel s).

(** [errors.Is(err, s)]: along the [Unwrap] chain, with [TransitionError.Is]. *)
Fixpoint errors_Is (e : error) (s : sentinel) : bool :=
  match e with
  | Sentinel s' => bool_decide (s' = s)
  | Wrapped _ e => errors_Is e s
  | ValidationError _ _ (Some e) => errors_Is e s
  | ValidationError _ _ None => false
  | TransitionError _ _ => bool_decide (s = ErrInvalidTransition)
  | JSONSyntaxError | JSONUnmarshalTypeError | Opaque _ | Panicked _ => false
  end.

(** [errors.As] for the two typed errors of the domain. *)
Fixpoint errors_As_Validation (e : error) : option (string * string) :=
  match e with
  | ValidationError f r _ => Some (f, r)
  | Wrapped _ e => errors_As_Validation e
  | _ => None
  end.
Fixpoint errors_As_Transition (e : error) : option (string * string) :=
  match e with
  | TransitionError f t => Some (f, t)
  | Wrapped _ e => errors_As_Transition e
  | ValidationError _ _ (Some e) => errors_As_Transition e
  | _ => None
  end.

(** The [Error] methods of the two typed errors. *)
Definition ValidationError_Error (Field Reason : string) : string :=
  if bool_decide (Field = "") && bool_decide (Reason = "") then "validation error"
  else if bool_decide (Field = "") then "validation error: " +:+ Reason
  else if bool_decide (Reason = "") then "validation error: field=" +:+ Field
  else "validation error: field=" +:+ Field +:+ ": " +:+ Reason.
Definition TransitionError_Error (From To : string) : string :=
  "invalid status transition: " +:+ From +:+ " → " +:+ To.

Lemma errors_Is_Wrapped ctx e s : errors_Is (Wrapped ctx e) s = errors_Is e s.
Proof. done. Qed.
Lemma errors_Is_Sentinel s : errors_Is (Sentinel s) s = true.
Proof. simpl. by apply bool_decide_eq_true. Qed.
Lemma errors_Is_Sentinel_ne s t : s ≠ t → errors_Is (Sentinel s) t = false.
Proof. intros. simpl. by apply bool_decide_eq_false. Qed.
#[export] Hint Rewrite errors_Is_Wrapped errors_Is_Sentinel : go.

(** No error matches two of the sentinels: their chains do not overlap. *)
Lemma errors_Is_functional e s t :
  errors_Is e s = true → errors_Is e t = true → s = t.
Proof.
  revert e s t.
  fix IH 1. intros [s'|ctx e'|f r [e'|]|f t'| | |m|m] s t; simpl; try done.
  - rewrite !bool_decide_eq_true. congruence.
  - apply IH.
  - apply IH.
  - rewrite !bool_decide_eq_true. congruence.
Qed.

(** Specification rules of the two helpers. *)
Section rules.
Context {W A : Type}.
Lemma wp_wrap_err ctx (c : M W A) Φ w :
  wp c (λ r w', match r with Ok a => Φ (Ok a) w' | Err e => Φ (Err (Wrapped ctx e)) w' end) w →
  wp (wrap_err ctx c) Φ w.
Proof. apply wp_map_err. Qed.
Lemma wp_fail s (Φ : res A → W → Prop) w : Φ (Err (Sentinel s)) w → wp (fail s) Φ w.
Proof. apply wp_throw. Qed.
End rules.

Ltac go_step :=
  lazymatch goal with
  | |- wp (wrap_err _ _) _ _ => apply wp_wrap_err
  | |- wp (fail _) _ _ => apply wp_fail
  | |- wp (if _ then _ else _) _ _ => case_match
  | |- wp (match _ with _ => _ end) _ _ => case_match
  | _ => wp_step
  end.
Ltac go_steps := repeat (go_step; cbn beta iota).
