(* ===== verification/Strconv.v ===== *)
(** Decimal integers as Go's strconv prints and reads them ([FormatInt] and
    [Itoa] in base ten, [Atoi]). *)

From S2P Require Import Prelude GoStrings RFC3339.

Definition FormatInt (z : Z) : string := of_bytes (appendInt z 0).

(** [None] for a syntax error or a value outside the 64-bit range. *)
Definition atoi_digits (neg : bool) (l : list ascii) : option Z :=
  if bool_decide (l = []) || negb (forallb isDigit l) then None
  else let v := if neg then - value l else value l in
       if (- 2 ^ 63 <=? v) && (v <? 2 ^ 63) then Some v else None.
Definition Atoi (s : string) : option Z :=
  match bytes s with
  | [] => None
  | a :: l =>
      if bool_decide (a = "-"%char) then atoi_digits true l
      else if bool_decide (a = "+"%char) then atoi_digits false l
      else atoi_digits false (a :: l)
  end.

Example Atoi_min : Atoi "-9223372036854775808" = Some (- 2 ^ 63).
Proof. vm_compute. reflexivity. Qed.
Example Atoi_range : Atoi "9223372036854775808" = None.
Proof. vm_compute. reflexivity. Qed.
Example FormatInt_0 : FormatInt 0 = "0".
Proof. vm_compute. reflexivity. Qed.
Example FormatInt_neg : FormatInt (-1205) = "-1205".
Proof. vm_compute. reflexivity. Qed.

Lemma ndigits_ge fuel z : 0 ≤ z < 10 ^ Z.of_nat fuel → z < 10 ^ Z.of_nat (ndigits fuel z).
Proof.
  revert z. induction fuel as [|fuel IH]; intros z Hz; simpl; [simpl in Hz; lia|].
  destruct (Z.ltb_spec z 10); [simpl; lia|].
  rewrite Nat2Z.inj_succ, Z.pow_succ_r in * by lia.
  specialize (IH (z / 10) ltac:(Z.div_mod_to_equations; lia)). Z.div_mod_to_equations. lia.
Qed.
Lemma ndigits_pos fuel z : (0 < fuel)%nat → (0 < ndigits fuel z)%nat.
Proof. destruct fuel; simpl; [lia|]. case_match; lia. Qed.

Lemma Atoi_FormatInt z : in_int64 z → Atoi (FormatInt z) = Some z.
Proof.
  intros Hz. unfold Atoi, FormatInt, appendInt. rewrite bytes_of_bytes.
  set (n := Z.abs z). assert (0 ≤ n ≤ 2 ^ 63) as Hn by (unfold in_int64, n in *; lia).
  assert (n < 10 ^ Z.of_nat (ndigits 20 n)) as Hd by (apply ndigits_ge; lia).
  rewrite Nat.max_r by apply Nat.le_0_l. pose proof (ndigits_pos 20 n ltac:(lia)) as Hp.
  set (w := ndigits 20 n) in *. clearbody w.
  pose proof (digits_isDigit w n (proj1 Hn)) as Hds.
  pose proof (value_digits w n (conj (proj1 Hn) Hd)) as Hv.
  pose proof (length_digits w n) as Hl. set (ds := digits w n) in *. clearbody ds.
  assert (∀ neg : bool, (if neg then - n else n) = z → atoi_digits neg ds = Some z) as Ha.
  { intros neg Hneg. unfold atoi_digits.
    rewrite bool_decide_false by (intros E; rewrite E in Hl; simpl in Hl; lia).
    assert (forallb isDigit ds = true) as -> by (apply forallb_forall; intros a Hin;
      rewrite Forall_forall in Hds; by apply Hds, list_elem_of_In).
    simpl. rewrite Hv, Hneg. unfold in_int64 in Hz.
    rewrite (proj2 (Z.leb_le _ _)), (proj2 (Z.ltb_lt _ _)) by lia. done. }
  destruct (Z.ltb_spec z 0); simpl.
  - apply Ha. unfold n. lia.
  - destruct ds as [|a l] eqn:E; [simpl in Hl; lia|].
    assert (isDigit a = true) as Hda by (by apply Forall_cons in Hds as [? _]).
    rewrite !bool_decide_false; [apply Ha; unfold n; lia|intros ->; done..].
Qed.
Lemma FormatInt_inj y z : in_int64 y → in_int64 z → FormatInt y = FormatInt z → y = z.
Proof.
  intros Hy Hz E. assert (Some y = Some z) as [= ->]; [|done].
  by rewrite <-!Atoi_FormatInt, E.
Qed.

(** ** The text of an integer: an optional sign and digits without leading
    zeros. *)
Lemma digits_head w z : 1 ≤ z → 10 ^ Z.of_nat w ≤ z < 10 ^ Z.of_nat (S w) →
  ∃ a l, digits (S w) z = a :: l ∧ a ≠ "0"%char.
Proof.
  revert z. induction w as [|w IH]; intros z H1 Hz.
  - exists (digit (z mod 10)), []. split; [done|]. intros E.
    destruct (digit_spec (z mod 10)) as [_ Hv]; [by apply Z.mod_pos_bound|]. rewrite E in Hv.
    assert (digit_value "0" = 0) as H0 by done. rewrite H0 in Hv.
    rewrite Z.mod_small in Hv by (simpl in Hz; lia). lia.
  - rewrite !Nat2Z.inj_succ, Z.pow_succ_r in Hz by lia.
    rewrite (Z.pow_succ_r 10 (Z.succ _)), Z.pow_succ_r in Hz by lia.
    assert (0 < 10 ^ Z.of_nat w) by (apply Z.pow_pos_nonneg; lia).
    destruct (IH (z / 10)) as (a & l & E & Ha).
    + Z.div_mod_to_equations. lia.
    + rewrite Nat2Z.inj_succ, Z.pow_succ_r by lia. Z.div_mod_to_equations. lia.
    + exists a, (l ++ [digit (z mod 10)]). split; [|done].
      change (digits (S (S w)) z) with (digits (S w) (z / 10) ++ [digit (z mod 10)]). by rewrite E.
Qed.
Lemma ndigits_floor fuel z w : 0 ≤ z → ndigits fuel z = S w → w = O ∨ 10 ^ Z.of_nat w ≤ z.
Proof.
  revert z w. induction fuel as [|fuel IH]; intros z w Hz; cbn [ndigits]; [done|].
  destruct (Z.ltb_spec z 10); intros E; [left; congruence|]. injection E as <-.
  destruct (ndigits fuel (z / 10)) as [|w] eqn:Ew; [by left|]. right.
  rewrite Nat2Z.inj_succ, Z.pow_succ_r by lia.
  destruct (IH (z / 10) w ltac:(Z.div_mod_to_equations; lia) Ew) as [->|Hw]; [simpl; lia|].
  Z.div_mod_to_equations. lia.
Qed.
(** A decimal literal: [0], or digits that do not start with [0]. *)
Definition decimal (ds : list ascii) : Prop :=
  ds = ["0"%char] ∨
  Forall (λ a, isDigit a = true) ds ∧ ∃ a l, ds = a :: l ∧ a ≠ "0"%char.
Lemma FormatInt_shape z : in_int64 z →
  ∃ ds, bytes (FormatInt z) = (if z <? 0 then ["-"%char] else []) ++ ds ∧ decimal ds.
Proof.
  intros Hz. unfold FormatInt. rewrite bytes_of_bytes. unfold appendInt. rewrite Nat.max_r by lia.
  eexists. split; [done|]. set (n := Z.abs z).
  assert (0 ≤ n < 10 ^ Z.of_nat 20) as Hn by (unfold in_int64, n in *; lia).
  destruct (decide (n = 0)) as [->|]; [by left|]. right.
  split; [apply digits_isDigit; lia|].
  pose proof (ndigits_pos 20 n ltac:(lia)). pose proof (ndigits_ge 20 n Hn) as Hlt.
  destruct (ndigits 20 n) as [|w] eqn:E; [lia|].
  apply digits_head; [lia|]. split; [|done].
  apply ndigits_floor in E as [->|E]; [simpl; lia|done|lia].
Qed.

(** [%q] of a printable ASCII string. *)
Definition quoted (s : string) : string :=
  let q := byte 34 in
  of_bytes (q :: flat_map (λ a, if bool_decide (a = q ∨ a = byte 92)
                                then [byte 92; a] else [a]) (bytes s) ++ [q]).
