(* ===== verification/Numbers.v ===== *)
(** Go's float64 and the texts of floats and durations: [strconv.ParseFloat]
    and [time.ParseDuration] of the standard library.

    A float64 is Rocq's executable IEEE model ([spec_float] at precision 53).
    [ParseFloat] rounds the exact rational a literal denotes to the nearest
    float; [ParseDuration] works on 64-bit integers, with the same float
    product for the fraction of a unit as the library. *)

From Stdlib Require Export Floats.SpecFloat.
From S2P Require Import Prelude GoStrings RFC3339.

(** ** float64 *)
Definition prec : Z := 53.
Definition emax : Z := 1024.
Definition float_of_Z (z : Z) : spec_float := binary_normalize prec emax z 0 false.
Definition float_mul (x y : spec_float) : spec_float := SFmul prec emax x y.
Definition float_div (x y : spec_float) : spec_float := SFdiv prec emax x y.
Definition float_le (x y : spec_float) : bool := SFleb x y.
Definition float_lt (x y : spec_float) : bool := SFltb x y.
Definition is_nan (x : spec_float) : bool := match x with S754_nan => true | _ => false end.
(** [uint64(x)] of a float in range: truncation. *)
Definition uint64_of_float (x : spec_float) : Z :=
  match x with
  | S754_finite false m e => if 0 <=? e then Zpos m * 2 ^ e else Zpos m / 2 ^ (- e)
  | _ => 0
  end.

(** ** strconv.ParseFloat *)
(** Setting the bit of lower case. *)
Definition lower (a : ascii) : N := N.lor (code a) 32.
Definition is_lower (c a : ascii) : bool := (lower a =? code c)%N.
Definition hex_letter (a : ascii) : bool := (97 <=? lower a)%N && (lower a <=? 102)%N.
Definition digit_in (hex : bool) (a : ascii) : option Z :=
  if isDigit a then Some (digit_value a)
  else if hex && hex_letter a then Some (Z.of_N (lower a) - 87) else None.

Inductive parse_error := SyntaxError | RangeError.

(** The digits: value, number of digits after the point, whether there was a
    digit, and the rest. *)
Fixpoint scan_digits (hex : bool) (l : list ascii) (m frac : Z) (dot digit : bool)
    : Z * Z * bool * list ascii :=
  match l with
  | a :: l' =>
      if bool_decide (a = "_"%char) then scan_digits hex l' m frac dot digit
      else if bool_decide (a = "."%char) && negb dot then scan_digits hex l' m frac true digit
      else match digit_in hex a with
           | Some d => scan_digits hex l' ((if hex then 16 else 10) * m + d)
                         (if dot then frac + 1 else frac) dot true
           | None => (m, frac, digit, l)
           end
  | [] => (m, frac, digit, [])
  end.
(** The digits of an exponent; further ones no longer count from 10000 on. *)
Fixpoint scan_exponent (l : list ascii) (e : Z) : Z * list ascii :=
  match l with
  | a :: l' =>
      if isDigit a then scan_exponent l' (if e <? 10000 then e * 10 + digit_value a else e)
      else if bool_decide (a = "_"%char) then scan_exponent l' e
      else (e, l)
  | [] => (e, [])
  end.
Definition signed (l : list ascii) : bool * list ascii :=
  match l with
  | a :: l' => if bool_decide (a = "-"%char) then (true, l')
               else if bool_decide (a = "+"%char) then (false, l') else (false, l)
  | [] => (false, [])
  end.

(** [underscoreOK]: an underscore separates digits, or a base prefix and a
    digit.  [saw]: the class of the previous character. *)
Inductive seen := Start | SawDigit | SawUnderscore | SawOther.
Fixpoint underscores (hex : bool) (saw : seen) (l : list ascii) : bool :=
  match l with
  | a :: l =>
      if isDigit a || hex && hex_letter a then underscores hex SawDigit l
      else if bool_decide (a = "_"%char)
      then match saw with SawDigit => underscores hex SawUnderscore l | _ => false end
      else match saw with SawUnderscore => false | _ => underscores hex SawOther l end
  | [] => match saw with SawUnderscore => false | _ => true end
  end.
Definition underscoreOK (l : list ascii) : bool :=
  match (signed l).2 with
  | a :: b :: l' =>
      if bool_decide (a = "0"%char) && (is_lower "b" b || is_lower "o" b || is_lower "x" b)
      then underscores (is_lower "x" b) SawDigit l' else underscores false Start (a :: b :: l')
  | l => underscores false Start l
  end.

(** The nearest float of [m * 10^e], of [m * 2^e]. *)
Definition round_decimal (neg : bool) (m e : Z) : spec_float :=
  match m with
  | Zpos p =>
      if 0 <=? e then binary_normalize prec emax (if neg then - (m * 10 ^ e) else m * 10 ^ e) 0 neg
      else match 10 ^ (- e) with
           | Zpos q => float_div (S754_finite neg p 0) (S754_finite false q 0)
           | _ => S754_nan
           end
  | _ => S754_zero neg
  end.
Definition round_binary (neg : bool) (m e : Z) : spec_float :=
  match m with
  | Zpos p => binary_round prec emax neg p e
  | _ => S754_zero neg
  end.

(** [special]: infinities and NaN, in any ASCII case. *)
Definition ascii_lower (a : ascii) : ascii :=
  if (65 <=? code a)%N && (code a <=? 90)%N then byte (code a + 32) else a.
Definition special (s : string) : option spec_float :=
  let t := of_bytes (ascii_lower <$> bytes s) in
  if bool_decide (t ∈ ["inf"; "infinity"; "+inf"; "+infinity"]) then Some (S754_infinity false)
  else if bool_decide (t ∈ ["-inf"; "-infinity"]) then Some (S754_infinity true)
  else if bool_decide (t = "nan") then Some S754_nan
  else None.

(** [readFloat] and the rounding; the whole text has to be read. *)
Definition read_float (l0 : list ascii) : option spec_float :=
  let '(neg, l) := signed l0 in
  let '(hex, l) := match l with
                   | a :: b :: c :: l' => if bool_decide (a = "0"%char) && is_lower "x" b
                                          then (true, c :: l') else (false, l)
                   | _ => (false, l)
                   end in
  let '(m, frac, digit, l) := scan_digits hex l 0 0 false false in
  if negb digit then None
  else
    let fin (e : Z) :=
      if existsb (λ a, bool_decide (a = "_"%char)) l0 && negb (underscoreOK l0) then None
      else Some (if hex then round_binary neg m (e - 4 * frac) else round_decimal neg m (e - frac)) in
    match l with
    | [] => if hex then None else fin 0
    | a :: l =>
        if is_lower (if hex then "p"%char else "e"%char) a then
          let '(eneg, l) := signed l in
          match l with
          | d :: _ =>
              if isDigit d then
                let '(e, rest) := scan_exponent l 0 in
                if bool_decide (rest = []) then fin (if eneg then - e else e) else None
              else None
          | [] => None
          end
        else None
    end.

Definition ParseFloat (s : string) : parse_error + spec_float :=
  match special s with
  | Some x => inr x
  | None => match read_float (bytes s) with
            | None => inl SyntaxError
            | Some (S754_infinity _) => inl RangeError
            | Some x => inr x
            end
  end.

Example ParseFloat_tenth : ParseFloat "0.1" = inr (S754_finite false 7205759403792794 (-56)).
Proof. vm_compute. reflexivity. Qed.
Example ParseFloat_one : ParseFloat "1" = inr (float_of_Z 1) ∧ ParseFloat "+1_0.0e-1" = inr (float_of_Z 1)
  ∧ ParseFloat "0x1p0" = inr (float_of_Z 1) ∧ ParseFloat "0X.8P+1" = inr (float_of_Z 1).
Proof. by vm_compute. Qed.
Example ParseFloat_special : ParseFloat "NaN" = inr S754_nan ∧ ParseFloat "-INF" = inr (S754_infinity true).
Proof. by vm_compute. Qed.
Example ParseFloat_rejects : Forall (λ s, ParseFloat s = inl SyntaxError)
  [""; "."; "1e"; "1_"; "_1"; "1__0"; "0x1"; " 1"; "1.2.3"; "-nan"; "1e+"; "0x"].
Proof. repeat constructor. Qed.
Example ParseFloat_overflow : ParseFloat "1e309" = inl RangeError ∧ ParseFloat "1e-400" = inr (S754_zero false).
Proof. by vm_compute. Qed.

(** ** time.ParseDuration

    A text is an optional sign, then numbers with a unit each, or [0]; [None]
    is the syntax or the overflow error. *)
Definition unit_of (u : list ascii) : option Z :=
  let named (s : string) := bool_decide (of_bytes u = s) in
  if named "ns" then Some 1
  else if named "us" || named (of_bytes [byte 194; byte 181; "s"%char]) || named (of_bytes [byte 206; byte 188; "s"%char])
  then Some 1000
  else if named "ms" then Some Millisecond else if named "s" then Some Second
  else if named "m" then Some Minute else if named "h" then Some Hour else None.

(** [leadingInt]: the value, capped by an error above [2^63]. *)
Fixpoint leadingInt (l : list ascii) (x : Z) : option (Z * list ascii) :=
  match l with
  | a :: l' =>
      if isDigit a then
        if 2 ^ 63 / 10 <? x then None
        else let x := x * 10 + digit_value a in
             if 2 ^ 63 <? x then None else leadingInt l' x
      else Some (x, l)
  | [] => Some (x, [])
  end.
(** [leadingFraction]: the digits that fit, their scale, and the rest. *)
Fixpoint leadingFraction (l : list ascii) (x : Z) (scale : spec_float) (overflow : bool)
    : Z * spec_float * list ascii :=
  match l with
  | a :: l' =>
      if isDigit a then
        if overflow then leadingFraction l' x scale true
        else if (2 ^ 63 - 1) / 10 <? x then leadingFraction l' x scale true
        else let y := x * 10 + digit_value a in
             if 2 ^ 63 <? y then leadingFraction l' x scale true
             else leadingFraction l' y (float_mul scale (float_of_Z 10)) false
      else (x, scale, l)
  | [] => (x, scale, [])
  end.
(** The unit: everything up to the next digit or point. *)
Fixpoint span_unit (l : list ascii) : list ascii * list ascii :=
  match l with
  | a :: l' => if bool_decide (a = "."%char) || isDigit a then ([], l)
               else let '(u, rest) := span_unit l' in (a :: u, rest)
  | [] => ([], [])
  end.

(** One number with its unit: its value and the rest. *)
Definition duration_group (l : list ascii) : option (Z * list ascii) :=
  match leadingInt l 0 with
  | None => None
  | Some (v, l1) =>
      let pre := negb (bool_decide (length l1 = length l)) in
      let '(f, scale, post, l2) :=
        match l1 with
        | a :: l' => if bool_decide (a = "."%char)
                     then let '(f, scale, l2) := leadingFraction l' 0 (float_of_Z 1) false in
                          (f, scale, negb (bool_decide (length l2 = length l')), l2)
                     else (0, float_of_Z 1, false, l1)
        | [] => (0, float_of_Z 1, false, l1)
        end in
      if negb pre && negb post then None
      else
        let '(u, rest) := span_unit l2 in
        match unit_of u with
        | None => None
        | Some unit =>
            if 2 ^ 63 / unit <? v then None
            else
              let v := v * unit in
              let v := if 0 <? f then
                         v + uint64_of_float (float_mul (float_of_Z f) (float_div (float_of_Z unit) scale))
                       else v in
              if 2 ^ 63 <? v then None else Some (v, rest)
        end
  end.
(** The loop over the groups; [fuel] bounds their number. *)
Fixpoint duration_groups (fuel : nat) (l : list ascii) (d : Z) : option Z :=
  match l, fuel with
  | [], _ => Some d
  | _ :: _, O => None
  | _ :: _, S fuel =>
      match duration_group l with
      | None => None
      | Some (v, rest) => if 2 ^ 63 <? d + v then None else duration_groups fuel rest (d + v)
      end
  end.
Definition ParseDuration (s : string) : option Duration :=
  let '(neg, l) := signed (bytes s) in
  if bool_decide (of_bytes l = "0") then Some 0
  else if bool_decide (l = []) then None
  else match duration_groups (length l) l 0 with
       | None => None
       | Some d => if neg then Some (- d) else if 2 ^ 63 - 1 <? d then None else Some d
       end.

Example ParseDuration_examples :
  ParseDuration "1h15m30.918s" = Some (Hour + 15 * Minute + 30 * Second + 918 * Millisecond) ∧
  ParseDuration "-1.5h" = Some (- (90 * Minute)) ∧ ParseDuration "100ms" = Some (100 * Millisecond) ∧
  ParseDuration ".5s" = Some (500 * Millisecond) ∧ ParseDuration "+0" = Some 0 ∧
  ParseDuration "9223372036854775807ns" = Some (2 ^ 63 - 1) ∧
  ParseDuration "-9223372036854775808ns" = Some (- 2 ^ 63).
Proof. by vm_compute. Qed.
Example ParseDuration_rejects : Forall (λ s, ParseDuration s = None)
  [""; "1"; "3 s"; "."; "s"; "1d"; "9223372036854775808ns"; "1e3s"; "-"; ".s"; "300000000h"].
Proof. repeat constructor. Qed.

(** The fuel is enough: every group takes at least one byte. *)
Lemma isDigit_value a : isDigit a = true → 0 ≤ digit_value a ≤ 9.
Proof. unfold isDigit, digit_value. intros [?%N.leb_le ?%N.leb_le]%andb_true_iff. lia. Qed.
Lemma leadingInt_rest l x v rest : leadingInt l x = Some (v, rest) → 0 ≤ x →
  0 ≤ v ∧ (length rest ≤ length l)%nat.
Proof.
  revert x. induction l as [|a l IH]; intros x; simpl; [intros [= <- <-]; simpl; lia|].
  destruct (isDigit a) eqn:Ha; [|intros [= <- <-]; simpl; lia].
  repeat case_match; try done. intros E Hx. apply isDigit_value in Ha.
  destruct (IH _ E) as [??]; lia.
Qed.
Lemma leadingFraction_rest l x scale o : (length (leadingFraction l x scale o).2 ≤ length l)%nat.
Proof.
  revert x scale o. induction l as [|a l IH]; intros x scale o; simpl; [done|].
  repeat case_match; simpl; try lia; (etrans; [apply IH|lia]).
Qed.
Lemma span_unit_length l u rest : span_unit l = (u, rest) → length l = (length u + length rest)%nat.
Proof.
  revert u rest. induction l as [|a l IH]; intros u rest; simpl; [by intros [= <- <-]|].
  case_match; [by intros [= <- <-]|]. destruct (span_unit l) as [u' rest']. intros [= <- <-].
  simpl. by rewrite (IH u' rest').
Qed.

Lemma uint64_of_float_nonneg x : 0 ≤ uint64_of_float x.
Proof.
  destruct x as [| | |[] m e]; simpl; try lia. case_match; [nia|].
  apply Z.div_pos; [lia|]. by apply Z.pow_pos_nonneg; [|apply Z.opp_nonneg_nonpos; lia].
Qed.
Lemma unit_of_pos u x : unit_of u = Some x → 0 < x ∧ u ≠ [].
Proof.
  unfold unit_of. intros E. split; [|intros ->; by vm_compute in E].
  by repeat case_match; simplify_eq.
Qed.

Lemma duration_group_spec l v rest : duration_group l = Some (v, rest) →
  0 ≤ v ≤ 2 ^ 63 ∧ (length rest < length l)%nat.
Proof.
  unfold duration_group. destruct (leadingInt l 0) as [[v0 l1]|] eqn:E1; [|done].
  destruct (leadingInt_rest _ _ _ _ E1) as [Hv0 Hl1]; [done|].
  set (frac := match l1 with [] => _ | _ => _ end).
  assert (length frac.2 ≤ length l1)%nat as Hfrac.
  { unfold frac. destruct l1 as [|a l']; [done|]. case_bool_decide; [|done].
    pose proof (leadingFraction_rest l' 0 (float_of_Z 1) false) as Hl.
    destruct (leadingFraction _ _ _ _) as [[f scale] l2]. simpl in *. lia. }
  destruct frac as [[[f scale] post] l2]. simpl in Hfrac.
  destruct (_ && _); [done|]. destruct (span_unit l2) as [u rest'] eqn:Eu.
  apply span_unit_length in Eu. destruct (unit_of u) as [unit|] eqn:Et; [|done].
  destruct (unit_of_pos _ _ Et) as [Hunit Hu].
  assert (0 < length u)%nat by (destruct u; [done|simpl; lia]).
  repeat case_match; try done; intros [= <- <-]; (split; [|lia]);
    pose proof (uint64_of_float_nonneg (float_mul (float_of_Z f) (float_div (float_of_Z unit) scale))); lia.
Qed.
Lemma duration_groups_fuel fuel k l d : (length l ≤ fuel)%nat →
  duration_groups (fuel + k) l d = duration_groups fuel l d.
Proof.
  revert l d. induction fuel as [|fuel IH]; intros [|a l] d Hf; simpl in *; try done; try lia.
  - by destruct k.
  - destruct (duration_group (a :: l)) as [[v rest]|] eqn:E; [|done].
    apply duration_group_spec in E as [_ Hl]. simpl in Hl. case_match; [done|]. apply IH. lia.
Qed.
Lemma duration_groups_range fuel l d r : 0 ≤ d ≤ 2 ^ 63 → duration_groups fuel l d = Some r → 0 ≤ r ≤ 2 ^ 63.
Proof.
  revert l d. induction fuel as [|fuel IH]; intros [|a l] d Hd; simpl; try (by intros [= <-]); try done.
  destruct (duration_group (a :: l)) as [[v rest]|] eqn:E; [|done].
  apply duration_group_spec in E as [Hv _]. case_match eqn:Hlt; [done|]. apply IH. lia.
Qed.
(** A duration fits its 64 bits. *)
Lemma ParseDuration_range s d : ParseDuration s = Some d → in_int64 d.
Proof.
  unfold ParseDuration, in_int64. destruct (signed (bytes s)) as [neg l].
  repeat case_match; try done; intros [= <-]; try lia;
    match goal with E : duration_groups _ _ _ = _ |- _ => apply duration_groups_range in E end; lia.
Qed.
