(* ===== verification/Json.v ===== *)
(** The part of Go's encoding/json the service relies on: values as a tree,
    the encoder with its HTML-safe string escapes, the parser with its depth
    limit, and decoding into a struct with string and byte-slice fields. *)

From S2P Require Import Prelude GoStrings Base64 Strconv RFC3339 Errors.

Inductive json :=
| JNull
| JBool (b : bool)
| JNum (literal : string)
| JStr (s : string)
| JArr (l : list json)
| JObj (members : list (string * json)).

(** ** UTF-8

    The continuation bytes and the sequences of [utf8.DecodeRune]. *)
Definition in_range (lo hi : N) (a : ascii) : bool := (lo <=? code a)%N && (code a <=? hi)%N.
Definition cont (a : ascii) : bool := in_range 128 191 a.
Definition seq2 (a b : ascii) : bool := in_range 194 223 a && cont b.
Definition seq3 (a b c : ascii) : bool :=
  (((code a =? 224)%N && in_range 160 191 b || in_range 225 236 a && cont b
    || (code a =? 237)%N && in_range 128 159 b || in_range 238 239 a && cont b) && cont c).
Definition seq4 (a b c d : ascii) : bool :=
  (((code a =? 240)%N && in_range 144 191 b || in_range 241 243 a && cont b
    || (code a =? 244)%N && in_range 128 143 b) && cont c && cont d).
(** U+FFFD *)
Definition rune_error : list ascii := [byte 239; byte 191; byte 189].

(** Copy the runes of [l], with [ascii] and [line] the texts of the bytes below
    128 and of U+2028 and U+2029, and [bad] that of a byte that starts no rune. *)
Fixpoint map_runes (asc : ascii → list ascii) (line : ascii → list ascii) (bad : list ascii)
    (l : list ascii) : list ascii :=
  match l with
  | [] => []
  | a :: l1 =>
      if (code a <? 128)%N then asc a ++ map_runes asc line bad l1 else
      match l1 with
      | b :: l2 =>
          if seq2 a b then [a; b] ++ map_runes asc line bad l2 else
          match l2 with
          | c :: l3 =>
              if seq3 a b c then
                (if (code a =? 226)%N && (code b =? 128)%N && in_range 168 169 c
                 then line c else [a; b; c]) ++ map_runes asc line bad l3
              else match l3 with
              | d :: l4 => if seq4 a b c d then [a; b; c; d] ++ map_runes asc line bad l4
                           else bad ++ map_runes asc line bad l1
              | [] => bad ++ map_runes asc line bad l1
              end
          | [] => bad ++ map_runes asc line bad l1
          end
      | [] => bad ++ map_runes asc line bad l1
      end
  end.

(** Well-formed UTF-8. *)
Inductive utf8 : list ascii → Prop :=
| utf8_nil : utf8 []
| utf8_1 a l : (code a <? 128)%N = true → utf8 l → utf8 (a :: l)
| utf8_2 a b l : seq2 a b = true → utf8 l → utf8 (a :: b :: l)
| utf8_3 a b c l : seq3 a b c = true → utf8 l → utf8 (a :: b :: c :: l)
| utf8_4 a b c d l : seq4 a b c d = true → utf8 l → utf8 (a :: b :: c :: d :: l).
Definition valid_utf8 (s : string) : Prop := utf8 (bytes s).

(** Texts of the program itself are ASCII. *)
Lemma ascii_literal_valid s :
  forallb (λ a, (code a <? 128)%N) (bytes s) = true → valid_utf8 s.
Proof.
  unfold valid_utf8. induction (bytes s) as [|a l IH]; simpl; [constructor|].
  intros [Ha Hl]%andb_true_iff. apply utf8_1; auto.
Qed.
Ltac literal := by apply ascii_literal_valid.

(** ** Encoding *)
Definition dquote : ascii := byte 34.
Definition backslash : ascii := byte 92.
Definition u00 (n : N) : list ascii :=
  [backslash; "u"; "0"; "0"; hex_digit (n / 16); hex_digit (n mod 16)]%char%N.
(** [appendString] with HTML escaping, on one byte below 128. *)
Definition escape_ascii (a : ascii) : list ascii :=
  let n := code a in
  if (n =? 34)%N || (n =? 92)%N then [backslash; a]
  else if (n =? 8)%N then [backslash; "b"]%char
  else if (n =? 12)%N then [backslash; "f"]%char
  else if (n =? 10)%N then [backslash; "n"]%char
  else if (n =? 13)%N then [backslash; "r"]%char
  else if (n =? 9)%N then [backslash; "t"]%char
  else if (n <? 32)%N || (n =? 60)%N || (n =? 62)%N || (n =? 38)%N then u00 n
  else [a].
Definition escape_line (c : ascii) : list ascii :=
  [backslash; "u"; "2"; "0"; "2"; hex_digit (code c mod 16)]%char%N.
Definition escape : list ascii → list ascii :=
  map_runes escape_ascii escape_line [backslash; "u"; "f"; "f"; "f"; "d"]%char.
Definition encode_string (s : string) : list ascii := [dquote] ++ escape (bytes s) ++ [dquote].

Definition join (l : list (list ascii)) : list ascii :=
  match l with
  | [] => []
  | x :: l => x ++ concat (map (λ y, ","%char :: y) l)
  end.
Fixpoint encode (j : json) : list ascii :=
  match j with
  | JNull => bytes "null"
  | JBool b => bytes (if b then "true" else "false")
  | JNum lit => bytes lit
  | JStr s => encode_string s
  | JArr l => ["["%char] ++ join (map encode l) ++ ["]"%char]
  | JObj ms =>
      ["{"%char] ++ join (map (λ '(k, v), encode_string k ++ [":"%char] ++ encode v) ms)
      ++ ["}"%char]
  end.
Definition Marshal (j : json) : string := of_bytes (encode j).

(** ** Decoding: strings *)
Definition u4 (a b c d : ascii) : option N :=
  x ← unhex_digit a; y ← unhex_digit b; z ← unhex_digit c; w ← unhex_digit d;
  Some (((x * 16 + y) * 16 + z) * 16 + w)%N.
(** [utf8.AppendRune] *)
Definition utf8_encode (r : N) : list ascii :=
  (if r <? 128 then [byte r]
   else if r <? 2048 then [byte (192 + r / 64); byte (128 + r mod 64)]
   else if (55296 <=? r) && (r <=? 57343) then rune_error
   else if r <? 65536 then
     [byte (224 + r / 4096); byte (128 + r / 64 mod 64); byte (128 + r mod 64)]
   else [byte (240 + r / 262144); byte (128 + r / 4096 mod 64); byte (128 + r / 64 mod 64);
         byte (128 + r mod 64)])%N.
Definition surrogate_pair (r s : N) : option N :=
  if ((55296 <=? r) && (r <=? 56319) && (56320 <=? s) && (s <=? 57343))%N
  then Some ((r - 55296) * 1024 + (s - 56320) + 65536)%N else None.
Definition simple_escape (e : ascii) : option ascii :=
  let n := code e in
  (if (n =? 34) || (n =? 92) || (n =? 47) then Some e
   else if n =? 98 then Some (byte 8) else if n =? 102 then Some (byte 12)
   else if n =? 110 then Some (byte 10) else if n =? 114 then Some (byte 13)
   else if n =? 116 then Some (byte 9) else None)%N.

(** [prepend x o]: [x] in front of the text [o] decoded. *)
Definition prepend (x : list ascii) (o : option (list ascii * list ascii)) :
    option (list ascii * list ascii) := '(s, rest) ← o; Some (x ++ s, rest).

(** The text up to the closing quote, and what follows it. *)
Fixpoint unquote (l : list ascii) : option (list ascii * list ascii) :=
  match l with
  | [] => None
  | a :: l1 =>
      if (code a =? 34)%N then Some ([], l1)
      else if (code a =? 92)%N then
        match l1 with
        | e :: l2 =>
            if (code e =? 117)%N then
              match l2 with
              | h1 :: h2 :: h3 :: h4 :: l3 =>
                  match u4 h1 h2 h3 h4 with
                  | None => None
                  | Some r =>
                      match l3 with
                      | b :: u :: g1 :: g2 :: g3 :: g4 :: l4 =>
                          match (if (code b =? 92)%N && (code u =? 117)%N
                                 then s ← u4 g1 g2 g3 g4; surrogate_pair r s else None) with
                          | Some p => prepend (utf8_encode p) (unquote l4)
                          | None => prepend (utf8_encode r) (unquote l3)
                          end
                      | _ => prepend (utf8_encode r) (unquote l3)
                      end
                  end
              | _ => None
              end
            else match simple_escape e with
                 | Some x => prepend [x] (unquote l2)
                 | None => None
                 end
        | [] => None
        end
      else if (code a <? 32)%N then None
      else if (code a <? 128)%N then prepend [a] (unquote l1)
      else match l1 with
      | b :: l2 =>
          if seq2 a b then prepend [a; b] (unquote l2) else
          match l2 with
          | c :: l3 =>
              if seq3 a b c then prepend [a; b; c] (unquote l3) else
              match l3 with
              | d :: l4 => if seq4 a b c d then prepend [a; b; c; d] (unquote l4)
                           else prepend rune_error (unquote l1)
              | [] => prepend rune_error (unquote l1)
              end
          | [] => prepend rune_error (unquote l1)
          end
      | [] => prepend rune_error (unquote l1)
      end
  end.

(** ** Decoding: the scanner *)
Definition json_space (a : ascii) : bool :=
  let n := code a in ((n =? 32) || (n =? 9) || (n =? 10) || (n =? 13))%N.
Fixpoint skip_space (l : list ascii) : list ascii :=
  match l with a :: l' => if json_space a then skip_space l' else l | [] => [] end.

Definition is_char (a : ascii) (l : list ascii) : option (list ascii) :=
  match l with b :: l' => if bool_decide (a = b) then Some l' else None | [] => None end.
Fixpoint expect (w : list ascii) (l : list ascii) : option (list ascii) :=
  match w with [] => Some l | a :: w => l ← is_char a l; expect w l end.

(** A number: [-]? (0 | [1-9][0-9]* ) ([.] [0-9]+)? ([eE] [+-]? [0-9]+)? *)
Definition some_digits (l : list ascii) : option (list ascii * list ascii) :=
  match span_digits l with ([], _) => None | r => Some r end.
Definition scan_int (l : list ascii) : option (list ascii * list ascii) :=
  match l with
  | a :: l' => if bool_decide (a = "0"%char) then Some ([a], l') else some_digits l
  | [] => None
  end.
Definition scan_frac (l : list ascii) : option (list ascii * list ascii) :=
  match is_char "."%char l with
  | Some l => '(ds, l) ← some_digits l; Some ("."%char :: ds, l)
  | None => Some ([], l)
  end.
Definition scan_exp (l : list ascii) : option (list ascii * list ascii) :=
  match l with
  | e :: l' =>
      if bool_decide (e = "e"%char ∨ e = "E"%char) then
        match l' with
        | s :: l'' => if bool_decide (s = "+"%char ∨ s = "-"%char)
                      then '(ds, r) ← some_digits l''; Some (e :: s :: ds, r)
                      else '(ds, r) ← some_digits l'; Some (e :: ds, r)
        | [] => None
        end
      else Some ([], l)
  | [] => Some ([], l)
  end.
Definition scan_number (l : list ascii) : option (list ascii * list ascii) :=
  let '(sg, l) := match is_char "-"%char l with Some l => (["-"%char], l) | None => ([], l) end in
  '(i, l) ← scan_int l; '(f, l) ← scan_frac l; '(e, l) ← scan_exp l;
  Some (sg ++ i ++ f ++ e, l).

(** The parser, on at most [fuel] nested calls; [depth] objects and arrays are
    open, at most 10000 may be. *)
Definition maxNestingDepth : nat := 100 * 100.
Fixpoint json_value (fuel : nat) (depth : nat) (l : list ascii) : option (json * list ascii) :=
  match fuel with
  | O => None
  | S fuel =>
      match skip_space l with
      | [] => None
      | a :: l =>
          if bool_decide (a = dquote) then '(s, l) ← unquote l; Some (JStr (of_bytes s), l)
          else if bool_decide (a = "{"%char) then
            match depth with
            | O => None
            | S depth =>
                match is_char "}"%char (skip_space l) with
                | Some l => Some (JObj [], l)
                | None => '(ms, l) ← json_members fuel depth l; Some (JObj ms, l)
                end
            end
          else if bool_decide (a = "["%char) then
            match depth with
            | O => None
            | S depth =>
                match is_char "]"%char (skip_space l) with
                | Some l => Some (JArr [], l)
                | None => '(vs, l) ← json_elements fuel depth l; Some (JArr vs, l)
                end
            end
          else if bool_decide (a = "n"%char) then l ← expect (bytes "ull") l; Some (JNull, l)
          else if bool_decide (a = "t"%char) then l ← expect (bytes "rue") l; Some (JBool true, l)
          else if bool_decide (a = "f"%char) then l ← expect (bytes "alse") l; Some (JBool false, l)
          else '(lit, l) ← scan_number (a :: l); Some (JNum (of_bytes lit), l)
      end
  end
with json_members (fuel : nat) (depth : nat) (l : list ascii) :
    option (list (string * json) * list ascii) :=
  match fuel with
  | O => None
  | S fuel =>
      l ← is_char dquote (skip_space l); '(k, l) ← unquote l;
      l ← is_char ":"%char (skip_space l); '(v, l) ← json_value fuel depth l;
      match is_char "}"%char (skip_space l) with
      | Some l => Some ([(of_bytes k, v)], l)
      | None =>
          l ← is_char ","%char (skip_space l); '(ms, l) ← json_members fuel depth l;
          Some ((of_bytes k, v) :: ms, l)
      end
  end
with json_elements (fuel : nat) (depth : nat) (l : list ascii) : option (list json * list ascii) :=
  match fuel with
  | O => None
  | S fuel =>
      '(v, l) ← json_value fuel depth l;
      match is_char "]"%char (skip_space l) with
      | Some l => Some ([v], l)
      | None =>
          l ← is_char ","%char (skip_space l); '(vs, l) ← json_elements fuel depth l; Some (v :: vs, l)
      end
  end.

(** A document: one value and white space. *)
Definition parse (s : string) : option json :=
  '(j, l) ← json_value (S (2 * String.length s)) maxNestingDepth (bytes s);
  if bool_decide (skip_space l = []) then Some j else None.

Example parse_object :
  parse (Marshal (JObj [("notification_id", JStr "a<b"); ("n", JArr [JNull; JBool true])])) =
  Some (JObj [("notification_id", JStr "a<b"); ("n", JArr [JNull; JBool true])]).
Proof. vm_compute. reflexivity. Qed.
Example parse_numbers :
  parse " [ 0, -12.50e+3 ] " = Some (JArr [JNum "0"; JNum "-12.50e+3"]).
Proof. vm_compute. reflexivity. Qed.
Example parse_leading_zero : parse "[01]" = None.
Proof. vm_compute. reflexivity. Qed.
Example parse_trailing : parse "{} x" = None.
Proof. vm_compute. reflexivity. Qed.

(** ** The fuel of [parse] is enough *)
Definition enough {A} (f : nat → A) (n : nat) : Prop := ∀ a b, (n ≤ a)%nat → (n ≤ b)%nat → f a = f b.

Lemma skip_space_le l : (length (skip_space l) ≤ length l)%nat.
Proof. induction l as [|a l IH]; simpl; [done|]. case_match; simpl; lia. Qed.
Lemma is_char_shrinks a l r : is_char a l = Some r → length l = S (length r).
Proof. destruct l as [|b l]; simpl; [done|]. case_bool_decide; [|done]. by intros [= ->]. Qed.
Lemma expect_le w l r : expect w l = Some r → (length r ≤ length l)%nat.
Proof.
  revert l. induction w as [|a w IH]; intros l; simpl; [by intros [= ->]|].
  destruct (is_char a l) as [l'|] eqn:E; simpl; [|done]. intros H%IH.
  apply is_char_shrinks in E. lia.
Qed.
Lemma span_digits_le l ds r : span_digits l = (ds, r) → length l = (length ds + length r)%nat.
Proof.
  revert ds. induction l as [|a l IH]; intros ds; simpl; [by intros [= <- <-]|].
  destruct (isDigit a); [|by intros [= <- <-]].
  destruct (span_digits l) as [ds' r'] eqn:E. intros [= <- <-]. simpl. by rewrite (IH ds').
Qed.
Lemma some_digits_shrinks l ds r : some_digits l = Some (ds, r) → (length r < length l)%nat.
Proof.
  unfold some_digits. destruct (span_digits l) as [ds' r'] eqn:E. apply span_digits_le in E.
  destruct ds'; [done|]. intros [= <- <-]. simpl in E. lia.
Qed.
Lemma prepend_Some x o s r : prepend x o = Some (s, r) → ∃ s', o = Some (s', r) ∧ s = x ++ s'.
Proof. destruct o as [[s' r']|]; simpl; [|done]. intros [= <- <-]. eauto. Qed.
Lemma unquote_shrinks l s r : unquote l = Some (s, r) → (length r < length l)%nat.
Proof.
  remember (length l) as n eqn:Hn. revert l s Hn.
  induction (lt_wf n) as [n _ IH]. intros l s -> H.
  assert (∀ x l', (length l' < length l)%nat → prepend x (unquote l') = Some (s, r) →
    (length r < length l)%nat) as Hp.
  { intros x l' Hl (s' & Hs & _)%prepend_Some. specialize (IH _ Hl l' s' eq_refl Hs). lia. }
  destruct l as [|a l1]; cbn [unquote] in H; [done|].
  repeat first
    [ discriminate H
    | lazymatch type of H with
      | Some _ = Some _ => injection H as <- <-; simpl; lia
      | prepend _ (unquote _) = _ => revert H; apply Hp; simpl; lia
      | (if ?b then _ else _) = _ => destruct b
      | (match ?x with _ => _ end) = _ => destruct x
      end ].
Qed.
Lemma scan_int_shrinks l x r : scan_int l = Some (x, r) → (length r < length l)%nat.
Proof.
  destruct l as [|a l]; simpl; [done|]. case_bool_decide; [intros [= <- <-]; lia|].
  apply (some_digits_shrinks (a :: l)).
Qed.
Lemma scan_frac_le l x r : scan_frac l = Some (x, r) → (length r ≤ length l)%nat.
Proof.
  unfold scan_frac. destruct (is_char _ l) as [l'|] eqn:E; [|intros [= <- <-]; lia].
  apply is_char_shrinks in E. destruct (some_digits l') as [[ds r']|] eqn:Es; simpl; [|done].
  apply some_digits_shrinks in Es. intros [= <- <-]. lia.
Qed.
Lemma scan_exp_le l x r : scan_exp l = Some (x, r) → (length r ≤ length l)%nat.
Proof.
  unfold scan_exp. destruct l as [|e l]; [intros [= <- <-]; lia|].
  case_bool_decide; [|intros [= <- <-]; lia]. destruct l as [|s l]; [done|].
  case_bool_decide.
  - destruct (some_digits l) as [[ds r']|] eqn:Es; simpl; [|done].
    apply some_digits_shrinks in Es. intros [= <- <-]. lia.
  - destruct (some_digits (s :: l)) as [[ds r']|] eqn:Es; simpl; [|done].
    apply some_digits_shrinks in Es. intros [= <- <-]. simpl in *. lia.
Qed.
Lemma scan_number_shrinks l lit r : scan_number l = Some (lit, r) → (length r < length l)%nat.
Proof.
  unfold scan_number.
  assert (∀ sg l', (length l' ≤ length l)%nat →
    ('(i, l) ← scan_int l'; '(f, l) ← scan_frac l; '(e, l) ← scan_exp l;
     Some (sg ++ i ++ f ++ e, l)) = Some (lit, r) → (length r < length l)%nat) as H.
  { intros sg l' Hl. destruct (scan_int l') as [[i l1]|] eqn:E1; simpl; [|done].
    destruct (scan_frac l1) as [[f l2]|] eqn:E2; simpl; [|done].
    destruct (scan_exp l2) as [[e l3]|] eqn:E3; simpl; [|done]. intros [= _ <-].
    apply scan_int_shrinks in E1. apply scan_frac_le in E2. apply scan_exp_le in E3. lia. }
  destruct (is_char _ l) as [l'|] eqn:E; apply H; [|lia]. apply is_char_shrinks in E. lia.
Qed.

(** Every value, and every list of members or elements, takes at least a byte. *)
(** A parser that leaves less input than it was given. *)
Definition shrinks {A} (parse : nat → list ascii → option (A * list ascii)) : Prop :=
  ∀ d l x r, parse d l = Some (x, r) → (length r < length l)%nat.
Lemma value_shrinks fuel : shrinks (json_members fuel) → shrinks (json_elements fuel) →
  shrinks (json_value (S fuel)).
Proof.
  intros IHm IHe d l j r. cbn [json_value]. pose proof (skip_space_le l) as Hs.
  destruct (skip_space l) as [|a l1]; [done|]. simpl in Hs.
  assert (∀ l2 r' : list ascii, (length r' ≤ length l1)%nat → (length r' < length l)%nat) as Hd
    by (intros; lia).
  case_bool_decide.
  { destruct (unquote l1) as [[s l2]|] eqn:E; simpl; [|done]. intros [= <- <-].
    apply unquote_shrinks in E. lia. }
  case_bool_decide.
  { destruct d as [|d]; [done|]. pose proof (skip_space_le l1).
    destruct (is_char _ _) as [l2|] eqn:E; [intros [= <- <-]; apply is_char_shrinks in E; lia|].
    destruct (json_members fuel d l1) as [[ms l2]|] eqn:E2; simpl; [|done]. intros [= <- <-].
    apply IHm in E2. lia. }
  case_bool_decide.
  { destruct d as [|d]; [done|]. pose proof (skip_space_le l1).
    destruct (is_char _ _) as [l2|] eqn:E; [intros [= <- <-]; apply is_char_shrinks in E; lia|].
    destruct (json_elements fuel d l1) as [[ms l2]|] eqn:E2; simpl; [|done]. intros [= <- <-].
    apply IHe in E2. lia. }
  do 3 (case_bool_decide; [destruct (expect _ l1) as [l2|] eqn:E; cbn; [|done];
    intros [= <- <-]; apply expect_le in E; lia|]).
  destruct (scan_number (a :: l1)) as [[lit l2]|] eqn:E; cbn; [|done]. intros [= <- <-].
  apply scan_number_shrinks in E. simpl in E. lia.
Qed.
Lemma members_shrink fuel : shrinks (json_value fuel) → shrinks (json_members fuel) →
  shrinks (json_members (S fuel)).
Proof.
  intros IHv IHm d l ms r. cbn [json_members]. pose proof (skip_space_le l) as Hs.
  destruct (is_char _ (skip_space l)) as [l1|] eqn:E1; cbn; [|done]. apply is_char_shrinks in E1.
  destruct (unquote l1) as [[k l2]|] eqn:E2; cbn; [|done]. apply unquote_shrinks in E2.
  pose proof (skip_space_le l2) as Hs2.
  destruct (is_char _ (skip_space l2)) as [l3|] eqn:E3; cbn; [|done]. apply is_char_shrinks in E3.
  destruct (json_value fuel d l3) as [[v l4]|] eqn:E4; cbn; [|done]. apply IHv in E4.
  pose proof (skip_space_le l4) as Hs4.
  destruct (is_char "}"%char _) as [l5|] eqn:E5; [intros [= <- <-]; apply is_char_shrinks in E5; lia|].
  destruct (is_char ","%char (skip_space l4)) as [l5'|] eqn:E6; cbn; [|done]. apply is_char_shrinks in E6.
  destruct (json_members fuel d l5') as [[ms' l6]|] eqn:E7; cbn; [|done]. apply IHm in E7.
  intros [= <- <-]. lia.
Qed.
Lemma elements_shrink fuel : shrinks (json_value fuel) → shrinks (json_elements fuel) →
  shrinks (json_elements (S fuel)).
Proof.
  intros IHv IHe d l vs r. cbn [json_elements].
  destruct (json_value fuel d l) as [[v l4]|] eqn:E4; cbn; [|done]. apply IHv in E4.
  pose proof (skip_space_le l4) as Hs4.
  destruct (is_char "]"%char _) as [l5|] eqn:E5; [intros [= <- <-]; apply is_char_shrinks in E5; lia|].
  destruct (is_char ","%char (skip_space l4)) as [l5'|] eqn:E6; cbn; [|done]. apply is_char_shrinks in E6.
  destruct (json_elements fuel d l5') as [[ms' l6]|] eqn:E7; cbn; [|done]. apply IHe in E7.
  intros [= <- <-]. lia.
Qed.
Lemma parser_shrinks fuel : shrinks (json_value fuel) ∧ shrinks (json_members fuel) ∧ shrinks (json_elements fuel).
Proof.
  induction fuel as [|fuel (IHv & IHm & IHe)]; [by split_and!|].
  split_and!; [by apply value_shrinks|by apply members_shrink|by apply elements_shrink].
Qed.

(** More fuel than twice the length of the text changes nothing. *)
Lemma parser_enough f1 f2 :
  (∀ d l, (2 * length l < f1)%nat → (2 * length l < f2)%nat → json_value f1 d l = json_value f2 d l) ∧
  (∀ d l, (2 * length l < f1)%nat → (2 * length l < f2)%nat → json_members f1 d l = json_members f2 d l) ∧
  (∀ d l, (2 * length l + 1 < f1)%nat → (2 * length l + 1 < f2)%nat →
     json_elements f1 d l = json_elements f2 d l).
Proof.
  revert f2. induction f1 as [|f1 IH]; [intros f2; split_and!; intros; lia|].
  intros [|f2]; [split_and!; intros; lia|]. destruct (IH f2) as (IHv & IHm & IHe).
  pose proof (parser_shrinks f1) as (Sv & _ & _). split_and!; intros d l H1 H2.
  - cbn [json_value]. pose proof (skip_space_le l) as Hs. destruct (skip_space l) as [|a l1]; [done|].
    simpl in Hs. destruct d as [|d]; [done|].
    rewrite (IHm d l1), (IHe d l1) by lia. done.
  - cbn [json_members]. pose proof (skip_space_le l) as Hs.
    destruct (is_char _ (skip_space l)) as [l1|] eqn:E1; cbn; [|done]. apply is_char_shrinks in E1.
    destruct (unquote l1) as [[k l2]|] eqn:E2; cbn; [|done]. apply unquote_shrinks in E2.
    pose proof (skip_space_le l2) as Hs2.
    destruct (is_char _ (skip_space l2)) as [l3|] eqn:E3; cbn; [|done]. apply is_char_shrinks in E3.
    rewrite <-(IHv d l3) by lia.
    destruct (json_value f1 d l3) as [[v l4]|] eqn:E4; cbn; [|done]. apply Sv in E4.
    pose proof (skip_space_le l4) as Hs4. destruct (is_char "}"%char _); [done|].
    destruct (is_char ","%char (skip_space l4)) as [l5|] eqn:E5; cbn; [|done]. apply is_char_shrinks in E5.
    by rewrite (IHm d l5) by lia.
  - cbn [json_elements]. rewrite <-(IHv d l) by lia.
    destruct (json_value f1 d l) as [[v l4]|] eqn:E4; cbn; [|done]. apply Sv in E4.
    pose proof (skip_space_le l4) as Hs4. destruct (is_char "]"%char _); [done|].
    destruct (is_char ","%char (skip_space l4)) as [l5|] eqn:E5; cbn; [|done]. apply is_char_shrinks in E5.
    by rewrite (IHe d l5) by lia.
Qed.

(** ** Round trip: strings *)
Definition below_128 : list N := N.of_nat <$> seq 0 128.
Lemma below_128_ind (P : N → bool) :
  forallb P below_128 = true → ∀ a, (code a <? 128)%N = true → P (code a) = true.
Proof.
  rewrite forallb_forall. intros HP a Ha%N.ltb_lt. apply HP, list_elem_of_In.
  unfold below_128. apply list_elem_of_fmap. exists (N.to_nat (code a)).
  split; [lia|]. apply elem_of_seq. lia.
Qed.

(** The three shapes of an escaped byte, each of which reads back as the byte. *)
Definition escape_ok (n : N) : bool :=
  match escape_ascii (byte n) with
  | [x] => bool_decide (x = byte n) && (32 <=? n)%N && negb (n =? 34)%N && negb (n =? 92)%N
  | [b; e] => (code b =? 92)%N && negb (code e =? 117)%N && bool_decide (simple_escape e = Some (byte n))
  | [b; u; h1; h2; h3; h4] =>
      (code b =? 92)%N && (code u =? 117)%N && bool_decide (u4 h1 h2 h3 h4 = Some n)
  | _ => false
  end.
Lemma escape_ascii_ok a : (code a <? 128)%N = true → escape_ok (code a) = true.
Proof. revert a. apply below_128_ind. by vm_compute. Qed.

Definition surrogate (r : N) : bool := (55296 <=? r)%N && (r <=? 56319)%N.
Lemma unquote_u4 b u h1 h2 h3 h4 r k :
  (code b =? 92)%N = true → (code u =? 117)%N = true → u4 h1 h2 h3 h4 = Some r → surrogate r = false →
  unquote (b :: u :: h1 :: h2 :: h3 :: h4 :: k) = prepend (utf8_encode r) (unquote k).
Proof.
  intros Hb Hu Hr Hs. cbn [unquote]. apply N.eqb_eq in Hb as Eb. rewrite Hb, Hu, Hr, Eb. simpl.
  destruct k as [|x1 [|x2 [|x3 [|x4 [|x5 [|x6 k]]]]]]; try done.
  assert ((if (code x1 =? 92)%N && (code x2 =? 117)%N then s ← u4 x3 x4 x5 x6; surrogate_pair r s
           else None) = None) as ->; [|done].
  case_match; [|done]. destruct (u4 x3 x4 x5 x6) as [s|]; simpl; [|done].
  unfold surrogate_pair, surrogate in *. by rewrite Hs.
Qed.

Lemma unquote_ascii a k : (code a <? 128)%N = true →
  unquote (escape_ascii a ++ k) = prepend [a] (unquote k).
Proof.
  intros Ha. pose proof (escape_ascii_ok a Ha) as Hok. unfold escape_ok in Hok.
  rewrite byte_code in Hok. destruct (escape_ascii a) as [|b [|e [|h1 [|h2 [|h3 [|h4 [|]]]]]]]; try done.
  - apply andb_true_iff in Hok as [[[Hx H32]%andb_true_iff H34]%andb_true_iff H92].
    apply bool_decide_eq_true in Hx as ->. cbn [app unquote].
    apply negb_true_iff in H34 as ->, H92 as ->. rewrite Ha.
    destruct (N.ltb_spec (code a) 32); [apply N.leb_le in H32; lia|done].
  - apply andb_true_iff in Hok as [[Hb He]%andb_true_iff Hs]. apply bool_decide_eq_true in Hs.
    cbn [app unquote]. apply N.eqb_eq in Hb as Eb. rewrite Hb, Eb. simpl.
    apply negb_true_iff in He as ->. by rewrite Hs.
  - apply andb_true_iff in Hok as [[Hb Hu]%andb_true_iff Hr]. apply bool_decide_eq_true in Hr.
    apply N.ltb_lt in Ha as Hlt. cbn [app].
    rewrite (unquote_u4 _ _ _ _ _ _ _ _ Hb Hu Hr).
    + unfold utf8_encode. by rewrite Ha, byte_code.
    + unfold surrogate. destruct (N.leb_spec 55296 (code a)); [lia|done].
Qed.

Ltac ranges := unfold seq2, seq3, seq4, cont, in_range in *;
  repeat match goal with
  | H : (_ && _) = true |- _ => apply andb_true_iff in H as [? ?]
  | H : (_ || _) = true |- _ => apply orb_true_iff in H as [?|?]
  | H : (_ <=? _)%N = true |- _ => apply N.leb_le in H
  | H : (_ =? _)%N = true |- _ => apply N.eqb_eq in H
  end.
Lemma seq2_lead a b : seq2 a b = true → (128 ≤ code a < 224)%N.
Proof. intros. ranges; lia. Qed.
Lemma seq3_lead a b c : seq3 a b c = true → (224 ≤ code a < 240)%N.
Proof. intros. ranges; lia. Qed.
Lemma seq4_lead a b c d : seq4 a b c d = true → (240 ≤ code a)%N.
Proof. intros. ranges; lia. Qed.
Lemma not_seq2 a b : (224 ≤ code a)%N → seq2 a b = false.
Proof. intros Ha. apply not_true_is_false. intros ?%seq2_lead. lia. Qed.
Lemma not_seq3 a b c : (240 ≤ code a)%N → seq3 a b c = false.
Proof. intros Ha. apply not_true_is_false. intros ?%seq3_lead. lia. Qed.

(** The tests that single out a byte above 128. *)
Lemma high_byte a : (128 ≤ code a)%N →
  (code a =? 34)%N = false ∧ (code a =? 92)%N = false ∧ (code a <? 32)%N = false ∧
  (code a <? 128)%N = false.
Proof. intros Ha. rewrite !N.eqb_neq, !N.ltb_ge. lia. Qed.

(** [utf8.ValidString] *)
Fixpoint utf8_ValidString (l : list ascii) : bool :=
  match l with
  | [] => true
  | a :: l1 =>
      if (code a <? 128)%N then utf8_ValidString l1 else
      match l1 with
      | [] => false
      | b :: l2 =>
          if seq2 a b then utf8_ValidString l2 else
          match l2 with
          | [] => false
          | c :: l3 =>
              if seq3 a b c then utf8_ValidString l3 else
              match l3 with
              | [] => false
              | d :: l4 => seq4 a b c d && utf8_ValidString l4
              end
          end
      end
  end.
Lemma utf8_ValidString_sound l : utf8_ValidString l = true → utf8 l.
Proof.
  revert l. fix IH 1. intros [|a l1]; [constructor|]. cbn [utf8_ValidString].
  destruct (code a <? 128)%N eqn:Ha; [intros H; apply utf8_1; [done|by apply IH]|].
  destruct l1 as [|b l2]; [done|].
  destruct (seq2 a b) eqn:H2; [intros H; apply utf8_2; [done|by apply IH]|].
  destruct l2 as [|c l3]; [done|].
  destruct (seq3 a b c) eqn:H3; [intros H; apply utf8_3; [done|by apply IH]|].
  destruct l3 as [|d l4]; [done|].
  intros [H4 H]%andb_true_iff. apply utf8_4; [done|by apply IH].
Qed.
Lemma utf8_ValidString_complete l : utf8 l → utf8_ValidString l = true.
Proof.
  induction 1 as [|a l Ha _ IH|a b l Hs _ IH|a b c l Hs _ IH|a b c d l Hs _ IH]; cbn [utf8_ValidString].
  - done.
  - by rewrite Ha.
  - pose proof (seq2_lead _ _ Hs). destruct (high_byte a) as (_ & _ & _ & ->); [lia|]. by rewrite Hs.
  - pose proof (seq3_lead _ _ _ Hs). destruct (high_byte a) as (_ & _ & _ & ->); [lia|].
    by rewrite not_seq2, Hs by lia.
  - pose proof (seq4_lead _ _ _ _ Hs). destruct (high_byte a) as (_ & _ & _ & ->); [lia|].
    by rewrite not_seq2, not_seq3, Hs by lia.
Qed.
#[export] Instance valid_utf8_dec s : Decision (valid_utf8 s).
Proof.
  destruct (utf8_ValidString (bytes s)) eqn:E; [left|right].
  - by apply utf8_ValidString_sound.
  - intros Hv. apply utf8_ValidString_complete in Hv. congruence.
Defined.

Lemma unquote_line a b c k :
  (code a =? 226)%N && (code b =? 128)%N && in_range 168 169 c = true →
  unquote (escape_line c ++ k) = prepend [a; b; c] (unquote k).
Proof.
  intros H. ranges. assert (a = byte 226) as -> by (by rewrite <-(byte_code a); f_equal).
  assert (b = byte 128) as -> by (by rewrite <-(byte_code b); f_equal).
  assert (c = byte 168 ∨ c = byte 169) as [-> | ->].
  { rewrite <-(byte_code c). assert (code c = 168 ∨ code c = 169)%N as [-> | ->] by lia; auto. }
  - unfold escape_line; cbn [app]. by rewrite (unquote_u4 _ _ _ _ _ _ 8232 k).
  - unfold escape_line; cbn [app]. by rewrite (unquote_u4 _ _ _ _ _ _ 8233 k).
Qed.

Lemma unquote_escape l rest : utf8 l → unquote (escape l ++ dquote :: rest) = Some (l, rest).
Proof.
  unfold escape. induction 1 as [|a l Ha _ IH|a b l Hs _ IH|a b c l Hs _ IH|a b c d l Hs _ IH].
  - done.
  - cbn [map_runes]. rewrite Ha, <-app_assoc, unquote_ascii by done. by rewrite IH.
  - destruct (high_byte a) as (E1 & E2 & E3 & E4); [apply seq2_lead in Hs; lia|].
    cbn [map_runes]. rewrite E4, Hs. cbn [app unquote]. by rewrite E1, E2, E3, E4, Hs, IH.
  - pose proof (seq3_lead _ _ _ Hs). destruct (high_byte a) as (E1 & E2 & E3 & E4); [lia|].
    cbn [map_runes]. rewrite E4, not_seq2, Hs, <-app_assoc by lia. case_match eqn:El.
    + rewrite (unquote_line a b c) by done. by rewrite IH.
    + cbn [app unquote]. by rewrite E1, E2, E3, E4, not_seq2, Hs, IH by lia.
  - pose proof (seq4_lead _ _ _ _ Hs). destruct (high_byte a) as (E1 & E2 & E3 & E4); [lia|].
    cbn [map_runes]. rewrite E4, not_seq2, not_seq3, Hs by lia.
    cbn [app unquote]. by rewrite E1, E2, E3, E4, not_seq2, not_seq3, Hs, IH by lia.
Qed.

(** ** Round trip: values

    [plain]: a value of valid strings and 64-bit integers. *)
Fixpoint plain (j : json) : Prop :=
  match j with
  | JNull | JBool _ => True
  | JNum lit => ∃ z, in_int64 z ∧ lit = FormatInt z
  | JStr s => valid_utf8 s
  | JArr l => foldr (λ v P, plain v ∧ P) True l
  | JObj ms => foldr (λ '(k, v) P, (valid_utf8 k ∧ plain v) ∧ P) True ms
  end.
Fixpoint height (j : json) : nat :=
  match j with
  | JArr l => S (foldr (λ v n, height v `max` n) O l)
  | JObj ms => S (foldr (λ '(_, v) n, height v `max` n) O ms)
  | _ => O
  end%nat.

Section json_induction.
Variable P : json → Prop.
Hypothesis Hnull : P JNull.
Hypothesis Hbool : ∀ b, P (JBool b).
Hypothesis Hnum : ∀ s, P (JNum s).
Hypothesis Hstr : ∀ s, P (JStr s).
Hypothesis Harr : ∀ l, Forall P l → P (JArr l).
Hypothesis Hobj : ∀ ms, Forall (λ m, P m.2) ms → P (JObj ms).
Fixpoint json_ind' (j : json) : P j :=
  match j with
  | JNull => Hnull
  | JBool b => Hbool b
  | JNum s => Hnum s
  | JStr s => Hstr s
  | JArr l => Harr l ((fix go l : Forall P l :=
      match l with [] => Forall_nil_2 _ | x :: l => Forall_cons_2 _ _ _ (json_ind' x) (go l) end) l)
  | JObj ms => Hobj ms ((fix go ms : Forall (λ m, P m.2) ms :=
      match ms with
      | [] => Forall_nil_2 _
      | m :: ms => Forall_cons_2 _ _ _ (json_ind' m.2) (go ms)
      end) ms)
  end.
End json_induction.

Lemma plain_JArr l : plain (JArr l) ↔ Forall plain l.
Proof. simpl. induction l as [|v l IH]; simpl; [by rewrite Forall_nil|]. by rewrite Forall_cons, IH. Qed.
Lemma plain_JObj ms : plain (JObj ms) ↔ Forall (λ m, valid_utf8 m.1 ∧ plain m.2) ms.
Proof.
  simpl. induction ms as [|[k v] ms IH]; simpl; [by rewrite Forall_nil|]. by rewrite Forall_cons, IH.
Qed.

Lemma skip_delim a l : json_space a = false → skip_space (a :: l) = a :: l.
Proof. intros H. simpl. by rewrite H. Qed.
Lemma is_char_same a l : is_char a (a :: l) = Some l.
Proof. simpl. by rewrite bool_decide_true. Qed.
Lemma is_char_other a b l : a ≠ b → is_char a (b :: l) = None.
Proof. intros H. simpl. by rewrite bool_decide_false. Qed.

(** Integers between the delimiters of a document. *)
Definition delimited (rest : list ascii) : Prop :=
  match rest with [] => True | a :: _ => a = ","%char ∨ a = "]"%char ∨ a = "}"%char end.
Lemma span_digits_delimited ds rest : Forall (λ a, isDigit a = true) ds → delimited rest →
  span_digits (ds ++ rest) = (ds, rest).
Proof.
  intros Hds Hr. induction Hds as [|a l Ha Hl IH]; simpl; [|by rewrite Ha, IH].
  destruct rest as [|a rest]; [done|]. by destruct Hr as [->|[->| ->]].
Qed.
Lemma scan_tail rest : delimited rest → scan_frac rest = Some ([], rest) ∧ scan_exp rest = Some ([], rest).
Proof. destruct rest as [|a rest]; [done|]. by intros [->|[->| ->]]. Qed.
Lemma scan_decimal ds rest : decimal ds → delimited rest → scan_int (ds ++ rest) = Some (ds, rest).
Proof.
  intros [->|[Hds (a & l & -> & Ha)]] Hr; [done|]. cbn [app scan_int].
  rewrite bool_decide_false by done. unfold some_digits.
  change (a :: l ++ rest) with ((a :: l) ++ rest). by rewrite span_digits_delimited.
Qed.
(** A decimal starts like no other value. *)
Lemma decimal_head ds : decimal ds → ∃ a l, ds = a :: l ∧ isDigit a = true.
Proof.
  intros [->|[Hds (a & l & -> & _)]]; [by eexists _, _|]. exists a, l.
  by apply Forall_cons in Hds as [? _].
Qed.
Lemma number_head z rest : in_int64 z →
  ∃ a l, bytes (FormatInt z) ++ rest = a :: l ∧ (a = "-"%char ∨ isDigit a = true).
Proof.
  intros Hz. destruct (FormatInt_shape z Hz) as (ds & -> & Hd).
  apply decimal_head in Hd as (a & l & -> & Ha).
  destruct (z <? 0); [exists "-"%char|exists a]; simpl; eexists; by eauto.
Qed.
Lemma scan_number_int z rest : in_int64 z → delimited rest →
  scan_number (bytes (FormatInt z) ++ rest) = Some (bytes (FormatInt z), rest).
Proof.
  intros Hz Hr. destruct (FormatInt_shape z Hz) as (ds & -> & Hd).
  destruct (scan_tail rest Hr) as [Hf He]. unfold scan_number. destruct (z <? 0).
  - rewrite <-app_assoc. cbn [app]. rewrite is_char_same, scan_decimal by done.
    cbn. rewrite Hf. cbn. rewrite He. cbn. by rewrite app_nil_r.
  - cbn [app]. assert (is_char "-"%char (ds ++ rest) = None) as ->.
    { apply decimal_head in Hd as (a & l & -> & Ha). cbn. rewrite bool_decide_false; [done|]. by intros <-. }
    rewrite scan_decimal by done. cbn. rewrite Hf. cbn. rewrite He. cbn. by rewrite app_nil_r.
Qed.

Lemma digit_no_space a : isDigit a = true → json_space a = false.
Proof.
  unfold isDigit, json_space. intros [H1%N.leb_le H2%N.leb_le]%andb_true_iff.
  rewrite !orb_false_iff, !N.eqb_neq. lia.
Qed.
(** The first byte of a value. *)
Lemma encode_head j : plain j → ∃ a k, encode j = a :: k ∧
  json_space a = false ∧ a ≠ "]"%char ∧ a ≠ "}"%char.
Proof.
  destruct j as [|[]|lit|s|l|ms]; simpl; intros H; try (eexists _, _; split_and!; done).
  destruct H as (z & Hz & ->). destruct (number_head z [] Hz) as (a & k & E & Ha).
  rewrite app_nil_r in E. exists a, k. split; [done|]. destruct Ha as [->|Ha]; [by split_and!|].
  split_and!; [|intros ->; by vm_compute in Ha..].
  by apply digit_no_space.
Qed.

(** [reads f x rest]: with fuel at least [n], [f] reads [x] and leaves [rest]. *)
Definition reads {A} (f : nat → option (A * list ascii)) (x : A) (rest : list ascii) : Prop :=
  ∃ n, ∀ m, (n ≤ m)%nat → f m = Some (x, rest).

Lemma join_cons x y l rest :
  join (x :: y :: l) ++ rest = x ++ ","%char :: join (y :: l) ++ rest.
Proof. simpl. rewrite <-!app_assoc. simpl. by rewrite <-?app_assoc. Qed.

Lemma reads_elements d v vs rest :
  Forall plain (v :: vs) →
  Forall (λ v, ∀ rest, delimited rest →
    reads (λ n, json_value n d (encode v ++ rest)) v rest) (v :: vs) →
  reads (λ n, json_elements n d (join (map encode (v :: vs)) ++ "]"%char :: rest)) (v :: vs) rest.
Proof.
  revert v. induction vs as [|w vs IH]; intros v Hp Hv.
  - apply Forall_cons in Hv as [Hv _]. destruct (Hv ("]"%char :: rest)) as [n Hn]; [simpl; auto|]. exists (S n).
    intros [|m] Hm; [lia|]. cbn [json_elements map join concat]. rewrite app_nil_r, Hn by lia. done.
  - apply Forall_cons in Hp as [Hpv Hp]. apply Forall_cons in Hv as [Hv Hvs].
    destruct (IH w Hp Hvs) as [n1 H1].
    destruct (Hv (","%char :: join (map encode (w :: vs)) ++ "]"%char :: rest)) as [n2 H2]; [simpl; auto|].
    exists (S (n1 `max` n2)). intros [|m] Hm; [lia|]. cbn [json_elements].
    rewrite !map_cons, join_cons, <-map_cons.
    rewrite H2 by lia. cbn -[join map json_elements skip_space is_char].
    rewrite skip_delim, is_char_other, is_char_same by done.
    cbn -[join map json_elements]. rewrite H1 by lia. done.
Qed.

Lemma unquote_encode_string s rest : valid_utf8 s →
  ∃ k, encode_string s ++ rest = dquote :: k ∧ unquote k = Some (bytes s, rest).
Proof.
  intros Hs. unfold encode_string. exists (escape (bytes s) ++ dquote :: rest).
  split; [by rewrite <-!app_assoc|by apply unquote_escape].
Qed.

Definition encode_member (m : string * json) : list ascii :=
  encode_string m.1 ++ [":"%char] ++ encode m.2.
Lemma encode_members ms :
  map (λ '(k, v), encode_string k ++ [":"%char] ++ encode v) ms = map encode_member ms.
Proof. induction ms as [|[k v] ms IH]; [done|]. by rewrite !map_cons, IH. Qed.

Lemma reads_member n d k v rest1 rest2 :
  valid_utf8 k → json_value n d (encode v ++ rest1) = Some (v, rest1) → rest1 = rest2 →
  json_members (S n) d (encode_member (k, v) ++ rest1) =
    match is_char "}"%char (skip_space rest2) with
    | Some l => Some ([(k, v)], l)
    | None =>
        l ← is_char ","%char (skip_space rest2); '(ms, l) ← json_members n d l; Some ((k, v) :: ms, l)
    end.
Proof.
  intros Hk Hv <-. unfold encode_member. rewrite <-!app_assoc. cbn [app fst snd].
  destruct (unquote_encode_string k (":"%char :: encode v ++ rest1) Hk) as (l & -> & Hl).
  cbn [json_members]. rewrite skip_delim, is_char_same by done.
  cbn -[json_value json_members skip_space is_char]. rewrite Hl. cbn -[json_value json_members skip_space is_char].
  rewrite skip_delim, is_char_same by done. cbn -[json_value json_members skip_space is_char].
  rewrite Hv. cbn -[json_members skip_space is_char]. by rewrite of_bytes_bytes.
Qed.

Lemma reads_members d m ms rest :
  Forall (λ m, valid_utf8 m.1 ∧ plain m.2) (m :: ms) →
  Forall (λ m, ∀ rest, delimited rest →
    reads (λ n, json_value n d (encode m.2 ++ rest)) m.2 rest) (m :: ms) →
  reads (λ n, json_members n d (join (map encode_member (m :: ms)) ++ "}"%char :: rest)) (m :: ms) rest.
Proof.
  revert m. induction ms as [|m' ms IH]; intros [k v] Hp Hv.
  - apply Forall_cons in Hv as [Hv _]. apply Forall_cons in Hp as [[Hk Hp] _].
    destruct (Hv ("}"%char :: rest)) as [n Hn]; [simpl; auto|]. exists (S n). intros [|m] Hm; [lia|].
    cbn [map join concat]. rewrite app_nil_r. by rewrite (reads_member m d k v _ _ Hk (Hn m ltac:(lia)) eq_refl).
  - apply Forall_cons in Hp as [[Hk Hpv] Hp]. apply Forall_cons in Hv as [Hv Hvs].
    destruct (IH m' Hp Hvs) as [n1 H1].
    set (r := ","%char :: join (map encode_member (m' :: ms)) ++ "}"%char :: rest).
    destruct (Hv r) as [n2 H2]; [simpl; auto|].
    exists (S (n1 `max` n2)). intros [|n] Hm; [lia|].
    rewrite !map_cons, join_cons, <-map_cons. fold r.
    rewrite (reads_member n d k v r r Hk (H2 n ltac:(lia)) eq_refl). unfold r.
    rewrite skip_delim, is_char_other, is_char_same by done.
    cbn -[join map json_members]. rewrite H1 by lia. done.
Qed.

Lemma foldr_max_le {A} (f : A → nat) l n :
  (foldr (λ x m, f x `max` m) O l ≤ n)%nat → Forall (λ x, (f x ≤ n)%nat) l.
Proof. induction l as [|x l IH]; simpl; intros H; constructor; [lia|apply IH; lia]. Qed.
Lemma join_map_head {A} (f : A → list ascii) x l rest a k :
  f x = a :: k → ∃ k', join (map f (x :: l)) ++ rest = a :: k'.
Proof. simpl. intros ->. by eexists. Qed.

Lemma reads_number z d rest : in_int64 z → delimited rest →
  reads (λ n, json_value n d (encode (JNum (FormatInt z)) ++ rest)) (JNum (FormatInt z)) rest.
Proof.
  intros Hz Hrest. exists 1%nat. intros [|m] Hm; [lia|]. cbn [encode].
  pose proof (scan_number_int z rest Hz Hrest) as Hs.
  destruct (number_head z rest Hz) as (a & k & E & Ha). rewrite E in *. clear E.
  assert (json_space a = false ∧ a ∉ [dquote; "{"; "["; "n"; "t"; "f"]%char) as [Hsp Hne].
  { destruct Ha as [->|Ha]; [split; [done|by vm_compute; set_solver]|].
    split; [by apply digit_no_space|].
    unfold isDigit in Ha. apply andb_true_iff in Ha as [H1%N.leb_le H2%N.leb_le].
    intros Hin. repeat (apply elem_of_cons in Hin as [->|Hin]; [first [by apply H2|by apply H1]|]).
    by apply elem_of_nil in Hin. }
  cbn [json_value]. rewrite skip_delim by done.
  repeat (rewrite bool_decide_false by (intros ->; apply Hne; set_solver)).
  rewrite Hs. cbn. by rewrite of_bytes_bytes.
Qed.
(** The values of an array, or of the members of an object, read back. *)
Definition reads_back (v : json) : Prop := plain v → ∀ d rest, (height v ≤ d)%nat → delimited rest →
  reads (λ n, json_value n d (encode v ++ rest)) v rest.
Lemma reads_array l : Forall reads_back l → reads_back (JArr l).
Proof.
  intros IH Hp d rest Hd Hrest.
  apply plain_JArr in Hp. simpl in Hd. destruct d as [|d]; [lia|].
  destruct l as [|v l]; [by exists 1%nat; intros [|m] Hm; [lia|]|].
  apply le_S_n, foldr_max_le in Hd.
  destruct (reads_elements d v l rest Hp) as [n Hn].
  { rewrite Forall_forall in IH, Hp, Hd |- *. intros x Hx r. apply IH; auto. }
  exists (S n). intros [|m] Hm; [lia|]. specialize (Hn m ltac:(lia)).
  destruct (encode_head v) as (a & k & Ha & Hsp & Hb & _); [by apply Forall_cons in Hp as [? _]|].
  destruct (join_map_head encode v l ("]"%char :: rest) a k Ha) as [k' Hk'].
  cbn [encode]. rewrite <-!app_assoc. cbn [app]. rewrite Hk' in *. cbn [json_value].
  rewrite (skip_delim "["%char) by done. do 2 rewrite bool_decide_false by done.
  rewrite bool_decide_true, skip_delim, is_char_other by done. by rewrite Hn.
Qed.
Lemma reads_object ms : Forall (λ m, reads_back m.2) ms → reads_back (JObj ms).
Proof.
  intros IH Hp d rest Hd Hrest.
  apply plain_JObj in Hp. simpl in Hd. destruct d as [|d]; [lia|].
  destruct ms as [|mm ms]; [by exists 1%nat; intros [|m] Hm; [lia|]|].
  apply le_S_n in Hd.
  assert (Forall (λ m : string * json, (height m.2 ≤ d)%nat) (mm :: ms)) as Hd'.
  { apply (foldr_max_le (λ m, height m.2)). etrans; [|exact Hd].
    clear. induction (mm :: ms) as [|[k v] l IHl]; simpl; lia. }
  destruct (reads_members d mm ms rest Hp) as [n Hn].
  { rewrite Forall_forall in IH, Hp, Hd' |- *. intros x Hx r. apply IH; auto. by apply Hp. }
  exists (S n). intros [|m] Hm; [lia|]. specialize (Hn m ltac:(lia)).
  destruct (join_map_head encode_member mm ms ("}"%char :: rest) dquote
    (escape (bytes mm.1) ++ [dquote] ++ [":"%char] ++ encode mm.2)) as [k' Hk'].
  { unfold encode_member, encode_string. by rewrite <-!app_assoc. }
  cbn [encode]. rewrite encode_members, <-!app_assoc. cbn [app]. rewrite Hk' in *. cbn [json_value].
  rewrite (skip_delim "{"%char) by done. rewrite bool_decide_false by done.
  rewrite bool_decide_true, skip_delim, is_char_other by done. by rewrite Hn.
Qed.
Lemma value_encode j : reads_back j.
Proof.
  induction j as [|b|lit|s|l IH|ms IH] using json_ind'; [..|by apply reads_array|by apply reads_object];
    intros Hp d rest Hd Hrest.
  - exists 1%nat. by intros [|m] Hm; [lia|].
  - exists 1%nat. by intros [|m] Hm; [lia|destruct b].
  - destruct Hp as (z & Hz & ->). by apply reads_number.
  - exists 1%nat. intros [|m] Hm; [lia|]. simpl encode.
    destruct (unquote_encode_string s rest Hp) as (k & -> & Hk). cbn [json_value].
    rewrite skip_delim by done. rewrite bool_decide_true by done. rewrite Hk. cbn.
    by rewrite of_bytes_bytes.
Qed.

(** What the encoder writes, the parser reads back. *)
Lemma parse_Marshal j :
  plain j → (height j ≤ maxNestingDepth)%nat → parse (Marshal j) = Some j.
Proof.
  intros Hp Hh. unfold parse, Marshal. rewrite bytes_of_bytes.
  destruct (value_encode j Hp maxNestingDepth [] Hh I) as [n Hn]. rewrite app_nil_r in Hn.
  set (f := S (2 * String.length (of_bytes (encode j)))).
  assert (2 * length (encode j) < f)%nat as Hf
    by (unfold f; rewrite <-length_bytes, bytes_of_bytes; lia).
  destruct (parser_enough f (n `max` f)) as [Hv _].
  rewrite (Hv maxNestingDepth (encode j)) by lia. rewrite Hn by lia. done.
Qed.

(** ** Structs with string and byte-slice fields

    A nil byte slice is [None]. *)
Definition gobytes : Type := option string.

(** [foldName] against ASCII names: ASCII letters, and the two runes that fold
    to one, U+017F and U+212A. *)
Fixpoint fold_bytes (l : list ascii) : list ascii :=
  match l with
  | [] => []
  | a :: l1 =>
      if in_range 97 122 a then byte (code a - 32) :: fold_bytes l1 else
      match l1 with
      | b :: l2 =>
          if (code a =? 197)%N && (code b =? 191)%N then byte 83 :: fold_bytes l2 else
          match l2 with
          | c :: l3 => if (code a =? 226)%N && (code b =? 132)%N && (code c =? 170)%N
                       then byte 75 :: fold_bytes l3 else a :: fold_bytes l1
          | [] => a :: fold_bytes l1
          end
      | [] => a :: fold_bytes l1
      end
  end.
(** The field a key addresses: by its exact name, else case-insensitively. *)
Definition lookup_field (names : list string) (key : string) : option string :=
  if bool_decide (key ∈ names) then Some key
  else list_find (λ n, fold_bytes (bytes n) = fold_bytes (bytes key)) names ≫= λ x, Some x.2.

(** The standard alphabet of base64 instead of the URL one. *)
Definition to_std (a : ascii) : ascii :=
  if bool_decide (a = "-"%char) then "+"%char else if bool_decide (a = "_"%char) then "/"%char else a.
Definition from_std (a : ascii) : ascii :=
  if bool_decide (a = "+"%char) then "-"%char
  else if bool_decide (a = "/"%char) then "_"%char
  else if bool_decide (a = "-"%char ∨ a = "_"%char) then "!"%char else a.
Definition StdEncoding_EncodeToString (s : string) : string :=
  of_bytes (to_std <$> bytes (EncodeToString s)).
Definition StdEncoding_DecodeString (s : string) : option string :=
  DecodeString (of_bytes (from_std <$> bytes s)).

(** [d.saveError] keeps the first error of a document; decoding goes on. *)
Definition save (e : option error) (e' : option error) : option error :=
  match e with Some _ => e | None => e' end.

Definition decode_string (v : json) (s : string) : option error * string :=
  match v with
  | JStr s' => (None, s')
  | JNull => (None, s)
  | _ => (Some JSONUnmarshalTypeError, s)
  end.
(** One element of a JSON array decoded into a byte. *)
Definition decode_byte (v : json) : option error * ascii :=
  match v with
  | JNull => (None, byte 0)
  | JNum lit =>
      match Atoi lit with
      | Some z => if (0 <=? z) && (z <? 256) && negb (contains "-"%char lit)
                  then (None, byte (Z.to_N z)) else (Some JSONUnmarshalTypeError, byte 0)
      | None => (Some JSONUnmarshalTypeError, byte 0)
      end
  | _ => (Some JSONUnmarshalTypeError, byte 0)
  end.
Definition decode_gobytes (v : json) (b : gobytes) : option error * gobytes :=
  match v with
  | JStr s => match StdEncoding_DecodeString s with
              | Some x => (None, Some x)
              | None => (Some (Opaque "illegal base64 data"), b)
              end
  | JNull => (None, None)
  | JArr l => let ds := map decode_byte l in
              (foldl save None ds.*1, Some (of_bytes ds.*2))
  | _ => (Some JSONUnmarshalTypeError, b)
  end.

Section unmarshal.
Context {S : Type} (names : list string) (set : string → json → S → option error * S).
Definition decode_member (acc : option error * S) (m : string * json) : option error * S :=
  match lookup_field names m.1 with
  | None => acc
  | Some n => let '(e, s) := set n m.2 acc.2 in (save acc.1 e, s)
  end.
(** [json.Unmarshal(data, &s)]; a [null] document leaves [s] alone. *)
Definition Unmarshal (data : string) (s : S) : res S :=
  match parse data with
  | None => Err JSONSyntaxError
  | Some JNull => Ok s
  | Some (JObj ms) =>
      match foldl decode_member (None, s) ms with
      | (Some e, _) => Err e
      | (None, s) => Ok s
      end
  | Some _ => Err JSONUnmarshalTypeError
  end.
End unmarshal.

Lemma lookup_field_exact names n : n ∈ names → lookup_field names n = Some n.
Proof. intros H. unfold lookup_field. by rewrite bool_decide_true. Qed.
Lemma decode_member_exact {S} names set (s : S) n v e s' :
  n ∈ names → set n v s = (e, s') → decode_member names set (None, s) (n, v) = (e, s').
Proof.
  intros Hn Hs. unfold decode_member. simpl. rewrite lookup_field_exact by done. by rewrite Hs.
Qed.

(** *** Base64 *)
Lemma from_to_std a : a ≠ "+"%char → a ≠ "/"%char → from_std (to_std a) = a.
Proof.
  intros H1 H2. unfold to_std. case_bool_decide; [by subst|]. case_bool_decide; [by subst|].
  unfold from_std. rewrite !bool_decide_false; [done|tauto|done..].
Qed.
Lemma sextet_char_std n : (n < 64)%N → from_std (to_std (sextet_char n)) = sextet_char n.
Proof.
  intros Hn. apply (bool_decide_eq_true_1 (from_std (to_std (sextet_char n)) = sextet_char n)). revert n Hn.
  apply (below_64_check (λ n, bool_decide (from_std (to_std (sextet_char n)) = sextet_char n))).
  by vm_compute.
Qed.
Lemma StdEncoding_roundtrip s :
  StdEncoding_DecodeString (StdEncoding_EncodeToString s) = Some s.
Proof.
  unfold StdEncoding_DecodeString, StdEncoding_EncodeToString. rewrite bytes_of_bytes.
  rewrite <-list_fmap_compose. etrans; [|apply DecodeString_EncodeToString]. f_equal.
  unfold EncodeToString. rewrite bytes_of_bytes. f_equal.
  pose proof (encode_alphabet (code <$> bytes s) (codes_below_256 s)) as Hall.
  induction Hall as [|a l Ha _ IH]; [done|]. rewrite fmap_cons, IH. f_equal. simpl.
  destruct Ha as [->|(n & Hn & ->)]; [done|by apply sextet_char_std].
Qed.
(** The encoded text is plain ASCII. *)
Lemma std_encoding_valid s : valid_utf8 (StdEncoding_EncodeToString s).
Proof.
  unfold valid_utf8, StdEncoding_EncodeToString, EncodeToString. rewrite !bytes_of_bytes.
  pose proof (encode_alphabet (code <$> bytes s) (codes_below_256 s)) as Hall.
  induction Hall as [|a l Ha _ IH]; [constructor|]. rewrite fmap_cons. apply utf8_1; [|done].
  destruct Ha as [->|(n & Hn & ->)]; [done|]. revert n Hn.
  apply (below_64_check (λ n, (code (to_std (sextet_char n)) <? 128)%N)). by vm_compute.
Qed.
