(* ===== verification/ApiSpec.v ===== *)
(** The embedded OpenAPI document of api.gen.go and how it is decoded and
    loaded.  The document itself is data: a list of chunks of base64 text. *)

From S2P Require Import Prelude GoStrings Errors Json.

(** compress/flate: what reading a compressed text to its end and closing the
    reader answer.  kin-openapi: loading a document, with the function that
    reads external references by path. *)
Class SpecLibraries (T : Type) := {
  flate_ReadFrom : string → res string;
  flate_Close : string → res unit;
  path_Clean : string → string;
  LoadFromData : (string → res string) → string → res T;
}.

Section spec.
Context {T : Type} `{SpecLibraries T}.
Variable swaggerSpec : list string.

Definition decodeSpec : res string :=
  compressed ← match StdEncoding_DecodeString (foldr String.append "" swaggerSpec) with
               | Some c => Ok c
               | None => Err (Wrapped "error base64 decoding spec" (Opaque "illegal base64 data"))
               end;
  doc ← on_error (Wrapped "read flate") (flate_ReadFrom compressed);
  _ ← on_error (Wrapped "close flate reader") (flate_Close compressed);
  Ok doc.
(** Decoded once, when the package is initialised. *)
Definition decodeSpecCached : unit → res string := let data := decodeSpec in λ _, data.
Definition rawSpec : unit → res string := decodeSpecCached.
(** At most one file, resolved to the embedded document. *)
Definition PathToRawSpec (pathToFile : string) : gmap string (unit → res string) :=
  if bool_decide (pathToFile = "") then ∅ else {[pathToFile := rawSpec]}.
(** [ReadFromURIFunc] for the files of [resolvePath]. *)
Definition ReadFromURI (resolvePath : gmap string (unit → res string)) (url : string) : res string :=
  match resolvePath !! path_Clean url with
  | None => Err (Opaque "path not found")
  | Some getSpec => getSpec tt
  end.
Definition GetSpec : res T :=
  specData ← rawSpec tt;
  LoadFromData (ReadFromURI (PathToRawSpec "")) specData.
Definition GetSpecJSON : res string := rawSpec tt.
Definition GetSwagger : res T := GetSpec.
End spec.

(** However the embedded text is cut into chunks, the document that was
    compressed into it is what [GetSpecJSON] returns and [GetSpec] loads, with
    no external file to resolve; a text that does not decode is an error of
    both. *)
Theorem embedded_document `{SpecLibraries T} chunks compressed doc :
  foldr String.append "" chunks = StdEncoding_EncodeToString compressed →
  flate_ReadFrom compressed = Ok doc → flate_Close compressed = Ok tt →
  GetSpecJSON chunks = Ok doc ∧
  (∀ url, ReadFromURI (PathToRawSpec chunks "") url = Err (Opaque "path not found")) ∧
  GetSpec chunks = LoadFromData (ReadFromURI (PathToRawSpec chunks "")) doc.
Proof.
  intros Hc Hr Hcl. assert (rawSpec chunks tt = Ok doc) as Hraw.
  { unfold rawSpec, decodeSpecCached, decodeSpec. rewrite Hc, StdEncoding_roundtrip. cbn. rewrite Hr. cbn.
    by rewrite Hcl. }
  split; [exact Hraw|]. split; [|unfold GetSpec; by rewrite Hraw].
  intros url. unfold ReadFromURI, PathToRawSpec. by rewrite bool_decide_true, lookup_empty by done.
Qed.
Lemma undecodable_document `{SpecLibraries T} chunks e :
  decodeSpec chunks = Err e → GetSpecJSON chunks = Err e ∧ GetSpec chunks = Err e ∧ GetSwagger chunks = Err e.
Proof. intros He. unfold GetSwagger, GetSpec, GetSpecJSON, rawSpec, decodeSpecCached. by rewrite He. Qed.
