(* ===== verification/Uuid.v ===== *)
(** The 16-byte ids the store keys its rows by, and their text form:
    [uuidToString] of internal/adapters/postgres/notification_repository.go.
    Parsing belongs to the pgx library ([pgtype.UUID.Scan]); [PgtypeUUID] is
    its interface and [pgtype_scan] an instance that follows its documentation. *)

From S2P Require Import Prelude GoStrings Errors.

(** [[16]byte], as the big-endian number it holds. *)
Record uuid := mk_uuid { uuid_N : N; uuid_bound : (uuid_N <? 2 ^ 128)%N = true }.

Lemma uuid_eq (u v : uuid) : uuid_N u = uuid_N v → u = v.
Proof.
  destruct u as [a Ha], v as [b Hb]. simpl. intros <-. f_equal. apply (proof_irrel Ha Hb).
Qed.
#[export] Instance uuid_eq_dec : EqDecision uuid.
Proof.
  intros u v. destruct (decide (uuid_N u = uuid_N v)) as [E|E].
  - left. by apply uuid_eq.
  - right. by intros ->.
Defined.

Lemma uuid_of_N_bound n : (n mod 2 ^ 128 <? 2 ^ 128)%N = true.
Proof. apply N.ltb_lt, N.mod_lt. discriminate. Qed.
Definition uuid_of_N (n : N) : uuid := mk_uuid (n mod 2 ^ 128) (uuid_of_N_bound n).

Lemma uuid_of_uuid_N u : uuid_of_N (uuid_N u) = u.
Proof. apply uuid_eq. simpl. apply N.mod_small, N.ltb_lt, uuid_bound. Qed.
#[export] Instance uuid_countable : Countable uuid :=
  inj_countable' uuid_N uuid_of_N uuid_of_uuid_N.
#[export] Instance uuid_inhabited : Inhabited uuid := populate (uuid_of_N 0).

(** ** Hexadecimal digits, most significant first *)
Fixpoint hex_digits (n : nat) (v : N) : list N :=
  match n with O => [] | S n => hex_digits n (v / 16) ++ [(v mod 16)%N] end.
Definition of_digits (l : list N) : N := fold_left (λ acc d, acc * 16 + d)%N l 0%N.

Lemma length_hex_digits n v : length (hex_digits n v) = n.
Proof. revert v. induction n as [|n IH]; intros v; [done|]. simpl. rewrite length_app, IH. simpl. lia. Qed.

Lemma of_hex_digits n v : (v < 16 ^ N.of_nat n)%N → of_digits (hex_digits n v) = v.
Proof.
  revert v. induction n as [|n IH]; intros v Hv.
  - change (v < 1)%N in Hv. change (0%N = v). lia.
  - cbn [hex_digits]. unfold of_digits in *. rewrite fold_left_app, IH.
    + cbn [fold_left]. pose proof (N.div_mod v 16 ltac:(done)). lia.
    + rewrite Nat2N.inj_succ, N.pow_succ_r' in Hv. apply N.Div0.div_lt_upper_bound. lia.
Qed.

Lemma hex_digits_below n v : Forall (λ d, d < 16)%N (hex_digits n v).
Proof.
  revert v. induction n as [|n IH]; intros v; cbn [hex_digits]; [constructor|].
  apply Forall_app_2; [apply IH|]. repeat constructor. by apply N.mod_lt.
Qed.

(** ** Text form *)

(** [%x-%x-%x-%x-%x] over [b[0:4], b[4:6], b[6:8], b[8:10], b[10:16]]: two
    digits a byte. *)
Definition slice (l : list N) (from to : nat) : list ascii := hex_digit <$> take (to - from) (drop from l).
Definition uuid_text (u : uuid) : string :=
  let d := hex_digits 32 (uuid_N u) in
  of_bytes (slice d 0 8 ++ "-"%char :: slice d 8 12 ++ "-"%char :: slice d 12 16
            ++ "-"%char :: slice d 16 20 ++ "-"%char :: slice d 20 32).

(** A [pgtype.UUID]: [None] when not [Valid]. *)
Definition uuidToString (u : option uuid) : res string :=
  match u with
  | None => Err (Opaque "uuid is null")
  | Some u => Ok (uuid_text u)
  end.

(** ** Parsing *)

(** The sentinels this service gives a meaning to; library errors that are not
    named here match none of them. *)
Definition service_sentinels : list sentinel :=
  domain_sentinels ++ port_sentinels ++
  [ErrProviderTransient; ErrOutboundRateLimited; ErrScheduledInPast; LibErrNoRows].
Definition foreign (e : error) : Prop := ∀ s, s ∈ service_sentinels → errors_Is e s = false.

Class PgtypeUUID := UUID_Scan : string → res uuid.
(** [Scan] reads back the canonical text, and its errors are its own. *)
Class PgtypeUUIDLaws `{PgtypeUUID} : Prop := {
  scan_text : ∀ u, UUID_Scan (uuid_text u) = Ok u;
  scan_foreign : ∀ s e, UUID_Scan s = Err e → foreign e;
}.

(** Either 36 characters, of which those at the hyphens' places are dropped, or
    32; then hexadecimal digits of either case. *)
Definition unhex (a : ascii) : option N :=
  let n := code a in
  (if (65 <=? n) && (n <=? 70) then Some (n - 55) else unhex_digit a)%N.
Definition drop_hyphens (l : list ascii) : list ascii :=
  take 8 l ++ take 4 (drop 9 l) ++ take 4 (drop 14 l) ++ take 4 (drop 19 l) ++ drop 24 l.
Definition pgtype_scan_text (s : string) : res uuid :=
  let l := bytes s in
  let l := if bool_decide (length l = 36%nat) then drop_hyphens l else l in
  if bool_decide (length l = 32%nat)
  then match mapM unhex l with
       | Some ds => Ok (uuid_of_N (of_digits ds))
       | None => Err (Opaque "invalid byte")
       end
  else Err (Opaque "cannot parse UUID").
#[export] Instance pgtype_scan : PgtypeUUID := pgtype_scan_text.

Lemma unhex_hex_digit n : (n < 16)%N → unhex (hex_digit n) = Some n.
Proof. revert n. apply below_16_ind. repeat constructor. Qed.

Lemma mapM_unhex ds : Forall (λ d, d < 16)%N ds → mapM unhex (hex_digit <$> ds) = Some ds.
Proof.
  induction 1 as [|d ds Hd _ IH]; [done|]. rewrite fmap_cons. simpl.
  rewrite unhex_hex_digit by done. simpl. by rewrite IH.
Qed.

Lemma length_32_inv {A} (l : list A) : length l = 32%nat →
  ∃ a0 a1 a2 a3 a4 a5 a6 a7 a8 a9 a10 a11 a12 a13 a14 a15 a16 a17 a18 a19 a20 a21 a22 a23 a24
    a25 a26 a27 a28 a29 a30 a31,
  l = [a0; a1; a2; a3; a4; a5; a6; a7; a8; a9; a10; a11; a12; a13; a14; a15; a16; a17; a18; a19;
       a20; a21; a22; a23; a24; a25; a26; a27; a28; a29; a30; a31].
Proof.
  intros Hl. do 32 (destruct l as [|? l]; [discriminate|]). destruct l; [|discriminate].
  repeat eexists.
Qed.

Lemma drop_hyphens_text (d : list N) : length d = 32%nat →
  let t := slice d 0 8 ++ "-"%char :: slice d 8 12 ++ "-"%char :: slice d 12 16
           ++ "-"%char :: slice d 16 20 ++ "-"%char :: slice d 20 32 in
  length t = 36%nat ∧ drop_hyphens t = hex_digit <$> d.
Proof.
  intros Hl.
  destruct (length_32_inv d Hl) as (a0 & a1 & a2 & a3 & a4 & a5 & a6 & a7 & a8 & a9 & a10 & a11 & a12
    & a13 & a14 & a15 & a16 & a17 & a18 & a19 & a20 & a21 & a22 & a23 & a24 & a25 & a26 & a27 & a28
    & a29 & a30 & a31 & ->). by split.
Qed.

#[export] Instance pgtype_scan_laws : PgtypeUUIDLaws.
Proof.
  split.
  - intros u. unfold UUID_Scan, pgtype_scan, pgtype_scan_text, uuid_text. rewrite bytes_of_bytes.
    destruct (drop_hyphens_text (hex_digits 32 (uuid_N u)) (length_hex_digits 32 _)) as [E1 E2].
    cbv zeta. rewrite (bool_decide_true (length _ = 36%nat)) by exact E1. rewrite E2.
    rewrite bool_decide_true by (rewrite length_fmap; apply length_hex_digits).
    rewrite mapM_unhex by apply hex_digits_below.
    rewrite of_hex_digits; [by rewrite uuid_of_uuid_N|].
    pose proof (uuid_bound u) as Hb. apply N.ltb_lt in Hb. exact Hb.
  - intros s e He. unfold UUID_Scan, pgtype_scan, pgtype_scan_text in He.
    repeat case_match; simplify_eq; by intros s'.
Qed.

(** The text form determines the id. *)
Lemma uuid_text_inj `{PgtypeUUIDLaws} u v : uuid_text u = uuid_text v → u = v.
Proof. intros E. pose proof (scan_text u) as Hu. rewrite E, scan_text in Hu. by simplify_eq. Qed.

(** Ids survive the store: the canonical text [uuidToString] renders for
    any 16-byte id parses back to that id, so two ids never share a text. *)
Theorem uuid_roundtrip u v :
  pgtype_scan_text (uuid_text u) = Ok u ∧ (uuid_text u = uuid_text v → u = v) ∧
  String.length (uuid_text u) = 36%nat.
Proof.
  split; [apply (scan_text u)|]. split; [apply uuid_text_inj|].
  unfold uuid_text. rewrite <-length_bytes, bytes_of_bytes.
  apply (proj1 (drop_hyphens_text _ (length_hex_digits 32 (uuid_N u)))).
Qed.
