(* ===== verification/ValueObjects.v ===== *)
(** The string-typed value objects of internal/domain: Channel (channel.go),
    Priority (priority.go), LogEvent (notification_log.go) and Status with its
    state machine (status.go). *)

From S2P Require Import Prelude GoStrings Errors.

(** ** Channel *)
Definition Channel := string.
Definition ChannelSMS : Channel := "sms".
Definition ChannelEmail : Channel := "email".
Definition ChannelPush : Channel := "push".

Definition Channel_IsValid (c : Channel) : bool :=
  bool_decide (c = ChannelSMS) || bool_decide (c = ChannelEmail) || bool_decide (c = ChannelPush).
Definition NewChannel (s : string) : res Channel :=
  let normalised := normalise s in
  if bool_decide (normalised = ChannelSMS) || bool_decide (normalised = ChannelEmail)
     || bool_decide (normalised = ChannelPush)
  then Ok normalised else Err (Sentinel ErrInvalidChannel).

(** ** Priority *)
Definition Priority := string.
Definition PriorityLow : Priority := "low".
Definition PriorityNormal : Priority := "normal".
Definition PriorityHigh : Priority := "high".

Definition Priority_IsValid (p : Priority) : bool :=
  bool_decide (p = PriorityLow) || bool_decide (p = PriorityNormal) || bool_decide (p = PriorityHigh).
Definition NewPriority (s : string) : res Priority :=
  let normalised := normalise s in
  if bool_decide (normalised = PriorityLow) || bool_decide (normalised = PriorityNormal)
     || bool_decide (normalised = PriorityHigh)
  then Ok normalised else Err (Sentinel ErrInvalidPriority).

(** ** LogEvent *)
Definition LogEvent := string.
Definition LogEventCreated : LogEvent := "created".
Definition LogEventQueued : LogEvent := "queued".
Definition LogEventProcessing : LogEvent := "processing".
Definition LogEventDelivered : LogEvent := "delivered".
Definition LogEventRetrying : LogEvent := "retrying".
Definition LogEventFailed : LogEvent := "failed".
Definition LogEventCancelled : LogEvent := "cancelled".

Definition log_events : list LogEvent :=
  [LogEventCreated; LogEventQueued; LogEventProcessing; LogEventDelivered;
   LogEventRetrying; LogEventFailed; LogEventCancelled].
Definition LogEvent_IsValid (e : LogEvent) : bool := bool_decide (e ∈ log_events).
Definition NewLogEvent (s : string) : res LogEvent :=
  let candidate := normalise s in
  if LogEvent_IsValid candidate then Ok candidate else Err (Sentinel ErrInvalidLogEvent).

(** ** Status *)
Definition Status := string.
Definition StatusPending : Status := "pending".
Definition StatusQueued : Status := "queued".
Definition StatusProcessing : Status := "processing".
Definition StatusDelivered : Status := "delivered".
Definition StatusFailed : Status := "failed".
Definition StatusRetrying : Status := "retrying".
Definition StatusCancelled : Status := "cancelled".

Definition statuses : list Status :=
  [StatusPending; StatusQueued; StatusProcessing; StatusDelivered;
   StatusFailed; StatusRetrying; StatusCancelled].

(** The adjacency list of the state machine. *)
Definition validTransitions : gmap Status (list Status) :=
  <[StatusPending := [StatusQueued; StatusCancelled]]>
  (<[StatusQueued := [StatusProcessing; StatusCancelled]]>
  (<[StatusProcessing := [StatusDelivered; StatusFailed; StatusRetrying]]>
  (<[StatusRetrying := [StatusProcessing; StatusCancelled]]> ∅))).

Definition Status_IsValid (s : Status) : bool := bool_decide (s ∈ statuses).
Definition NewStatus (s : string) : res Status :=
  let candidate := normalise s in
  if Status_IsValid candidate then Ok candidate else Err (Sentinel ErrInvalidStatus).
Definition Status_IsTerminal (s : Status) : bool :=
  bool_decide (s = StatusDelivered) || bool_decide (s = StatusFailed)
  || bool_decide (s = StatusCancelled).
Definition Status_CanTransitionTo (s next : Status) : bool :=
  match validTransitions !! s with
  | None => false
  | Some allowed =>
      if negb (Status_IsValid next) then false
      else existsb (λ candidate, bool_decide (candidate = next)) allowed
  end.

(** The state machine as a relation: the specification [Status_CanTransitionTo]
    is checked against. *)
Inductive fsm : Status → Status → Prop :=
| fsm_enqueue : fsm StatusPending StatusQueued
| fsm_cancel_pending : fsm StatusPending StatusCancelled
| fsm_claim_queued : fsm StatusQueued StatusProcessing
| fsm_cancel_queued : fsm StatusQueued StatusCancelled
| fsm_deliver : fsm StatusProcessing StatusDelivered
| fsm_fail : fsm StatusProcessing StatusFailed
| fsm_retry : fsm StatusProcessing StatusRetrying
| fsm_claim_retrying : fsm StatusRetrying StatusProcessing
| fsm_cancel_retrying : fsm StatusRetrying StatusCancelled.
#[export] Hint Constructors fsm : go.

Lemma CanTransitionTo_fsm s next : Status_CanTransitionTo s next = true ↔ fsm s next.
Proof.
  split.
  - unfold Status_CanTransitionTo. destruct (validTransitions !! s) as [l|] eqn:E; [|done].
    destruct (Status_IsValid next); [|done]. simpl.
    intros (x & Hin & ->%bool_decide_eq_true)%existsb_exists.
    unfold validTransitions in E.
    repeat (apply lookup_insert_Some in E as [[<- <-]|[_ E]];
            [simpl in Hin; destruct_or! Hin; subst; constructor|]).
    by rewrite lookup_empty in E.
  - by destruct 1.
Qed.

Lemma terminal_no_successor s next : Status_IsTerminal s = true → ¬ fsm s next.
Proof. destruct 2; by vm_compute in H. Qed.

Lemma fsm_valid s next : fsm s next → s ∈ statuses ∧ next ∈ statuses.
Proof. destruct 1; split; apply (bool_decide_eq_true_1 _); reflexivity. Qed.

(** [processing] is entered only by a claim and never cancelled. *)
Lemma fsm_into_processing s : fsm s StatusProcessing ↔ s = StatusQueued ∨ s = StatusRetrying.
Proof.
  split; [inversion 1; auto|]. intros [->| ->]; constructor.
Qed.

(** ** The parsers

    The four parsers share one shape; [parses] is its specification. *)
Definition parses (consts : list string) (sentinel : sentinel) (parse : string → res string) : Prop :=
  (∀ s c, parse s = Ok c ↔ normalise s = c ∧ c ∈ consts) ∧
  (∀ s e, parse s = Err e ↔ e = Sentinel sentinel ∧ normalise s ∉ consts) ∧
  (∀ c, c ∈ consts → parse c = Ok c).

Lemma parses_intro consts snt parse :
  (∀ s, parse s = if bool_decide (normalise s ∈ consts) then Ok (normalise s) else Err (Sentinel snt)) →
  forallb (λ c, bool_decide (normalise c = c)) consts = true →
  parses consts snt parse.
Proof.
  intros Hp Hc. rewrite forallb_forall in Hc. split_and!.
  - intros s c. rewrite Hp. case_bool_decide; naive_solver.
  - intros s e. rewrite Hp. case_bool_decide; naive_solver.
  - intros c Hin. rewrite Hp.
    assert (normalise c = c) as E.
    { apply (bool_decide_eq_true_1 _), Hc. by apply list_elem_of_In. }
    rewrite E. by rewrite bool_decide_true.
Qed.

Lemma three_consts (a b c s : string) :
  bool_decide (s = a) || bool_decide (s = b) || bool_decide (s = c) = bool_decide (s ∈ [a; b; c]).
Proof.
  apply eq_true_iff_eq. rewrite !orb_true_iff, !bool_decide_eq_true. set_solver.
Qed.

Definition channels : list Channel := [ChannelSMS; ChannelEmail; ChannelPush].
Definition priorities : list Priority := [PriorityLow; PriorityNormal; PriorityHigh].

Lemma Channel_IsValid_spec c : Channel_IsValid c = true ↔ c ∈ channels.
Proof. unfold Channel_IsValid. rewrite three_consts. apply bool_decide_eq_true. Qed.
Lemma Priority_IsValid_spec p : Priority_IsValid p = true ↔ p ∈ priorities.
Proof. unfold Priority_IsValid. rewrite three_consts. apply bool_decide_eq_true. Qed.
Lemma LogEvent_IsValid_spec e : LogEvent_IsValid e = true ↔ e ∈ log_events.
Proof. apply bool_decide_eq_true. Qed.

Lemma NewChannel_parses : parses channels ErrInvalidChannel NewChannel.
Proof. apply parses_intro; [|reflexivity]. intros s. unfold NewChannel. by rewrite three_consts. Qed.
Lemma NewPriority_parses : parses priorities ErrInvalidPriority NewPriority.
Proof. apply parses_intro; [|reflexivity]. intros s. unfold NewPriority. by rewrite three_consts. Qed.
Lemma NewLogEvent_parses : parses log_events ErrInvalidLogEvent NewLogEvent.
Proof. by apply parses_intro. Qed.
Lemma NewStatus_parses : parses statuses ErrInvalidStatus NewStatus.
Proof. by apply parses_intro. Qed.

Lemma NewChannel_valid s c : NewChannel s = Ok c → Channel_IsValid c = true.
Proof. intros [_ H]%(proj1 NewChannel_parses). by apply Channel_IsValid_spec. Qed.
Lemma NewPriority_valid s p : NewPriority s = Ok p → Priority_IsValid p = true.
Proof. intros [_ H]%(proj1 NewPriority_parses). by apply Priority_IsValid_spec. Qed.
#[export] Hint Resolve NewChannel_valid NewPriority_valid : go.

(** The state machine: [CanTransitionTo] accepts exactly the nine edges
    of the documented graph, the terminal statuses are exactly the valid ones
    with no outgoing edge, no status reaches itself in one step, and an
    accepted edge joins valid statuses. *)
Theorem Status_machine :
  (∀ s next, Status_CanTransitionTo s next = true ↔ fsm s next) ∧
  (∀ s, Status_IsTerminal s = true ↔
     Status_IsValid s = true ∧ ∀ next, Status_CanTransitionTo s next = false) ∧
  (∀ s, Status_CanTransitionTo s s = false) ∧
  (∀ s next, Status_CanTransitionTo s next = true → Status_IsValid s = true ∧ Status_IsValid next = true).
Proof.
  split_and!.
  - apply CanTransitionTo_fsm.
  - intros s. split.
    + intros Ht. split.
      * unfold Status_IsTerminal in Ht. rewrite three_consts, bool_decide_eq_true in Ht.
        apply bool_decide_eq_true. unfold statuses. set_solver.
      * intros next. destruct (Status_CanTransitionTo s next) eqn:E; [|done].
        apply CanTransitionTo_fsm in E. by apply terminal_no_successor in E.
    + intros [Hv Hn]. apply bool_decide_eq_true in Hv. unfold statuses in Hv.
      rewrite !elem_of_cons, elem_of_nil in Hv.
      destruct_or! Hv; subst; try done; exfalso.
      * by specialize (Hn StatusQueued).
      * by specialize (Hn StatusProcessing).
      * by specialize (Hn StatusDelivered).
      * by specialize (Hn StatusProcessing).
  - intros s. destruct (Status_CanTransitionTo s s) eqn:E; [|done].
    apply CanTransitionTo_fsm in E. inversion E; subst; discriminate.
  - intros s next [H1 H2]%CanTransitionTo_fsm%fsm_valid.
    split; by apply bool_decide_eq_true.
Qed.

(** The lenient parsers: each of [NewChannel], [NewPriority],
    [NewStatus] and [NewLogEvent] succeeds exactly when the trimmed,
    lower-cased text is one of its constants and returns that constant, fails
    with its own sentinel otherwise, and is the identity on its constants. *)
Theorem value_object_parsers :
  parses channels ErrInvalidChannel NewChannel ∧
  parses priorities ErrInvalidPriority NewPriority ∧
  parses statuses ErrInvalidStatus NewStatus ∧
  parses log_events ErrInvalidLogEvent NewLogEvent.
Proof.
  split_and!;
    [apply NewChannel_parses|apply NewPriority_parses|apply NewStatus_parses|apply NewLogEvent_parses].
Qed.

Example NewStatus_ex : NewStatus " Queued
" = Ok StatusQueued ∧ NewChannel "fax" = Err (Sentinel ErrInvalidChannel).
Proof. by vm_compute. Qed.
