(* ===== verification/Notification.v ===== *)
(** The notification entity (internal/domain/notification.go), its audit-log
    rows (notification_log.go) and the outcome of a provider call
    (delivery_result.go). *)

From S2P Require Import Prelude GoStrings Regex Errors ValueObjects.

Definition NotificationID := string.
Definition BatchID := string.
Definition TemplateID := string.
Definition LogID := string.

(** Go's [any], as JSON values hold it. *)
#[warnings="-register-all"]
Inductive any :=
| ANil | ABool (b : bool) | ANumber (text : string) | AString (s : string)
| AList (l : list any) | AMap (l : list (string * any)).

Definition contentLimits : gmap Channel Z :=
  <[ChannelSMS := 160]> (<[ChannelEmail := 10000]> (<[ChannelPush := 500]> ∅)).

(** [^\+[1-9]\d{1,14}$] *)
Definition e164Pattern : regex :=
  RCat (RByte "+") (RCat (RClass is_nonzero_digit) (RBetween 1 14 (RClass is_digit))).
(** [[^@\s]].  Go matches runes; every byte of a rune above U+007F is in the
    class, so one or more runes of the class are one or more bytes of it. *)
Definition email_byte (a : ascii) : bool := negb (bool_decide (a = "@"%char)) && negb (is_re_space a).
(** [^[^@\s]+@[^@\s]+\.[^@\s]+$] *)
Definition emailPattern : regex :=
  RCat (RPlus (RClass email_byte)) (RCat (RByte "@")
    (RCat (RPlus (RClass email_byte)) (RCat (RByte ".") (RPlus (RClass email_byte))))).
Definition MatchString (r : regex) (s : string) : bool := matchb r (bytes s).

Record Notification := mkNotification {
  ID : NotificationID;
  NBatchID : option BatchID;
  IdempotencyKey : string;
  CorrelationID : string;
  NChannel : Channel;
  NPriority : Priority;
  Recipient : string;
  Content : string;
  NStatus : Status;
  Attempts : Z;
  LastError : string;
  NextRetryAt : option Time;
  ScheduledAt : option Time;
  NTemplateID : option string;
  CreatedAt : Time;
  UpdatedAt : Time;
}.

Record NewNotificationInput := mkNewNotificationInput {
  in_ID : NotificationID;
  in_BatchID : option BatchID;
  in_IdempotencyKey : string;
  in_CorrelationID : string;
  in_Channel : Channel;
  in_Priority : Priority;
  in_Recipient : string;
  in_Content : string;
  in_ScheduledAt : option Time;
  in_TemplateID : option string;
}.

Definition validateRecipient (channel : Channel) (recipient : string) : option error :=
  if bool_decide (recipient = "") then Some (Sentinel ErrInvalidRecipient)
  else if bool_decide (channel = ChannelSMS) then
    if negb (MatchString e164Pattern recipient)
    then Some (Wrapped "not an E.164 phone number" (Sentinel ErrInvalidRecipient)) else None
  else if bool_decide (channel = ChannelEmail) then
    if negb (MatchString emailPattern recipient)
    then Some (Wrapped "not a valid email address" (Sentinel ErrInvalidRecipient)) else None
  else None.

Definition validateContent (channel : Channel) (content : string) : option error :=
  if bool_decide (content = "") then Some (Wrapped "empty" (Sentinel ErrInvalidContent))
  else match contentLimits !! channel with
       | None => Some (Sentinel ErrInvalidChannel)
       | Some limit =>
           if limit <? len content
           then Some (Wrapped "exceeds limit for channel" (Sentinel ErrInvalidContent)) else None
       end.

Definition NewNotification (inp : NewNotificationInput) (now : Time) : res Notification :=
  if bool_decide (in_ID inp = "") then Err (Sentinel ErrInvalidNotificationID)
  else if bool_decide (in_CorrelationID inp = "") then Err (Sentinel ErrInvalidCorrelationID)
  else if negb (Channel_IsValid (in_Channel inp)) then Err (Sentinel ErrInvalidChannel)
  else if negb (Priority_IsValid (in_Priority inp)) then Err (Sentinel ErrInvalidPriority)
  else match validateRecipient (in_Channel inp) (in_Recipient inp) with
  | Some e => Err e
  | None =>
  match validateContent (in_Channel inp) (in_Content inp) with
  | Some e => Err e
  | None =>
  Ok {| ID := in_ID inp; NBatchID := in_BatchID inp;
        IdempotencyKey := in_IdempotencyKey inp; CorrelationID := in_CorrelationID inp;
        NChannel := in_Channel inp; NPriority := in_Priority inp;
        Recipient := in_Recipient inp; Content := in_Content inp;
        NStatus := StatusPending; Attempts := 0; LastError := ""; NextRetryAt := None;
        ScheduledAt := in_ScheduledAt inp; NTemplateID := in_TemplateID inp;
        CreatedAt := now; UpdatedAt := now |}
  end end.

(** ** Mutations

    A method with a pointer receiver is a program over the entity. *)
Definition with_status (st : Status) (now : Time) (n : Notification) : Notification :=
  {| ID := ID n; NBatchID := NBatchID n; IdempotencyKey := IdempotencyKey n;
     CorrelationID := CorrelationID n; NChannel := NChannel n; NPriority := NPriority n;
     Recipient := Recipient n; Content := Content n; NStatus := st; Attempts := Attempts n;
     LastError := LastError n; NextRetryAt := NextRetryAt n; ScheduledAt := ScheduledAt n;
     NTemplateID := NTemplateID n; CreatedAt := CreatedAt n; UpdatedAt := now |}.
Definition with_attempts (a : Z) (n : Notification) : Notification :=
  {| ID := ID n; NBatchID := NBatchID n; IdempotencyKey := IdempotencyKey n;
     CorrelationID := CorrelationID n; NChannel := NChannel n; NPriority := NPriority n;
     Recipient := Recipient n; Content := Content n; NStatus := NStatus n; Attempts := a;
     LastError := LastError n; NextRetryAt := NextRetryAt n; ScheduledAt := ScheduledAt n;
     NTemplateID := NTemplateID n; CreatedAt := CreatedAt n; UpdatedAt := UpdatedAt n |}.
Definition with_last_error (e : string) (n : Notification) : Notification :=
  {| ID := ID n; NBatchID := NBatchID n; IdempotencyKey := IdempotencyKey n;
     CorrelationID := CorrelationID n; NChannel := NChannel n; NPriority := NPriority n;
     Recipient := Recipient n; Content := Content n; NStatus := NStatus n;
     Attempts := Attempts n; LastError := e; NextRetryAt := NextRetryAt n;
     ScheduledAt := ScheduledAt n; NTemplateID := NTemplateID n; CreatedAt := CreatedAt n;
     UpdatedAt := UpdatedAt n |}.
Definition with_next_retry (t : option Time) (n : Notification) : Notification :=
  {| ID := ID n; NBatchID := NBatchID n; IdempotencyKey := IdempotencyKey n;
     CorrelationID := CorrelationID n; NChannel := NChannel n; NPriority := NPriority n;
     Recipient := Recipient n; Content := Content n; NStatus := NStatus n;
     Attempts := Attempts n; LastError := LastError n; NextRetryAt := t;
     ScheduledAt := ScheduledAt n; NTemplateID := NTemplateID n; CreatedAt := CreatedAt n;
     UpdatedAt := UpdatedAt n |}.
Definition with_batch (b : option BatchID) (n : Notification) : Notification :=
  {| ID := ID n; NBatchID := b; IdempotencyKey := IdempotencyKey n;
     CorrelationID := CorrelationID n; NChannel := NChannel n; NPriority := NPriority n;
     Recipient := Recipient n; Content := Content n; NStatus := NStatus n;
     Attempts := Attempts n; LastError := LastError n; NextRetryAt := NextRetryAt n;
     ScheduledAt := ScheduledAt n; NTemplateID := NTemplateID n; CreatedAt := CreatedAt n;
     UpdatedAt := UpdatedAt n |}.

Definition with_template (t : option string) (n : Notification) : Notification :=
  {| ID := ID n; NBatchID := NBatchID n; IdempotencyKey := IdempotencyKey n;
     CorrelationID := CorrelationID n; NChannel := NChannel n; NPriority := NPriority n;
     Recipient := Recipient n; Content := Content n; NStatus := NStatus n;
     Attempts := Attempts n; LastError := LastError n; NextRetryAt := NextRetryAt n;
     ScheduledAt := ScheduledAt n; NTemplateID := t; CreatedAt := CreatedAt n;
     UpdatedAt := UpdatedAt n |}.

Definition transition (target : Status) (now : Time) (sideEffect : Notification → Notification)
    : M Notification unit :=
  λ n, if negb (Status_CanTransitionTo (NStatus n) target)
       then (Err (Wrapped "from → to" (Sentinel ErrInvalidTransition)), n)
       else (Ok tt, sideEffect (with_status target now n)).

Definition MarkQueued (now : Time) : M Notification unit :=
  transition StatusQueued now id.
Definition MarkProcessing (now : Time) : M Notification unit :=
  transition StatusProcessing now (λ n, with_attempts (int64 (Attempts n + 1)) n).
Definition MarkDelivered (now : Time) : M Notification unit :=
  transition StatusDelivered now (with_last_error "").
Definition MarkFailed (now : Time) (reason : string) : M Notification unit :=
  transition StatusFailed now (with_last_error reason).
Definition MarkRetrying (now : Time) (reason : string) (nextRetryAt : Time) : M Notification unit :=
  transition StatusRetrying now
    (λ n, with_next_retry (Some nextRetryAt) (with_last_error reason n)).
Definition Cancel (now : Time) : M Notification unit :=
  transition StatusCancelled now id.

(** Run a mutation on an entity the caller holds: the entity after it. *)
Definition on_entity {W} (n : Notification) (m : M Notification unit) : M W Notification :=
  of_result (match m n with (Ok _, n') => Ok n' | (Err e, _) => Err e end).

(** ** Audit log *)
Record NotificationLog := mkNotificationLog {
  log_ID : LogID;
  log_NotificationID : NotificationID;
  log_CorrelationID : string;
  log_Event : LogEvent;
  log_Details : option (gmap string any);
  log_CreatedAt : Time;
}.

Definition NewNotificationLog (id : LogID) (notificationID : NotificationID)
    (correlationID : string) (event : LogEvent) (details : option (gmap string any))
    (now : Time) : res NotificationLog :=
  if bool_decide (id = "") then Err (Sentinel ErrInvalidLogID)
  else if bool_decide (notificationID = "") then Err (Sentinel ErrInvalidNotificationID)
  else if bool_decide (correlationID = "") then Err (Sentinel ErrInvalidCorrelationID)
  else if negb (LogEvent_IsValid event) then Err (Sentinel ErrInvalidLogEvent)
  else Ok {| log_ID := id; log_NotificationID := notificationID;
             log_CorrelationID := correlationID; log_Event := event;
             log_Details := details; log_CreatedAt := now |}.

(** ** Delivery results *)
Record DeliveryResult := mkDeliveryResult {
  Success : bool;
  MessageID : string;
  Retryable : bool;
  Reason : string;
  ProviderCode : Z;
  Latency : Duration;
}.
Definition DeliveredResult (messageID : string) (latency : Duration) : DeliveryResult :=
  {| Success := true; MessageID := messageID; Retryable := false; Reason := "";
     ProviderCode := 0; Latency := latency |}.
Definition PermanentFailureResult (reason : string) (providerCode : Z) (latency : Duration) : DeliveryResult :=
  {| Success := false; MessageID := ""; Retryable := false; Reason := reason;
     ProviderCode := providerCode; Latency := latency |}.
Definition TransientFailureResult (reason : string) (providerCode : Z) (latency : Duration) : DeliveryResult :=
  {| Success := false; MessageID := ""; Retryable := true; Reason := reason;
     ProviderCode := providerCode; Latency := latency |}.
(** The flag combinations the factories produce. *)
Definition coherent (r : DeliveryResult) : Prop :=
  Success r = true → Retryable r = false ∧ Reason r = "" ∧ ProviderCode r = 0.

(** ** The validation rules *)

(** [+], a non-zero digit, then one to fourteen digits. *)
Definition E164 (s : string) : Prop :=
  ∃ d ds, bytes s = "+"%char :: d :: ds ∧ is_nonzero_digit d = true ∧
    Forall (λ a, is_digit a = true) ds ∧ (1 ≤ length ds ≤ 14)%nat.
(** [local@host.tld] where no part is empty or holds [@] or white space. *)
Definition EmailShape (s : string) : Prop :=
  ∃ loc host tld, bytes s = loc ++ "@"%char :: host ++ "."%char :: tld ∧
    Forall (λ l, l ≠ [] ∧ Forall (λ a, email_byte a = true) l) [loc; host; tld].

Lemma MatchString_spec r s : MatchString r s = true ↔ matches r (bytes s).
Proof. apply matchb_spec. Qed.

Lemma MatchString_e164 s : MatchString e164Pattern s = true ↔ E164 s.
Proof.
  rewrite MatchString_spec. unfold e164Pattern, E164. split.
  - intros (u & v & -> & ->%matches_byte & Hv)%matches_cat_inv.
    apply matches_cat_inv in Hv as (u & v' & -> & (d & -> & Hd)%matches_class_inv & Hds).
    apply matches_between_class in Hds as [Hlen Hds]; [|lia]. by exists d, v'.
  - intros (d & ds & -> & Hd & Hds & Hlen).
    apply (M_cat _ _ ["+"%char] (d :: ds)); [by apply matches_byte|].
    apply (M_cat _ _ [d] ds); [by constructor|].
    apply matches_between_class; [lia|done].
Qed.

Lemma MatchString_email s : MatchString emailPattern s = true ↔ EmailShape s.
Proof.
  rewrite MatchString_spec. unfold emailPattern, EmailShape. split.
  - intros (u & v & -> & Hu & Hv)%matches_cat_inv.
    apply matches_cat_inv in Hv as (v1 & v2 & -> & ->%matches_byte & Hv).
    apply matches_cat_inv in Hv as (v1 & v3 & -> & Hv1 & Hv).
    apply matches_cat_inv in Hv as (v4 & v5 & -> & ->%matches_byte & Hv).
    apply matches_plus_class in Hu, Hv1, Hv. exists u, v1, v5. by rewrite !Forall_cons, Forall_nil.
  - intros (u & v & t & -> & H). rewrite !Forall_cons in H. destruct H as (Hu & Hv & Ht & _).
    apply (M_cat _ _ u); [by apply matches_plus_class|].
    apply (M_cat _ _ ["@"%char]); [by apply matches_byte|].
    apply (M_cat _ _ v); [by apply matches_plus_class|].
    apply (M_cat _ _ ["."%char]); [by apply matches_byte|by apply matches_plus_class].
Qed.

Definition recipient_ok (channel : Channel) (recipient : string) : Prop :=
  recipient ≠ "" ∧ (channel = ChannelSMS → E164 recipient) ∧
  (channel = ChannelEmail → EmailShape recipient).

Definition content_ok (channel : Channel) (content : string) : Prop :=
  content ≠ "" ∧ ∃ limit, (channel, limit) ∈ [(ChannelSMS, 160); (ChannelEmail, 10000); (ChannelPush, 500)]
    ∧ len content ≤ limit.

Lemma validateRecipient_ok channel recipient :
  validateRecipient channel recipient = None ↔ recipient_ok channel recipient.
Proof.
  unfold validateRecipient, recipient_ok.
  rewrite <-MatchString_e164, <-MatchString_email.
  case_bool_decide; [split; [done|by intros []]|].
  case_bool_decide; [subst; destruct (MatchString e164Pattern recipient); simpl;
    [by split|split; [done|intros (_ & He & _); by specialize (He eq_refl)]]|].
  case_bool_decide; [subst; destruct (MatchString emailPattern recipient); simpl;
    [by split|split; [done|intros (_ & _ & He); by specialize (He eq_refl)]]|].
  by split.
Qed.

Lemma contentLimits_spec channel limit : contentLimits !! channel = Some limit ↔
  (channel, limit) ∈ [(ChannelSMS, 160); (ChannelEmail, 10000); (ChannelPush, 500)].
Proof.
  unfold contentLimits. rewrite !lookup_insert_Some, lookup_empty, !elem_of_cons, elem_of_nil.
  unfold ChannelSMS, ChannelEmail, ChannelPush. naive_solver.
Qed.

Lemma validateContent_ok channel content :
  validateContent channel content = None ↔ content_ok channel content.
Proof.
  unfold validateContent, content_ok. setoid_rewrite <-contentLimits_spec.
  case_bool_decide; [naive_solver|].
  destruct (contentLimits !! channel) as [limit|]; [|naive_solver].
  case_match eqn:E; [apply Z.ltb_lt in E|apply Z.ltb_ge in E]; naive_solver lia.
Qed.

Lemma validateContent_error channel content e : Channel_IsValid channel = true →
  validateContent channel content = Some e → errors_Is e ErrInvalidContent = true.
Proof.
  intros Hc%Channel_IsValid_spec. unfold validateContent.
  case_bool_decide; [by intros [= <-]|].
  destruct (contentLimits !! channel) as [limit|] eqn:E.
  - case_match; [by intros [= <-]|done].
  - unfold channels in Hc. rewrite !elem_of_cons, elem_of_nil in Hc. by destruct_or! Hc; subst.
Qed.

Lemma validateRecipient_error channel recipient e :
  validateRecipient channel recipient = Some e → errors_Is e ErrInvalidRecipient = true.
Proof. unfold validateRecipient. intros. repeat case_match; by simplify_eq. Qed.

(** What a [NewNotificationInput] must satisfy, and which rule an error reports. *)
Definition input_ok (inp : NewNotificationInput) : Prop :=
  in_ID inp ≠ "" ∧ in_CorrelationID inp ≠ "" ∧
  in_Channel inp ∈ channels ∧ in_Priority inp ∈ priorities ∧
  recipient_ok (in_Channel inp) (in_Recipient inp) ∧ content_ok (in_Channel inp) (in_Content inp).
Definition violates (inp : NewNotificationInput) (s : sentinel) : Prop :=
  match s with
  | ErrInvalidNotificationID => in_ID inp = ""
  | ErrInvalidCorrelationID => in_CorrelationID inp = ""
  | ErrInvalidChannel => in_Channel inp ∉ channels
  | ErrInvalidPriority => in_Priority inp ∉ priorities
  | ErrInvalidRecipient => ¬ recipient_ok (in_Channel inp) (in_Recipient inp)
  | ErrInvalidContent => ¬ content_ok (in_Channel inp) (in_Content inp)
  | _ => False
  end.
(** The rules in the order they are checked; an error reports [s] when [s] is
    the first rule of the order that the input breaks. *)
Definition rules : list sentinel :=
  [ErrInvalidNotificationID; ErrInvalidCorrelationID; ErrInvalidChannel; ErrInvalidPriority;
   ErrInvalidRecipient; ErrInvalidContent].
Definition first_broken (inp : NewNotificationInput) (s : sentinel) : Prop :=
  ∃ before after, rules = before ++ s :: after ∧ violates inp s ∧ Forall (λ s', ¬ violates inp s') before.
Definition pending_entity (inp : NewNotificationInput) (now : Time) : Notification :=
  {| ID := in_ID inp; NBatchID := in_BatchID inp; IdempotencyKey := in_IdempotencyKey inp;
     CorrelationID := in_CorrelationID inp; NChannel := in_Channel inp;
     NPriority := in_Priority inp; Recipient := in_Recipient inp; Content := in_Content inp;
     NStatus := StatusPending; Attempts := 0; LastError := ""; NextRetryAt := None;
     ScheduledAt := in_ScheduledAt inp; NTemplateID := in_TemplateID inp;
     CreatedAt := now; UpdatedAt := now |}.

Lemma first_broken_at (k : nat) inp e s : rules !! k = Some s → errors_Is e s = true → violates inp s →
  Forall (λ s', ¬ violates inp s') (take k rules) → ∃ s, errors_Is e s = true ∧ first_broken inp s.
Proof.
  intros Hk He Hv Hf. exists s. split; [done|]. exists (take k rules), (drop (S k) rules).
  by rewrite take_drop_middle.
Qed.
Lemma NewNotification_cases inp now :
  match NewNotification inp now with
  | Ok n => input_ok inp ∧ n = pending_entity inp now
  | Err e => ∃ s, errors_Is e s = true ∧ first_broken inp s
  end.
Proof.
  pose proof (Channel_IsValid_spec (in_Channel inp)) as Hc. pose proof (Priority_IsValid_spec (in_Priority inp)) as Hp.
  pose proof (validateRecipient_ok (in_Channel inp) (in_Recipient inp)) as Hr.
  pose proof (validateContent_ok (in_Channel inp) (in_Content inp)) as Ht.
  unfold NewNotification.
  case_bool_decide as H1; [by apply (first_broken_at 0 _ _ ErrInvalidNotificationID)|].
  case_bool_decide as H2; [apply (first_broken_at 1 _ _ ErrInvalidCorrelationID); try done; by repeat constructor|].
  destruct (Channel_IsValid _) eqn:H3; cbn [negb]; last first.
  { apply (first_broken_at 2 _ _ ErrInvalidChannel); try done; [cbn; by rewrite <-Hc|by repeat constructor]. }
  destruct (Priority_IsValid _) eqn:H4; cbn [negb]; last first.
  { apply (first_broken_at 3 _ _ ErrInvalidPriority); try done; [cbn; by rewrite <-Hp|].
    repeat constructor; cbn; naive_solver. }
  destruct (validateRecipient _ _) as [e|] eqn:H5.
  { apply (first_broken_at 4 _ _ ErrInvalidRecipient); try done;
      [by eapply validateRecipient_error|cbn; by rewrite <-Hr|repeat constructor; cbn; naive_solver]. }
  destruct (validateContent _ _) as [e|] eqn:H6.
  { apply (first_broken_at 5 _ _ ErrInvalidContent); try done;
      [by eapply validateContent_error|cbn; by rewrite <-Ht|repeat constructor; cbn; naive_solver]. }
  split; [unfold input_ok; naive_solver|done].
Qed.

Lemma violates_not_ok inp s : first_broken inp s → ¬ input_ok inp.
Proof. intros (? & ? & _ & Hv & _). unfold input_ok. destruct s; simpl in Hv; naive_solver. Qed.

Lemma NewNotification_Ok inp now n :
  NewNotification inp now = Ok n ↔ input_ok inp ∧ n = pending_entity inp now.
Proof.
  pose proof (NewNotification_cases inp now) as H.
  destruct (NewNotification inp now) as [m|e]; [naive_solver|].
  split; [done|]. destruct H as (s & _ & Hv%violates_not_ok). naive_solver.
Qed.

(** C20. [NewNotification] accepts exactly the inputs that have ids, a known
    channel and priority, a recipient of the channel's shape (E.164 number,
    minimal e-mail address, any non-empty push token) and a non-empty content
    within the channel's limit; it then returns the pending entity with zero
    attempts.  Otherwise the error matches the sentinel of exactly one rule:
    the first, in the order id, correlation id, channel, priority, recipient,
    content, that the input breaks. *)
Theorem NewNotification_valid inp now :
  (∀ n, NewNotification inp now = Ok n ↔ input_ok inp ∧ n = pending_entity inp now) ∧
  (∀ e, NewNotification inp now = Err e →
     ∃ s, first_broken inp s ∧ ∀ s', errors_Is e s' = true ↔ s' = s).
Proof.
  split; [apply NewNotification_Ok|].
  intros e He. pose proof (NewNotification_cases inp now) as H. rewrite He in H.
  destruct H as (s & Hs & Hf). exists s. split; [done|]. intros s'. split; [|by intros ->].
  intros Hs'. by eapply errors_Is_functional.
Qed.

(** ** Mutations respect the state machine *)

Lemma transition_legal target now side n : fsm (NStatus n) target →
  transition target now side n = (Ok tt, side (with_status target now n)).
Proof. intros H%CanTransitionTo_fsm. unfold transition. by rewrite H. Qed.

Lemma transition_illegal target now side n : ¬ fsm (NStatus n) target →
  ∃ e, transition target now side n = (Err e, n) ∧ errors_Is e ErrInvalidTransition = true.
Proof.
  intros H. unfold transition. destruct (Status_CanTransitionTo _ _) eqn:E.
  - by apply CanTransitionTo_fsm in E.
  - eexists. by split.
Qed.

(** The fields no mutation touches. *)
Definition identity (n : Notification) :=
  (ID n, NBatchID n, IdempotencyKey n, CorrelationID n,
   (NChannel n, NPriority n, Recipient n, Content n),
   (ScheduledAt n, NTemplateID n, CreatedAt n)).

(** A mutation [m] that moves to [target] and then applies [side]. *)
Definition moves (m : M Notification unit) (target : Status) (now : Time)
    (side : Notification → Notification) : Prop :=
  ∀ n, (fsm (NStatus n) target →
          m n = (Ok tt, side (with_status target now n)) ∧
          NStatus (m n).2 = target ∧ UpdatedAt (m n).2 = now ∧ identity (m n).2 = identity n) ∧
       (¬ fsm (NStatus n) target →
          ∃ e, m n = (Err e, n) ∧ errors_Is e ErrInvalidTransition = true).

Lemma transition_moves target now side :
  (∀ n, NStatus (side n) = NStatus n ∧ UpdatedAt (side n) = UpdatedAt n ∧ identity (side n) = identity n) →
  moves (transition target now side) target now side.
Proof.
  intros Hside n. split; [|apply transition_illegal].
  intros H. rewrite transition_legal by done. simpl.
  destruct (Hside (with_status target now n)) as (-> & -> & ->). done.
Qed.

(** C21. Every mutation of the entity follows the state machine: when the edge
    to its target exists it sets the status and [UpdatedAt], makes its own
    side effect and leaves the identity, routing and payload fields alone;
    otherwise it returns an error matching [ErrInvalidTransition] and leaves
    the entity untouched. *)
Theorem mutations_follow_fsm now reason next :
  moves (MarkQueued now) StatusQueued now id ∧
  moves (MarkProcessing now) StatusProcessing now (λ n, with_attempts (int64 (Attempts n + 1)) n) ∧
  moves (MarkDelivered now) StatusDelivered now (with_last_error "") ∧
  moves (MarkFailed now reason) StatusFailed now (with_last_error reason) ∧
  moves (MarkRetrying now reason next) StatusRetrying now
    (λ n, with_next_retry (Some next) (with_last_error reason n)) ∧
  moves (Cancel now) StatusCancelled now id.
Proof. split_and!; by apply transition_moves. Qed.
