(* ===== verification/Batch.v ===== *)
(** Batches (internal/domain/batch.go): construction with its rules, and the
    per-status counts the batch endpoint returns. *)

From S2P Require Import Prelude GoStrings Errors ValueObjects Notification.

Definition MinBatchSize : Z := 1.
Definition MaxBatchSize : Z := 1000.

Record Batch := mkBatch {
  batch_ID : BatchID;
  batch_CorrelationID : string;
  batch_Notifications : list Notification;
  batch_CreatedAt : Time;
}.
Record NewBatchInput := mkNewBatchInput {
  nb_ID : BatchID;
  nb_CorrelationID : string;
  nb_Notifications : list Notification;
}.

Definition NewBatch (inp : NewBatchInput) (now : Time) : res Batch :=
  let size := Z.of_nat (length (nb_Notifications inp)) in
  if bool_decide (nb_ID inp = "") then Err (Sentinel ErrInvalidBatchID)
  else if bool_decide (nb_CorrelationID inp = "") then Err (Sentinel ErrInvalidCorrelationID)
  else if (size <? MinBatchSize) || (MaxBatchSize <? size) then Err (Sentinel ErrInvalidBatchSize)
  else if existsb (λ n, negb (bool_decide (CorrelationID n = nb_CorrelationID inp)))
            (nb_Notifications inp)
  then Err (Sentinel ErrBatchInconsistentCorrelation)
  else Ok {| batch_ID := nb_ID inp; batch_CorrelationID := nb_CorrelationID inp;
             batch_Notifications := map (with_batch (Some (nb_ID inp))) (nb_Notifications inp);
             batch_CreatedAt := now |}.

Definition Batch_Size (b : Batch) : Z := Z.of_nat (length (batch_Notifications b)).

Record BatchStatusSummary := mkSummary {
  sum_Total : Z; sum_Pending : Z; sum_Queued : Z; sum_Processing : Z;
  sum_Delivered : Z; sum_Failed : Z; sum_Retrying : Z; sum_Cancelled : Z;
}.

(** One iteration of the loop of [StatusSummary]. *)
Definition summary_add (s : BatchStatusSummary) (n : Notification) : BatchStatusSummary :=
  let '(mkSummary t p q pr d f r c) := s in
  let st := NStatus n in
  if bool_decide (st = StatusPending) then mkSummary t (p + 1) q pr d f r c
  else if bool_decide (st = StatusQueued) then mkSummary t p (q + 1) pr d f r c
  else if bool_decide (st = StatusProcessing) then mkSummary t p q (pr + 1) d f r c
  else if bool_decide (st = StatusDelivered) then mkSummary t p q pr (d + 1) f r c
  else if bool_decide (st = StatusFailed) then mkSummary t p q pr d (f + 1) r c
  else if bool_decide (st = StatusRetrying) then mkSummary t p q pr d f (r + 1) c
  else if bool_decide (st = StatusCancelled) then mkSummary t p q pr d f r (c + 1)
  else s.
Definition StatusSummary (b : Batch) : BatchStatusSummary :=
  fold_left summary_add (batch_Notifications b) (mkSummary (Batch_Size b) 0 0 0 0 0 0 0).

(** ** Batch construction *)
Definition batch_input_ok (inp : NewBatchInput) : Prop :=
  nb_ID inp ≠ "" ∧ nb_CorrelationID inp ≠ "" ∧
  MinBatchSize ≤ Z.of_nat (length (nb_Notifications inp)) ≤ MaxBatchSize ∧
  Forall (λ n, CorrelationID n = nb_CorrelationID inp) (nb_Notifications inp).

(** The invariant of a constructed batch. *)
Definition batch_ok (b : Batch) : Prop :=
  batch_ID b ≠ "" ∧ batch_CorrelationID b ≠ "" ∧ MinBatchSize ≤ Batch_Size b ≤ MaxBatchSize ∧
  Forall (λ n, CorrelationID n = batch_CorrelationID b ∧ NBatchID n = Some (batch_ID b))
    (batch_Notifications b).

Lemma consistent_correlation c (l : list Notification) :
  existsb (λ n, negb (bool_decide (CorrelationID n = c))) l = false ↔
  Forall (λ n, CorrelationID n = c) l.
Proof.
  induction l as [|n l IH]; simpl; [done|].
  rewrite orb_false_iff, IH, Forall_cons, negb_false_iff, bool_decide_eq_true. done.
Qed.

Lemma NewBatch_Ok inp now b : NewBatch inp now = Ok b ↔
  batch_input_ok inp ∧
  b = {| batch_ID := nb_ID inp; batch_CorrelationID := nb_CorrelationID inp;
         batch_Notifications := map (with_batch (Some (nb_ID inp))) (nb_Notifications inp);
         batch_CreatedAt := now |}.
Proof.
  unfold NewBatch, batch_input_ok. rewrite <-consistent_correlation.
  case_bool_decide; [split; [done|by intros [[? _] _]]|].
  case_bool_decide; [split; [done|by intros [(_ & ? & _) _]]|].
  destruct (_ || _)%bool eqn:Hs.
  - rewrite orb_true_iff, !Z.ltb_lt in Hs. split; [done|]. intros [(_ & _ & ? & _) _]. lia.
  - rewrite orb_false_iff, !Z.ltb_ge in Hs. destruct (existsb _ _); naive_solver.
Qed.

Lemma NewBatch_batch_ok inp now b : NewBatch inp now = Ok b → batch_ok b.
Proof.
  intros [(Hid & Hc & Hs & Hl) ->]%NewBatch_Ok. unfold batch_ok, Batch_Size. simpl.
  rewrite length_map. split_and!; try done; try lia.
  apply Forall_map. by eapply Forall_impl; [exact Hl|].
Qed.

(** [NewBatch] accepts exactly the inputs with ids, between 1 and 1000
    members and one shared correlation id; the batch it returns carries the
    same members with nothing changed but their batch link, which points at
    the batch, and satisfies the batch invariant. *)
Theorem NewBatch_valid inp now :
  ((∃ b, NewBatch inp now = Ok b) ↔ batch_input_ok inp) ∧
  (∀ b, NewBatch inp now = Ok b →
     batch_ok b ∧ batch_CreatedAt b = now ∧
     batch_Notifications b = map (with_batch (Some (nb_ID inp))) (nb_Notifications inp)).
Proof.
  split.
  - split.
    + intros [b [H _]%NewBatch_Ok]. done.
    + intros H. eexists. by apply NewBatch_Ok.
  - intros b H. split; [by eapply NewBatch_batch_ok|]. by apply NewBatch_Ok in H as [_ ->].
Qed.

(** ** The status counts *)
Definition count (s : Status) (l : list Notification) : Z :=
  Z.of_nat (length (filter (λ n, NStatus n = s) l)).

Lemma count_cons s n l :
  count s (n :: l) = (if bool_decide (NStatus n = s) then 1 else 0) + count s l.
Proof.
  unfold count. rewrite filter_cons. case_bool_decide as E.
  - rewrite decide_True by done. simpl length. lia.
  - by rewrite decide_False.
Qed.

Lemma summary_add_eq t p q pr d f r c n :
  let ind s := if bool_decide (NStatus n = s) then 1 else 0 in
  summary_add (mkSummary t p q pr d f r c) n =
  mkSummary t (p + ind StatusPending) (q + ind StatusQueued) (pr + ind StatusProcessing)
    (d + ind StatusDelivered) (f + ind StatusFailed) (r + ind StatusRetrying)
    (c + ind StatusCancelled).
Proof.
  unfold summary_add. generalize (NStatus n) as st. intros st. cbv zeta.
  repeat (case_bool_decide; [subst st; simpl; rewrite ?Z.add_0_r; done|]).
  by rewrite !Z.add_0_r.
Qed.

Lemma summary_fold l t p q pr d f r c :
  fold_left summary_add l (mkSummary t p q pr d f r c) =
  mkSummary t (p + count StatusPending l) (q + count StatusQueued l)
    (pr + count StatusProcessing l) (d + count StatusDelivered l) (f + count StatusFailed l)
    (r + count StatusRetrying l) (c + count StatusCancelled l).
Proof.
  revert t p q pr d f r c. induction l as [|n l IH]; intros.
  - unfold count. simpl. f_equal; lia.
  - cbn [fold_left]. rewrite summary_add_eq, IH, !count_cons. f_equal; lia.
Qed.

Lemma StatusSummary_counts b :
  StatusSummary b =
  let l := batch_Notifications b in
  mkSummary (Batch_Size b) (count StatusPending l) (count StatusQueued l)
    (count StatusProcessing l) (count StatusDelivered l) (count StatusFailed l)
    (count StatusRetrying l) (count StatusCancelled l).
Proof. unfold StatusSummary. by rewrite summary_fold. Qed.

Lemma counts_total l : Forall (λ n, NStatus n ∈ statuses) l →
  Z.of_nat (length l) = foldr (λ s acc, count s l + acc) 0 statuses.
Proof.
  induction 1 as [|n l Hn _ IH]; [done|].
  cbn [length]. rewrite Nat2Z.inj_succ, IH. unfold statuses in *. cbn [foldr].
  rewrite !count_cons. rewrite !elem_of_cons, elem_of_nil in Hn.
  destruct_or! Hn; rewrite ?Hn;
    repeat first [rewrite bool_decide_true by done|rewrite bool_decide_false by done]; lia.
Qed.

(** [StatusSummary] counts the members of each status exactly, and when
    the members' statuses are valid the seven counts add up to [Total]. *)
Theorem StatusSummary_correct b (Hvalid : Forall (λ n, NStatus n ∈ statuses) (batch_Notifications b)) :
  let s := StatusSummary b in
  sum_Total s = Z.of_nat (length (batch_Notifications b)) ∧
  sum_Pending s = count StatusPending (batch_Notifications b) ∧
  sum_Queued s = count StatusQueued (batch_Notifications b) ∧
  sum_Processing s = count StatusProcessing (batch_Notifications b) ∧
  sum_Delivered s = count StatusDelivered (batch_Notifications b) ∧
  sum_Failed s = count StatusFailed (batch_Notifications b) ∧
  sum_Retrying s = count StatusRetrying (batch_Notifications b) ∧
  sum_Cancelled s = count StatusCancelled (batch_Notifications b) ∧
  sum_Pending s + sum_Queued s + sum_Processing s + sum_Delivered s + sum_Failed s
    + sum_Retrying s + sum_Cancelled s = sum_Total s.
Proof.
  cbv zeta. rewrite StatusSummary_counts. cbv zeta. cbn [sum_Total sum_Pending sum_Queued
    sum_Processing sum_Delivered sum_Failed sum_Retrying sum_Cancelled].
  split_and!; try done. unfold Batch_Size. rewrite (counts_total _ Hvalid).
  unfold statuses. cbn [foldr]. lia.
Qed.

Lemma StatusSummary_correct_witness :
  ∃ b, Forall (λ n, NStatus n ∈ statuses) (batch_Notifications b) ∧
       sum_Queued (StatusSummary b) = 2 ∧ sum_Pending (StatusSummary b) = 1.
Proof.
  set (n s := with_status s 0 (pending_entity
    {| in_ID := "a"; in_BatchID := None; in_IdempotencyKey := ""; in_CorrelationID := "c";
       in_Channel := ChannelPush; in_Priority := PriorityLow; in_Recipient := "t";
       in_Content := "x"; in_ScheduledAt := None; in_TemplateID := None |} 0)).
  set (b := mkBatch "b" "c" [n StatusQueued; n StatusPending; n StatusQueued] 0).
  assert (Forall (λ n, NStatus n ∈ statuses) (batch_Notifications b)) as Hb.
  { repeat constructor. }
  exists b. split; [exact Hb|].
  destruct (StatusSummary_correct b Hb) as (_ & Hp & Hq & _). split.
  - rewrite Hq. reflexivity.
  - rewrite Hp. reflexivity.
Defined.
