(* ===== verification/Template.v ===== *)
(** Message templates (internal/domain/template.go).  Go's text/template is a
    library: its parser and executor are the operations of [TextTemplate],
    and [TextTemplateLaws] states what the code relies on. *)

From S2P Require Import Prelude GoStrings Errors ValueObjects Notification.

(** [template.New(name).Option(opts...).Parse(body)] and [Execute]. *)
Class TextTemplate := {
  parsed_template : Type;
  template_Parse : string → list string → string → res parsed_template;
  template_Execute : parsed_template → option (gmap string any) → res string;
}.
(** Whether a body parses depends neither on the template's name nor on the
    options, which only change execution. *)
Class TextTemplateLaws `{TextTemplate} :=
  template_Parse_options : ∀ name name' opts opts' body,
    (∃ t, template_Parse name opts body = Ok t) → ∃ t, template_Parse name' opts' body = Ok t.

Record Template := mkTemplate {
  tpl_ID : TemplateID;
  tpl_Name : string;
  tpl_Channel : Channel;
  tpl_Body : string;
  tpl_CreatedAt : Time;
  tpl_UpdatedAt : Time;
}.
Record NewTemplateInput := mkNewTemplateInput {
  nt_ID : TemplateID;
  nt_Name : string;
  nt_Channel : Channel;
  nt_Body : string;
}.

Section template.
Context `{TextTemplate}.

Definition NewTemplate (inp : NewTemplateInput) (now : Time) : res Template :=
  if bool_decide (nt_ID inp = "") then Err (Sentinel ErrInvalidTemplateID)
  else if bool_decide (nt_Name inp = "") then Err (Sentinel ErrInvalidTemplateName)
  else if negb (Channel_IsValid (nt_Channel inp)) then Err (Sentinel ErrInvalidChannel)
  else if bool_decide (nt_Body inp = "") then Err (Wrapped "empty" (Sentinel ErrInvalidTemplateBody))
  else match template_Parse (nt_ID inp) [] (nt_Body inp) with
       | Err _ => Err (Wrapped "parse error" (Sentinel ErrInvalidTemplateBody))
       | Ok _ => Ok {| tpl_ID := nt_ID inp; tpl_Name := nt_Name inp; tpl_Channel := nt_Channel inp;
                       tpl_Body := nt_Body inp; tpl_CreatedAt := now; tpl_UpdatedAt := now |}
       end.

Definition Template_Render (t : Template) (vars : option (gmap string any)) : res string :=
  match template_Parse (tpl_ID t) ["missingkey=error"] (tpl_Body t) with
  | Err _ => Err (Wrapped "parse" (Sentinel ErrTemplateRenderFailed))
  | Ok parsed =>
      match template_Execute parsed vars with
      | Err _ => Err (Wrapped "execute" (Sentinel ErrTemplateRenderFailed))
      | Ok s => Ok s
      end
  end.

Lemma Template_Render_error t vars e :
  Template_Render t vars = Err e → errors_Is e ErrTemplateRenderFailed = true.
Proof. unfold Template_Render. intros. repeat case_match; by simplify_eq. Qed.

Definition template_input_ok (inp : NewTemplateInput) : Prop :=
  nt_ID inp ≠ "" ∧ nt_Name inp ≠ "" ∧ nt_Channel inp ∈ channels ∧ nt_Body inp ≠ "" ∧
  ∃ t, template_Parse (nt_ID inp) [] (nt_Body inp) = Ok t.
Definition template_error_sentinels : list sentinel :=
  [ErrInvalidTemplateID; ErrInvalidTemplateName; ErrInvalidChannel; ErrInvalidTemplateBody].

Lemma NewTemplate_cases inp now :
  match NewTemplate inp now with
  | Ok t => template_input_ok inp ∧
      t = {| tpl_ID := nt_ID inp; tpl_Name := nt_Name inp; tpl_Channel := nt_Channel inp;
             tpl_Body := nt_Body inp; tpl_CreatedAt := now; tpl_UpdatedAt := now |}
  | Err e => ¬ template_input_ok inp ∧ ∃ s, s ∈ template_error_sentinels ∧ errors_Is e s = true
  end.
Proof.
  unfold NewTemplate, template_input_ok, template_error_sentinels.
  pose proof (Channel_IsValid_spec (nt_Channel inp)) as Hc.
  case_bool_decide; [split; [naive_solver|by exists ErrInvalidTemplateID; split; [set_solver|]]|].
  case_bool_decide; [split; [naive_solver|by exists ErrInvalidTemplateName; split; [set_solver|]]|].
  destruct (Channel_IsValid _); simpl;
    [|split; [naive_solver|by exists ErrInvalidChannel; split; [set_solver|]]].
  case_bool_decide; [split; [naive_solver|by exists ErrInvalidTemplateBody; split; [set_solver|]]|].
  destruct (template_Parse _ _ _) as [t|e] eqn:E.
  - split; [|done]. split_and!; try done; [by apply Hc|eauto].
  - split; [naive_solver|by exists ErrInvalidTemplateBody; split; [set_solver|]].
Qed.

(** The only failure a constructed template can have at render time is in
    its execution, never in its syntax. *)
Lemma Render_of_NewTemplate `{!TextTemplateLaws} inp now t vars e :
  NewTemplate inp now = Ok t → Template_Render t vars = Err e →
  ∃ parsed e', template_Parse (tpl_ID t) ["missingkey=error"] (tpl_Body t) = Ok parsed ∧
    template_Execute parsed vars = Err e'.
Proof.
  intros Hn Hr. pose proof (NewTemplate_cases inp now) as Hc. rewrite Hn in Hc.
  destruct Hc as [(_ & _ & _ & _ & Hp) ->]. unfold Template_Render in Hr. simpl in *.
  apply (template_Parse_options _ (nt_ID inp) _ ["missingkey=error"]) in Hp as [p Hp].
  rewrite Hp in *. destruct (template_Execute p vars) as [s|e'] eqn:E; [done|]. eauto.
Qed.
End template.

(** Template construction and rendering: [NewTemplate] accepts exactly
    the inputs with an id, a name, a known channel and a non-empty body that
    parses, and rejects the rest with one of its four sentinels; a constructed
    template never fails to parse again at render time, and every render
    failure matches [ErrTemplateRenderFailed]. *)
Theorem template_lifecycle `{TextTemplateLaws} inp now :
  ((∃ t, NewTemplate inp now = Ok t) ↔ template_input_ok inp) ∧
  (∀ e, NewTemplate inp now = Err e → ∃ s, s ∈ template_error_sentinels ∧ errors_Is e s = true) ∧
  (∀ t vars e, NewTemplate inp now = Ok t → Template_Render t vars = Err e →
     errors_Is e ErrTemplateRenderFailed = true ∧
     ∃ parsed e', template_Parse (tpl_ID t) ["missingkey=error"] (tpl_Body t) = Ok parsed ∧
       template_Execute parsed vars = Err e').
Proof.
  pose proof (NewTemplate_cases inp now) as Hc. split_and!.
  - destruct (NewTemplate inp now); naive_solver.
  - intros e He. rewrite He in Hc. naive_solver.
  - intros t vars e Hn He. split; [by eapply Template_Render_error|]. by eapply Render_of_NewTemplate.
Qed.

(** A template engine whose bodies are literal text up to a single [{{.Key}}]
    form, enough to run the code. *)
#[export] Instance literal_templates : TextTemplate := {|
  parsed_template := string * list string;
  template_Parse := λ _ opts body,
    if contains "{"%char body && negb (contains "}"%char body)
    then Err (Opaque "unclosed action") else Ok (body, opts);
  template_Execute := λ t vars,
    if contains "{"%char t.1 && bool_decide (vars = None)
    then Err (Opaque "map has no entry for key") else Ok t.1;
|}.
#[export] Instance literal_templates_laws : TextTemplateLaws.
Proof. intros name name' opts opts' body [t Ht]. simpl in *. case_match; by eauto. Qed.

Lemma template_lifecycle_witness :
  template_input_ok (mkNewTemplateInput "id" "welcome" ChannelSMS "Hello {{.Name}}") ∧
  ∃ t, NewTemplate (mkNewTemplateInput "id" "welcome" ChannelSMS "Hello {{.Name}}") 7 = Ok t.
Proof.
  set (inp := mkNewTemplateInput "id" "welcome" ChannelSMS "Hello {{.Name}}").
  assert (∃ t, NewTemplate inp 7 = Ok t) as Hex by (eexists; reflexivity).
  split; [|exact Hex].
  exact (proj1 (proj1 (template_lifecycle inp 7)) Hex).
Defined.
