(* ===== verification/Ports.v ===== *)
(** The ports of internal/ports/ports.go and internal/ports/tracing.go, and
    the use-case programs that call them.

    A use case is a [proc]: a tree of port calls ([op]), each followed by a
    continuation of the result the port returned.  [run] executes a [proc] on
    a [World] made of the adapters' states; the same tree is what System.v
    interleaves with other use cases, one port call at a time. *)

From S2P Require Import Prelude GoStrings Errors ValueObjects Notification Batch Template.

(** The context value the service reads: the correlation id
    (internal/infrastructure/correlation). *)
Record context := mkContext { ctx_correlation : string }.
Definition Background : context := mkContext "".
Definition FromContext (ctx : context) : string := ctx_correlation ctx.
Definition WithContext (parent : context) (id : string) : context := mkContext id.

Record NotificationFilter := mkNotificationFilter {
  f_Status : option Status;
  f_Channel : option Channel;
  f_CreatedAfter : option Time;
  f_CreatedBefore : option Time;
  f_BatchID : option BatchID;
}.

Inductive attr := AttrString (s : string) | AttrInt (z : Z) | AttrBool (b : bool).
#[export] Instance attr_eq_dec : EqDecision attr.
Proof. solve_decision. Defined.

(** What the use cases emit: the calls of the MetricsRecorder port
    (internal/application/metrics.go), log records, and spans.  A span is
    named by the position of its start among the observations;
    [SpanError span e] is [span.SetStatus(codes.Error, e.Error())]. *)
Inductive observation :=
| NotificationCreated (channel priority : string)
| NotificationDelivered (channel : string)
| NotificationFailed (channel reason : string)
| NotificationAttempt (channel outcome : string)
| ObserveProcessing (channel : string) (d : Duration)
| OutboundRateLimitHit (channel : string)
| SlogInfo (correlation msg : string) (attrs : list (string * attr))
| SpanStart (name : string)
| SpanAttr (span : nat) (key : string) (v : attr)
| SpanError (span : nat) (e : error)
| SpanEnd (span : nat).

(** The port calls. *)
Inductive op : Type → Type :=
(* ports.NotificationRepository *)
| repo_Create (n : Notification) : op unit
| repo_Get (id : NotificationID) : op Notification
| repo_ClaimForProcessing (id : NotificationID) (now : Time) : op Notification
| repo_UpdateStatus (n : Notification) (expectedSource : Status) : op unit
| repo_List (filter : NotificationFilter) (cursor : string) (limit : Z) : op (list Notification * string)
| repo_FindOrphanedPending (olderThan : Time) (limit : Z) : op (list Notification)
| repo_FindStuckProcessing (olderThan : Time) (limit : Z) : op (list Notification)
| repo_FindOverdueRetrying (before : Time) (limit : Z) : op (list Notification)
| repo_FindStuckQueued (olderThan : Time) (limit : Z) : op (list Notification)
(* ports.BatchRepository *)
| batch_Create (b : Batch) : op unit
| batch_Get (id : BatchID) : op Batch
(* ports.TemplateRepository *)
| tmpl_Create (t : Template) : op unit
| tmpl_Get (id : TemplateID) : op Template
| tmpl_GetByName (name : string) : op Template
| tmpl_List (limit : Z) : op (list Template)
| tmpl_Update (t : Template) : op unit
| tmpl_Delete (id : TemplateID) : op unit
(* ports.NotificationLogRepository *)
| log_Append (entry : NotificationLog) : op unit
| log_List (id : NotificationID) : op (list NotificationLog)
(* ports.Queue *)
| queue_Enqueue (id : NotificationID) (priority : Priority) (idempotencyKey : string) : op unit
| queue_EnqueueScheduled (id : NotificationID) (priority : Priority) (at_ : Time) : op unit
| queue_Cancel (id : NotificationID) : op unit
(* ports.Provider, ports.RateLimiter, ports.StatusBroadcaster *)
| provider_Send (ctx : context) (channel : Channel) (recipient content : string) : op DeliveryResult
| limiter_Allow (bucket : string) : op (bool * Duration)
| bcast_Publish (id : NotificationID) (status : Status) : op unit
(* ports.IDGenerator, ports.Clock *)
| gen_NewNotificationID : op NotificationID
| gen_NewBatchID : op BatchID
| gen_NewTemplateID : op TemplateID
| gen_NewLogID : op LogID
| gen_NewCorrelationID : op string
| clock_Now : op Time
(* metrics, log/slog, ports.Span *)
| observe (o : observation) : op unit
(* ports.Tracer: the span started *)
| tracer_StartSpan (name : string) : op nat.

(** What a call adds to the observations. *)
Definition observed {B} (o : op B) : list observation :=
  match o with observe x => [x] | tracer_StartSpan name => [SpanStart name] | _ => [] end.

(** ** Use-case programs *)
Inductive proc (A : Type) : Type :=
| Done (r : res A)
| Call {B : Type} (o : op B) (k : res B → proc A).
Arguments Done {A} r.
Arguments Call {A B} o k.

Fixpoint proc_then {A B} (k : res A → proc B) (c : proc A) : proc B :=
  match c with
  | Done r => k r
  | Call o c' => Call o (λ r, proc_then k (c' r))
  end.

#[export] Instance proc_ret : MRet proc := λ A a, Done (Ok a).
#[export] Instance proc_bind : MBind proc := λ A B k,
  proc_then (λ r, match r with Ok a => k a | Err e => Done (Err e) end).
Definition call {B} (o : op B) : proc B := Call o Done.
Definition raise {A} (e : error) : proc A := Done (Err e).
Definition lift {A} (r : res A) : proc A := Done r.
(** [if err != nil { return fmt.Errorf("ctx: %w", err) }] *)
Definition wrapped {A} (ctx : string) (c : proc A) : proc A :=
  proc_then (λ r, match r with Ok a => Done (Ok a) | Err e => Done (Err (Wrapped ctx e)) end) c.
(** The outcome of [c], for code that inspects the error. *)
Definition outcome {A} (c : proc A) : proc (res A) := proc_then (λ r, Done (Ok r)) c.
(** [defer d(); c]: [d] runs after [c] whatever its result, which is returned. *)
Definition deferred {A} (d : proc unit) (c : proc A) : proc A :=
  proc_then (λ r, proc_then (λ _, Done r) d) c.
(** [if err := c; err != nil { f(err); return err }]; only what is deferred runs
    while a panic unwinds. *)
Definition on_returned_error {A} (f : error → proc unit) (c : proc A) : proc A :=
  proc_then (λ r, match r with
                  | Ok a => Done (Ok a)
                  | Err e => if panicking e then Done (Err e) else proc_then (λ _, Done (Err e)) (f e)
                  end) c.
(** A method of an entity the caller owns: the entity it leaves, or its error. *)
Definition entity (n : Notification) (m : M Notification unit) : proc Notification :=
  lift (match m n with (Ok _, n') => Ok n' | (Err e, _) => Err e end).
(** [if b { c }] *)
Definition when (b : bool) (c : proc unit) : proc unit := if b then c else mret tt.

(** [for _, x := range l], with the accumulator the body updates. *)
Fixpoint range {A S} (f : A → S → proc S) (l : list A) (s : S) : proc S :=
  match l with
  | [] => mret s
  | x :: l => s ← f x s; range f l s
  end.

(** ** The world

    The states of the adapters behind the ports, the number of clock readings
    and generated ids so far, and the observations emitted. *)
Record World {DB Q PR RL BC : Type} := mkWorld {
  w_db : DB;
  w_queue : Q;
  w_provider : PR;
  w_limiter : RL;
  w_bcast : BC;
  w_ticks : nat;
  w_fresh : nat;
  w_obs : list observation;
}.
Arguments World : clear implicits.

Section setters.
Context {DB Q PR RL BC : Type}.
Implicit Types w : World DB Q PR RL BC.
Definition set_db (x : DB) w := mkWorld _ _ _ _ _ x (w_queue w) (w_provider w) (w_limiter w) (w_bcast w) (w_ticks w) (w_fresh w) (w_obs w).
Definition set_queue (x : Q) w := mkWorld _ _ _ _ _ (w_db w) x (w_provider w) (w_limiter w) (w_bcast w) (w_ticks w) (w_fresh w) (w_obs w).
Definition set_provider (x : PR) w := mkWorld _ _ _ _ _ (w_db w) (w_queue w) x (w_limiter w) (w_bcast w) (w_ticks w) (w_fresh w) (w_obs w).
Definition set_limiter (x : RL) w := mkWorld _ _ _ _ _ (w_db w) (w_queue w) (w_provider w) x (w_bcast w) (w_ticks w) (w_fresh w) (w_obs w).
Definition set_bcast (x : BC) w := mkWorld _ _ _ _ _ (w_db w) (w_queue w) (w_provider w) (w_limiter w) x (w_ticks w) (w_fresh w) (w_obs w).
Definition set_ticks (x : nat) w := mkWorld _ _ _ _ _ (w_db w) (w_queue w) (w_provider w) (w_limiter w) (w_bcast w) x (w_fresh w) (w_obs w).
Definition set_fresh (x : nat) w := mkWorld _ _ _ _ _ (w_db w) (w_queue w) (w_provider w) (w_limiter w) (w_bcast w) (w_ticks w) x (w_obs w).
Definition set_obs (x : list observation) w := mkWorld _ _ _ _ _ (w_db w) (w_queue w) (w_provider w) (w_limiter w) (w_bcast w) (w_ticks w) (w_fresh w) x.
End setters.

(** ** The port interfaces

    One class per Go interface: the methods as programs over the adapter's
    state. *)
Class NotificationRepository (DB : Type) := {
  Repo_Create : Notification → M DB unit;
  Repo_Get : NotificationID → M DB Notification;
  Repo_ClaimForProcessing : NotificationID → Time → M DB Notification;
  Repo_UpdateStatus : Notification → Status → M DB unit;
  Repo_List : NotificationFilter → string → Z → M DB (list Notification * string);
  Repo_FindOrphanedPending : Time → Z → M DB (list Notification);
  Repo_FindStuckProcessing : Time → Z → M DB (list Notification);
  Repo_FindOverdueRetrying : Time → Z → M DB (list Notification);
  Repo_FindStuckQueued : Time → Z → M DB (list Notification);
}.
Class BatchRepository (DB : Type) := {
  BatchRepo_Create : Batch → M DB unit;
  BatchRepo_Get : BatchID → M DB Batch;
}.
Class TemplateRepository (DB : Type) := {
  TmplRepo_Create : Template → M DB unit;
  TmplRepo_Get : TemplateID → M DB Template;
  TmplRepo_GetByName : string → M DB Template;
  TmplRepo_List : Z → M DB (list Template);
  TmplRepo_Update : Template → M DB unit;
  TmplRepo_Delete : TemplateID → M DB unit;
}.
Class NotificationLogRepository (DB : Type) := {
  LogRepo_Append : NotificationLog → M DB unit;
  LogRepo_List : NotificationID → M DB (list NotificationLog);
}.
Class Queue (Q : Type) := {
  Queue_Enqueue : NotificationID → Priority → string → M Q unit;
  Queue_EnqueueScheduled : NotificationID → Priority → Time → M Q unit;
  Queue_Cancel : NotificationID → M Q unit;
}.
(** [Send] returns no error: a failure is a [DeliveryResult]. *)
Class Provider (PR : Type) :=
  Provider_Send : context → Channel → string → string → PR → DeliveryResult * PR.
Class RateLimiter (RL : Type) :=
  Limiter_Allow : string → M RL (bool * Duration).
Class StatusBroadcaster (BC : Type) :=
  Bcast_Publish : NotificationID → Status → M BC unit.
(** The value of the k-th reading; ids share one counter. *)
Class Clock := Clock_reading : nat → Time.
Class IDGenerator := {
  Gen_NotificationID : nat → NotificationID;
  Gen_BatchID : nat → BatchID;
  Gen_TemplateID : nat → TemplateID;
  Gen_LogID : nat → LogID;
  Gen_CorrelationID : nat → string;
}.

Section handle.
Context {DB Q PR RL BC : Type}.
Context `{NotificationRepository DB, BatchRepository DB, TemplateRepository DB,
  NotificationLogRepository DB, Queue Q, Provider PR, RateLimiter RL,
  StatusBroadcaster BC, Clock, IDGenerator}.
Local Abbreviation W := (World DB Q PR RL BC).

Definition on_db {A} (c : M DB A) : M W A := zoom w_db set_db c.
Definition on_queue {A} (c : M Q A) : M W A := zoom w_queue set_queue c.
Definition fresh {A} (gen : nat → A) : M W A :=
  λ w, (Ok (gen (w_fresh w)), set_fresh (S (w_fresh w)) w).

(** The adapter a port call reaches. *)
Definition handle {B} (o : op B) : M W B :=
  match o in op B return M W B with
  | repo_Create n => on_db (Repo_Create n)
  | repo_Get id => on_db (Repo_Get id)
  | repo_ClaimForProcessing id now => on_db (Repo_ClaimForProcessing id now)
  | repo_UpdateStatus n src => on_db (Repo_UpdateStatus n src)
  | repo_List f c l => on_db (Repo_List f c l)
  | repo_FindOrphanedPending t l => on_db (Repo_FindOrphanedPending t l)
  | repo_FindStuckProcessing t l => on_db (Repo_FindStuckProcessing t l)
  | repo_FindOverdueRetrying t l => on_db (Repo_FindOverdueRetrying t l)
  | repo_FindStuckQueued t l => on_db (Repo_FindStuckQueued t l)
  | batch_Create b => on_db (BatchRepo_Create b)
  | batch_Get id => on_db (BatchRepo_Get id)
  | tmpl_Create t => on_db (TmplRepo_Create t)
  | tmpl_Get id => on_db (TmplRepo_Get id)
  | tmpl_GetByName name => on_db (TmplRepo_GetByName name)
  | tmpl_List l => on_db (TmplRepo_List l)
  | tmpl_Update t => on_db (TmplRepo_Update t)
  | tmpl_Delete id => on_db (TmplRepo_Delete id)
  | log_Append e => on_db (LogRepo_Append e)
  | log_List id => on_db (LogRepo_List id)
  | queue_Enqueue id p k => on_queue (Queue_Enqueue id p k)
  | queue_EnqueueScheduled id p t => on_queue (Queue_EnqueueScheduled id p t)
  | queue_Cancel id => on_queue (Queue_Cancel id)
  | provider_Send ctx ch rcpt content =>
      λ w, let '(r, s) := Provider_Send ctx ch rcpt content (w_provider w) in
           (Ok r, set_provider s w)
  | limiter_Allow bucket => zoom w_limiter set_limiter (Limiter_Allow bucket)
  | bcast_Publish id st => zoom w_bcast set_bcast (Bcast_Publish id st)
  | gen_NewNotificationID => fresh Gen_NotificationID
  | gen_NewBatchID => fresh Gen_BatchID
  | gen_NewTemplateID => fresh Gen_TemplateID
  | gen_NewLogID => fresh Gen_LogID
  | gen_NewCorrelationID => fresh Gen_CorrelationID
  | clock_Now => λ w, (Ok (Clock_reading (w_ticks w)), set_ticks (S (w_ticks w)) w)
  | observe o => λ w, (Ok tt, set_obs (w_obs w ++ [o]) w)
  | tracer_StartSpan name =>
      λ w, (Ok (length (w_obs w)), set_obs (w_obs w ++ [SpanStart name]) w)
  end.

(** Run a use case to its end, port call by port call. *)
Fixpoint run {A} (c : proc A) : M W A :=
  match c with
  | Done r => of_result r
  | Call o k => λ w, let '(r, w') := handle o w in run (k r) w'
  end.

Lemma run_then {A B} (k : res A → proc B) (c : proc A) w :
  run (proc_then k c) w = let '(r, w') := run c w in run (k r) w'.
Proof.
  revert w. induction c as [r|B0 o c IH]; intros w; simpl; [done|].
  destruct (handle o w) as [r w']. by rewrite IH.
Qed.

(** Symbolic execution of programs. *)
Section rules.
Context {A : Type}.
Implicit Types (w : W) (Φ : res A → W → Prop).
Lemma wp_Done (r : res A) Φ w : Φ r w → wp (run (Done r)) Φ w.
Proof. done. Qed.
Lemma wp_Call {B} (o : op B) k Φ w :
  wp (handle o) (λ r w', wp (run (k r)) Φ w') w → wp (run (Call o k)) Φ w.
Proof. unfold wp. simpl. by destruct (handle o w). Qed.
Lemma wp_then {B} (k : res B → proc A) (c : proc B) Φ w :
  wp (run c) (λ r w', wp (run (k r)) Φ w') w → wp (run (proc_then k c)) Φ w.
Proof. unfold wp. rewrite run_then. by destruct (run c w). Qed.
Lemma wp_mbind {B} (k : B → proc A) (c : proc B) Φ w :
  wp (run c) (λ r w', match r with Ok b => wp (run (k b)) Φ w' | Err e => Φ (Err e) w' end) w →
  wp (run (c ≫= k)) Φ w.
Proof. intros Hc. apply wp_then. eapply wp_mono; [exact Hc|]. by intros [b|e] w'. Qed.
Lemma wp_wrapped ctx (c : proc A) Φ w :
  wp (run c) (λ r w', match r with Ok a => Φ (Ok a) w' | Err e => Φ (Err (Wrapped ctx e)) w' end) w →
  wp (run (wrapped ctx c)) Φ w.
Proof. intros Hc. apply wp_then. eapply wp_mono; [exact Hc|]. by intros [b|e] w'. Qed.
Lemma wp_deferred (d : proc unit) (c : proc A) Φ w :
  wp (run c) (λ r w', wp (run d) (λ _ w'', Φ r w'') w') w → wp (run (deferred d c)) Φ w.
Proof.
  intros Hc. apply wp_then. eapply wp_mono; [exact Hc|]. intros r w' Hd. simpl in Hd.
  apply wp_then. eapply wp_mono; [exact Hd|]. done.
Qed.
Lemma wp_on_returned_error (f : error → proc unit) (c : proc A) Φ w :
  wp (run c) (λ r w', match r with
                      | Ok a => Φ (Ok a) w'
                      | Err e => if panicking e then Φ (Err e) w' else wp (run (f e)) (λ _ w'', Φ (Err e) w'') w'
                      end) w → wp (run (on_returned_error f c)) Φ w.
Proof.
  intros Hc. apply wp_then. eapply wp_mono; [exact Hc|]. intros [a|e] w' Hr; [done|].
  destruct (panicking e); [done|]. apply wp_then. eapply wp_mono; [exact Hr|]. done.
Qed.
Lemma wp_call (o : op A) Φ w : wp (handle o) Φ w → wp (run (call o)) Φ w.
Proof. intros Hc. apply wp_Call. eapply wp_mono; [exact Hc|]. done. Qed.
Lemma wp_mret (a : A) Φ w : Φ (Ok a) w → wp (run (mret a)) Φ w.
Proof. done. Qed.
Lemma wp_lift (r : res A) Φ w : Φ r w → wp (run (lift r)) Φ w.
Proof. done. Qed.
Lemma wp_raise e Φ w : Φ (Err e) w → wp (run (raise e)) Φ w.
Proof. done. Qed.
End rules.
Lemma wp_outcome {A} (c : proc A) (Φ : res (res A) → W → Prop) w :
  wp (run c) (λ r w', Φ (Ok r) w') w → wp (run (outcome c)) Φ w.
Proof. intros Hc. apply wp_then. eapply wp_mono; [exact Hc|]. done. Qed.
Lemma wp_entity n (m : M Notification unit) (Φ : res Notification → W → Prop) w :
  Φ (match m n with (Ok _, n') => Ok n' | (Err e, _) => Err e end) w →
  wp (run (entity n m)) Φ w.
Proof. done. Qed.
Lemma wp_when (b : bool) (c : proc unit) (Φ : res unit → W → Prop) w :
  (if b then wp (run c) Φ w else Φ (Ok tt) w) → wp (run (when b c)) Φ w.
Proof. by destruct b. Qed.

Lemma wp_provider ctx ch rcpt content (Φ : res DeliveryResult → W → Prop) (w : W) result pr :
  Provider_Send ctx ch rcpt content (w_provider w) = (result, pr) →
  Φ (Ok result) (set_provider pr w) →
  wp (handle (provider_Send ctx ch rcpt content)) Φ w.
Proof. intros E. unfold wp. simpl. by rewrite E. Qed.

(** The invariant rule of the loops. *)
Lemma wp_range {A S} (f : A → S → proc S) (I : list A → S → W → Prop) (X : error → W → Prop)
    (l : list A) s w :
  I [] s w →
  (∀ done x rest s' w', l = done ++ x :: rest → I done s' w' →
     wp (run (f x s')) (λ r w'', match r with Ok s'' => I (done ++ [x]) s'' w'' | Err e => X e w'' end) w') →
  wp (run (range f l s)) (λ r w', match r with Ok s' => I l s' w' | Err e => X e w' end) w.
Proof.
  intros Hinit Hstep.
  enough (∀ rest done s' w', l = done ++ rest → I done s' w' →
    wp (run (range f rest s')) (λ r w'', match r with Ok s'' => I l s'' w'' | Err e => X e w'' end) w')
    as Hall by by apply (Hall l []).
  induction rest as [|x rest IH]; intros done s' w' -> HI; simpl.
  - apply wp_mret. by rewrite app_nil_r.
  - apply wp_mbind. eapply wp_mono; [by eapply Hstep|].
    intros [s''|e] w'' Hr; [|done].
    apply (IH (done ++ [x])); [by rewrite <-app_assoc|done].
Qed.
End handle.

#[global] Arguments run {_ _ _ _ _ _ _ _ _ _ _ _ _ _ _ _} _ _ : simpl never.
#[global] Arguments handle {_ _ _ _ _ _ _ _ _ _ _ _ _ _ _ _} _ _ : simpl never.
#[global] Arguments wp : simpl never.

(** One port call: the clock, the generators and the observations compute,
    the calls on an adapter become a goal about the adapter's own state. *)
Ltac uc_op :=
  lazymatch goal with
  | |- wp (handle clock_Now) ?Φ ?w =>
      change (Φ (Ok (Clock_reading (w_ticks w))) (set_ticks (S (w_ticks w)) w))
  | |- wp (handle gen_NewNotificationID) ?Φ ?w =>
      change (Φ (Ok (Gen_NotificationID (w_fresh w))) (set_fresh (S (w_fresh w)) w))
  | |- wp (handle gen_NewBatchID) ?Φ ?w =>
      change (Φ (Ok (Gen_BatchID (w_fresh w))) (set_fresh (S (w_fresh w)) w))
  | |- wp (handle gen_NewTemplateID) ?Φ ?w =>
      change (Φ (Ok (Gen_TemplateID (w_fresh w))) (set_fresh (S (w_fresh w)) w))
  | |- wp (handle gen_NewLogID) ?Φ ?w =>
      change (Φ (Ok (Gen_LogID (w_fresh w))) (set_fresh (S (w_fresh w)) w))
  | |- wp (handle gen_NewCorrelationID) ?Φ ?w =>
      change (Φ (Ok (Gen_CorrelationID (w_fresh w))) (set_fresh (S (w_fresh w)) w))
  | |- wp (handle (observe ?o)) ?Φ ?w =>
      change (Φ (Ok tt) (set_obs (w_obs w ++ [o]) w))
  | |- wp (handle (tracer_StartSpan ?name)) ?Φ ?w =>
      change (Φ (Ok (length (w_obs w))) (set_obs (w_obs w ++ [SpanStart name]) w))
  | |- wp (handle (provider_Send ?ctx ?ch ?r ?c)) ?Φ ?w =>
      let E := fresh "Hsend" in
      destruct (Provider_Send ctx ch r c (w_provider w)) as [?result ?pr] eqn:E;
      apply (wp_provider _ _ _ _ _ _ _ _ E)
  | |- wp (handle (limiter_Allow _)) _ _ => apply (wp_zoom w_limiter set_limiter)
  | |- wp (handle (bcast_Publish _ _)) _ _ => apply (wp_zoom w_bcast set_bcast)
  | |- wp (handle (queue_Enqueue _ _ _)) _ _ => apply (wp_zoom w_queue set_queue)
  | |- wp (handle (queue_EnqueueScheduled _ _ _)) _ _ => apply (wp_zoom w_queue set_queue)
  | |- wp (handle (queue_Cancel _)) _ _ => apply (wp_zoom w_queue set_queue)
  | |- wp (handle _) _ _ => apply (wp_zoom w_db set_db)
  end; cbn beta iota.

(** Compute the projections of an updated world. *)
Ltac world_simpl :=
  cbn [w_db w_queue w_provider w_limiter w_bcast w_ticks w_fresh w_obs
       set_db set_queue set_provider set_limiter set_bcast set_ticks set_fresh set_obs] in *.

(** One symbolic step of a use case. *)
Ltac uc_step :=
  lazymatch goal with
  | |- wp (run (mbind _ _)) _ _ => apply wp_mbind
  | |- wp (run (call _)) _ _ => apply wp_call
  | |- wp (run (wrapped _ _)) _ _ => apply wp_wrapped
  | |- wp (run (outcome _)) _ _ => apply wp_outcome
  | |- wp (run (deferred _ _)) _ _ => apply wp_deferred
  | |- wp (run (on_returned_error _ _)) _ _ => apply wp_on_returned_error
  | |- wp (run (entity _ _)) _ _ => apply wp_entity
  | |- wp (run (when _ _)) _ _ => apply wp_when
  | |- wp (run (mret _)) _ _ => apply wp_mret
  | |- wp (run (lift _)) _ _ => apply wp_lift
  | |- wp (run (raise _)) _ _ => apply wp_raise
  | |- wp (run (Done _)) _ _ => apply wp_Done
  | |- wp (run (proc_then _ _)) _ _ => apply wp_then
  end.
Ltac uc_steps := repeat (first [uc_step|uc_op]; cbn beta iota).
