(* ===== verification/RetryPolicy.v ===== *)
(** Retry timing: [backoffFor] (internal/application/process_notification.go),
    [RetryDelayFor] (internal/application/errors.go), and the worker's
    [retryDelay] and [withJitter] (cmd/worker/main.go). *)

From S2P Require Import Prelude Errors.

Definition defaultMaxAttempts : Z := 5.
Definition backoffBase : Duration := 30 * Second.
Definition rateLimitBackoff : Duration := 1 * Second.

(** [1 << s] at type [time.Duration]. *)
Definition shift_one (s : Z) : Z := if 64 <=? s then 0 else int64 (Z.shiftl 1 s).

Definition backoffFor (attempts : Z) : Duration :=
  if attempts <=? 0 then backoffBase
  else int64 (backoffBase * shift_one (attempts - 1)).

Definition RetryDelayFor (attempts : Z) (err : error) : Duration :=
  if errors_Is err ErrOutboundRateLimited then rateLimitBackoff else backoffFor attempts.

Definition maxRetryJitter : Duration := 30 * Second.

(** [draw] is [rand.Int64N]. *)
Definition withJitter (base : Duration) (draw : Z → Z) : Duration :=
  if base <=? 0 then base
  else let bound := if maxRetryJitter <? base then maxRetryJitter else base in
       int64 (base + draw bound).

Definition retryDelay (n : Z) (err : error) (draw : Z → Z) : Duration :=
  withJitter (RetryDelayFor n err) draw.

(** ** Bounds *)

(** The documented schedule, [30s * 2^(attempts-1)], over the integers. *)
Definition schedule (attempts : Z) : Z := backoffBase * 2 ^ (attempts - 1).

Lemma shift_one_small s : 0 ≤ s < 63 → shift_one s = 2 ^ s.
Proof.
  intros Hs. unfold shift_one. destruct (Z.leb_spec 64 s); [lia|].
  rewrite Z.shiftl_1_l. apply int64_small. unfold in_int64.
  assert (0 < 2 ^ s < 2 ^ 63); [|lia].
  split; [apply Z.pow_pos_nonneg; lia|apply Z.pow_lt_mono_r; lia].
Qed.

Lemma schedule_range a : 1 ≤ a ≤ 29 → backoffBase ≤ schedule a ≤ backoffBase * 2 ^ 28.
Proof.
  intros Ha. unfold schedule.
  assert (2 ^ 0 ≤ 2 ^ (a - 1) ≤ 2 ^ 28) as [H1 H2] by (split; apply Z.pow_le_mono_r; lia).
  unfold backoffBase, Second. lia.
Qed.

(** Twenty-nine attempts fit: the first overflow is at the thirtieth. *)
Lemma backoffFor_schedule a : 1 ≤ a ≤ 29 → backoffFor a = schedule a.
Proof.
  intros Ha. unfold backoffFor. destruct (Z.leb_spec a 0); [lia|].
  rewrite shift_one_small by lia. apply int64_small.
  pose proof (schedule_range a Ha). unfold schedule, in_int64, backoffBase, Second in *. lia.
Qed.

Lemma backoffFor_positive a : a ≤ 29 → backoffBase ≤ backoffFor a ≤ backoffBase * 2 ^ 28.
Proof.
  intros Ha. destruct (decide (1 ≤ a)).
  - rewrite backoffFor_schedule by lia. by apply schedule_range.
  - unfold backoffFor. destruct (Z.leb_spec a 0); [|lia]. unfold backoffBase, Second. lia.
Qed.

(** [rand.Int64N(n)] draws from [[0, n)]. *)
Definition draws_below (draw : Z → Z) : Prop := ∀ n, 0 < n → 0 ≤ draw n < n.

Lemma withJitter_range base draw : draws_below draw → 0 < base ≤ backoffBase * 2 ^ 28 →
  base ≤ withJitter base draw < base + Z.min base maxRetryJitter.
Proof.
  intros Hd Hb. unfold withJitter. destruct (Z.leb_spec base 0); [lia|].
  set (bound := if maxRetryJitter <? base then maxRetryJitter else base).
  assert (bound = Z.min base maxRetryJitter) as Hm.
  { unfold bound. destruct (Z.ltb_spec maxRetryJitter base); lia. }
  assert (0 < bound) as Hp by (rewrite Hm; unfold maxRetryJitter, Second; lia).
  specialize (Hd bound Hp). rewrite int64_small; [lia|].
  unfold in_int64, backoffBase, maxRetryJitter, Second in *. lia.
Qed.

(** C22. Retry timing: up to the 29th attempt [backoffFor] is exactly the
    documented doubling schedule (30 s before the first), never less than 30 s,
    with no overflow; the worker's delay then never falls below that base and
    stays below it plus the jitter cap of min(base, 30 s); a rate-limited task
    waits between one and two seconds whatever its attempt count. *)
Theorem retry_delay_bounds (draw : Z → Z) (Hdraw : draws_below draw) (n : Z) (Hn : n ≤ 29) (err : error) :
  (1 ≤ n → backoffFor n = 30 * Second * 2 ^ (n - 1)) ∧
  (errors_Is err ErrOutboundRateLimited = false →
     30 * Second ≤ backoffFor n ∧
     backoffFor n ≤ retryDelay n err draw < backoffFor n + 30 * Second) ∧
  (errors_Is err ErrOutboundRateLimited = true →
     1 * Second ≤ retryDelay n err draw < 2 * Second).
Proof.
  pose proof (backoffFor_positive n Hn) as Hb. unfold retryDelay, RetryDelayFor.
  split_and!.
  - intros. apply backoffFor_schedule. lia.
  - intros ->. pose proof (withJitter_range (backoffFor n) draw Hdraw) as Hj.
    unfold backoffBase, maxRetryJitter, Second in *. lia.
  - intros ->. pose proof (withJitter_range rateLimitBackoff draw Hdraw) as Hj.
    unfold rateLimitBackoff, backoffBase, maxRetryJitter, Second in *. lia.
Qed.

Lemma retry_delay_bounds_witness :
  draws_below (λ n, n - 1) ∧ retryDelay 3 (Sentinel ErrProviderTransient) (λ n, n - 1) < 150 * Second.
Proof.
  assert (draws_below (λ n, n - 1)) as Hd by (intros n Hn; lia).
  split; [exact Hd|].
  destruct (retry_delay_bounds (λ n, n - 1) Hd 3 ltac:(lia) (Sentinel ErrProviderTransient))
    as (Hs & Hb & _).
  specialize (Hs ltac:(lia)). destruct (Hb ltac:(reflexivity)) as [_ [_ Hlt]].
  rewrite Hs in Hlt. unfold Second in *. lia.
Defined.

(** Beyond it the product wraps: the delay asked for is negative. *)
Example backoffFor_overflow : backoffFor 30 < 0.
Proof. reflexivity. Qed.
