(* ===== verification/RepoSpec.v ===== *)
(** The contract of the persistence ports (the doc comments of
    internal/ports/ports.go): what a use case may rely on about the rows and
    the audit trail, whatever the adapter.  Postgres.v implements it; the use
    cases are verified against it.

    A failed call may or may not have taken effect (the acknowledgement can be
    lost), except for the outcomes the ports name: not found, already claimed
    and concurrent update leave the store as it was. *)

From S2P Require Import Prelude GoStrings Uuid Errors ValueObjects Notification Batch Template.
From S2P Require Import Ports.

Definition claimable (n : Notification) : Prop :=
  NStatus n = StatusQueued ∨ NStatus n = StatusRetrying.
#[export] Instance claimable_dec n : Decision (claimable n).
Proof. unfold claimable. apply _. Defined.

(** The row a claim at [now] leaves, and the row an update by [n] leaves. *)
Definition claimed (now : Time) (n0 : Notification) : Notification :=
  with_attempts (Attempts n0 + 1) (with_status StatusProcessing now n0).
Definition updated (stamp : Time → Time) (n n0 : Notification) : Notification :=
  with_next_retry (stamp <$> NextRetryAt n) (with_last_error (LastError n)
    (with_attempts (int32 (Attempts n)) (with_status (NStatus n) (stamp (UpdatedAt n)) n0))).

Abbreviation rowmap := (gmap uuid Notification).

(** [key] identifies the row an id denotes; [stamp] is the precision at which
    the store keeps a time. *)
Class StoreView (DB : Type) := {
  key : NotificationID → option uuid;
  stamp : Time → Time;
  stored : Notification → Notification;
  rows : DB → rowmap;
  (** the audit trail: notification, correlation id and event of each entry *)
  trail : DB → list (uuid * string * LogEvent);
}.

Section effects.
Context `{StoreView DB}.
Implicit Types R : rowmap.

Definition claim_effect (id : NotificationID) (now : Time) (n : Notification) R R' : Prop :=
  ∃ k n0, key id = Some k ∧ R !! k = Some n0 ∧ claimable n0 ∧ Attempts n0 + 1 < 2 ^ 31 ∧
    n = claimed (stamp now) n0 ∧ R' = <[k := n]> R.
Definition update_effect (n : Notification) (src : Status) R R' : Prop :=
  ∃ k n0, key (ID n) = Some k ∧ R !! k = Some n0 ∧ NStatus n0 = src ∧
    R' = <[k := updated stamp n n0]> R.
Definition create_effect (n : Notification) R R' : Prop :=
  ∃ k, key (ID n) = Some k ∧ R !! k = None ∧ R' = <[k := stored n]> R.
(** A batch inserts its members one after the other, all or none. *)
Fixpoint creates_effect (l : list Notification) R R' : Prop :=
  match l with
  | [] => R' = R
  | n :: l => ∃ R1, create_effect n R R1 ∧ creates_effect l R1 R'
  end.
Definition append_effect (e : NotificationLog) (t t' : list (uuid * string * LogEvent)) : Prop :=
  ∃ k, key (log_NotificationID e) = Some k ∧ t' = t ++ [(k, log_CorrelationID e, log_Event e)].
(** [db'] holds the rows and the trail of [db]. *)
Definition unchanged (db db' : DB) : Prop := rows db' = rows db ∧ trail db' = trail db.
End effects.

(** A program that never changes rows or trail. *)
Definition reads `{StoreView DB} {A} (c : M DB A) : Prop := ∀ db, unchanged db (c db).2.

Class StoreLaws (DB : Type) `{StoreView DB, NotificationRepository DB, BatchRepository DB,
    TemplateRepository DB, NotificationLogRepository DB} : Prop := {
  rows_keyed : ∀ (db : DB) k n, rows db !! k = Some n → key (ID n) = Some k;
  stored_status : ∀ n, NStatus (stored n) = NStatus n;
  stored_key : ∀ n, key (ID (stored n)) = key (ID n);
  stored_attempts : ∀ n, in_int32 (Attempts n) → Attempts (stored n) = Attempts n;

  claim_law : ∀ id now (db : DB), wp (Repo_ClaimForProcessing id now) (λ r db',
    trail db' = trail db ∧
    match r with
    | Ok n => claim_effect id now n (rows db) (rows db')
    | Err e =>
        (errors_Is e ErrAlreadyClaimed = true → rows db' = rows db ∧
           ∃ k n0, key id = Some k ∧ rows db !! k = Some n0 ∧ ¬ claimable n0) ∧
        (errors_Is e ErrNotFound = true → rows db' = rows db ∧
           ∀ k, key id = Some k → rows db !! k = None) ∧
        (rows db' = rows db ∨ ∃ n, claim_effect id now n (rows db) (rows db'))
    end) db;

  update_law : ∀ n src (db : DB), wp (Repo_UpdateStatus n src) (λ r db',
    trail db' = trail db ∧
    match r with
    | Ok _ => update_effect n src (rows db) (rows db')
    | Err e =>
        (errors_Is e ErrConcurrentUpdate = true → rows db' = rows db ∧
           ∀ k n0, key (ID n) = Some k → rows db !! k = Some n0 → NStatus n0 ≠ src) ∧
        (rows db' = rows db ∨ update_effect n src (rows db) (rows db'))
    end) db;

  create_law : ∀ n (db : DB), wp (Repo_Create n) (λ r db',
    trail db' = trail db ∧
    match r with
    | Ok _ => create_effect n (rows db) (rows db')
    | Err _ => rows db' = rows db ∨ create_effect n (rows db) (rows db')
    end) db;

  batch_create_law : ∀ b (db : DB), wp (BatchRepo_Create b) (λ r db',
    trail db' = trail db ∧
    match r with
    | Ok _ => creates_effect (batch_Notifications b) (rows db) (rows db')
    | Err _ => rows db' = rows db ∨ creates_effect (batch_Notifications b) (rows db) (rows db')
    end) db;

  append_law : ∀ e (db : DB), wp (LogRepo_Append e) (λ r db',
    rows db' = rows db ∧
    match r with
    | Ok _ => append_effect e (trail db) (trail db')
    | Err _ => trail db' = trail db ∨ append_effect e (trail db) (trail db')
    end) db;

  get_law : ∀ id (db : DB), wp (Repo_Get id) (λ r db',
    unchanged db db' ∧
    match r with
    | Ok n => ∃ k, key id = Some k ∧ rows db !! k = Some n
    | Err e => errors_Is e ErrNotFound = true → ∀ k, key id = Some k → rows db !! k = None
    end) db;

  orphaned_law : ∀ t limit (db : DB), wp (Repo_FindOrphanedPending t limit) (λ r db',
    unchanged db db' ∧ ∀ l, r = Ok l → NoDup (ID <$> l) ∧
      Forall (λ n, (∃ k, rows db !! k = Some n) ∧ NStatus n = StatusPending ∧ CreatedAt n < stamp t) l) db;
  stuck_processing_law : ∀ t limit (db : DB), wp (Repo_FindStuckProcessing t limit) (λ r db',
    unchanged db db' ∧ ∀ l, r = Ok l → NoDup (ID <$> l) ∧
      Forall (λ n, (∃ k, rows db !! k = Some n) ∧ NStatus n = StatusProcessing ∧ UpdatedAt n < stamp t) l) db;
  overdue_law : ∀ t limit (db : DB), wp (Repo_FindOverdueRetrying t limit) (λ r db',
    unchanged db db' ∧ ∀ l, r = Ok l → NoDup (ID <$> l) ∧
      Forall (λ n, (∃ k, rows db !! k = Some n) ∧ NStatus n = StatusRetrying ∧
        ∃ d, NextRetryAt n = Some d ∧ d < stamp t) l) db;
  stuck_queued_law : ∀ t limit (db : DB), wp (Repo_FindStuckQueued t limit) (λ r db',
    unchanged db db' ∧ ∀ l, r = Ok l → NoDup (ID <$> l) ∧
      Forall (λ n, (∃ k, rows db !! k = Some n) ∧ NStatus n = StatusQueued ∧ UpdatedAt n < stamp t ∧
        ∀ s, ScheduledAt n = Some s → s < stamp t) l) db;

  list_reads : ∀ f c l, reads (DB:=DB) (Repo_List f c l);
  batch_get_reads : ∀ id, reads (DB:=DB) (BatchRepo_Get id);
  log_list_reads : ∀ id, reads (DB:=DB) (LogRepo_List id);
  tmpl_create_frame : ∀ t, reads (DB:=DB) (TmplRepo_Create t);
  tmpl_get_reads : ∀ id, reads (DB:=DB) (TmplRepo_Get id);
  tmpl_get_by_name_reads : ∀ s, reads (DB:=DB) (TmplRepo_GetByName s);
  tmpl_list_reads : ∀ l, reads (DB:=DB) (TmplRepo_List l);
  tmpl_update_frame : ∀ t, reads (DB:=DB) (TmplRepo_Update t);
  (** deleting a template clears the references to it and nothing else *)
  tmpl_delete_frame : ∀ id (db : DB), wp (TmplRepo_Delete id) (λ _ db',
    trail db' = trail db ∧ ∀ k, option_Forall2 (λ n n', ∃ tid, n' = with_template tid n)
      (rows db !! k) (rows db' !! k)) db;
}.
