(* ===== verification/ProcessNotification.v ===== *)
(** The worker's use case (internal/application/process_notification.go):
    claim, rate limit, send, settle. *)

From S2P Require Import Prelude GoStrings Uuid Errors ValueObjects Notification Batch Template.
From S2P Require Import Ports RetryPolicy RepoSpec.

(** The optional dependencies: whether a MetricsRecorder and a Tracer were
    given to [NewProcessNotification]. *)
Record ProcessNotification := mkProcessNotification {
  pn_metrics : bool;
  pn_tracer : bool;
}.

Definition attemptOutcome (result : DeliveryResult) : string :=
  if Success result then "success" else if Retryable result then "transient" else "permanent".

(** [duration.Milliseconds()] *)
Definition Milliseconds (d : Duration) : Z := Z.quot d Millisecond.

Definition logProcessingOutcome (ctx : context) (n : Notification) (outcome : string)
    (duration : Duration) (errReason : string) : proc unit :=
  let attrs := [("notification_id", AttrString (ID n));
                ("channel", AttrString (NChannel n));
                ("priority", AttrString (NPriority n));
                ("attempts", AttrInt (Attempts n));
                ("outcome", AttrString outcome);
                ("duration_ms", AttrInt (Milliseconds duration))] in
  let attrs := if bool_decide (errReason = "") then attrs
               else attrs ++ [("error", AttrString errReason)] in
  call (observe (SlogInfo (FromContext ctx) "processed notification" attrs)).

Definition recordEvent (n : Notification) (event : LogEvent) : proc unit :=
  id ← call gen_NewLogID;
  now ← call clock_Now;
  entry ← wrapped "build log entry"
    (lift (NewNotificationLog id (ID n) (CorrelationID n) event None now));
  wrapped "append log entry" (call (log_Append entry));;
  wrapped "broadcast status" (call (bcast_Publish (ID n) (NStatus n))).

Section execute.
Variable uc : ProcessNotification.

Definition emit (o : observation) : proc unit := when (pn_metrics uc) (call (observe o)).
(** [uc.tracer.StartSpan]; without a tracer the span is the no-op one. *)
Definition StartSpan (name : string) : proc nat :=
  if pn_tracer uc then call (tracer_StartSpan name) else mret 0%nat.
Definition span (o : observation) : proc unit := when (pn_tracer uc) (call (observe o)).

Definition markDelivered (ctx : context) (n : Notification) (now : Time) (duration : Duration) : proc unit :=
  n ← entity n (MarkDelivered now);
  wrapped "update status (delivered)" (call (repo_UpdateStatus n StatusProcessing));;
  emit (NotificationDelivered (NChannel n));;
  recordEvent n LogEventDelivered;;
  logProcessingOutcome ctx n "delivered" duration "";;
  mret tt.

Definition markFailed (ctx : context) (n : Notification) (result : DeliveryResult)
    (now : Time) (duration : Duration) : proc unit :=
  n ← entity n (MarkFailed now (Reason result));
  wrapped "update status (failed)" (call (repo_UpdateStatus n StatusProcessing));;
  (let reason := if bool_decide (Reason result = "") then "unspecified" else Reason result in
   emit (NotificationFailed (NChannel n) reason));;
  recordEvent n LogEventFailed;;
  logProcessingOutcome ctx n "failed" duration (Reason result);;
  mret tt.

Definition markRetrying (ctx : context) (n : Notification) (result : DeliveryResult)
    (now : Time) (duration : Duration) : proc unit :=
  let nextRetryAt := time_Add now (backoffFor (Attempts n)) in
  n ← entity n (MarkRetrying now (Reason result) nextRetryAt);
  wrapped "update status (retrying)" (call (repo_UpdateStatus n StatusProcessing));;
  recordEvent n LogEventRetrying;;
  logProcessingOutcome ctx n "retrying" duration (Reason result);;
  raise (Wrapped "transient failure" (Sentinel ErrProviderTransient)).

Definition rescheduleForRateLimit (ctx : context) (n : Notification) (start : Time) : proc unit :=
  now ← call clock_Now;
  n ← entity n (MarkRetrying now "outbound rate limit exceeded" (time_Add now rateLimitBackoff));
  wrapped "update status (rate limited)" (call (repo_UpdateStatus n StatusProcessing));;
  emit (OutboundRateLimitHit (NChannel n));;
  recordEvent n LogEventRetrying;;
  logProcessingOutcome ctx n "rate_limited" (time_Sub now start) "outbound rate limit exceeded";;
  raise (Wrapped "rate limited" (Sentinel ErrOutboundRateLimited)).

Definition applyResult (ctx : context) (n : Notification) (result : DeliveryResult)
    (start : Time) : proc unit :=
  now ← call clock_Now;
  let duration := time_Sub now start in
  deferred (emit (ObserveProcessing (NChannel n) duration))
    (if Success result then markDelivered ctx n now duration
     else if negb (Retryable result) || (defaultMaxAttempts <=? Attempts n)
     then markFailed ctx n result now duration
     else markRetrying ctx n result now duration).

(** The context the rest of the run carries. *)
Definition reseed (ctx : context) (claimed : Notification) : context :=
  if bool_decide (FromContext ctx = "") && negb (bool_decide (CorrelationID claimed = ""))
  then WithContext ctx (CorrelationID claimed) else ctx.

Definition send (ctx : context) (claimed : Notification) : proc DeliveryResult :=
  providerSpan ← StartSpan "provider.send";
  span (SpanAttr providerSpan "notification.id" (AttrString (ID claimed)));;
  span (SpanAttr providerSpan "notification.channel" (AttrString (NChannel claimed)));;
  result ← call (provider_Send ctx (NChannel claimed) (Recipient claimed) (Content claimed));
  span (SpanAttr providerSpan "provider.success" (AttrBool (Success result)));;
  span (SpanAttr providerSpan "provider.retryable" (AttrBool (Retryable result)));;
  span (SpanEnd providerSpan);;
  mret result.

(** The rest of [Execute] once the row is claimed. *)
Definition deliver (ctx : context) (claimed : Notification) (start : Time) : proc unit :=
  let ctx := reseed ctx claimed in
  recordEvent claimed LogEventProcessing;;
  verdict ← wrapped "rate limiter" (call (limiter_Allow ("channel:" +:+ NChannel claimed)));
  if negb verdict.1 then rescheduleForRateLimit ctx claimed start
  else
    result ← send ctx claimed;
    emit (NotificationAttempt (NChannel claimed) (attemptOutcome result));;
    applyResult ctx claimed result start.

Definition ProcessNotification_Execute (ctx : context) (id : NotificationID) : proc unit :=
  start ← call clock_Now;
  r ← outcome (call (repo_ClaimForProcessing id start));
  match r with
  | Err err =>
      if errors_Is err ErrAlreadyClaimed then mret tt
      else raise (Wrapped "claim notification" err)
  | Ok claimed => deliver ctx claimed start
  end.
End execute.

(** ** Specification

    What a run decides about a claimed notification, and the row, event and
    return value that decision has. *)
Inductive verdict :=
| VDelivered
| VFailed (reason : string)
| VRetry (reason : string)
| VRateLimited.

Definition verdict_of (result : DeliveryResult) (attempts : Z) : verdict :=
  if Success result then VDelivered
  else if Retryable result && (attempts <? 5) then VRetry (Reason result)
  else VFailed (Reason result).

Definition settle (v : verdict) (now : Time) (n : Notification) : Notification :=
  match v with
  | VDelivered => with_last_error "" (with_status StatusDelivered now n)
  | VFailed reason => with_last_error reason (with_status StatusFailed now n)
  | VRetry reason =>
      with_next_retry (Some (now + backoffFor (Attempts n)))
        (with_last_error reason (with_status StatusRetrying now n))
  | VRateLimited =>
      with_next_retry (Some (now + 1 * Second))
        (with_last_error "outbound rate limit exceeded" (with_status StatusRetrying now n))
  end.
Definition verdict_status (v : verdict) : Status :=
  match v with
  | VDelivered => StatusDelivered | VFailed _ => StatusFailed | _ => StatusRetrying
  end.
Definition returns (v : verdict) (r : res unit) : Prop :=
  match v with
  | VDelivered | VFailed _ => r = Ok tt
  | VRetry _ => ∃ e, r = Err e ∧ errors_Is e ErrProviderTransient = true
  | VRateLimited => ∃ e, r = Err e ∧ errors_Is e ErrOutboundRateLimited = true
  end.

Definition verdict_event (v : verdict) : LogEvent :=
  match v with
  | VDelivered => LogEventDelivered | VFailed _ => LogEventFailed | _ => LogEventRetrying
  end.

Lemma settle_status v now n : NStatus (settle v now n) = verdict_status v.
Proof. by destruct v. Qed.
Lemma settle_ID v now n : ID (settle v now n) = ID n.
Proof. by destruct v. Qed.
Lemma settle_channel v now n : NChannel (settle v now n) = NChannel n.
Proof. by destruct v. Qed.
Lemma settle_CorrelationID v now n : CorrelationID (settle v now n) = CorrelationID n.
Proof. by destruct v. Qed.

Section spec.
Context {DB Q PR RL BC : Type}.
Context `{StoreLaws DB, Queue Q, Provider PR, RateLimiter RL,
  StatusBroadcaster BC, Clock, IDGenerator}.
Local Abbreviation W := (World DB Q PR RL BC).
Implicit Types w : W.

(** The components [recordEvent] and the update leave alone. *)
Definition same_io w w' : Prop :=
  w_queue w' = w_queue w ∧ w_provider w' = w_provider w ∧ w_limiter w' = w_limiter w.

Lemma recordEvent_spec n ev k w : key (ID n) = Some k →
  wp (run (recordEvent n ev)) (λ r w',
    same_io w w' ∧ rows (w_db w') = rows (w_db w) ∧
    match r with
    | Ok _ => trail (w_db w') = trail (w_db w) ++ [(k, CorrelationID n, ev)] ∧
              w_bcast w' = (Bcast_Publish (ID n) (NStatus n) (w_bcast w)).2
    | Err _ => True
    end) w.
Proof.
  intros Hk. unfold recordEvent, same_io. uc_steps. world_simpl.
  destruct (NewNotificationLog _ _ _ _ _ _) as [entry|e] eqn:E; [|by split_and!].
  assert (log_NotificationID entry = ID n ∧ log_CorrelationID entry = CorrelationID n ∧
          log_Event entry = ev) as (Hid & Hc & Hev).
  { unfold NewNotificationLog in E. repeat case_match; by simplify_eq/=. }
  uc_steps. wp_use append_law. intros r db1 [Hrows Ht]. world_simpl.
  destruct r as [[]|e]; [|by split_and!].
  uc_steps. apply wp_intro. intros r bc Hbc. world_simpl.
  destruct Ht as (k' & Hk' & Htrail). rewrite Hid, Hk in Hk'. simplify_eq.
  destruct r as [[]|e]; rewrite ?Hbc; split_and!; try done. by rewrite Htrail, Hc.
Qed.

(** After the update: the row holds the settled entity (or, when the update
    failed, possibly still the claimed one), the provider and the limiter
    are not called again, and success means the decision was recorded,
    published and returned. *)
Definition settled (k : uuid) (n : Notification) (v : verdict) (now : Time) (ev : LogEvent)
    w (r : res unit) w' : Prop :=
  let row := updated stamp (settle v now n) n in
  same_io w w' ∧
  ((rows (w_db w') = <[k := row]> (rows (w_db w)) ∧ returns v r ∧
    trail (w_db w') = trail (w_db w) ++ [(k, CorrelationID n, ev)] ∧
    w_bcast w' = (Bcast_Publish (ID n) (verdict_status v) (w_bcast w)).2) ∨
   ((∃ e, r = Err e) ∧
    (rows (w_db w') = rows (w_db w) ∨ rows (w_db w') = <[k := row]> (rows (w_db w))))).

Lemma wp_observe o (Φ : res unit → W → Prop) w :
  Φ (Ok tt) (set_obs (w_obs w ++ [o]) w) → wp (run (call (observe o))) Φ w.
Proof. done. Qed.
Lemma wp_emit uc o (Φ : res unit → W → Prop) w :
  Φ (Ok tt) w → Φ (Ok tt) (set_obs (w_obs w ++ [o]) w) → wp (run (emit uc o)) Φ w.
Proof. intros. unfold emit, when. by destruct (pn_metrics uc). Qed.
Lemma wp_span uc o (Φ : res unit → W → Prop) w :
  Φ (Ok tt) w → Φ (Ok tt) (set_obs (w_obs w ++ [o]) w) → wp (run (span uc o)) Φ w.
Proof. intros. unfold span, when. by destruct (pn_tracer uc). Qed.

(** What the code after the update does, from any world. *)
Definition records (k : uuid) (n : Notification) (v : verdict) (ev : LogEvent) (post : proc unit) : Prop :=
  ∀ w, wp (run post) (λ r w', same_io w w' ∧ rows (w_db w') = rows (w_db w) ∧
    ((returns v r ∧ trail (w_db w') = trail (w_db w) ++ [(k, CorrelationID n, ev)] ∧
      w_bcast w' = (Bcast_Publish (ID n) (verdict_status v) (w_bcast w)).2) ∨
     ∃ e, r = Err e)) w.

Lemma records_recordEvent ctx k n v now ev out d reason (fin : proc unit) :
  key (ID n) = Some k → (∃ r, fin = Done r ∧ returns v r) →
  records k n v ev (recordEvent (settle v now n) ev;;
                    logProcessingOutcome ctx (settle v now n) out d reason;; fin).
Proof.
  intros Hk (r0 & -> & Hret) w. uc_step.
  wp_use (recordEvent_spec (settle v now n) ev k w); [by rewrite settle_ID|].
  intros r w' (Hio & Hr & Hrest). rewrite settle_ID, settle_CorrelationID, settle_status in Hrest.
  destruct r as [[]|e]; [|by eauto].
  unfold logProcessingOutcome. uc_steps. world_simpl. by split_and!; [..|left].
Qed.

Lemma records_emit uc o k n v ev (post : proc unit) :
  records k n v ev post → records k n v ev (emit uc o;; post).
Proof.
  intros Hpost w. uc_step. apply wp_emit; [apply Hpost|].
  exact (Hpost (set_obs (w_obs w ++ [o]) w)).
Qed.

(** The update guarded by [processing], then the rest of the branch. *)
Lemma update_then ctx k n v now ev (post : proc unit) w :
  key (ID n) = Some k → rows (w_db w) !! k = Some n →
  records k n v ev post →
  wp (run (wrapped ctx (call (repo_UpdateStatus (settle v now n) StatusProcessing));; post))
     (settled k n v now ev w) w.
Proof.
  intros Hk Hrow Hpost. uc_steps. wp_use update_law. intros r db1 [Ht Hr].
  assert (∀ R, update_effect (settle v now n) StatusProcessing (rows (w_db w)) R →
            R = <[k := updated stamp (settle v now n) n]> (rows (w_db w))) as Heff.
  { intros R (k' & n0 & Hk' & Hn0 & _ & ->). rewrite settle_ID in Hk'. by simplify_eq. }
  destruct r as [[]|e]; unfold settled, same_io; world_simpl.
  - wp_use Hpost. world_simpl. intros r w' (Hio & Hrows & Hcases).
    apply Heff in Hr. split; [exact Hio|].
    rewrite Hrows, Hr, <-Ht. destruct Hcases as [(? & ? & ?)|He]; [left|right]; auto.
  - split; [done|]. right. split; [by eauto|]. destruct Hr as [_ [Hr|Hr]]; auto.
Qed.

Lemma entity_settled n v now (m : M Notification unit) (k : Notification → proc unit) Φ w :
  m n = (Ok tt, settle v now n) →
  wp (run (k (settle v now n))) Φ w →
  wp (run (n' ← entity n m; k n')) Φ w.
Proof. intros Hm Hk. uc_steps. by rewrite Hm. Qed.

Lemma mark_processing_legal n target now side :
  NStatus n = StatusProcessing → fsm StatusProcessing target →
  transition target now side n = (Ok tt, side (with_status target now n)).
Proof. intros Hn Hf. apply transition_legal. by rewrite Hn. Qed.

Section branches.
Variables (uc : ProcessNotification) (ctx : context) (k : uuid) (n : Notification) (w : W).
Hypotheses (Hk : key (ID n) = Some k) (Hrow : rows (w_db w) !! k = Some n)
  (Hst : NStatus n = StatusProcessing).

Lemma markDelivered_spec now d :
  wp (run (markDelivered uc ctx n now d)) (settled k n VDelivered now LogEventDelivered w) w.
Proof.
  apply (entity_settled n VDelivered now (MarkDelivered now));
    [apply mark_processing_legal; [done|constructor]|].
  apply update_then; [done..|]. rewrite settle_channel. apply records_emit.
  apply records_recordEvent with (fin := mret tt); [done|by eexists].
Qed.

Lemma markFailed_spec result now d :
  wp (run (markFailed uc ctx n result now d))
    (settled k n (VFailed (Reason result)) now LogEventFailed w) w.
Proof.
  apply (entity_settled n (VFailed (Reason result)) now (MarkFailed now (Reason result)));
    [apply mark_processing_legal; [done|constructor]|].
  apply update_then; [done..|]. rewrite settle_channel. apply records_emit.
  apply records_recordEvent with (fin := mret tt); [done|by eexists].
Qed.

Lemma markRetrying_spec result now d :
  wp (run (markRetrying ctx n result now d))
    (settled k n (VRetry (Reason result)) now LogEventRetrying w) w.
Proof.
  apply (entity_settled n (VRetry (Reason result)) now
    (MarkRetrying now (Reason result) (time_Add now (backoffFor (Attempts n)))));
    [apply mark_processing_legal; [done|constructor]|].
  apply update_then; [done..|].
  eapply records_recordEvent; [done|]. eexists. split; [done|]. by eexists.
Qed.

Lemma rescheduleForRateLimit_spec start :
  wp (run (rescheduleForRateLimit uc ctx n start))
    (settled k n VRateLimited (Clock_reading (w_ticks w)) LogEventRetrying w) w.
Proof.
  unfold rescheduleForRateLimit. uc_step. uc_step. uc_op.
  set (now := Clock_reading _).
  assert (∀ r w', settled k n VRateLimited now LogEventRetrying (set_ticks (S (w_ticks w)) w) r w' →
    settled k n VRateLimited now LogEventRetrying w r w') as Hset by done.
  eapply wp_mono; [|exact Hset].
  apply (entity_settled n VRateLimited now
    (MarkRetrying now "outbound rate limit exceeded" (time_Add now rateLimitBackoff)));
    [apply mark_processing_legal; [done|constructor]|].
  apply update_then; [done..|]. rewrite settle_channel. apply records_emit.
  eapply records_recordEvent; [done|]. eexists. split; [done|]. by eexists.
Qed.

End branches.

Lemma applyResult_spec uc ctx k n w result start :
  key (ID n) = Some k → rows (w_db w) !! k = Some n → NStatus n = StatusProcessing →
  let v := verdict_of result (Attempts n) in
  wp (run (applyResult uc ctx n result start))
    (settled k n v (Clock_reading (w_ticks w)) (verdict_event v) w) w.
Proof.
  intros Hk Hrow Hst v. unfold applyResult. uc_step. uc_step. uc_op. set (now := Clock_reading _).
  set (w1 := set_ticks _ w). set (body := if Success result then _ else _).
  assert (wp (run body) (settled k n v now (verdict_event v) w1) w1) as Hb.
  { unfold body, v, verdict_of, defaultMaxAttempts.
    destruct (Success result); [by apply markDelivered_spec|].
    destruct (Retryable result); simpl; [|by apply markFailed_spec].
    destruct (Z.leb_spec 5 (Attempts n)), (Z.ltb_spec (Attempts n) 5); try lia;
      [by apply markFailed_spec|by apply markRetrying_spec]. }
  uc_step. wp_use Hb. intros r w' Hr. by apply wp_emit.
Qed.

Lemma send_spec uc ctx n w :
  wp (run (send uc ctx n)) (λ r w', ∃ result,
    r = Ok result ∧ w_db w' = w_db w ∧ w_queue w' = w_queue w ∧ w_limiter w' = w_limiter w ∧
    w_bcast w' = w_bcast w ∧
    Provider_Send ctx (NChannel n) (Recipient n) (Content n) (w_provider w) = (result, w_provider w')) w.
Proof.
  unfold send, StartSpan, span, when. destruct (pn_tracer uc); uc_steps; world_simpl; eauto 10.
Qed.

(** The decision: one question to the limiter and, when it allows, one call
    of the provider with the claimed row's own channel, recipient and content. *)
Inductive decided (ctx : context) (n : Notification) w w1 : verdict → Prop :=
| decided_denied retryAfter :
    Limiter_Allow ("channel:" +:+ NChannel n) (w_limiter w) = (Ok (false, retryAfter), w_limiter w1) →
    w_provider w1 = w_provider w →
    decided ctx n w w1 VRateLimited
| decided_sent retryAfter result :
    Limiter_Allow ("channel:" +:+ NChannel n) (w_limiter w) = (Ok (true, retryAfter), w_limiter w1) →
    Provider_Send (reseed ctx n) (NChannel n) (Recipient n) (Content n) (w_provider w)
      = (result, w_provider w1) →
    decided ctx n w w1 (verdict_of result (Attempts n)).

(** From the claimed row [n] of key [k], in world [w], to the end. *)
Inductive delivered_from (ctx : context) (k : uuid) (n : Notification) w : res unit → W → Prop :=
| interrupted e w' :
    rows (w_db w') = rows (w_db w) → w_queue w' = w_queue w → w_provider w' = w_provider w →
    delivered_from ctx k n w (Err e) w'
| settled_with w1 v now r w' :
    rows (w_db w1) = rows (w_db w) → w_queue w1 = w_queue w →
    trail (w_db w1) = trail (w_db w) ++ [(k, CorrelationID n, LogEventProcessing)] →
    w_bcast w1 = (Bcast_Publish (ID n) StatusProcessing (w_bcast w)).2 →
    decided ctx n w w1 v →
    settled k n v now (verdict_event v) w1 r w' →
    delivered_from ctx k n w r w'.

Lemma deliver_spec uc ctx k n start w :
  key (ID n) = Some k → rows (w_db w) !! k = Some n → NStatus n = StatusProcessing →
  wp (run (deliver uc ctx n start)) (delivered_from ctx k n w) w.
Proof.
  intros Hk Hrow Hst. unfold deliver. uc_step.
  wp_use (recordEvent_spec n LogEventProcessing k w Hk).
  intros r w1 ((Hq & Hp & Hl) & Hrows & Hr). rewrite Hst in Hr.
  destruct r as [[]|e]; [destruct Hr as [Ht Hb]|by constructor].
  uc_steps. apply wp_intro. rewrite Hl. intros r lim Hallow. world_simpl.
  destruct r as [[[] retryAfter]|e]; [| |by constructor]; cbn [negb fst].
  - uc_step. wp_use (send_spec uc (reseed ctx n) n (set_limiter lim w1)).
    intros r w2 (result & -> & Hdb & Hq2 & Hl2 & Hb2 & Hsend). world_simpl. rewrite Hp in Hsend.
    assert (∀ w3 : W, w_db w3 = w_db w2 → w_queue w3 = w_queue w2 → w_provider w3 = w_provider w2 →
      w_limiter w3 = w_limiter w2 → w_bcast w3 = w_bcast w2 →
      wp (run (applyResult uc (reseed ctx n) n result start)) (delivered_from ctx k n w) w3) as Happ.
    { intros w3 E1 E2 E3 E4 E5.
      wp_use (applyResult_spec uc (reseed ctx n) k n w3 result start); [done|congruence|done|].
      intros r w' Hset. eapply (settled_with _ _ _ _ w3); try congruence; [|exact Hset].
      eapply decided_sent; [rewrite E4, Hl2; exact Hallow|by rewrite E3]. }
    uc_step. by apply wp_emit; apply Happ.
  - wp_use (rescheduleForRateLimit_spec uc (reseed ctx n) k n (set_limiter lim w1)); [done|by world_simpl; rewrite Hrows|done|].
    intros r w' Hset. eapply (settled_with _ _ _ _ (set_limiter lim w1)); [done..| |].
    + by eapply decided_denied.
    + exact Hset.
Qed.

(** The outcomes of [Execute]. *)
Inductive processed (ctx : context) (id : NotificationID) w : res unit → W → Prop :=
| lost_race k n0 w' :
    key id = Some k → rows (w_db w) !! k = Some n0 → ¬ claimable n0 →
    rows (w_db w') = rows (w_db w) → trail (w_db w') = trail (w_db w) →
    same_io w w' → w_bcast w' = w_bcast w → w_obs w' = w_obs w →
    processed ctx id w (Ok tt) w'
| claim_failed e w' :
    (rows (w_db w') = rows (w_db w) ∨
     ∃ n, claim_effect id (Clock_reading (w_ticks w)) n (rows (w_db w)) (rows (w_db w'))) →
    trail (w_db w') = trail (w_db w) →
    same_io w w' → w_bcast w' = w_bcast w → w_obs w' = w_obs w →
    processed ctx id w (Err (Wrapped "claim notification" e)) w'
| delivered k n w1 r w' :
    key (ID n) = Some k →
    claim_effect id (Clock_reading (w_ticks w)) n (rows (w_db w)) (rows (w_db w1)) →
    trail (w_db w1) = trail (w_db w) →
    same_io w w1 → w_bcast w1 = w_bcast w →
    delivered_from ctx k n w1 r w' →
    processed ctx id w r w'.

Lemma Execute_processed uc ctx id w :
  wp (run (ProcessNotification_Execute uc ctx id)) (processed ctx id w) w.
Proof.
  unfold ProcessNotification_Execute. uc_steps. set (now := Clock_reading _).
  wp_use claim_law. world_simpl. intros r db1 [Ht Hr]. destruct r as [n|e].
  - destruct Hr as (k & n0 & Hk & Hn0 & Hc & Hmax & Hn & Hrows).
    assert (key (ID n) = Some k) as Hkn by (subst n; exact (rows_keyed _ _ _ Hn0)).
    wp_use (deliver_spec uc ctx k n now (set_db db1 (set_ticks (S (w_ticks w)) w)));
      [done| |by subst n|].
    { world_simpl. rewrite Hrows. apply lookup_insert_eq. }
    intros r w' Hd. eapply delivered; [exact Hkn| | | | |exact Hd]; try done.
    world_simpl. by exists k, n0.
  - destruct Hr as (Ha & _ & Hr). destruct (errors_Is e ErrAlreadyClaimed).
    + uc_steps. destruct Ha as (Hrows & k & n0 & Hk & Hn0 & Hc); [done|].
      by eapply lost_race.
    + uc_steps. by eapply claim_failed.
Qed.
End spec.


(** ** Telemetry carries no personal data

    Two programs have the same telemetry when, given the same answers of the
    other ports, they emit the same observations in the same order and return
    the same result. *)
Definition is_observe {B} (o : op B) : bool := 
  match o with observe _ | tracer_StartSpan _ => true | _ => false end.

Inductive same_telemetry {A} : proc A → proc A → Prop :=
| same_done r : same_telemetry (Done r) (Done r)
| same_observe {B} (o : op B) k k' : is_observe o = true →
    (∀ r, same_telemetry (k r) (k' r)) → same_telemetry (Call o k) (Call o k')
| same_other {B} (o o' : op B) k k' : is_observe o = false → is_observe o' = false →
    (∀ r, same_telemetry (k r) (k' r)) → same_telemetry (Call o k) (Call o' k').

Lemma same_telemetry_refl {A} (c : proc A) : same_telemetry c c.
Proof.
  induction c as [r|B o k IH]; [constructor|].
  destruct o; first [by apply same_other|by apply same_observe].
Qed.

Lemma same_then {A B} (k k' : res A → proc B) c c' :
  same_telemetry c c' → (∀ r, same_telemetry (k r) (k' r)) →
  same_telemetry (proc_then k c) (proc_then k' c').
Proof.
  intros Hc Hk. induction Hc; simpl; [apply Hk|by apply same_observe|by apply same_other].
Qed.
Lemma same_bind {A B} (k k' : A → proc B) c c' :
  same_telemetry c c' → (∀ a, same_telemetry (k a) (k' a)) →
  same_telemetry (c ≫= k) (c' ≫= k').
Proof. intros Hc Hk. apply same_then; [done|]. intros [a|e]; [apply Hk|constructor]. Qed.
Lemma same_wrapped_call {B} ctx (o o' : op B) : is_observe o = false → is_observe o' = false →
  same_telemetry (wrapped ctx (call o)) (wrapped ctx (call o')).
Proof. intros. apply same_then; [|intros []; constructor]. apply same_other; [done|done|constructor]. Qed.
#[export] Hint Resolve same_telemetry_refl same_bind same_wrapped_call : go.

(** The notification without its recipient and its content. *)
Definition redact (n : Notification) : Notification :=
  {| ID := ID n; NBatchID := NBatchID n; IdempotencyKey := IdempotencyKey n;
     CorrelationID := CorrelationID n; NChannel := NChannel n; NPriority := NPriority n;
     Recipient := ""; Content := ""; NStatus := NStatus n; Attempts := Attempts n;
     LastError := LastError n; NextRetryAt := NextRetryAt n; ScheduledAt := ScheduledAt n;
     NTemplateID := NTemplateID n; CreatedAt := CreatedAt n; UpdatedAt := UpdatedAt n |}.

Lemma same_entity n target now side (k k' : Notification → proc unit) :
  (∀ n, side (redact n) = redact (side n)) →
  (∀ n, same_telemetry (k n) (k' (redact n))) →
  same_telemetry (entity n (transition target now side) ≫= k)
                 (entity (redact n) (transition target now side) ≫= k').
Proof.
  intros Hside Hk. unfold entity, lift, transition. change (NStatus (redact n)) with (NStatus n).
  destruct (negb _); [constructor|].
  change (with_status target now (redact n)) with (redact (with_status target now n)).
  rewrite Hside. apply Hk.
Qed.

Lemma same_applyResult uc ctx n result start :
  same_telemetry (applyResult uc ctx n result start) (applyResult uc ctx (redact n) result start).
Proof.
  unfold applyResult. apply same_bind; [apply same_telemetry_refl|]. intros now.
  apply same_then; [|intros; apply same_telemetry_refl].
  change (Attempts (redact n)) with (Attempts n).
  destruct (Success result); [|destruct (negb _ || _)]; apply same_entity; try done;
    intros n1; eauto 10 with go.
Qed.

(** C18. The telemetry of a processing run (log lines, metrics, span
    attributes) does not depend on the recipient or the content: with both
    blanked, the same port answers give the same observations and result. *)
Theorem deliver_telemetry_hides_recipient uc ctx n start :
  same_telemetry (deliver uc ctx n start) (deliver uc ctx (redact n) start).
Proof.
  unfold deliver. change (reseed ctx (redact n)) with (reseed ctx n).
  apply same_bind; [apply same_telemetry_refl|]. intros _.
  apply same_bind; [apply same_telemetry_refl|]. intros [[] retryAfter]; simpl.
  - apply same_bind; [|intros result; apply same_bind;
      [apply same_telemetry_refl|intros _; apply same_applyResult]].
    unfold send. apply same_bind; [apply same_telemetry_refl|intros sp].
    repeat (apply same_bind; [apply same_telemetry_refl|intros _]).
    apply same_bind; [apply same_other; [done|done|constructor]|].
    intros; apply same_telemetry_refl.
  - apply same_bind; [apply same_telemetry_refl|]. intros now.
    apply same_entity; [done|]. intros n1. eauto 10 with go.
Qed.
