(* ===== verification/CreateNotification.v ===== *)
(** Creation of one notification (internal/application/create_notification.go)
    and of a scheduled one (schedule_notification.go). *)

From S2P Require Import Prelude GoStrings Uuid Errors ValueObjects Notification Batch Template.
From S2P Require Import Ports RepoSpec.

Record CreateNotificationInput := mkCreateNotificationInput {
  cn_Channel : string;
  cn_Priority : string;
  cn_Recipient : string;
  cn_Content : string;
  cn_IdempotencyKey : string;
  cn_CorrelationID : string;
  cn_ScheduledAt : option Time;
  cn_TemplateID : option string;
  cn_TemplateVariables : option (gmap string any);
}.

(** The optional MetricsRecorder of the use case. *)
Record CreateNotification := mkCreateNotification { cn_metrics : bool }.

(** One audit row: build it, append it. *)
Definition append_event (build append : string) (n : Notification) (event : LogEvent) (now : Time) : proc unit :=
  id ← call gen_NewLogID;
  entry ← wrapped build (lift (NewNotificationLog id (ID n) (CorrelationID n) event None now));
  wrapped append (call (log_Append entry)).

Definition resolveCorrelation (given : string) : proc string :=
  if bool_decide (given = "") then call gen_NewCorrelationID else mret given.

Section create.
Context `{TextTemplate}.
Variable uc : CreateNotification.

Definition renderTemplate (id : string) (vars : option (gmap string any)) : proc string :=
  tmpl ← wrapped "get template" (call (tmpl_Get id));
  wrapped "render template" (lift (Template_Render tmpl vars)).

Definition enqueue (n : Notification) : proc unit :=
  match ScheduledAt n with
  | Some at_ => call (queue_EnqueueScheduled (ID n) (NPriority n) at_)
  | None => call (queue_Enqueue (ID n) (NPriority n) (IdempotencyKey n))
  end.

Definition markQueued (n : Notification) (now : Time) : proc Notification :=
  n ← wrapped "mark queued" (entity n (MarkQueued now));
  wrapped "persist queued status" (call (repo_UpdateStatus n StatusPending));;
  append_event "build queued log entry" "append queued log entry" n LogEventQueued now;;
  mret n.

(** [content] after the template, when one is named, has replaced it. *)
Definition resolveContent (inp : CreateNotificationInput) : proc string :=
  match cn_TemplateID inp with
  | Some tid => if bool_decide (tid = "") then mret (cn_Content inp)
                else renderTemplate tid (cn_TemplateVariables inp)
  | None => mret (cn_Content inp)
  end.

(** The side effects of [Execute], once the entity is built. *)
Definition persist (n : Notification) (now : Time) : proc Notification :=
  wrapped "create notification" (call (repo_Create n));;
  append_event "build log entry" "append log entry" n LogEventCreated now;;
  wrapped "enqueue notification" (enqueue n);;
  n ← markQueued n now;
  when (cn_metrics uc) (call (observe (NotificationCreated (NChannel n) (NPriority n))));;
  mret n.

Definition CreateNotification_Execute (inp : CreateNotificationInput) : proc Notification :=
  channel ← lift (NewChannel (cn_Channel inp));
  priority ← lift (NewPriority (cn_Priority inp));
  correlationID ← resolveCorrelation (cn_CorrelationID inp);
  now ← call clock_Now;
  content ← resolveContent inp;
  id ← call gen_NewNotificationID;
  n ← lift (NewNotification {|
    in_ID := id; in_BatchID := None; in_IdempotencyKey := cn_IdempotencyKey inp;
    in_CorrelationID := correlationID; in_Channel := channel; in_Priority := priority;
    in_Recipient := cn_Recipient inp; in_Content := content;
    in_ScheduledAt := cn_ScheduledAt inp; in_TemplateID := cn_TemplateID inp |} now);
  persist n now.

Record ScheduleNotificationInput := mkScheduleNotificationInput {
  sn_Channel : string; sn_Priority : string; sn_Recipient : string; sn_Content : string;
  sn_IdempotencyKey : string; sn_CorrelationID : string; sn_ScheduledAt : Time;
  sn_TemplateID : option string;
}.
(** The creation request a scheduled one delegates to. *)
Definition scheduled_create (inp : ScheduleNotificationInput) : CreateNotificationInput := {|
    cn_Channel := sn_Channel inp; cn_Priority := sn_Priority inp;
    cn_Recipient := sn_Recipient inp; cn_Content := sn_Content inp;
    cn_IdempotencyKey := sn_IdempotencyKey inp; cn_CorrelationID := sn_CorrelationID inp;
    cn_ScheduledAt := Some (sn_ScheduledAt inp); cn_TemplateID := sn_TemplateID inp;
    cn_TemplateVariables := None |}.
Definition ScheduleNotification_Execute (inp : ScheduleNotificationInput) : proc Notification :=
  now ← call clock_Now;
  if negb (time_After (sn_ScheduledAt inp) now) then raise (Sentinel ErrScheduledInPast)
  else CreateNotification_Execute (scheduled_create inp).
End create.

(** ** Specification *)
Section spec.
Context {DB Q PR RL BC : Type}.
Context `{TextTemplate, StoreLaws DB, Queue Q, Provider PR, RateLimiter RL,
  StatusBroadcaster BC, Clock, IDGenerator}.
Local Abbreviation W := (World DB Q PR RL BC).
Implicit Types w : W.

(** What creation never touches. *)
Definition same_worker_side w w' : Prop :=
  w_provider w' = w_provider w ∧ w_limiter w' = w_limiter w ∧ w_bcast w' = w_bcast w.
(** Nothing observable happened: only a clock reading or ids were consumed. *)
Definition no_side_effect w w' : Prop :=
  unchanged (w_db w) (w_db w') ∧ w_queue w' = w_queue w ∧ same_worker_side w w' ∧ w_obs w' = w_obs w.

Lemma no_side_effect_refl w : no_side_effect w w.
Proof. done. Qed.
Lemma no_side_effect_trans w1 w2 w3 :
  no_side_effect w1 w2 → no_side_effect w2 w3 → no_side_effect w1 w3.
Proof. unfold no_side_effect, unchanged, same_worker_side. intuition congruence. Qed.

Lemma append_event_spec build append n ev now k w : key (ID n) = Some k →
  wp (run (append_event build append n ev now)) (λ r w',
    w_queue w' = w_queue w ∧ same_worker_side w w' ∧ w_obs w' = w_obs w ∧
    rows (w_db w') = rows (w_db w) ∧
    match r with
    | Ok _ => trail (w_db w') = trail (w_db w) ++ [(k, CorrelationID n, ev)]
    | Err _ => trail (w_db w') = trail (w_db w) ∨
               trail (w_db w') = trail (w_db w) ++ [(k, CorrelationID n, ev)]
    end) w.
Proof.
  intros Hk. unfold append_event, same_worker_side. uc_steps. world_simpl.
  destruct (NewNotificationLog _ _ _ _ _ _) as [entry|e] eqn:E; [|split_and!; [done..|by left]].
  assert (log_NotificationID entry = ID n ∧ log_CorrelationID entry = CorrelationID n ∧
          log_Event entry = ev) as (Hid & Hc & Hev).
  { unfold NewNotificationLog in E. repeat case_match; by simplify_eq/=. }
  uc_steps. wp_use append_law. intros r db1 [Hrows Ht]. world_simpl.
  assert (∀ t, append_effect entry (trail (w_db w)) t → t = trail (w_db w) ++ [(k, CorrelationID n, ev)]) as Heff.
  { intros t (k' & Hk' & ->). rewrite Hid, Hk in Hk'. injection Hk' as <-. by rewrite Hc, Hev. }
  destruct r as [[]|e]; (split_and!; [done..|]); [by apply Heff|]. destruct Ht as [Ht|Ht]; auto.
Qed.

Lemma resolveCorrelation_spec given w :
  wp (run (resolveCorrelation given)) (λ r w', ∃ c, r = Ok c ∧ (given ≠ "" → c = given) ∧
    no_side_effect w w' ∧ w_db w' = w_db w) w.
Proof. unfold resolveCorrelation. case_bool_decide; uc_steps; eexists; by split_and!. Qed.

(** Where the content comes from: the request, or the named template
    rendered with the request's variables. *)
Definition content_source (inp : CreateNotificationInput) (db : DB) (content : string) : Prop :=
  match cn_TemplateID inp with
  | Some tid =>
      if bool_decide (tid = "") then content = cn_Content inp
      else ∃ tmpl db', TmplRepo_Get tid db = (Ok tmpl, db') ∧
             Template_Render tmpl (cn_TemplateVariables inp) = Ok content
  | None => content = cn_Content inp
  end.

Lemma resolveContent_spec inp w :
  wp (run (resolveContent inp)) (λ r w', no_side_effect w w' ∧
    ∀ content, r = Ok content → content_source inp (w_db w) content) w.
Proof.
  unfold resolveContent, renderTemplate, content_source.
  destruct (cn_TemplateID inp) as [tid|]; [case_bool_decide|];
    [by uc_steps; split; [|intros ? [= ->]]| |by uc_steps; split; [|intros ? [= ->]]].
  uc_steps. apply wp_intro. intros r db Hget. pose proof (tmpl_get_reads tid (w_db w)) as Hr.
  rewrite Hget in Hr. simpl in Hr. destruct r as [tmpl|e]; uc_steps; world_simpl; [|by split].
  destruct (Template_Render _ _) as [c|e] eqn:E; (split; [done|]); [|done].
  intros ? [= ->]. by exists tmpl, db.
Qed.

Definition enqueued (n : Notification) (q q' : Q) : Prop :=
  match ScheduledAt n with
  | Some at_ => Queue_EnqueueScheduled (ID n) (NPriority n) at_ q = (Ok tt, q')
  | None => Queue_Enqueue (ID n) (NPriority n) (IdempotencyKey n) q = (Ok tt, q')
  end.

Lemma enqueue_spec n w :
  wp (run (enqueue n)) (λ r w', w_db w' = w_db w ∧ same_worker_side w w' ∧ w_obs w' = w_obs w ∧
    (r = Ok tt → enqueued n (w_queue w) (w_queue w'))) w.
Proof.
  unfold enqueue, enqueued, same_worker_side.
  destruct (ScheduledAt n); uc_steps; apply wp_intro; intros r q Hq; world_simpl;
    split_and!; try done; by intros ->.
Qed.

(** The entity a request stands for. *)
Record entity_for (inp : CreateNotificationInput) (db : DB) (n : Notification) : Prop := {
  ef_channel : NewChannel (cn_Channel inp) = Ok (NChannel n);
  ef_priority : NewPriority (cn_Priority inp) = Ok (NPriority n);
  ef_recipient : Recipient n = cn_Recipient inp ∧ recipient_ok (NChannel n) (Recipient n);
  ef_content : content_source inp db (Content n) ∧ content_ok (NChannel n) (Content n);
  ef_correlation : CorrelationID n ≠ "" ∧
    (cn_CorrelationID inp ≠ "" → CorrelationID n = cn_CorrelationID inp);
  ef_key : IdempotencyKey n = cn_IdempotencyKey inp;
  ef_schedule : ScheduledAt n = cn_ScheduledAt inp;
  ef_template : NTemplateID n = cn_TemplateID inp;
  ef_generated : (∃ j, ID n = Gen_NotificationID j) ∧ (∃ j, CreatedAt n = Clock_reading j);
  ef_fresh : NStatus n = StatusPending ∧ Attempts n = 0 ∧ LastError n = "" ∧
    NextRetryAt n = None ∧ NBatchID n = None ∧ UpdatedAt n = CreatedAt n;
}.

(** The rows and the trail once the row of [n] (key [k]) exists in status
    [st], with the given audit events. *)
Definition queued_entity (n : Notification) : Notification :=
  with_status StatusQueued (CreatedAt n) n.
Definition queued_row (n : Notification) : Notification :=
  updated stamp (queued_entity n) (stored n).

(** [db] is the database the template, if any, was read from. *)
Inductive created (inp : CreateNotificationInput) (db : DB) w : res Notification → W → Prop :=
| rejected e w' : no_side_effect w w' → created inp db w (Err e) w'
| left_pending n k e w' :
    entity_for inp db n → key (ID n) = Some k → rows (w_db w) !! k = None →
    rows (w_db w') = <[k := stored n]> (rows (w_db w)) →
    same_worker_side w w' → w_obs w' = w_obs w →
    created inp db w (Err e) w'
| left_queued n k e w' :
    entity_for inp db n → key (ID n) = Some k → rows (w_db w) !! k = None →
    rows (w_db w') = <[k := queued_row n]> (rows (w_db w)) →
    enqueued n (w_queue w) (w_queue w') →
    same_worker_side w w' → w_obs w' = w_obs w →
    created inp db w (Err e) w'
| created_ok n k w' :
    entity_for inp db n → key (ID n) = Some k → rows (w_db w) !! k = None →
    rows (w_db w') = <[k := queued_row n]> (rows (w_db w)) →
    trail (w_db w') = trail (w_db w) ++
      [(k, CorrelationID n, LogEventCreated); (k, CorrelationID n, LogEventQueued)] →
    enqueued n (w_queue w) (w_queue w') →
    same_worker_side w w' →
    created inp db w (Ok (queued_entity n)) w'.

Lemma markQueued_spec n k w :
  key (ID n) = Some k → rows (w_db w) !! k = Some (stored n) → NStatus n = StatusPending →
  wp (run (markQueued n (CreatedAt n))) (λ r w',
    w_queue w' = w_queue w ∧ same_worker_side w w' ∧ w_obs w' = w_obs w ∧
    match r with
    | Ok n' => n' = queued_entity n ∧ rows (w_db w') = <[k := queued_row n]> (rows (w_db w)) ∧
        trail (w_db w') = trail (w_db w) ++ [(k, CorrelationID n, LogEventQueued)]
    | Err _ => rows (w_db w') = rows (w_db w) ∨
        rows (w_db w') = <[k := queued_row n]> (rows (w_db w))
    end) w.
Proof.
  intros Hk Hrow Hst. unfold markQueued. uc_step. uc_step. uc_step.
  unfold MarkQueued. rewrite transition_legal by (rewrite Hst; constructor).
  unfold same_worker_side. fold (queued_entity n). uc_steps.
  wp_use update_law. intros r db1 [Ht Hr]. world_simpl.
  assert (∀ R, update_effect (queued_entity n) StatusPending (rows (w_db w)) R →
            R = <[k := queued_row n]> (rows (w_db w))) as Heff.
  { intros R (k' & n0 & Hk' & Hn0 & _ & ->). change (ID (queued_entity n)) with (ID n) in Hk'.
    by simplify_eq. }
  destruct r as [[]|e]; [apply Heff in Hr|destruct Hr as [_ [Hr|Hr%Heff]]; split_and!; auto].
  uc_step. wp_use (append_event_spec "build queued log entry" "append queued log entry"
    (queued_entity n) LogEventQueued (CreatedAt n) k); [done|].
  world_simpl. intros r w' (Hq & Hws & Ho & Hrows & Htr). unfold same_worker_side in Hws. world_simpl.
  rewrite Ht in Htr. destruct r as [[]|e]; uc_steps; rewrite ?Hrows, ?Hr; split_and!; try apply Hws; auto.
Qed.

Lemma persist_spec uc inp db n w :
  entity_for inp db n → wp (run (persist uc n (CreatedAt n))) (created inp db w) w.
Proof.
  intros Hef. pose proof (ef_fresh _ _ _ Hef) as (Hst & _). unfold persist. uc_steps.
  wp_use create_law. intros r db1 [Ht Hr]. world_simpl.
  destruct r as [[]|e]; last first.
  { destruct Hr as [Hr|(k & Hk & Hnone & Hr)]; [by apply rejected|by eapply left_pending]. }
  destruct Hr as (k & Hk & Hnone & Hrows). uc_step.
  wp_use (append_event_spec "build log entry" "append log entry" n LogEventCreated (CreatedAt n) k);
    [done|].
  intros r w2 (Hq2 & Hws2 & Ho2 & Hrows2 & Ht2). world_simpl.
  destruct r as [[]|e]; last first.
  { eapply left_pending; try done. by rewrite Hrows2. }
  rewrite Ht in Ht2. uc_steps. wp_use (enqueue_spec n w2).
  intros r w3 (Hdb3 & Hws3 & Ho3 & Hq3). unfold same_worker_side in *. world_simpl.
  destruct Hws2 as (?&?&?), Hws3 as (?&?&?).
  destruct r as [[]|e]; last first.
  { eapply left_pending; try done; [by rewrite Hdb3, Hrows2|split_and!; congruence|congruence]. }
  specialize (Hq3 eq_refl). rewrite Hq2 in Hq3. uc_step.
  wp_use (markQueued_spec n k w3); [done|by rewrite Hdb3, Hrows2, Hrows, lookup_insert_eq|done|].
  intros r w4 (Hq4 & (?&?&?) & Ho4 & Hr4). rewrite Hdb3, Hrows2, Hrows in Hr4.
  destruct r as [n'|e].
  - destruct Hr4 as (-> & Hr4 & Ht4). rewrite insert_insert_eq in Hr4. rewrite Ht2 in Ht4.
    rewrite <-app_assoc in Ht4. rewrite <-Hq4 in Hq3.
    unfold when; destruct (cn_metrics uc); uc_steps;
      eapply created_ok; try done; unfold same_worker_side; world_simpl; split_and!; congruence.
  - rewrite insert_insert_eq in Hr4. destruct Hr4 as [Hr4|Hr4].
    + eapply left_pending; try done; unfold same_worker_side; split_and?; congruence.
    + eapply left_queued; try done; [by rewrite Hq4|unfold same_worker_side; split_and?; congruence..].
Qed.

Lemma created_after inp db w w1 r w' :
  no_side_effect w w1 → created inp db w1 r w' → created inp db w r w'.
Proof.
  intros Hn Hc. pose proof Hn as ([Hr Ht] & Hq & (?&?&?) & Ho).
  destruct Hc as [e w' H'|n k e w' ??? Hrows (?&?&?)|n k e w' ??? Hrows ? (?&?&?)
    |n k w' ??? Hrows Htr ? (?&?&?)].
  - apply rejected. by eapply no_side_effect_trans.
  - rewrite Hr in *. eapply left_pending; try done; unfold same_worker_side; split_and?; congruence.
  - rewrite Hr, Hq in *. eapply left_queued; try done; unfold same_worker_side; split_and?; congruence.
  - rewrite Hr, Hq, Ht in *. eapply created_ok; try done; unfold same_worker_side; split_and?; congruence.
Qed.

Lemma CreateNotification_created uc inp w :
  wp (run (CreateNotification_Execute uc inp)) (created inp (w_db w) w) w.
Proof.
  unfold CreateNotification_Execute. uc_steps.
  destruct (NewChannel (cn_Channel inp)) as [channel|e] eqn:Hch; [|by apply rejected].
  uc_steps. destruct (NewPriority (cn_Priority inp)) as [priority|e] eqn:Hpr; [|by apply rejected].
  uc_step. wp_use resolveCorrelation_spec. intros r w1 (corr & -> & Hcorr & Hn1 & Hdb1).
  uc_step. uc_step. uc_op. set (now := Clock_reading _). set (w2 := set_ticks _ w1).
  assert (no_side_effect w w2) as Hn2 by exact Hn1.
  uc_step. wp_use (resolveContent_spec inp w2). intros r w3 [Hn3 Hsrc].
  assert (no_side_effect w w3) as Hn4 by by eapply no_side_effect_trans.
  destruct r as [content|e]; [|by apply rejected].
  specialize (Hsrc content eq_refl). change (w_db w2) with (w_db w1) in Hsrc. rewrite Hdb1 in Hsrc.
  uc_step. uc_step. uc_op. uc_step. uc_step. set (w4 := set_fresh _ w3).
  assert (no_side_effect w w4) as Hn5 by exact Hn4.
  destruct (NewNotification _ now) as [n|e] eqn:En; [|by apply rejected].
  apply NewNotification_Ok in En as [(Hid & Hc & Hchv & Hprv & Hrec & Hcon) ->]. simpl in *.
  eapply wp_mono; [apply (persist_spec uc inp (w_db w) (pending_entity _ now) w4)|].
  - by constructor; simpl; eauto.
  - intros r w'. by apply created_after.
Qed.
End spec.

(** C13. Creation either is rejected with nothing persisted, queued, published
    or emitted, or inserts the row of a valid entity built from the request
    (its content inline or rendered from the named template).  A failure after
    the insert leaves that row pending - or already queued, with its task in the
    queue - for the reconciler; success leaves it queued with its task (delayed
    when a schedule was given), two audit entries, and returns the queued
    entity.  The provider, limiter and broadcaster are never touched. *)
Theorem CreateNotification_outcomes {DB Q PR RL BC : Type} `{TextTemplate, StoreLaws DB, Queue Q,
    Provider PR, RateLimiter RL, StatusBroadcaster BC, Clock, IDGenerator} uc inp (w : World DB Q PR RL BC) :
  wp (run (CreateNotification_Execute uc inp)) (created inp (w_db w) w) w.
Proof. apply CreateNotification_created. Qed.

(** Scheduling rejects, before any side effect, a time that is not
    strictly after the clock; otherwise it is a creation whose entity carries
    that schedule, so its task is enqueued with the delay. *)
Theorem ScheduleNotification_guard {DB Q PR RL BC : Type} `{TextTemplate, StoreLaws DB, Queue Q,
    Provider PR, RateLimiter RL, StatusBroadcaster BC, Clock, IDGenerator} uc inp (w : World DB Q PR RL BC) :
  wp (run (ScheduleNotification_Execute uc inp)) (λ r w',
    if bool_decide (Clock_reading (w_ticks w) < sn_ScheduledAt inp)
    then created (scheduled_create inp) (w_db w) w r w'
    else r = Err (Sentinel ErrScheduledInPast) ∧ no_side_effect w w') w.
Proof.
  unfold ScheduleNotification_Execute. uc_steps. unfold time_After.
  case_bool_decide as Hlt; destruct (Z.ltb_spec (Clock_reading (w_ticks w)) (sn_ScheduledAt inp));
    try lia; cbn [negb]; [|by uc_steps].
  wp_use CreateNotification_created. intros r w'. by apply created_after.
Qed.
