(* ===== verification/CancelNotification.v ===== *)
(** Cancellation (internal/application/cancel_notification.go). *)

From S2P Require Import Prelude GoStrings Uuid Errors ValueObjects Notification Batch Template.
From S2P Require Import Ports RepoSpec CreateNotification.

Definition CancelNotification_Execute (id : NotificationID) : proc Notification :=
  n ← wrapped "get notification" (call (repo_Get id));
  let sourceStatus := NStatus n in
  now ← call clock_Now;
  n ← entity n (Cancel now);
  wrapped "update status" (call (repo_UpdateStatus n sourceStatus));;
  append_event "build log entry" "append log entry" n LogEventCancelled now;;
  wrapped "queue cancel" (call (queue_Cancel (ID n)));;
  mret n.

Section spec.
Context {DB Q PR RL BC : Type}.
Context `{StoreLaws DB, Queue Q, Provider PR, RateLimiter RL,
  StatusBroadcaster BC, Clock, IDGenerator}.
Local Abbreviation W := (World DB Q PR RL BC).
Implicit Types w : W.

(** The row of [n] once cancelled at [now]. *)
Definition cancelled_row (now : Time) (n : Notification) : Notification :=
  updated stamp (with_status StatusCancelled now n) n.

(** After the row [n] was moved: how far the rest got - the answer of the update
    was lost; the event was not recorded; the queue failed; or all went well. *)
Inductive moved_on (k : uuid) (n n' : Notification) w : res Notification → W → Prop :=
| move_unconfirmed e w' :
    trail (w_db w') = trail (w_db w) → w_queue w' = w_queue w →
    moved_on k n n' w (Err (Wrapped "update status" e)) w'
| move_unrecorded e w' :
    trail (w_db w') = trail (w_db w) ∨
    trail (w_db w') = trail (w_db w) ++ [(k, CorrelationID n, LogEventCancelled)] →
    w_queue w' = w_queue w →
    moved_on k n n' w (Err e) w'
| move_unqueued e w' :
    trail (w_db w') = trail (w_db w) ++ [(k, CorrelationID n, LogEventCancelled)] →
    Queue_Cancel (ID n) (w_queue w) = (Err e, w_queue w') →
    moved_on k n n' w (Err (Wrapped "queue cancel" e)) w'
| move_done w' :
    trail (w_db w') = trail (w_db w) ++ [(k, CorrelationID n, LogEventCancelled)] →
    Queue_Cancel (ID n) (w_queue w) = (Ok tt, w_queue w') →
    moved_on k n n' w (Ok n') w'.
Inductive cancelled (id : NotificationID) w : res Notification → W → Prop :=
| cancel_unread e db' w' :
    Repo_Get id (w_db w) = (Err e, db') → no_side_effect w w' →
    cancelled id w (Err (Wrapped "get notification" e)) w'
| cancel_illegal k n e w' :
    key id = Some k → rows (w_db w) !! k = Some n → ¬ fsm (NStatus n) StatusCancelled →
    errors_Is e ErrInvalidTransition = true → no_side_effect w w' →
    cancelled id w (Err e) w'
| cancel_not_saved k n e w' :
    key id = Some k → rows (w_db w) !! k = Some n → fsm (NStatus n) StatusCancelled →
    no_side_effect w w' →
    cancelled id w (Err (Wrapped "update status" e)) w'
| cancel_moved k n r w' :
    key id = Some k → rows (w_db w) !! k = Some n → fsm (NStatus n) StatusCancelled →
    let now := Clock_reading (w_ticks w) in
    rows (w_db w') = <[k := cancelled_row now n]> (rows (w_db w)) →
    moved_on k n (with_status StatusCancelled now n) w r w' →
    same_worker_side w w' → w_obs w' = w_obs w →
    cancelled id w r w'.

Lemma Execute_cancelled nid w : wp (run (CancelNotification_Execute nid)) (cancelled nid w) w.
Proof.
  unfold CancelNotification_Execute. uc_steps. apply wp_intro. intros r db1 Hget.
  pose proof (wp_run _ _ _ _ _ (get_law nid (w_db w)) Hget) as [[Hr1 Ht1] Hres].
  destruct r as [n|e]; [|by eapply cancel_unread].
  destruct Hres as (k & Hk & Hrow). pose proof (rows_keyed _ _ _ Hrow) as Hkn.
  uc_steps. set (now := Clock_reading _). unfold Cancel.
  destruct (decide (Status_CanTransitionTo (NStatus n) StatusCancelled = true)) as [Hf|Hf];
    rewrite CanTransitionTo_fsm in Hf; last first.
  { destruct (transition_illegal StatusCancelled now id n Hf) as (e & -> & He).
    by eapply cancel_illegal. }
  rewrite transition_legal by done. change (id (with_status StatusCancelled now n)) with
    (with_status StatusCancelled now n). uc_steps. world_simpl.
  set (n' := with_status StatusCancelled now n) in *.
  assert (∀ R, update_effect n' (NStatus n) (rows db1) R →
            R = <[k := cancelled_row now n]> (rows (w_db w))) as Heff.
  { intros R (k' & n0 & Hk' & Hn0 & _ & ->). change (ID n') with (ID n) in Hk'.
    rewrite Hr1 in *. by simplify_eq. }
  wp_use update_law. intros r db2 [Ht2 Hr2].
  destruct r as [[]|e]; last first.
  { destruct Hr2 as [_ [Hr2|Hr2%Heff]].
    - eapply cancel_not_saved; try done.
      unfold no_side_effect, unchanged. split_and!; try done; simpl; congruence.
    - eapply cancel_moved; try done. apply move_unconfirmed; simpl; congruence. }
  apply Heff in Hr2. uc_step.
  wp_use (append_event_spec "build log entry" "append log entry" n' LogEventCancelled now k); [done|].
  intros r w3 (Hq3 & Hws3 & Ho3 & Hr3 & Ht3). world_simpl. rewrite Hr2 in Hr3. rewrite Ht2, Ht1 in Ht3.
  destruct r as [[]|e]; [|by eapply cancel_moved; try done; apply move_unrecorded].
  uc_steps. apply wp_intro. rewrite Hq3. world_simpl. intros r q Hqc.
  destruct r as [[]|e]; uc_steps; (eapply cancel_moved; try done); [by apply move_done|by apply move_unqueued].
Qed.
End spec.

(** C15. Cancellation: a row whose status has no edge to cancelled
    (processing and the terminal ones) is refused with [ErrInvalidTransition]
    and nothing changes; otherwise the row is moved, at the clock's time, under
    the guard of the status that was read, the event is appended and the queue
    is asked to cancel the notification's id.  An error after the row was moved
    - an update whose answer was lost, the event, the queue - leaves it
    cancelled, with the trail and the queue as far as the steps got; any other
    error leaves every store as it was. *)
Theorem CancelNotification_outcomes {DB Q PR RL BC : Type} `{StoreLaws DB, Queue Q,
    Provider PR, RateLimiter RL, StatusBroadcaster BC, Clock, IDGenerator} id (w : World DB Q PR RL BC) :
  wp (run (CancelNotification_Execute id)) (cancelled id w) w.
Proof. apply Execute_cancelled. Qed.
