(* ===== verification/Reconcile.v ===== *)
(** The reconciler's use case
    (internal/application/reconcile_stuck_notifications.go): four sweeps over
    rows that stopped making progress. *)

From S2P Require Import Prelude GoStrings Uuid Errors ValueObjects Notification Batch Template.
From S2P Require Import Ports RepoSpec CreateNotification.

Definition orphanedPendingThreshold : Duration := 5 * Minute.
Definition stuckProcessingThreshold : Duration := 5 * Minute.
Definition overdueRetryingThreshold : Duration := 10 * Minute.
Definition stuckQueuedThreshold : Duration := 5 * Minute.
Definition reconcilerBatchSize : Z := 100.

Record ReconcileOutput := mkReconcileOutput {
  OrphanedPendingReenqueued : Z;
  StuckProcessingFailed : Z;
  OverdueRetryingReenqueued : Z;
  StuckQueuedReenqueued : Z;
}.

Definition reenqueue (label : string) (n : Notification) : proc unit :=
  wrapped label (call (queue_Enqueue (ID n) (NPriority n) (IdempotencyKey n))).

Definition reconcile_recordEvent (n : Notification) (event : LogEvent) (now : Time) : proc unit :=
  append_event "build log entry" "append log entry" n event now.

Definition handleOrphanedPending (now : Time) (n : Notification) : proc unit :=
  n ← entity n (MarkQueued now);
  wrapped "update status (orphaned)" (call (repo_UpdateStatus n StatusPending));;
  reconcile_recordEvent n LogEventQueued now;;
  reenqueue "re-enqueue orphaned" n.

Definition handleStuckProcessing (now : Time) (n : Notification) : proc unit :=
  n ← entity n (MarkFailed now "worker_timeout");
  wrapped "update status (stuck)" (call (repo_UpdateStatus n StatusProcessing));;
  reconcile_recordEvent n LogEventFailed now.

Definition handleOverdueRetrying (n : Notification) : proc unit := reenqueue "re-enqueue overdue" n.
Definition handleStuckQueued (n : Notification) : proc unit := reenqueue "re-enqueue stuck queued" n.

(** The loop of a sweep: the number of rows handled and the first error, both
    of which the caller sees. *)
Fixpoint sweep_rows (handler : Notification → proc unit) (l : list Notification) (done : Z)
    : proc (Z * option error) :=
  match l with
  | [] => mret (done, None)
  | n :: l =>
      r ← outcome (handler n);
      match r with
      | Err e => mret (done, Some e)
      | Ok _ => sweep_rows handler l (done + 1)
      end
  end.
Definition sweep (label : string) (find : op (list Notification)) (handler : Notification → proc unit)
    : proc (Z * option error) :=
  r ← outcome (call find);
  match r with
  | Err e => mret (0, Some (Wrapped label e))
  | Ok l => sweep_rows handler l 0
  end.

Definition sweepOrphanedPending (now : Time) : proc (Z * option error) :=
  sweep "find orphaned pending"
    (repo_FindOrphanedPending (time_Add now (- orphanedPendingThreshold)) reconcilerBatchSize)
    (handleOrphanedPending now).
Definition sweepStuckProcessing (now : Time) : proc (Z * option error) :=
  sweep "find stuck processing"
    (repo_FindStuckProcessing (time_Add now (- stuckProcessingThreshold)) reconcilerBatchSize)
    (handleStuckProcessing now).
Definition sweepOverdueRetrying (now : Time) : proc (Z * option error) :=
  sweep "find overdue retrying"
    (repo_FindOverdueRetrying (time_Add now (- overdueRetryingThreshold)) reconcilerBatchSize)
    handleOverdueRetrying.
Definition sweepStuckQueued (now : Time) : proc (Z * option error) :=
  sweep "find stuck queued"
    (repo_FindStuckQueued (time_Add now (- stuckQueuedThreshold)) reconcilerBatchSize)
    handleStuckQueued.

(** [Execute] returns its counts together with the error, if any. *)
Definition Reconcile_Execute : proc (ReconcileOutput * option error) :=
  now ← call clock_Now;
  '(a, err) ← sweepOrphanedPending now;
  match err with
  | Some e => mret (mkReconcileOutput a 0 0 0, Some e)
  | None =>
  '(b, err) ← sweepStuckProcessing now;
  match err with
  | Some e => mret (mkReconcileOutput a b 0 0, Some e)
  | None =>
  '(c, err) ← sweepOverdueRetrying now;
  match err with
  | Some e => mret (mkReconcileOutput a b c 0, Some e)
  | None =>
  '(d, err) ← sweepStuckQueued now;
  mret (mkReconcileOutput a b c d, err)
  end end end.

(** ** Specification *)
Section spec.
Context {DB Q PR RL BC : Type}.
Context `{StoreLaws DB, Queue Q, Provider PR, RateLimiter RL,
  StatusBroadcaster BC, Clock, IDGenerator}.
Local Abbreviation W := (World DB Q PR RL BC).
Implicit Types w : W.

Section pass.
(** One pass at time [now], started in a store with rows [R0]. *)
Variables (now : Time) (w0 : W).
Let R0 := rows (w_db w0).

Definition orphan (n : Notification) : Prop :=
NStatus n = StatusPending ∧ CreatedAt n < stamp (now - 5 * Minute).
Definition stuck (n : Notification) : Prop :=
NStatus n = StatusProcessing ∧ UpdatedAt n < stamp (now - 5 * Minute).
Definition overdue (n : Notification) : Prop :=
NStatus n = StatusRetrying ∧ ∃ d, NextRetryAt n = Some d ∧ d < stamp (now - 10 * Minute).
Definition stranded (n : Notification) : Prop :=
NStatus n = StatusQueued ∧ UpdatedAt n < stamp (now - 5 * Minute) ∧
∀ s, ScheduledAt n = Some s → s < stamp (now - 5 * Minute).

Definition requeued_row (n : Notification) : Notification :=
updated stamp (with_status StatusQueued now n) n.
Definition timed_out_row (n : Notification) : Notification :=
updated stamp (with_last_error "worker_timeout" (with_status StatusFailed now n)) n.

(** What a pass may do to a row. *)
Inductive reconciled : Notification → Notification → Prop :=
| rec_same n : reconciled n n
| rec_orphan n : orphan n → reconciled n (requeued_row n)
| rec_stuck n : stuck n → reconciled n (timed_out_row n).
Definition reconciled_rows (R : rowmap) : Prop :=
∀ k, option_Forall2 reconciled (R0 !! k) (R !! k).

(** A row the pass may re-enqueue. *)
Definition due (n : Notification) : Prop :=
∃ k n0, R0 !! k = Some n0 ∧ ID n0 = ID n ∧ (orphan n0 ∨ overdue n0 ∨ stranded n0).
Definition enqueue_all (l : list Notification) (q : Q) : Q :=
foldl (λ q n, (Queue_Enqueue (ID n) (NPriority n) (IdempotencyKey n) q).2) q l.

(** The invariant of a pass after the re-enqueues [l]. *)
Definition pass_inv (l : list Notification) w : Prop :=
reconciled_rows (rows (w_db w)) ∧ same_worker_side w0 w ∧ w_obs w = w_obs w0 ∧
w_queue w = enqueue_all l (w_queue w0) ∧ Forall due l.

Lemma reconciled_unmoved R k n : reconciled_rows R → R !! k = Some n →
NStatus n = StatusPending ∨ NStatus n = StatusProcessing ∨ NStatus n = StatusRetrying →
R0 !! k = Some n.
Proof.
intros HR Hn Hst. specialize (HR k). rewrite Hn in HR. inversion HR as [n0 n' Hrec E|]; subst.
inversion Hrec; subst; [done| |]; by destruct_or! Hst.
Qed.

Lemma reconciled_queued R k n : reconciled_rows R → R !! k = Some n → stranded n → due n.
Proof.
intros HR Hn Hst. specialize (HR k). rewrite Hn in HR. inversion HR as [n0 n' Hrec E|]; subst.
symmetry in E. inversion Hrec; subst.
- exists k, n. split_and!; auto.
- exists k, n0. split_and!; auto.
- by destruct Hst as [? _].
Qed.

Lemma reconciled_insert R k n n' : reconciled_rows R → R0 !! k = Some n → reconciled n n' →
reconciled_rows (<[k := n']> R).
Proof.
intros HR Hn Hrec k'. destruct (decide (k' = k)) as [->|Hne].
- rewrite Hn, lookup_insert_eq. by constructor.
- rewrite lookup_insert_ne by done. apply HR.
Qed.

Lemma enqueue_all_snoc l n q :
enqueue_all (l ++ [n]) q = (Queue_Enqueue (ID n) (NPriority n) (IdempotencyKey n) (enqueue_all l q)).2.
Proof. unfold enqueue_all. by rewrite foldl_app. Qed.

(** A handler keeps the invariant, and on success has made [c] re-enqueues. *)
Definition handler_ok (handler : proc unit) (c : nat) : Prop :=
∀ l w, pass_inv l w → wp (run handler) (λ r w', ∃ l', pass_inv (l ++ l') w' ∧
  (r = Ok tt → length l' = c)) w.

Lemma reenqueue_ok label n : due n → handler_ok (reenqueue label n) 1.
Proof.
intros Hdue l w (HR & (?&?&?) & Ho & Hq & Hl). unfold reenqueue. uc_steps.
apply wp_intro. intros r q Hqr.
assert (q = enqueue_all (l ++ [n]) (w_queue w0)) as Eq.
{ rewrite enqueue_all_snoc, <-Hq. by rewrite Hqr. }
assert (pass_inv (l ++ [n]) (set_queue q w)).
{ unfold pass_inv, same_worker_side. split_and!; try done. apply Forall_app_2; auto. }
by destruct r as [[]|e]; uc_steps; exists [n].
Qed.

Lemma recordEvent_ok n ev k l w : key (ID n) = Some k → pass_inv l w →
wp (run (reconcile_recordEvent n ev now)) (λ r w', pass_inv l w') w.
Proof.
intros Hk (HR & (?&?&?) & Ho & Hq & Hl). unfold reconcile_recordEvent.
wp_use (append_event_spec "build log entry" "append log entry" n ev now k w Hk).
intros r w' (Hq' & (?&?&?) & Ho' & Hr' & _). unfold pass_inv, same_worker_side.
rewrite Hr'. split_and!; first [done|congruence].
Qed.

Lemma update_ok ctx n n' src k l w : R0 !! k = Some n → key (ID n) = Some k → ID n' = ID n →
src = StatusPending ∨ src = StatusProcessing → reconciled n (updated stamp n' n) → pass_inv l w →
wp (run (wrapped ctx (call (repo_UpdateStatus n' src)))) (λ r w', pass_inv l w') w.
Proof.
intros HR0 Hk HID Hsrc Hrec (HR & Hws & Ho & Hq & Hl). uc_steps. wp_use update_law.
intros r db [_ Hr].
assert (rows db = rows (w_db w) ∨ update_effect n' src (rows (w_db w)) (rows db)) as Heff.
{ destruct r; [by right|]. destruct Hr as [_ Hr]. exact Hr. }
assert (pass_inv l (set_db db w)).
{ split; [|done]. world_simpl. destruct Heff as [->|(k' & n0 & Hk' & Hn0 & Hst & ->)]; [done|].
  rewrite HID, Hk in Hk'. simplify_eq. assert (R0 !! k' = Some n0) as E.
  { eapply reconciled_unmoved; [done..|]. tauto. }
  simplify_eq. by apply reconciled_insert with n. }
by destruct r as [[]|e]; uc_steps.
Qed.

Lemma handleOrphanedPending_ok k n : R0 !! k = Some n → orphan n →
handler_ok (handleOrphanedPending now n) 1.
Proof.
intros Hn Ho l w Hinv. pose proof (rows_keyed _ _ _ Hn) as Hk. unfold handleOrphanedPending.
uc_step. uc_step. unfold MarkQueued.
rewrite transition_legal by (destruct Ho as [-> _]; constructor). cbn [id]. uc_step.
wp_use (update_ok _ n _ _ k l); [done|done|done|by left|by constructor|done|].
intros r w1 Hinv1. destruct r as [[]|e]; [|exists []; by rewrite app_nil_r].
uc_step. wp_use (recordEvent_ok _ _ k l w1 Hk Hinv1). intros r w2 Hinv2.
destruct r as [[]|e]; [|exists []; by rewrite app_nil_r].
apply reenqueue_ok; [|done]. exists k, n. auto.
Qed.

Lemma handleStuckProcessing_ok k n : R0 !! k = Some n → stuck n →
handler_ok (handleStuckProcessing now n) 0.
Proof.
intros Hn Ho l w Hinv. pose proof (rows_keyed _ _ _ Hn) as Hk. unfold handleStuckProcessing.
uc_step. uc_step. unfold MarkFailed.
rewrite transition_legal by (destruct Ho as [-> _]; constructor). uc_step.
wp_use (update_ok _ n _ _ k l); [done|done|done|by right|by constructor|done|].
intros r w1 Hinv1. destruct r as [[]|e]; [|exists []; by rewrite app_nil_r].
wp_use (recordEvent_ok _ LogEventFailed k l w1 Hk Hinv1).
intros r w2 Hinv2. exists []. by rewrite app_nil_r.
Qed.

Lemma sweep_rows_ok handler c l0 : (∀ n, n ∈ l0 → handler_ok (handler n) c) →
∀ done l w, pass_inv l w →
wp (run (sweep_rows handler l0 done)) (λ r w', ∃ z err l', r = Ok (z, err) ∧ pass_inv (l ++ l') w' ∧
  done ≤ z ≤ done + Z.of_nat (length l0) ∧
  (err = None → Z.of_nat (length l') = Z.of_nat c * (z - done))) w.
Proof.
induction l0 as [|n l0 IH]; intros Hh done l w Hinv; cbn [sweep_rows].
- uc_steps. exists done, None, []. rewrite app_nil_r. split_and!; try done; simpl; lia.
- uc_step. uc_step. wp_use (Hh n ltac:(set_solver) l w Hinv). intros r w1 (l1 & Hinv1 & Hlen).
  destruct r as [[]|e].
  + wp_use (IH ltac:(set_solver) (done + 1) (l ++ l1) w1 Hinv1).
    intros r w2 (z & err & l2 & -> & Hinv2 & Hz & Hl2). exists z, err, (l1 ++ l2).
    rewrite app_assoc. split_and!; try done; cbn [length]; try lia.
    intros ->. specialize (Hlen eq_refl). specialize (Hl2 eq_refl). rewrite length_app. nia.
  + uc_steps. exists done, (Some e), l1. split_and!; try done; cbn [length]; lia.
Qed.

(** A sweep, given that the rows it finds are ones its handler is right for. *)
Lemma sweep_ok label find handler c l w :
wp (handle find) (λ r w', ∀ l1, pass_inv l1 w → pass_inv l1 w' ∧
  ∀ rows, r = Ok rows → ∀ n, n ∈ rows → handler_ok (handler n) c) w →
pass_inv l w →
wp (run (sweep label find handler)) (λ r w', ∃ z err l', r = Ok (z, err) ∧ pass_inv (l ++ l') w' ∧
  0 ≤ z ∧ (err = None → Z.of_nat (length l') = Z.of_nat c * z)) w.
Proof.
intros Hfind Hinv. unfold sweep. uc_step. uc_step. apply wp_call. wp_use Hfind.
intros r w1 Hr. destruct (Hr l Hinv) as [Hinv1 Hrows]. destruct r as [found|e].
- wp_use (sweep_rows_ok handler c found (Hrows found eq_refl) 0 l w1 Hinv1).
  intros r w2 (z & err & l' & -> & Hinv2 & Hz & Hl'). exists z, err, l'.
  split_and!; try done; try lia. intros He. specialize (Hl' He). lia.
- uc_steps. exists 0, (Some (Wrapped label e)), []. by rewrite app_nil_r.
Qed.

Lemma pass_inv_db l w db : unchanged (w_db w) db → pass_inv l w → pass_inv l (set_db db w).
Proof. intros [Hr _] (HR & ?). split; [|done]. world_simpl. by rewrite Hr. Qed.

(** The four finds return rows their handlers are right for. *)
Definition finds_ok (find : op (list Notification)) (handler : Notification → proc unit) (c : nat) : Prop :=
∀ w, wp (handle find) (λ r w', ∀ l1, pass_inv l1 w → pass_inv l1 w' ∧
  ∀ rows, r = Ok rows → ∀ n, n ∈ rows → handler_ok (handler n) c) w.

Lemma finds_orphaned : finds_ok (repo_FindOrphanedPending (time_Add now (- orphanedPendingThreshold))
reconcilerBatchSize) (handleOrphanedPending now) 1.
Proof.
intros w. uc_op. wp_use orphaned_law. intros r db [Hu Hl] l1 Hinv. split; [by apply pass_inv_db|].
intros found -> n Hin. destruct (Hl found eq_refl) as [_ Hall]. rewrite Forall_forall in Hall.
destruct (Hall n Hin) as ((k & Hk) & Hst & Hc). apply (handleOrphanedPending_ok k); [|done].
destruct Hinv as [HR _]. eapply reconciled_unmoved; [done..|]. auto.
Qed.
Lemma finds_stuck : finds_ok (repo_FindStuckProcessing (time_Add now (- stuckProcessingThreshold))
reconcilerBatchSize) (handleStuckProcessing now) 0.
Proof.
intros w. uc_op. wp_use stuck_processing_law. intros r db [Hu Hl] l1 Hinv. split; [by apply pass_inv_db|].
intros found -> n Hin. destruct (Hl found eq_refl) as [_ Hall]. rewrite Forall_forall in Hall.
destruct (Hall n Hin) as ((k & Hk) & Hst & Hc). apply (handleStuckProcessing_ok k); [|done].
destruct Hinv as [HR _]. eapply reconciled_unmoved; [done..|]. auto.
Qed.
Lemma finds_overdue : finds_ok (repo_FindOverdueRetrying (time_Add now (- overdueRetryingThreshold))
reconcilerBatchSize) handleOverdueRetrying 1.
Proof.
intros w. uc_op. wp_use overdue_law. intros r db [Hu Hl] l1 Hinv. split; [by apply pass_inv_db|].
intros found -> n Hin. destruct (Hl found eq_refl) as [_ Hall]. rewrite Forall_forall in Hall.
destruct (Hall n Hin) as ((k & Hk) & Hst & Hd). apply reenqueue_ok.
destruct Hinv as [HR _]. exists k, n. split_and!; [|done|].
- eapply reconciled_unmoved; [done..|]. auto.
- right. left. by split.
Qed.
Lemma finds_stranded : finds_ok (repo_FindStuckQueued (time_Add now (- stuckQueuedThreshold))
reconcilerBatchSize) handleStuckQueued 1.
Proof.
intros w. uc_op. wp_use stuck_queued_law. intros r db [Hu Hl] l1 Hinv. split; [by apply pass_inv_db|].
intros found -> n Hin. destruct (Hl found eq_refl) as [_ Hall]. rewrite Forall_forall in Hall.
destruct (Hall n Hin) as ((k & Hk) & Hst). apply reenqueue_ok.
destruct Hinv as [HR _]. by eapply reconciled_queued.
Qed.

Lemma sweeps_ok label find handler c l w : finds_ok find handler c → pass_inv l w →
wp (run (sweep label find handler)) (λ r w', ∃ z err l', r = Ok (z, err) ∧ pass_inv (l ++ l') w' ∧
  0 ≤ z ∧ (err = None → Z.of_nat (length l') = Z.of_nat c * z)) w.
Proof. intros Hf Hinv. apply sweep_ok; [apply Hf|done]. Qed.
End pass.

(** What a pass has done when it returns. *)
Definition pass_done w (r : res (ReconcileOutput * option error)) w' : Prop :=
  ∃ out err l, r = Ok (out, err) ∧ pass_inv (Clock_reading (w_ticks w)) w l w' ∧
    (err = None → Z.of_nat (length l) = OrphanedPendingReenqueued out
                    + OverdueRetryingReenqueued out + StuckQueuedReenqueued out).

Lemma Reconcile_done w : wp (run Reconcile_Execute) (pass_done w) w.
Proof.
  unfold Reconcile_Execute, pass_done. uc_step. uc_step. uc_op. set (now := Clock_reading _).
  assert (pass_inv now w [] (set_ticks (S (w_ticks w)) w)) as Hinv0.
  { split; [|done]. intros k. world_simpl. destruct (rows (w_db w) !! k); constructor. constructor. }
  uc_step. wp_use sweeps_ok; [apply finds_orphaned|exact Hinv0|].
  intros r w1 (a & err & l1 & -> & Hinv1 & Ha & Hl1).
  destruct err; [uc_steps; eexists _, _, _; split_and!; done|]. specialize (Hl1 eq_refl).
  uc_step. wp_use sweeps_ok; [apply finds_stuck|exact Hinv1|].
  intros r w2 (b & err & l2 & -> & Hinv2 & Hb & Hl2).
  destruct err; [uc_steps; eexists _, _, _; split_and!; done|]. specialize (Hl2 eq_refl).
  uc_step. wp_use sweeps_ok; [apply finds_overdue|exact Hinv2|].
  intros r w3 (c & err & l3 & -> & Hinv3 & Hc & Hl3).
  destruct err; [uc_steps; eexists _, _, _; split_and!; done|]. specialize (Hl3 eq_refl).
  uc_step. wp_use sweeps_ok; [apply finds_stranded|exact Hinv3|].
  intros r w4 (d & err & l4 & -> & Hinv4 & Hd & Hl4).
  uc_steps. eexists _, _, _; split_and!; [done|exact Hinv4|].
  intros ->. specialize (Hl4 eq_refl). rewrite !length_app. cbn [length OrphanedPendingReenqueued
    OverdueRetryingReenqueued StuckQueuedReenqueued]. lia.
Qed.
(** ** Every row a sweep finds

    [handles n None w w']: the handler took [n] from [w] to [w'];
    [handles n (Some e) w w']: it failed with [e], having got as far as [w']. *)
Definition same_elsewhere w w' : Prop := same_worker_side w w' ∧ w_obs w' = w_obs w.

(** A guarded update of the row of [n] to [row], and its audit event. *)
Definition moves (lbl : string) (n row : Notification) (ev : LogEvent) (r : option error) w w' : Prop :=
  ∃ k, key (ID n) = Some k ∧
  let R' := <[k := row]> (rows (w_db w)) in
  let t' := trail (w_db w) ++ [(k, CorrelationID n, ev)] in
  match r with
  | None => rows (w_db w') = R' ∧ trail (w_db w') = t'
  | Some e =>
      (∃ e0, e = Wrapped lbl e0) ∧ trail (w_db w') = trail (w_db w) ∧
        (rows (w_db w') = rows (w_db w) ∨ rows (w_db w') = R') ∨
      rows (w_db w') = R' ∧ (trail (w_db w') = trail (w_db w) ∨ trail (w_db w') = t')
  end.
(** The task of [n], handed to the queue. *)
Definition enqueues (lbl : string) (n : Notification) (r : option error) w w' : Prop :=
  match Queue_Enqueue (ID n) (NPriority n) (IdempotencyKey n) (w_queue w) with
  | (Ok _, q) => r = None ∧ w_queue w' = q
  | (Err e, q) => r = Some (Wrapped lbl e) ∧ w_queue w' = q
  end.
Definition handles_orphan (now : Time) (n : Notification) (r : option error) w w' : Prop :=
  let moved r := moves "update status (orphaned)" n (requeued_row now n) LogEventQueued r w w' in
  same_elsewhere w w' ∧
  ((∃ e, r = Some e ∧ moved r ∧ w_queue w' = w_queue w) ∨
   moved None ∧ enqueues "re-enqueue orphaned" n r w w').
Definition handles_stuck (now : Time) (n : Notification) (r : option error) w w' : Prop :=
  same_elsewhere w w' ∧ w_queue w' = w_queue w ∧
  moves "update status (stuck)" n (timed_out_row now n) LogEventFailed r w w'.
Definition handles_waiting (lbl : string) (n : Notification) (r : option error) w w' : Prop :=
  same_elsewhere w w' ∧ unchanged (w_db w) (w_db w') ∧ enqueues lbl n r w w'.

(** The rows [l], one after the other, up to the first failure: how many were
    handled, and that failure. *)
Inductive swept (handles : Notification → option error → W → W → Prop) :
    list Notification → Z → option error → W → W → Prop :=
| swept_all w : swept handles [] 0 None w w
| swept_row n l z err w w1 w2 :
    handles n None w w1 → swept handles l z err w1 w2 → swept handles (n :: l) (z + 1) err w w2
| swept_failed n l e w w1 :
    handles n (Some e) w w1 → swept handles (n :: l) 0 (Some e) w w1.
(** A sweep: its query's answer [l] - stored rows of the kind [P] - handled. *)
Definition sweeps (lbl : string) (find : op (list Notification)) (P : Notification → Prop)
    (handles : Notification → option error → W → W → Prop) (z : Z) (err : option error) w w' : Prop :=
  let '(r, w1) := handle find w in
  no_side_effect w w1 ∧
  match r with
  | Err e => z = 0 ∧ err = Some (Wrapped lbl e) ∧ w' = w1
  | Ok l => Forall (λ n, (∃ k, rows (w_db w) !! k = Some n) ∧ P n) l ∧ swept handles l z err w1 w'
  end.
(** The four sweeps in order; the first error ends the pass. *)
Definition pass_swept w (r : res (ReconcileOutput * option error)) w' : Prop :=
  let now := Clock_reading (w_ticks w) in
  let before d := time_Add now (- d) in
  ∃ a e1 w1, sweeps "find orphaned pending" (repo_FindOrphanedPending (before (5 * Minute)) 100)
    (orphan now) (handles_orphan now) a e1 (set_ticks (S (w_ticks w)) w) w1 ∧
  if e1 is Some e then r = Ok (mkReconcileOutput a 0 0 0, Some e) ∧ w' = w1 else
  ∃ b e2 w2, sweeps "find stuck processing" (repo_FindStuckProcessing (before (5 * Minute)) 100)
    (stuck now) (handles_stuck now) b e2 w1 w2 ∧
  if e2 is Some e then r = Ok (mkReconcileOutput a b 0 0, Some e) ∧ w' = w2 else
  ∃ c e3 w3, sweeps "find overdue retrying" (repo_FindOverdueRetrying (before (10 * Minute)) 100)
    (overdue now) (handles_waiting "re-enqueue overdue") c e3 w2 w3 ∧
  if e3 is Some e then r = Ok (mkReconcileOutput a b c 0, Some e) ∧ w' = w3 else
  ∃ d e4, sweeps "find stuck queued" (repo_FindStuckQueued (before (5 * Minute)) 100)
    (stranded now) (handles_waiting "re-enqueue stuck queued") d e4 w3 w' ∧
  r = Ok (mkReconcileOutput a b c d, e4).

(** A handler that does [handles], and changes no other row. *)
Definition err_of {A} (r : res A) : option error := match r with Ok _ => None | Err e => Some e end.
Definition handler_does (handler : Notification → proc unit) (P : Notification → Prop)
    (handles : Notification → option error → W → W → Prop) : Prop :=
  ∀ n k w, rows (w_db w) !! k = Some n → P n →
    wp (run (handler n)) (λ r w', handles n (err_of r) w w' ∧
      ∀ k', k' ≠ k → rows (w_db w') !! k' = rows (w_db w) !! k') w.

Lemma moves_update lbl n n' src row ev now k w : rows (w_db w) !! k = Some n → key (ID n) = Some k →
  ID n' = ID n → CorrelationID n' = CorrelationID n → row = updated stamp n' n → NStatus n = src →
  wp (run (wrapped lbl (call (repo_UpdateStatus n' src));; reconcile_recordEvent n' ev now))
    (λ r w', moves lbl n row ev (err_of r) w w' ∧ same_elsewhere w w' ∧ w_queue w' = w_queue w ∧
       ∀ k', k' ≠ k → rows (w_db w') !! k' = rows (w_db w) !! k') w.
Proof.
  intros Hrow Hk HID Hcorr -> Hsrc. uc_steps. wp_use update_law. intros r db [Ht Hr].
  assert (∀ R, update_effect n' src (rows (w_db w)) R → R = <[k := updated stamp n' n]> (rows (w_db w))) as Heff.
  { intros R (k' & n0 & Hk' & Hn0 & _ & ->). rewrite HID, Hk in Hk'. by simplify_eq. }
  assert (∀ k' n1, k' ≠ k → (<[k := n1]> (rows (w_db w)) : rowmap) !! k' = rows (w_db w) !! k') as Hne.
  { intros k' n1 Hk'. by apply lookup_insert_ne. }
  destruct r as [[]|e]; cbn [err_of].
  - apply Heff in Hr. unfold reconcile_recordEvent.
    wp_use (append_event_spec "build log entry" "append log entry" n' ev now k (set_db db w)); [by rewrite HID|].
    intros r w' (Hq & Hws & Ho & Hrows & Htr). unfold same_worker_side in Hws. world_simpl.
    rewrite Ht, Hcorr in Htr. rewrite Hr in Hrows. rewrite Hrows.
    split; [|unfold same_elsewhere, same_worker_side; destruct Hws as (?&?&?); split_and!; auto; congruence].
    exists k. split; [done|]. cbv zeta. destruct r; [done|]. right. done.
  - destruct Hr as [_ Hr]. uc_steps. split; [|split_and!; try done; world_simpl; intros k' Hk';
      destruct Hr as [->|Hr%Heff]; rewrite ?Hr; auto].
    exists k. split; [done|]. left. split; [by eexists|]. world_simpl. split; [done|].
    destruct Hr as [Hr|Hr%Heff]; auto.
Qed.
Lemma enqueues_reenqueue lbl n w :
  wp (run (reenqueue lbl n)) (λ r w', enqueues lbl n (err_of r) w w' ∧ w' = set_queue (w_queue w') w) w.
Proof.
  unfold reenqueue, enqueues. uc_steps. apply wp_intro. intros r q E. rewrite E.
  by destruct r; uc_steps.
Qed.

Lemma wp_assoc {A} (c d : proc unit) (post : proc A) Φ w :
  wp (run ((c;; d);; post)) Φ w → wp (run (c;; d;; post)) Φ w.
Proof.
  unfold wp, mbind, proc_bind. rewrite !run_then.
  destruct (run c w) as [[[]|e] w1]; cbn beta iota; by rewrite ?run_then.
Qed.
Lemma orphan_does now : handler_does (handleOrphanedPending now) (orphan now) (handles_orphan now).
Proof.
  intros n k w Hrow [Hst _]. pose proof (rows_keyed _ _ _ Hrow) as Hk. unfold handleOrphanedPending, MarkQueued.
  uc_step. uc_step. rewrite transition_legal by (rewrite Hst; constructor). cbn [id]. cbn beta iota.
  apply wp_assoc. uc_step. set (n' := with_status StatusQueued now n).
  wp_use (moves_update "update status (orphaned)" n n' StatusPending (requeued_row now n) LogEventQueued now k w);
    try done.
  intros [[]|e] w1 (Hm & (Hws & Ho) & Hq & Hother); cbn [err_of] in *; last first.
  { split; [|done]. split; [done|]. left. by exists e. }
  wp_use (enqueues_reenqueue "re-enqueue orphaned" n' w1). intros r w2 [Hen ->].
  unfold handles_orphan, same_elsewhere, same_worker_side in *. world_simpl. split; [|done].
  split; [done|]. right. split; [done|]. unfold enqueues in *. rewrite <-Hq. exact Hen.
Qed.
Lemma stuck_does now : handler_does (handleStuckProcessing now) (stuck now) (handles_stuck now).
Proof.
  intros n k w Hrow [Hst _]. pose proof (rows_keyed _ _ _ Hrow) as Hk. unfold handleStuckProcessing, MarkFailed.
  uc_step. uc_step. rewrite transition_legal by (rewrite Hst; constructor). cbn beta iota.
  wp_use (moves_update "update status (stuck)" n (with_last_error "worker_timeout" (with_status StatusFailed now n))
    StatusProcessing (timed_out_row now n) LogEventFailed now k w); try done.
  intros r w1 (Hm & Hse & Hq & Hother). by split.
Qed.
Lemma waiting_does lbl P : handler_does (reenqueue lbl) P (handles_waiting lbl).
Proof.
  intros n k w Hrow _. wp_use (enqueues_reenqueue lbl n w). intros r w1 [Hen ->].
  by unfold handles_waiting, same_elsewhere, same_worker_side, unchanged; world_simpl.
Qed.

(** The loop handles the rows, which stay as they were found until their turn. *)
Lemma sweep_rows_swept handler P handles l : handler_does handler P handles → ∀ done w,
  NoDup (ID <$> l) → Forall (λ n, (∃ k, rows (w_db w) !! k = Some n) ∧ P n) l →
  wp (run (sweep_rows handler l done)) (λ r w', ∃ z err, r = Ok (done + z, err) ∧ swept handles l z err w w') w.
Proof.
  intros Hh. induction l as [|n l IH]; intros done w Hnd Hl; cbn [sweep_rows].
  { uc_steps. exists 0, None. rewrite Z.add_0_r. split; [reflexivity|constructor]. }
  apply Forall_cons in Hl as [[[k Hk] HP] Hl]. rewrite fmap_cons in Hnd. apply NoDup_cons in Hnd as [Hnin Hnd].
  uc_step. uc_step. wp_use (Hh n k w Hk HP). intros r w1 [Hhn Hother]. destruct r as [[]|e]; cbn [err_of] in Hhn.
  - wp_use (IH (done + 1) w1 Hnd).
    + rewrite Forall_forall in Hl |- *. intros m Hm. destruct (Hl m Hm) as [[k' Hk'] HPm].
      split; [|exact HPm]. exists k'. rewrite Hother; [exact Hk'|]. intros ->. rewrite Hk in Hk'.
      injection Hk' as <-. apply Hnin. by apply list_elem_of_fmap_2.
    + intros r w2 (z & err & -> & Hs). exists (z + 1), err. split; [by rewrite <-Z.add_assoc, (Z.add_comm 1)|].
      by apply swept_row with w1.
  - uc_steps. exists 0, (Some e). rewrite Z.add_0_r. split; [reflexivity|by apply swept_failed].
Qed.

(** What a query of a sweep answers. *)
Definition finds (find : op (list Notification)) (P : Notification → Prop) : Prop := ∀ w,
  wp (handle find) (λ r w', no_side_effect w w' ∧ ∀ l, r = Ok l → NoDup (ID <$> l) ∧
    Forall (λ n, (∃ k, rows (w_db w) !! k = Some n) ∧ P n) l) w.
Lemma sweep_sweeps lbl find handler P handles w : finds find P → handler_does handler P handles →
  wp (run (sweep lbl find handler)) (λ r w', ∃ z err, r = Ok (z, err) ∧ sweeps lbl find P handles z err w w') w.
Proof.
  intros Hf Hh. unfold sweep, sweeps. uc_step. uc_step. apply wp_call, wp_intro. intros r w1 E.
  destruct (wp_run _ _ _ _ _ (Hf w) E) as [Hse Hl]. rewrite E.
  destruct r as [l|e]; [|uc_steps; exists 0, (Some (Wrapped lbl e)); by split_and!].
  destruct (Hl l eq_refl) as [Hnd Hall]. wp_use (sweep_rows_swept handler P handles l Hh 0 w1 Hnd).
  - destruct Hse as ([Hr _] & _). by rewrite Hr.
  - intros r w2 (z & err & -> & Hs). exists z, err. by rewrite Z.add_0_l.
Qed.
Lemma no_side_effect_db w db : unchanged (w_db w) db → no_side_effect w (set_db db w).
Proof. done. Qed.

Lemma Reconcile_swept w : wp (run Reconcile_Execute) (pass_swept w) w.
Proof.
  unfold Reconcile_Execute, pass_swept. uc_step. uc_step. uc_op. set (now := Clock_reading _). cbv zeta.
  assert (∀ label find handler P handles, finds find P → handler_does handler P handles → ∀ w0,
    wp (run (sweep label find handler)) (λ r w', ∃ z err, r = Ok (z, err) ∧ sweeps label find P handles z err w0 w') w0)
    as Hsweep by (intros; by apply sweep_sweeps).
  uc_step. unfold sweepOrphanedPending. wp_use Hsweep; [|apply orphan_does|].
  { intros w0. uc_op. wp_use orphaned_law. intros r db [Hu Hl]. split; [by apply no_side_effect_db|exact Hl]. }
  intros r w1 (a & e1 & -> & Hs1). destruct e1 as [e|]; [uc_steps; by exists a, (Some e), w1|].
  uc_step. unfold sweepStuckProcessing. wp_use Hsweep; [|apply stuck_does|].
  { intros w0. uc_op. wp_use stuck_processing_law. intros r db [Hu Hl]. split; [by apply no_side_effect_db|exact Hl]. }
  intros r w2 (b & e2 & -> & Hs2).
  destruct e2 as [e|]; [uc_steps; exists a, None, w1; split; [done|]; by exists b, (Some e), w2|].
  uc_step. unfold sweepOverdueRetrying. wp_use Hsweep; [|apply waiting_does|].
  { intros w0. uc_op. wp_use overdue_law. intros r db [Hu Hl]. split; [by apply no_side_effect_db|exact Hl]. }
  intros r w3 (c & e3 & -> & Hs3). destruct e3 as [e|].
  { uc_steps. exists a, None, w1. split; [done|]. exists b, None, w2. split; [done|]. by exists c, (Some e), w3. }
  uc_step. unfold sweepStuckQueued. wp_use Hsweep; [|apply waiting_does|].
  { intros w0. uc_op. wp_use stuck_queued_law. intros r db [Hu Hl]. split; [by apply no_side_effect_db|exact Hl]. }
  intros r w4 (d & e4 & -> & Hs4). uc_steps. exists a, None, w1. split; [done|]. exists b, None, w2. split; [done|].
  exists c, None, w3. split; [done|]. by exists d, e4.
Qed.
End spec.

(** C11. A reconciler pass at the clock's time.  It asks for up to 100 rows of
    each kind, in order: pending rows created more than 5 minutes ago,
    processing rows untouched for more than 5 minutes, retrying rows overdue by
    more than 10 minutes, queued rows untouched for more than 5 minutes whose
    schedule, if any, is itself that old.  It handles every row it is answered
    - orphans become queued, are audited and re-enqueued; stuck rows become
    failed with [worker_timeout] and are audited; the other two are re-enqueued
    - until one fails, whose error ends the pass and is returned with the counts
    of the rows handled.  Over the whole pass, even when it stops at an error,
    rows change in those two ways only, the queue only by re-enqueueing due
    notifications, and no other port is touched. *)
Theorem Reconcile_outcomes {DB Q PR RL BC : Type} `{StoreLaws DB, Queue Q,
    Provider PR, RateLimiter RL, StatusBroadcaster BC, Clock, IDGenerator} (w : World DB Q PR RL BC) :
  wp (run Reconcile_Execute) (λ r w', pass_swept w r w' ∧ pass_done w r w') w.
Proof. apply wp_conj; [apply Reconcile_swept|apply Reconcile_done]. Qed.
