(* ===== verification/CreateBatch.v ===== *)
(** Creation of a batch (internal/application/create_batch.go). *)

From S2P Require Import Prelude GoStrings Uuid Errors ValueObjects Notification Batch Template.
From S2P Require Import Ports RepoSpec CreateNotification.

Record CreateBatchItem := mkCreateBatchItem {
  it_Channel : string;
  it_Priority : string;
  it_Recipient : string;
  it_Content : string;
  it_IdempotencyKey : string;
  it_TemplateID : option string;
}.
Record CreateBatchInput := mkCreateBatchInput {
  cb_CorrelationID : string;
  cb_Notifications : list CreateBatchItem;
}.
Record CreateBatch := mkCreateBatch { cb_metrics : bool }.

Definition wrapItemErr {A} (c : proc A) : proc A := wrapped "notification at index" c.

(** The entity of one item, under the id generated for it. *)
Definition item_input (item : CreateBatchItem) (id : NotificationID) (correlationID : string)
    (channel : Channel) (priority : Priority) : NewNotificationInput := {|
  in_ID := id; in_BatchID := None; in_IdempotencyKey := it_IdempotencyKey item;
  in_CorrelationID := correlationID; in_Channel := channel; in_Priority := priority;
  in_Recipient := it_Recipient item; in_Content := it_Content item;
  in_ScheduledAt := None; in_TemplateID := it_TemplateID item |}.
Definition buildNotification (correlationID : string) (now : Time) (item : CreateBatchItem) : proc Notification :=
  channel ← wrapItemErr (lift (NewChannel (it_Channel item)));
  priority ← wrapItemErr (lift (NewPriority (it_Priority item)));
  id ← call gen_NewNotificationID;
  wrapItemErr (lift (NewNotification (item_input item id correlationID channel priority) now)).
Fixpoint buildNotifications (items : list CreateBatchItem) (correlationID : string) (now : Time)
    : proc (list Notification) :=
  match items with
  | [] => mret []
  | item :: items =>
      n ← buildNotification correlationID now item;
      ns ← buildNotifications items correlationID now;
      mret (n :: ns)
  end.

Section batch.
Variable uc : CreateBatch.

Definition recordCreated (n : Notification) (now : Time) : proc unit :=
  append_event "build log entry for" "append log entry for" n LogEventCreated now.
Definition recordQueued (n : Notification) (now : Time) : proc unit :=
  append_event "build queued log entry for" "append queued log entry for" n LogEventQueued now.

Definition enqueueMember (now : Time) (n : Notification) : proc Notification :=
  recordCreated n now;;
  wrapped "enqueue notification" (call (queue_Enqueue (ID n) (NPriority n) (IdempotencyKey n)));;
  n ← wrapped "mark queued" (entity n (MarkQueued now));
  wrapped "persist queued status" (call (repo_UpdateStatus n StatusPending));;
  recordQueued n now;;
  when (cb_metrics uc) (call (observe (NotificationCreated (NChannel n) (NPriority n))));;
  mret n.
Fixpoint enqueueMembers (now : Time) (l : list Notification) : proc (list Notification) :=
  match l with
  | [] => mret []
  | n :: l => n ← enqueueMember now n; ns ← enqueueMembers now l; mret (n :: ns)
  end.

(** The members are pointers: the batch returned holds them as
    [enqueueMember] left them. *)
Definition CreateBatch_Execute (inp : CreateBatchInput) : proc Batch :=
  correlationID ← resolveCorrelation (cb_CorrelationID inp);
  now ← call clock_Now;
  notifications ← buildNotifications (cb_Notifications inp) correlationID now;
  bid ← call gen_NewBatchID;
  batch ← lift (NewBatch (mkNewBatchInput bid correlationID notifications) now);
  wrapped "create batch" (call (batch_Create batch));;
  ns ← enqueueMembers now (batch_Notifications batch);
  mret (mkBatch (batch_ID batch) (batch_CorrelationID batch) ns (batch_CreatedAt batch)).
End batch.

(** ** Specification *)
Section spec.
Context {DB Q PR RL BC : Type}.
Context `{StoreLaws DB, Queue Q, Provider PR, RateLimiter RL,
  StatusBroadcaster BC, Clock, IDGenerator}.
Local Abbreviation W := (World DB Q PR RL BC).
Implicit Types w : W.

(** The entity [n] is what the item asks for. *)
Definition item_entity (correlationID : string) (now : Time) (item : CreateBatchItem) (n : Notification) : Prop :=
  NewChannel (it_Channel item) = Ok (NChannel n) ∧ NewPriority (it_Priority item) = Ok (NPriority n) ∧
  NewNotification (item_input item (ID n) correlationID (NChannel n) (NPriority n)) now = Ok n.

Lemma buildNotification_spec corr now item w :
  wp (run (buildNotification corr now item)) (λ r w', no_side_effect w w' ∧ w_db w' = w_db w ∧
    ∀ n, r = Ok n → item_entity corr now item n) w.
Proof.
  unfold buildNotification, wrapItemErr, item_entity. uc_steps.
  destruct (NewChannel (it_Channel item)) as [ch|e]; [|done].
  uc_steps. destruct (NewPriority (it_Priority item)) as [pr|e]; [|done]. uc_steps.
  destruct (NewNotification _ now) as [n|e] eqn:E; (split_and!; [done..|]); [|done].
  intros n' [= <-]. pose proof E as E1. apply NewNotification_Ok in E1 as [_ E1].
  assert (NChannel n = ch ∧ NPriority n = pr ∧ ID n = Gen_NotificationID (w_fresh w))
    as (-> & -> & ->) by by rewrite E1.
  done.
Qed.

Lemma buildNotifications_spec items corr now w :
  wp (run (buildNotifications items corr now)) (λ r w', no_side_effect w w' ∧ w_db w' = w_db w ∧
    ∀ ns, r = Ok ns → Forall2 (item_entity corr now) items ns) w.
Proof.
  revert w. induction items as [|item items IH]; intros w; cbn [buildNotifications].
  { uc_steps. split_and!; [done..|]. intros ? [= <-]. constructor. }
  uc_step. wp_use buildNotification_spec. intros r w1 (Hn1 & Hdb1 & Hr1).
  destruct r as [n|e]; [|done]. uc_step. wp_use IH. intros r w2 (Hn2 & Hdb2 & Hr2).
  assert (no_side_effect w w2) by by eapply no_side_effect_trans.
  destruct r as [ns|e]; uc_steps; (split_and!; [done|congruence|]); [|done].
  intros ? [= <-]. constructor; auto.
Qed.

(** Row [n] is in the store as [f n]. *)
Definition row_is (R : rowmap) (f : Notification → Notification) (n : Notification) : Prop :=
  ∃ k, key (ID n) = Some k ∧ R !! k = Some (f n).
Definition other_keys (l : list Notification) (k : uuid) : Prop := ∀ n, n ∈ l → key (ID n) ≠ Some k.

Lemma creates_rows l R R' : creates_effect l R R' →
  NoDup ((λ n, key (ID n)) <$> l) ∧
  Forall (row_is R' stored) l ∧
  Forall (λ n, ∃ k, key (ID n) = Some k ∧ R !! k = None) l ∧
  (∀ k, other_keys l k → R' !! k = R !! k).
Proof.
  revert R. induction l as [|n l IH]; intros R; cbn [creates_effect fmap list_fmap].
  { intros ->. by repeat constructor. }
  intros (R1 & (k & Hk & Hnone & ->) & Hl). destruct (IH _ Hl) as (Hnd & Hrows & Hfresh & Hframe).
  assert (other_keys l k) as Hok.
  { intros m Hm Hmk. rewrite Forall_forall in Hfresh. destruct (Hfresh m Hm) as (k' & Hk' & Hno).
    rewrite Hmk in Hk'. simplify_eq. by rewrite lookup_insert_eq in Hno. }
  split_and!.
  - constructor; [|done]. rewrite list_elem_of_fmap. intros (m & Hmk & Hm).
    by apply (Hok m Hm); rewrite <-Hmk.
  - constructor; [|done]. exists k. split; [done|]. rewrite (Hframe k Hok). apply lookup_insert_eq.
  - constructor; [eauto|]. eapply Forall_impl; [exact Hfresh|]. intros m (k' & Hk' & Hno).
    exists k'. split; [done|]. by apply lookup_insert_None in Hno as [? _].
  - intros k' Hk'. rewrite Hframe by (intros m Hm; apply Hk'; set_solver).
    apply lookup_insert_ne. intros <-. by apply (Hk' n); [set_solver|].
Qed.

Fixpoint enqueues (l : list Notification) (q q' : Q) : Prop :=
  match l with
  | [] => q' = q
  | n :: l => ∃ q1, Queue_Enqueue (ID n) (NPriority n) (IdempotencyKey n) q = (Ok tt, q1) ∧ enqueues l q1 q'
  end.
Lemma enqueues_snoc l n q q1 q2 : enqueues l q q1 →
  Queue_Enqueue (ID n) (NPriority n) (IdempotencyKey n) q1 = (Ok tt, q2) → enqueues (l ++ [n]) q q2.
Proof.
  revert q. induction l as [|m l IH]; intros q; simpl; [intros ->; eauto|].
  intros (q' & ? & ?) ?. eauto.
Qed.

(** The audit entries of a queued member. *)
Definition events (n : Notification) (t : list (uuid * string * LogEvent)) : Prop :=
  ∃ k, key (ID n) = Some k ∧
    t = [(k, CorrelationID n, LogEventCreated); (k, CorrelationID n, LogEventQueued)].
Fixpoint all_events (l : list Notification) (t : list (uuid * string * LogEvent)) : Prop :=
  match l with
  | [] => t = []
  | n :: l => ∃ t1 t2, events n t1 ∧ all_events l t2 ∧ t = t1 ++ t2
  end.

Lemma enqueueMember_spec uc n k w :
  key (ID n) = Some k → rows (w_db w) !! k = Some (stored n) → NStatus n = StatusPending →
  wp (run (enqueueMember uc (CreatedAt n) n)) (λ r w', same_worker_side w w' ∧
    match r with
    | Ok n' => n' = queued_entity n ∧ rows (w_db w') = <[k := queued_row n]> (rows (w_db w)) ∧
        trail (w_db w') = trail (w_db w) ++
          [(k, CorrelationID n, LogEventCreated); (k, CorrelationID n, LogEventQueued)] ∧
        Queue_Enqueue (ID n) (NPriority n) (IdempotencyKey n) (w_queue w) = (Ok tt, w_queue w')
    | Err _ => rows (w_db w') = rows (w_db w) ∨
        rows (w_db w') = <[k := queued_row n]> (rows (w_db w))
    end) w.
Proof.
  intros Hk Hrow Hst. unfold enqueueMember, recordCreated, recordQueued, same_worker_side. uc_step.
  wp_use (append_event_spec "build log entry for" "append log entry for" n LogEventCreated (CreatedAt n) k);
    [done|].
  intros r w1 (Hq1 & (?&?&?) & Ho1 & Hr1 & Ht1). destruct r as [[]|e]; [|auto].
  uc_steps. apply wp_intro. rewrite Hq1. intros r q Hq. destruct r as [[]|e]; [|world_simpl; auto].
  unfold MarkQueued. uc_steps. rewrite transition_legal by (rewrite Hst; constructor).
  cbn [id]. fold (queued_entity n). uc_steps. wp_use update_law. intros r db2 [Ht2 Hr2]. world_simpl.
  assert (∀ R, update_effect (queued_entity n) StatusPending (rows (w_db w1)) R →
            R = <[k := queued_row n]> (rows (w_db w))) as Heff.
  { intros R (k' & n0 & Hk' & Hn0 & _ & ->). change (ID (queued_entity n)) with (ID n) in Hk'.
    rewrite Hr1 in *. by simplify_eq. }
  destruct r as [[]|e]; [apply Heff in Hr2|destruct Hr2 as [_ [Hr2|Hr2%Heff]]; rewrite Hr2, ?Hr1; auto].
  uc_step.
  wp_use (append_event_spec "build queued log entry for" "append queued log entry for" (queued_entity n)
    LogEventQueued (CreatedAt n) k); [done|].
  intros r w3 (Hq3 & (?&?&?) & Ho3 & Hr3 & Ht3). world_simpl. rewrite Hr2 in Hr3.
  rewrite Ht2, Ht1, <-app_assoc in Ht3.
  destruct r as [[]|e]; [|split_and!; try congruence; by right].
  unfold when; destruct (cb_metrics uc); uc_steps; world_simpl; rewrite Hq3; split_and!; first [exact Ht3|congruence].
Qed.

(** After the members [done] of a batch and before [rest]. *)
Definition members_inv w0 (done rest : list Notification) w : Prop :=
  same_worker_side w0 w ∧
  Forall (row_is (rows (w_db w)) queued_row) done ∧ Forall (row_is (rows (w_db w)) stored) rest ∧
  (∀ k, other_keys (done ++ rest) k → rows (w_db w) !! k = rows (w_db w0) !! k) ∧
  (∃ t, all_events done t ∧ trail (w_db w) = trail (w_db w0) ++ t) ∧
  enqueues done (w_queue w0) (w_queue w).

Lemma row_is_insert R f k m m' : key (ID m) ≠ Some k → row_is R f m → row_is (<[k := m']> R) f m.
Proof.
  intros Hne (k' & Hk' & Hm). exists k'. split; [done|]. rewrite lookup_insert_ne; congruence.
Qed.

Lemma all_events_snoc l n t t1 : all_events l t → events n t1 → all_events (l ++ [n]) (t ++ t1).
Proof.
  revert t. induction l as [|m l IH]; intros t; simpl.
  - intros -> Hn. exists t1, []. by rewrite app_nil_r.
  - intros (u & v & Hu & Hv & ->) Hn. exists u, (v ++ t1). rewrite app_assoc. eauto.
Qed.

(** The rows when a batch stops at an error after the members [done]. *)
Definition members_partial w0 (done rest : list Notification) w : Prop :=
  same_worker_side w0 w ∧
  Forall (row_is (rows (w_db w)) queued_row) done ∧
  Forall (λ n, row_is (rows (w_db w)) stored n ∨ row_is (rows (w_db w)) queued_row n) rest ∧
  (∀ k, other_keys (done ++ rest) k → rows (w_db w) !! k = rows (w_db w0) !! k).

(** Writing the row of [n] keeps the rows of the other members, and the frame. *)
Lemma rows_kept done n rest k R f l : NoDup ((λ n, key (ID n)) <$> done ++ n :: rest) → key (ID n) = Some k →
  (∀ m, m ∈ l → m ∈ done ++ rest) → Forall (row_is R f) l → Forall (row_is (<[k := queued_row n]> R) f) l.
Proof.
  intros Hnd Hk Hsub Hl. rewrite fmap_app, fmap_cons in Hnd. apply NoDup_app in Hnd as (_ & Hnd2 & Hnd3).
  apply NoDup_cons in Hnd3 as [Hnd3 _]. rewrite Forall_forall in *. intros m Hm.
  apply row_is_insert; [|by apply Hl]. intros Hmk. apply Hsub in Hm. apply elem_of_app in Hm as [Hm|Hm].
  - apply (Hnd2 (key (ID m))); [apply list_elem_of_fmap; by exists m|]. rewrite Hmk, Hk. left.
  - apply Hnd3. rewrite Hk, <-Hmk. apply list_elem_of_fmap. by exists m.
Qed.
Lemma frame_kept done n rest k (R R0 : rowmap) : key (ID n) = Some k →
  (∀ k', other_keys (done ++ n :: rest) k' → R !! k' = R0 !! k') →
  ∀ k', other_keys (done ++ n :: rest) k' → <[k := queued_row n]> R !! k' = R0 !! k'.
Proof.
  intros Hk Hf k' Hk'. rewrite lookup_insert_ne; [by apply Hf|]. intros <-. apply (Hk' n); [set_solver|done].
Qed.
(** A member that was enqueued moves from the rest to the done. *)
Lemma members_inv_step w0 done n rest k w w1 :
  NoDup ((λ n, key (ID n)) <$> done ++ n :: rest) → key (ID n) = Some k →
  members_inv w0 done (n :: rest) w → same_worker_side w w1 →
  rows (w_db w1) = <[k := queued_row n]> (rows (w_db w)) →
  trail (w_db w1) = trail (w_db w) ++
    [(k, CorrelationID n, LogEventCreated); (k, CorrelationID n, LogEventQueued)] →
  Queue_Enqueue (ID n) (NPriority n) (IdempotencyKey n) (w_queue w) = (Ok tt, w_queue w1) →
  members_inv w0 (done ++ [n]) rest w1.
Proof.
  intros Hnd Hk (Hws & Hdone & Hrest & Hframe & (t & Hev & Ht) & Hq) Hws1 Hrows Htr Hqn.
  apply Forall_cons in Hrest as [_ Hrest]. unfold members_inv. rewrite <-app_assoc. cbn [app].
  split; [unfold same_worker_side in *; intuition congruence|]. rewrite Hrows. split_and!.
  - apply Forall_app_2; [eapply rows_kept; [done..| |done]; set_solver|].
    constructor; [|constructor]. exists k. split; [done|]. apply lookup_insert_eq.
  - eapply rows_kept; [done..| |done]; set_solver.
  - by apply frame_kept.
  - eexists. split; [eapply all_events_snoc; [exact Hev|by exists k]|]. by rewrite Htr, Ht, app_assoc.
  - by eapply enqueues_snoc.
Qed.
(** A member that failed leaves its row as it was, or queued. *)
Lemma members_inv_stop w0 done n rest k w w1 :
  NoDup ((λ n, key (ID n)) <$> done ++ n :: rest) → key (ID n) = Some k →
  members_inv w0 done (n :: rest) w → same_worker_side w w1 →
  rows (w_db w1) = rows (w_db w) ∨ rows (w_db w1) = <[k := queued_row n]> (rows (w_db w)) →
  members_partial w0 done (n :: rest) w1.
Proof.
  intros Hnd Hk (Hws & Hdone & Hrest & Hframe & _) Hws1 Hr.
  apply Forall_cons in Hrest as [(k0 & Hk0 & Hrow) Hrest]. simplify_eq.
  split; [unfold same_worker_side in *; intuition congruence|].
  destruct Hr as [Hr|Hr]; rewrite Hr; (split_and!; [| |try done; by apply frame_kept]).
  - done.
  - constructor; [left; by exists k|]. eapply Forall_impl; [exact Hrest|]. auto.
  - eapply rows_kept; [done..| |done]; set_solver.
  - constructor; [right; exists k; by rewrite lookup_insert_eq|].
    eapply Forall_impl; [eapply (rows_kept done n rest); [done..| |exact Hrest]; set_solver|]. auto.
Qed.
Lemma enqueueMembers_spec uc now w0 rest : Forall (λ n, NStatus n = StatusPending ∧ CreatedAt n = now) rest →
  ∀ done w, NoDup ((λ n, key (ID n)) <$> done ++ rest) → members_inv w0 done rest w →
  wp (run (enqueueMembers uc now rest)) (λ r w',
    match r with
    | Ok ns => ns = queued_entity <$> rest ∧ members_inv w0 (done ++ rest) [] w'
    | Err _ => ∃ d r, d ++ r = done ++ rest ∧ members_partial w0 d r w'
    end) w.
Proof.
  induction 1 as [|n rest [Hst Hnow] _ IH]; intros done w Hnd Hinv; cbn [enqueueMembers].
  { uc_steps. rewrite app_nil_r. done. }
  pose proof Hinv as (_ & _ & Hrest & _). apply Forall_cons in Hrest as [(k & Hk & Hrow) _].
  uc_step. rewrite <-Hnow. wp_use (enqueueMember_spec uc n k w Hk Hrow Hst). rewrite Hnow. intros r w1 [Hws1 Hr].
  destruct r as [n'|e]; [|exists done, (n :: rest); split; [done|by eapply members_inv_stop]].
  destruct Hr as (-> & Hrows & Htr & Hqn). uc_step. wp_use (IH (done ++ [n]) w1).
  - by rewrite <-app_assoc.
  - by eapply members_inv_step.
  - intros r w2 Hr2. rewrite <-app_assoc in Hr2. cbn [app] in Hr2. destruct r as [ns|e]; [|done].
    uc_steps. by destruct Hr2 as [-> ?].
Qed.

(** The outcomes of [Execute]. *)
Inductive batch_created (inp : CreateBatchInput) w : res Batch → W → Prop :=
| batch_rejected e w' : no_side_effect w w' → batch_created inp w (Err e) w'
| batch_partial b corr e d r w' :
    batch_ok b →
    Forall2 (λ item n, ∃ n0, item_entity corr (batch_CreatedAt b) item n0 ∧ n = with_batch (Some (batch_ID b)) n0)
      (cb_Notifications inp) (batch_Notifications b) →
    Forall (λ n, ∃ k, key (ID n) = Some k ∧ rows (w_db w) !! k = None) (batch_Notifications b) →
    d ++ r = batch_Notifications b → members_partial w d r w' →
    batch_created inp w (Err e) w'
| batch_complete b corr w' :
    batch_ok b →
    Forall2 (λ item n, ∃ n0, item_entity corr (batch_CreatedAt b) item n0 ∧ n = with_batch (Some (batch_ID b)) n0)
      (cb_Notifications inp) (batch_Notifications b) →
    Forall (λ n, ∃ k, key (ID n) = Some k ∧ rows (w_db w) !! k = None) (batch_Notifications b) →
    members_inv w (batch_Notifications b) [] w' →
    batch_created inp w (Ok (mkBatch (batch_ID b) (batch_CorrelationID b)
      (queued_entity <$> batch_Notifications b) (batch_CreatedAt b))) w'.

Lemma item_entity_fresh corr now item n : item_entity corr now item n →
  NStatus n = StatusPending ∧ CreatedAt n = now.
Proof. intros (_ & _ & [_ ->]%NewNotification_Ok). done. Qed.

Lemma members_inv_start w0 w l :
  no_side_effect w0 w → ∀ R, creates_effect l (rows (w_db w0)) R →
  ∀ db, rows db = R → trail db = trail (w_db w0) → members_inv w0 [] l (set_db db w).
Proof.
  intros ([Hr Ht] & Hq & (?&?&?) & Ho) R (_ & Hrows & _ & Hframe)%creates_rows db <- Htr.
  unfold members_inv, same_worker_side. world_simpl.
  split_and!; try done. exists []. by rewrite app_nil_r.
Qed.

Lemma members_inv_rejected w0 w db :
  no_side_effect w0 w → rows db = rows (w_db w0) → trail db = trail (w_db w0) →
  no_side_effect w0 (set_db db w).
Proof. by intros (_ & ?). Qed.

Lemma CreateBatch_created uc inp w :
  wp (run (CreateBatch_Execute uc inp)) (batch_created inp w) w.
Proof.
  unfold CreateBatch_Execute. uc_step. wp_use resolveCorrelation_spec.
  intros r w1 (corr & -> & _ & Hn1 & Hdb1). uc_step. uc_step. uc_op. set (now := Clock_reading _).
  uc_step. wp_use buildNotifications_spec. intros r w2 (Hn2 & _ & Hr2).
  assert (no_side_effect w w2) as Hn by by eapply no_side_effect_trans.
  destruct r as [ns|e]; [|by apply batch_rejected]. specialize (Hr2 ns eq_refl).
  uc_step. uc_step. uc_op. uc_step. uc_step. set (w3 := set_fresh _ w2).
  assert (no_side_effect w w3) as Hn3 by exact Hn.
  destruct (NewBatch _ now) as [b|e] eqn:Hb; [|by apply batch_rejected].
  pose proof (NewBatch_batch_ok _ _ _ Hb) as Hok. apply NewBatch_Ok in Hb as [_ Eb].
  assert (batch_CreatedAt b = now ∧
    batch_Notifications b = map (with_batch (Some (batch_ID b))) ns) as [Hbnow Hbns] by by subst b.
  assert (Forall2 (λ item n, ∃ n0, item_entity corr (batch_CreatedAt b) item n0 ∧
    n = with_batch (Some (batch_ID b)) n0) (cb_Notifications inp) (batch_Notifications b)) as Hitems.
  { rewrite Hbns, Hbnow. apply Forall2_fmap_r. eapply Forall2_impl; [exact Hr2|]. eauto. }
  assert (Forall (λ n, NStatus n = StatusPending ∧ CreatedAt n = now) (batch_Notifications b)) as Hfresh.
  { rewrite Hbns. apply Forall_map. eapply Forall2_Forall_r; [exact Hr2|].
    apply Forall_true. intros item n Hn0. by apply item_entity_fresh in Hn0. }
  clear Eb Hr2 Hbns. uc_steps. world_simpl. wp_use batch_create_law. intros r db [Ht Hr].
  change (w_db w3) with (w_db w2) in *. pose proof Hn as ([Hrw Htw] & _). rewrite Hrw in Hr.
  rewrite Htw in Ht.
  assert (creates_effect (batch_Notifications b) (rows (w_db w)) (rows db) →
    NoDup ((λ n, key (ID n)) <$> batch_Notifications b) ∧
    Forall (λ n, ∃ k, key (ID n) = Some k ∧ rows (w_db w) !! k = None) (batch_Notifications b)) as Hce.
  { intros (? & _ & ? & _)%creates_rows. done. }
  destruct r as [[]|e].
  - destruct (Hce Hr) as [Hnd Hnone]. uc_step.
    wp_use (enqueueMembers_spec uc now w _ Hfresh [] (set_db db w3)); [done|by eapply members_inv_start|].
    intros r w4 Hr4. destruct r as [qs|e].
    + uc_steps. destruct Hr4 as [-> Hinv]. by eapply batch_complete.
    + destruct Hr4 as (d & r & Hdr & Hp). by eapply batch_partial.
  - destruct Hr as [Hr|Hr]; [by apply batch_rejected, members_inv_rejected|].
    destruct (Hce Hr) as [Hnd Hnone].
    pose proof (members_inv_start w w3 _ Hn3 _ Hr db eq_refl Ht) as (Hws & Hd & Hrest & Hfr & _).
    eapply (batch_partial _ _ b corr _ [] (batch_Notifications b)); try done.
    split_and!; try done. eapply Forall_impl; [exact Hrest|]. auto.
Qed.
End spec.

(** C14. Batch creation either is rejected with nothing persisted, queued or
    emitted, or inserts exactly one row per item - under fresh distinct keys,
    linked to one batch that satisfies the batch invariant - and touches no
    other row.  A failure after the insert leaves a prefix of the members
    queued and the rest pending or queued; success leaves all of them queued,
    their tasks enqueued in order, two audit entries each in order, and returns
    the batch with its members queued. *)
Theorem CreateBatch_outcomes {DB Q PR RL BC : Type} `{StoreLaws DB, Queue Q,
    Provider PR, RateLimiter RL, StatusBroadcaster BC, Clock, IDGenerator} uc inp (w : World DB Q PR RL BC) :
  wp (run (CreateBatch_Execute uc inp)) (batch_created inp w) w.
Proof. apply CreateBatch_created. Qed.
