(* ===== verification/Queries.v ===== *)
(** The read-only use cases: list_notifications.go, get_notification.go,
    get_batch.go and get_notification_trace.go of internal/application. *)

From S2P Require Import Prelude GoStrings Uuid Errors ValueObjects Notification Batch Template.
From S2P Require Import Ports RepoSpec CreateNotification.

Definition defaultListLimit : Z := 20.
Definition maxListLimit : Z := 100.

Record ListNotificationsInput := mkListNotificationsInput {
  li_Status : string;
  li_Channel : string;
  li_BatchID : option BatchID;
  li_CreatedAfter : option Time;
  li_CreatedBefore : option Time;
  li_Cursor : string;
  li_Limit : Z;
}.

(** An optional string filter: absent when empty, parsed otherwise. *)
Definition parse_filter (parse : string → res string) (s : string) : res (option string) :=
  if bool_decide (s = "") then Ok None
  else match parse s with Ok v => Ok (Some v) | Err e => Err e end.
Definition clamp_limit (default max limit : Z) : Z :=
  if (limit <=? 0) || (max <? limit) then default else limit.

Definition ListNotifications_Execute (inp : ListNotificationsInput) : proc (list Notification * string) :=
  status ← lift (parse_filter NewStatus (li_Status inp));
  channel ← lift (parse_filter NewChannel (li_Channel inp));
  wrapped "list notifications" (call (repo_List
    (mkNotificationFilter status channel (li_CreatedAfter inp) (li_CreatedBefore inp) (li_BatchID inp))
    (li_Cursor inp) (clamp_limit defaultListLimit maxListLimit (li_Limit inp)))).

Definition GetNotification_Execute (id : NotificationID) : proc Notification := call (repo_Get id).
Definition GetBatch_Execute (id : BatchID) : proc Batch := call (batch_Get id).

Definition GetNotificationTrace_Execute (id : NotificationID) : proc (list NotificationLog) :=
  wrapped "get notification" (call (repo_Get id));;
  wrapped "list logs" (call (log_List id)).

Lemma clamp_limit_range default max limit : 0 < default ≤ max →
  0 < clamp_limit default max limit ≤ max ∧
  (0 < limit ≤ max → clamp_limit default max limit = limit) ∧
  (¬ 0 < limit ≤ max → clamp_limit default max limit = default).
Proof.
  intros Hd. unfold clamp_limit.
  destruct (Z.leb_spec limit 0), (Z.ltb_spec max limit); simpl; lia.
Qed.

Lemma parse_filter_spec parse s :
  match parse_filter parse s with
  | Ok None => s = ""
  | Ok (Some v) => s ≠ "" ∧ parse s = Ok v
  | Err e => s ≠ "" ∧ parse s = Err e
  end.
Proof. unfold parse_filter. case_bool_decide; [done|]. by destruct (parse s). Qed.

Section spec.
Context {DB Q PR RL BC : Type}.
Context `{StoreLaws DB, Queue Q, Provider PR, RateLimiter RL,
  StatusBroadcaster BC, Clock, IDGenerator}.
Local Abbreviation W := (World DB Q PR RL BC).
Implicit Types w : W.

(** What a listing returns: the repository's page for the parsed filters and
    a limit between 1 and 100, or the error of the first bad filter. *)
Definition listed (inp : ListNotificationsInput) w (r : res (list Notification * string)) w' : Prop :=
  no_side_effect w w' ∧
  match parse_filter NewStatus (li_Status inp), parse_filter NewChannel (li_Channel inp) with
  | Ok status, Ok channel => ∃ limit r0 db,
      1 ≤ limit ≤ maxListLimit ∧ (1 ≤ li_Limit inp ≤ maxListLimit → limit = li_Limit inp) ∧
      Repo_List (mkNotificationFilter status channel (li_CreatedAfter inp) (li_CreatedBefore inp)
        (li_BatchID inp)) (li_Cursor inp) limit (w_db w) = (r0, db) ∧ w' = set_db db w ∧
      (r = r0 ∨ ∃ e, r0 = Err e ∧ r = Err (Wrapped "list notifications" e))
  | Err _, _ => r = Err (Sentinel ErrInvalidStatus) ∧ w' = w
  | _, Err _ => r = Err (Sentinel ErrInvalidChannel) ∧ w' = w
  end.

Lemma List_listed inp w : wp (run (ListNotifications_Execute inp)) (listed inp w) w.
Proof.
  unfold ListNotifications_Execute, listed. uc_steps.
  pose proof (parse_filter_spec NewStatus (li_Status inp)) as Hs.
  pose proof (parse_filter_spec NewChannel (li_Channel inp)) as Hc.
  destruct (parse_filter NewStatus _) as [status|e]; last first.
  { split; [done|]. destruct Hs as [_ Hs]. by apply NewStatus_parses in Hs as [-> _]. }
  uc_steps. destruct (parse_filter NewChannel _) as [channel|e]; last first.
  { split; [done|]. destruct Hc as [_ Hc]. by apply NewChannel_parses in Hc as [-> _]. }
  uc_steps. apply wp_intro. intros r db Hl.
  set (limit := clamp_limit _ _ _) in *.
  destruct (clamp_limit_range defaultListLimit maxListLimit (li_Limit inp)) as (Hr & Heq & _);
    [unfold defaultListLimit, maxListLimit; lia|]. fold limit in Hr, Heq.
  match type of Hl with Repo_List ?f ?c _ _ = _ =>
    pose proof (list_reads f c limit (w_db w)) as Hu end.
  rewrite Hl in Hu.
  assert (no_side_effect w (set_db db w)) as Hn by by split_and!.
  destruct r as [page|e]; (split; [exact Hn|]); eexists limit, _, db;
    (split_and!; [lia|unfold maxListLimit in *; lia|lia|exact Hl|done|]); [by left|right; eauto].
Qed.

Lemma trace_spec id w :
  wp (run (GetNotificationTrace_Execute id)) (λ r w', no_side_effect w w' ∧
    match r with
    | Ok entries => (∃ k n, key id = Some k ∧ rows (w_db w) !! k = Some n) ∧
        ∃ db db', unchanged (w_db w) db ∧ LogRepo_List id db = (Ok entries, db')
    | Err e => True
    end) w.
Proof.
  unfold GetNotificationTrace_Execute. uc_steps. wp_use get_law. intros r db [Hu Hr].
  destruct r as [n|e]; [|by split_and!]. destruct Hr as (k & Hk & Hn).
  uc_steps. world_simpl. apply wp_intro. intros r db' Hl.
  pose proof (log_list_reads id db) as Hu'. rewrite Hl in Hu'. simpl in Hu'.
  assert (no_side_effect w (set_db db' (set_db db w))) as Hnse.
  { destruct Hu, Hu'. unfold no_side_effect, unchanged. split_and!; try done; simpl; congruence. }
  destruct r as [entries|e]; (split; [exact Hnse|]); [|done].
  split; [eauto|]. by exists db, db'.
Qed.
End spec.

(** Listing validates before it reads: an unknown status or channel filter
    gives its own sentinel without touching the repository; otherwise the
    repository is asked once, with the parsed filters and a limit that is the
    requested one when between 1 and 100 and the default otherwise, and its
    page or its wrapped error is returned.  Nothing is written. *)
Theorem ListNotifications_outcomes {DB Q PR RL BC : Type} `{StoreLaws DB, Queue Q,
    Provider PR, RateLimiter RL, StatusBroadcaster BC, Clock, IDGenerator} inp (w : World DB Q PR RL BC) :
  wp (run (ListNotifications_Execute inp)) (listed inp w) w.
Proof. apply List_listed. Qed.
