(* ===== verification/TemplateUseCases.v ===== *)
(** The template use cases (internal/application/templates.go and
    render_template.go). *)

From S2P Require Import Prelude GoStrings Uuid Errors ValueObjects Notification Batch Template.
From S2P Require Import Ports RepoSpec CreateNotification Queries.

Definition defaultTemplateListLimit : Z := 20.
Definition maxTemplateListLimit : Z := 100.

Section templates.
Context `{TextTemplate}.

Record CreateTemplateInput := mkCreateTemplateInput { ct_Name : string; ct_Channel : string; ct_Body : string }.
Definition CreateTemplate_Execute (inp : CreateTemplateInput) : proc Template :=
  channel ← lift (NewChannel (ct_Channel inp));
  id ← call gen_NewTemplateID;
  now ← call clock_Now;
  tpl ← lift (NewTemplate (mkNewTemplateInput id (ct_Name inp) channel (ct_Body inp)) now);
  wrapped "create template" (call (tmpl_Create tpl));;
  mret tpl.

Definition GetTemplate_Execute (id : TemplateID) : proc Template := call (tmpl_Get id).

Record ListTemplatesInput := mkListTemplatesInput { lt_Channel : string; lt_Cursor : string; lt_Limit : Z }.
Definition ListTemplates_Execute (inp : ListTemplatesInput) : proc (list Template * string) :=
  items ← wrapped "list templates"
    (call (tmpl_List (clamp_limit defaultTemplateListLimit maxTemplateListLimit (lt_Limit inp))));
  mret (items, "").

Record ReplaceTemplateInput := mkReplaceTemplateInput {
  rt_ID : TemplateID; rt_Name : string; rt_Channel : string; rt_Body : string }.
Definition with_created (t : Time) (tpl : Template) : Template :=
  mkTemplate (tpl_ID tpl) (tpl_Name tpl) (tpl_Channel tpl) (tpl_Body tpl) t (tpl_UpdatedAt tpl).
Definition ReplaceTemplate_Execute (inp : ReplaceTemplateInput) : proc Template :=
  existing ← call (tmpl_Get (rt_ID inp));
  channel ← lift (NewChannel (rt_Channel inp));
  now ← call clock_Now;
  tpl ← lift (NewTemplate (mkNewTemplateInput (rt_ID inp) (rt_Name inp) channel (rt_Body inp)) now);
  let tpl := with_created (tpl_CreatedAt existing) tpl in
  wrapped "update template" (call (tmpl_Update tpl));;
  mret tpl.

Definition DeleteTemplate_Execute (id : TemplateID) : proc unit := call (tmpl_Delete id).

Record RenderTemplateInput := mkRenderTemplateInput {
  re_TemplateID : TemplateID; re_Variables : option (gmap string any) }.
Definition RenderTemplate_Execute (inp : RenderTemplateInput) : proc string :=
  tmpl ← wrapped "get template" (call (tmpl_Get (re_TemplateID inp)));
  wrapped "render template" (lift (Template_Render tmpl (re_Variables inp))).
End templates.

Section spec.
Context {DB Q PR RL BC : Type}.
Context `{TextTemplate, NotificationRepository DB, BatchRepository DB, TemplateRepository DB,
  NotificationLogRepository DB, Queue Q, Provider PR, RateLimiter RL,
  StatusBroadcaster BC, Clock, IDGenerator}.
Local Abbreviation W := (World DB Q PR RL BC).
Implicit Types w : W.

(** The repository's part of a replacement: read, validate, write. *)
Inductive replaced (inp : ReplaceTemplateInput) w : res Template → W → Prop :=
| replace_unknown e db :
    TmplRepo_Get (rt_ID inp) (w_db w) = (Err e, db) →
    replaced inp w (Err e) (set_db db w)
| replace_invalid existing db e w' :
    TmplRepo_Get (rt_ID inp) (w_db w) = (Ok existing, db) → w_db w' = db →
    (NewChannel (rt_Channel inp) = Err e ∨ ∃ channel,
      NewChannel (rt_Channel inp) = Ok channel ∧
      NewTemplate (mkNewTemplateInput (rt_ID inp) (rt_Name inp) channel (rt_Body inp))
        (Clock_reading (w_ticks w)) = Err e) →
    replaced inp w (Err e) w'
| replace_saved existing channel tpl db r0 r w' :
    TmplRepo_Get (rt_ID inp) (w_db w) = (Ok existing, db) →
    NewChannel (rt_Channel inp) = Ok channel →
    tpl = mkTemplate (rt_ID inp) (rt_Name inp) channel (rt_Body inp) (tpl_CreatedAt existing)
            (Clock_reading (w_ticks w)) →
    TmplRepo_Update tpl db = (r0, w_db w') →
    r = match r0 with Ok _ => Ok tpl | Err e => Err (Wrapped "update template" e) end →
    replaced inp w r w'.

Lemma Replace_replaced inp w : wp (run (ReplaceTemplate_Execute inp)) (replaced inp w) w.
Proof.
  unfold ReplaceTemplate_Execute. uc_steps. apply wp_intro. intros r db Hget.
  destruct r as [existing|e]; [|by constructor]. uc_steps.
  destruct (NewChannel (rt_Channel inp)) as [channel|e] eqn:Hch;
    [|by eapply replace_invalid; [..|left]].
  uc_steps. world_simpl.
  destruct (NewTemplate _ _) as [tpl|e] eqn:Ht;
    [|eapply replace_invalid; [done|done|right; eauto]].
  pose proof (NewTemplate_cases (mkNewTemplateInput (rt_ID inp) (rt_Name inp) channel (rt_Body inp))
    (Clock_reading (w_ticks w))) as Hc. rewrite Ht in Hc. destruct Hc as [_ ->].
  uc_steps. world_simpl. apply wp_intro. intros r db' Hu.
  destruct r as [[]|e]; uc_steps; by eapply replace_saved.
Qed.
End spec.

(** Replacing a template: an unknown id gives the repository's error
    unchanged; an invalid channel, name or body is refused before any write;
    otherwise exactly the validated template is written, with the id and the
    creation time of the existing one and the clock's time as update time, and
    is returned when the write succeeds. *)
Theorem ReplaceTemplate_outcomes {DB Q PR RL BC : Type} `{TextTemplate, NotificationRepository DB,
    BatchRepository DB, TemplateRepository DB, NotificationLogRepository DB, Queue Q, Provider PR,
    RateLimiter RL, StatusBroadcaster BC, Clock, IDGenerator} inp (w : World DB Q PR RL BC) :
  wp (run (ReplaceTemplate_Execute inp)) (replaced inp w) w.
Proof. apply Replace_replaced. Qed.
