(* ===== verification/Sql.v ===== *)
(** The SQL of internal/adapters/postgres/sqlc (notifications.sql.go,
    batches.sql.go, templates.sql.go, notification_logs.sql.go) over the schema
    of db/migrations: tables, constraints, and one definition per statement.

    PostgreSQL and its driver are not part of the repository: the precision of
    a timestamptz, the order in which a scan yields rows, which rows another
    session has locked, the collation of [ORDER BY name], how jsonb stores a
    document, and when a statement fails are the operations of [Server]. *)

From S2P Require Import Prelude GoStrings Json Uuid Errors ValueObjects.

(** How a statement can go wrong: before it ran, or after it took effect but
    before the client heard of it. *)
Inductive fault := NoFault | Lost (e : error) | AckLost (e : error).

Class Server := {
  srv_time : Time → Time;
  srv_plan : ∀ {A}, list A → list A;
  srv_locked : nat → uuid → bool;
  srv_name_le : string → string → bool;
  (** [None]: not a document jsonb takes *)
  srv_jsonb : string → option string;
  srv_fault : nat → fault;
}.
Class ServerLaws `{Server} : Prop := {
  srv_time_idem : ∀ t, srv_time (srv_time t) = srv_time t;
  srv_plan_perm : ∀ A (l : list A), srv_plan l ≡ₚ l;
  srv_fault_foreign : ∀ i e, srv_fault i = Lost e ∨ srv_fault i = AckLost e → foreign e;
}.

(** ** Tables *)
Record notification_cols := mkNotificationCols {
  c_batch_id : option uuid;
  c_idempotency_key : option string;
  c_correlation_id : string;
  c_channel : string;
  c_priority : string;
  c_recipient : string;
  c_content : string;
  c_status : string;
  c_attempts : Z;
  c_last_error : string;
  c_next_retry_at : option Time;
  c_scheduled_at : option Time;
  c_template_id : option uuid;
  c_created_at : Time;
  c_updated_at : Time;
}.
Record batch_cols := mkBatchCols { bc_correlation_id : string; bc_created_at : Time }.
Record template_cols := mkTemplateCols {
  tc_name : string; tc_channel : string; tc_body : string; tc_created_at : Time; tc_updated_at : Time }.
Record log_cols := mkLogCols {
  lc_id : uuid; lc_notification_id : uuid; lc_correlation_id : string; lc_event : string;
  lc_details : option string; lc_created_at : Time }.

Record data := mkData {
  t_notifications : gmap uuid notification_cols;
  t_batches : gmap uuid batch_cols;
  t_templates : gmap uuid template_cols;
  t_logs : list log_cols;
}.
Definition set_notifications (x : gmap uuid notification_cols) (d : data) : data :=
  mkData x (t_batches d) (t_templates d) (t_logs d).
Definition set_batches (x : gmap uuid batch_cols) (d : data) : data :=
  mkData (t_notifications d) x (t_templates d) (t_logs d).
Definition set_templates (x : gmap uuid template_cols) (d : data) : data :=
  mkData (t_notifications d) (t_batches d) x (t_logs d).
Definition set_logs (x : list log_cols) (d : data) : data :=
  mkData (t_notifications d) (t_batches d) (t_templates d) x.

(** ** The Go structs of models.go

    [pgtype.UUID] and [pgtype.Timestamptz] are options: [None] when not
    [Valid].  [CreateNotificationParams] has the fields of [Notification]. *)
Record NotificationRow := mkNotificationRow {
  row_ID : option uuid;
  row_BatchID : option uuid;
  row_IdempotencyKey : option string;
  row_CorrelationID : string;
  row_Channel : string;
  row_Priority : string;
  row_Recipient : string;
  row_Content : string;
  row_Status : string;
  row_Attempts : Z;
  row_LastError : string;
  row_NextRetryAt : option Time;
  row_ScheduledAt : option Time;
  row_TemplateID : option uuid;
  row_CreatedAt : option Time;
  row_UpdatedAt : option Time;
}.
Record BatchRow := mkBatchRow { brow_ID : option uuid; brow_CorrelationID : string; brow_CreatedAt : option Time }.
Record TemplateRow := mkTemplateRow {
  trow_ID : option uuid; trow_Name : string; trow_Channel : string; trow_Body : string;
  trow_CreatedAt : option Time; trow_UpdatedAt : option Time }.
Record LogRow := mkLogRow {
  lrow_ID : option uuid; lrow_NotificationID : option uuid; lrow_CorrelationID : string;
  lrow_Event : string; lrow_Details : option string; lrow_CreatedAt : option Time }.

(** The columns of a selected row, scanned into the struct. *)
Definition select_row (id : uuid) (c : notification_cols) : NotificationRow :=
  {| row_ID := Some id; row_BatchID := c_batch_id c; row_IdempotencyKey := c_idempotency_key c;
     row_CorrelationID := c_correlation_id c; row_Channel := c_channel c; row_Priority := c_priority c;
     row_Recipient := c_recipient c; row_Content := c_content c; row_Status := c_status c;
     row_Attempts := c_attempts c; row_LastError := c_last_error c;
     row_NextRetryAt := c_next_retry_at c; row_ScheduledAt := c_scheduled_at c;
     row_TemplateID := c_template_id c; row_CreatedAt := Some (c_created_at c);
     row_UpdatedAt := Some (c_updated_at c) |}.
Definition select_template (id : uuid) (c : template_cols) : TemplateRow :=
  mkTemplateRow (Some id) (tc_name c) (tc_channel c) (tc_body c) (Some (tc_created_at c)) (Some (tc_updated_at c)).
Definition select_log (c : log_cols) : LogRow :=
  mkLogRow (Some (lc_id c)) (Some (lc_notification_id c)) (lc_correlation_id c) (lc_event c)
    (lc_details c) (Some (lc_created_at c)).

Section sql.
Context `{Server}.

(** A statement runs atomically on the tables. *)
Definition stmt (A : Type) : Type := data → res A * data.
Definition pg_error {A} (msg : string) : stmt A := λ d, (Err (Opaque msg), d).

(** A value of type text in a UTF-8 database: valid UTF-8 without the zero
    byte.  The server checks a statement's parameters before it runs it.  (The
    filters of [ListNotifications_sql] are a status and a channel, which
    ListNotifications.Execute has parsed.) *)
Definition text_ok (s : string) : bool := utf8_ValidString (bytes s) && negb (contains (byte 0) s).
Definition with_texts {A} (texts : list string) (s : stmt A) : stmt A := λ d,
  if forallb text_ok texts then s d else pg_error "invalid byte sequence for encoding" d.

Definition notifications_checks (c : notification_cols) : bool :=
  Channel_IsValid (c_channel c) && Priority_IsValid (c_priority c) && Status_IsValid (c_status c).

Definition row_texts (arg : NotificationRow) : list string :=
  option_list (row_IdempotencyKey arg) ++
  [row_CorrelationID arg; row_Channel arg; row_Priority arg; row_Recipient arg; row_Content arg;
   row_Status arg; row_LastError arg].
Definition CreateNotification_sql (arg : NotificationRow) : stmt unit := with_texts (row_texts arg) (λ d,
  match row_ID arg, row_CreatedAt arg, row_UpdatedAt arg with
  | Some id, Some created, Some updated =>
      let c := {| c_batch_id := row_BatchID arg; c_idempotency_key := row_IdempotencyKey arg;
        c_correlation_id := row_CorrelationID arg; c_channel := row_Channel arg;
        c_priority := row_Priority arg; c_recipient := row_Recipient arg;
        c_content := row_Content arg; c_status := row_Status arg; c_attempts := row_Attempts arg;
        c_last_error := row_LastError arg; c_next_retry_at := srv_time <$> row_NextRetryAt arg;
        c_scheduled_at := srv_time <$> row_ScheduledAt arg; c_template_id := row_TemplateID arg;
        c_created_at := srv_time created; c_updated_at := srv_time updated |} in
      if negb (notifications_checks c) then pg_error "check constraint" d
      else if bool_decide (is_Some (t_notifications d !! id)) then pg_error "duplicate key" d
      else if match c_idempotency_key c with
              | Some key => negb (bool_decide (key = "")) &&
                  existsb (λ '(_, c'), bool_decide (c_idempotency_key c' = Some key))
                    (map_to_list (t_notifications d))
              | None => false end
      then pg_error "duplicate idempotency key" d
      else if match c_batch_id c with Some b => bool_decide (t_batches d !! b = None) | None => false end
      then pg_error "foreign key batch_id" d
      else if match c_template_id c with Some t => bool_decide (t_templates d !! t = None) | None => false end
      then pg_error "foreign key template_id" d
      else (Ok tt, set_notifications (<[id := c]> (t_notifications d)) d)
  | _, _, _ => pg_error "null value" d
  end).

Definition GetNotification_sql (id : option uuid) : stmt NotificationRow := λ d,
  match id with
  | Some id => match t_notifications d !! id with
               | Some c => (Ok (select_row id c), d)
               | None => (Err (Sentinel LibErrNoRows), d)
               end
  | None => (Err (Sentinel LibErrNoRows), d)
  end.

Definition set_claim (now : Time) (c : notification_cols) : notification_cols :=
  {| c_batch_id := c_batch_id c; c_idempotency_key := c_idempotency_key c;
     c_correlation_id := c_correlation_id c; c_channel := c_channel c; c_priority := c_priority c;
     c_recipient := c_recipient c; c_content := c_content c; c_status := "processing";
     c_attempts := c_attempts c + 1; c_last_error := c_last_error c;
     c_next_retry_at := c_next_retry_at c; c_scheduled_at := c_scheduled_at c;
     c_template_id := c_template_id c; c_created_at := c_created_at c; c_updated_at := now |}.
Definition ClaimForProcessing_sql (id : option uuid) (updated_at : option Time) : stmt NotificationRow := λ d,
  match id with
  | Some id => match t_notifications d !! id with
      | Some c =>
          if bool_decide (c_status c ∈ ["queued"; "retrying"]) then
            match updated_at with
            | None => pg_error "null value" d
            | Some now =>
                if negb (c_attempts c + 1 <? 2 ^ 31) then pg_error "integer out of range" d
                else let c' := set_claim (srv_time now) c in
                     (Ok (select_row id c'), set_notifications (<[id := c']> (t_notifications d)) d)
            end
          else (Err (Sentinel LibErrNoRows), d)
      | None => (Err (Sentinel LibErrNoRows), d)
      end
  | None => (Err (Sentinel LibErrNoRows), d)
  end.

Record UpdateStatusParams := mkUpdateStatusParams {
  u_NewStatus : string; u_Attempts : Z; u_LastError : string; u_NextRetryAt : option Time;
  u_UpdatedAt : option Time; u_ID : option uuid; u_ExpectedSource : string }.
Definition set_update (arg : UpdateStatusParams) (now : Time) (c : notification_cols) : notification_cols :=
  {| c_batch_id := c_batch_id c; c_idempotency_key := c_idempotency_key c;
     c_correlation_id := c_correlation_id c; c_channel := c_channel c; c_priority := c_priority c;
     c_recipient := c_recipient c; c_content := c_content c; c_status := u_NewStatus arg;
     c_attempts := u_Attempts arg; c_last_error := u_LastError arg;
     c_next_retry_at := srv_time <$> u_NextRetryAt arg; c_scheduled_at := c_scheduled_at c;
     c_template_id := c_template_id c; c_created_at := c_created_at c; c_updated_at := now |}.
(** The number of rows affected. *)
Definition UpdateNotificationStatus_sql (arg : UpdateStatusParams) : stmt Z :=
  with_texts [u_NewStatus arg; u_LastError arg; u_ExpectedSource arg] (λ d,
  match u_ID arg with
  | Some id => match t_notifications d !! id with
      | Some c =>
          if bool_decide (c_status c = u_ExpectedSource arg) then
            match u_UpdatedAt arg with
            | None => pg_error "null value" d
            | Some now =>
                if negb (Status_IsValid (u_NewStatus arg)) then pg_error "check constraint" d
                else (Ok 1, set_notifications (<[id := set_update arg (srv_time now) c]> (t_notifications d)) d)
            end
          else (Ok 0, d)
      | None => (Ok 0, d)
      end
  | None => (Ok 0, d)
  end).

(** ** Queries over the table *)
Abbreviation entry := (uuid * notification_cols)%type.

(** [WHERE P ORDER BY R LIMIT n]; ties come in the server's order. *)
Definition select_where {A} (P : A → bool) (R : relation A) `{∀ x y, Decision (R x y)}
    (limit : Z) (l : list A) : res (list A) :=
  if limit <? 0 then Err (Opaque "LIMIT must not be negative")
  else Ok (take (Z.to_nat limit) (merge_sort R (filter (λ x, P x = true) (srv_plan l)))).
(** [FOR UPDATE SKIP LOCKED]: rows other sessions hold are not seen. *)
Definition unlocked (i : nat) (l : list entry) : list entry :=
  filter (λ x, srv_locked i x.1 = false) l.
Definition scan_rows (l : list entry) : list NotificationRow := (λ x, select_row x.1 x.2) <$> l.
Definition query (i : nat) (P : entry → bool) (R : relation entry) `{∀ x y, Decision (R x y)}
    (limit : Z) : stmt (list NotificationRow) := λ d,
  (match select_where P R limit (unlocked i (map_to_list (t_notifications d))) with
   | Ok l => Ok (scan_rows l)
   | Err e => Err e
   end, d).

Definition by_created (x y : entry) : Prop := c_created_at x.2 ≤ c_created_at y.2.
Definition by_updated (x y : entry) : Prop := c_updated_at x.2 ≤ c_updated_at y.2.
(** [next_retry_at]; the query has excluded the nulls. *)
Definition by_retry (x y : entry) : Prop :=
  default 0 (c_next_retry_at x.2) ≤ default 0 (c_next_retry_at y.2).
#[export] Instance by_created_dec x y : Decision (by_created x y).
Proof. unfold by_created. apply _. Defined.
#[export] Instance by_updated_dec x y : Decision (by_updated x y).
Proof. unfold by_updated. apply _. Defined.
#[export] Instance by_retry_dec x y : Decision (by_retry x y).
Proof. unfold by_retry. apply _. Defined.

(** [col < $1], false when either is null. *)
Definition before (t : option Time) (bound : option Time) : bool :=
  match t, bound with Some t, Some b => t <? srv_time b | _, _ => false end.

Definition FindOrphanedPending_sql (i : nat) (older_than : option Time) (limit : Z) :=
  query i (λ '(_, c), bool_decide (c_status c = "pending") && before (Some (c_created_at c)) older_than)
    by_created limit.
Definition FindStuckProcessing_sql (i : nat) (older_than : option Time) (limit : Z) :=
  query i (λ '(_, c), bool_decide (c_status c = "processing") && before (Some (c_updated_at c)) older_than)
    by_updated limit.
Definition FindOverdueRetrying_sql (i : nat) (before_at : option Time) (limit : Z) :=
  query i (λ '(_, c), bool_decide (c_status c = "retrying") && before (c_next_retry_at c) before_at)
    by_retry limit.
Definition FindStuckQueued_sql (i : nat) (older_than : option Time) (limit : Z) :=
  query i (λ '(_, c), bool_decide (c_status c = "queued") && before (Some (c_updated_at c)) older_than
    && (bool_decide (c_scheduled_at c = None) || before (c_scheduled_at c) older_than))
    by_updated limit.

Record ListNotificationsParams := mkListNotificationsParams {
  l_Status : option string; l_Channel : option string; l_BatchID : option uuid;
  l_CreatedAfter : option Time; l_CreatedBefore : option Time;
  l_CursorCreatedAt : option Time; l_CursorID : option uuid; l_RowLimit : Z }.
(** [$n IS NULL OR ...] *)
Definition unless_null {A} (x : option A) (f : A → bool) : bool :=
  match x with None => true | Some a => f a end.
(** [(created_at, id) < (t, u)] *)
Definition keyset_lt (t : Time) (u : uuid) (t' : Time) (u' : uuid) : bool :=
  (t <? t') || ((t =? t') && (uuid_N u <? uuid_N u')%N).
Definition list_where (arg : ListNotificationsParams) (x : entry) : bool :=
  let '(id, c) := x in
  unless_null (l_Status arg) (λ s, bool_decide (c_status c = s)) &&
  unless_null (l_Channel arg) (λ s, bool_decide (c_channel c = s)) &&
  unless_null (l_BatchID arg) (λ b, bool_decide (c_batch_id c = Some b)) &&
  unless_null (l_CreatedAfter arg) (λ t, srv_time t <=? c_created_at c) &&
  unless_null (l_CreatedBefore arg) (λ t, c_created_at c <=? srv_time t) &&
  unless_null (l_CursorCreatedAt arg) (λ t,
    match l_CursorID arg with
    | Some u => keyset_lt (c_created_at c) id (srv_time t) u
    | None => c_created_at c <? srv_time t
    end).
(** [ORDER BY created_at DESC, id DESC] *)
Definition newest_first (x y : entry) : Prop :=
  keyset_lt (c_created_at x.2) x.1 (c_created_at y.2) y.1 = false.
#[export] Instance newest_first_dec x y : Decision (newest_first x y).
Proof. unfold newest_first. apply _. Defined.
Definition ListNotifications_sql (arg : ListNotificationsParams) : stmt (list NotificationRow) := λ d,
  (match select_where (list_where arg) newest_first (l_RowLimit arg) (map_to_list (t_notifications d)) with
   | Ok l => Ok (scan_rows l)
   | Err e => Err e
   end, d).

Definition ListNotificationsByBatch_sql (batch_id : option uuid) : stmt (list NotificationRow) := λ d,
  (Ok (scan_rows (merge_sort by_created (filter (λ x,
     bool_decide (is_Some batch_id ∧ c_batch_id x.2 = batch_id) = true)
     (srv_plan (map_to_list (t_notifications d)))))), d).

(** ** batches, templates, notification_logs *)
Definition CreateBatch_sql (arg : BatchRow) : stmt unit := with_texts [brow_CorrelationID arg] (λ d,
  match brow_ID arg, brow_CreatedAt arg with
  | Some id, Some created =>
      if bool_decide (is_Some (t_batches d !! id)) then pg_error "duplicate key" d
      else (Ok tt, set_batches (<[id := mkBatchCols (brow_CorrelationID arg) (srv_time created)]> (t_batches d)) d)
  | _, _ => pg_error "null value" d
  end).
Definition GetBatch_sql (id : option uuid) : stmt BatchRow := λ d,
  match id with
  | Some id => match t_batches d !! id with
      | Some c => (Ok (mkBatchRow (Some id) (bc_correlation_id c) (Some (bc_created_at c))), d)
      | None => (Err (Sentinel LibErrNoRows), d)
      end
  | None => (Err (Sentinel LibErrNoRows), d)
  end.

Definition named (name : string) (l : list (uuid * template_cols)) : list (uuid * template_cols) :=
  filter (λ x, tc_name x.2 = name) l.
Definition CreateTemplate_sql (arg : TemplateRow) : stmt unit :=
  with_texts [trow_Name arg; trow_Channel arg; trow_Body arg] (λ d,
  match trow_ID arg, trow_CreatedAt arg, trow_UpdatedAt arg with
  | Some id, Some created, Some updated =>
      if negb (Channel_IsValid (trow_Channel arg)) then pg_error "check constraint" d
      else if bool_decide (is_Some (t_templates d !! id)) then pg_error "duplicate key" d
      else if negb (bool_decide (named (trow_Name arg) (map_to_list (t_templates d)) = []))
      then pg_error "duplicate name" d
      else (Ok tt, set_templates (<[id := mkTemplateCols (trow_Name arg) (trow_Channel arg) (trow_Body arg)
              (srv_time created) (srv_time updated)]> (t_templates d)) d)
  | _, _, _ => pg_error "null value" d
  end).

Definition GetTemplate_sql (id : option uuid) : stmt TemplateRow := λ d,
  match id with
  | Some id => match t_templates d !! id with
      | Some c => (Ok (select_template id c), d)
      | None => (Err (Sentinel LibErrNoRows), d)
      end
  | None => (Err (Sentinel LibErrNoRows), d)
  end.
Definition GetTemplateByName_sql (name : string) : stmt TemplateRow := with_texts [name] (λ d,
  match named name (map_to_list (t_templates d)) with
  | (id, c) :: _ => (Ok (select_template id c), d)
  | [] => (Err (Sentinel LibErrNoRows), d)
  end).
Definition by_name (x y : uuid * template_cols) : Prop := srv_name_le (tc_name x.2) (tc_name y.2) = true.
#[export] Instance by_name_dec x y : Decision (by_name x y).
Proof. unfold by_name. apply _. Defined.
Definition ListTemplates_sql (limit : Z) : stmt (list TemplateRow) := λ d,
  (match select_where (λ _, true) by_name limit (map_to_list (t_templates d)) with
   | Ok l => Ok ((λ x, select_template x.1 x.2) <$> l)
   | Err e => Err e
   end, d).
(** The statement does not mention [updated_at], and the trigger that once
    set it is dropped by migration 000002. *)
Definition UpdateTemplate_sql (id : option uuid) (name channel body : string) : stmt unit :=
  with_texts [name; channel; body] (λ d,
  match id with
  | Some id => match t_templates d !! id with
      | Some c =>
          if negb (Channel_IsValid channel) then pg_error "check constraint" d
          else if existsb (λ x, negb (bool_decide (x.1 = id))) (named name (map_to_list (t_templates d)))
          then pg_error "duplicate name" d
          else (Ok tt, set_templates (<[id := mkTemplateCols name channel body (tc_created_at c)
                  (tc_updated_at c)]> (t_templates d)) d)
      | None => (Ok tt, d)
      end
  | None => (Ok tt, d)
  end).
(** [ON DELETE SET NULL] *)
Definition clear_template (id : uuid) (c : notification_cols) : notification_cols :=
  if bool_decide (c_template_id c = Some id) then
    {| c_batch_id := c_batch_id c; c_idempotency_key := c_idempotency_key c;
       c_correlation_id := c_correlation_id c; c_channel := c_channel c; c_priority := c_priority c;
       c_recipient := c_recipient c; c_content := c_content c; c_status := c_status c;
       c_attempts := c_attempts c; c_last_error := c_last_error c;
       c_next_retry_at := c_next_retry_at c; c_scheduled_at := c_scheduled_at c;
       c_template_id := None; c_created_at := c_created_at c; c_updated_at := c_updated_at c |}
  else c.
Definition DeleteTemplate_sql (id : option uuid) : stmt unit := λ d,
  match id with
  | Some id => (Ok tt, if bool_decide (is_Some (t_templates d !! id))
      then set_notifications (clear_template id <$> t_notifications d)
             (set_templates (delete id (t_templates d)) d)
      else d)
  | None => (Ok tt, d)
  end.

(** The details as jsonb keeps them, [None] when it refuses the document. *)
Definition stored_details (details : option string) : option (option string) :=
  match details with None => Some None | Some s => Some <$> srv_jsonb s end.
Definition AppendNotificationLog_sql (arg : LogRow) : stmt unit :=
  with_texts [lrow_CorrelationID arg; lrow_Event arg] (λ d,
  match stored_details (lrow_Details arg) with
  | None => pg_error "invalid input syntax for type json" d
  | Some details =>
  match lrow_ID arg, lrow_NotificationID arg, lrow_CreatedAt arg with
  | Some id, Some nid, Some created =>
      if negb (LogEvent_IsValid (lrow_Event arg)) then pg_error "check constraint" d
      else if existsb (λ l, bool_decide (lc_id l = id)) (t_logs d) then pg_error "duplicate key" d
      else if bool_decide (t_notifications d !! nid = None) then pg_error "foreign key notification_id" d
      else (Ok tt, set_logs (t_logs d ++ [mkLogCols id nid (lrow_CorrelationID arg) (lrow_Event arg)
              details (srv_time created)]) d)
  | _, _, _ => pg_error "null value" d
  end end).
Definition log_by_created (x y : log_cols) : Prop := lc_created_at x ≤ lc_created_at y.
#[export] Instance log_by_created_dec x y : Decision (log_by_created x y).
Proof. unfold log_by_created. apply _. Defined.
Definition ListNotificationLogs_sql (id : option uuid) : stmt (list LogRow) := λ d,
  (Ok (select_log <$> merge_sort log_by_created
     (filter (λ l, Some (lc_notification_id l) = id) (srv_plan (t_logs d)))), d).
End sql.
