(* ===== verification/Postgres.v ===== *)
(** The PostgreSQL adapter (internal/adapters/postgres): the repositories over
    the statements of Sql.v, and the proof that they keep the contract of
    RepoSpec.v. *)

From S2P Require Import Prelude GoStrings Base64 RFC3339 Uuid Errors ValueObjects Notification.
From S2P Require Import Batch Template Ports RepoSpec Sql.

(** The adapter's state: the tables and the number of statements sent so far,
    which indexes the server's behaviour. *)
Record PG := mkPG { pg_data : data; pg_sent : nat }.

(** [encoding/json] on the details column. *)
Class DetailsCodec := {
  details_Marshal : gmap string any → res string;
  details_Unmarshal : string → res (gmap string any);
}.

(** [time.Parse] by layout, which it falls back to when the text is not plainly
    RFC 3339. *)
Class CursorTime := parse_layout : string → res Time.
Definition ParseRFC3339Nano `{CursorTime} (s : string) : res Time :=
  match parseRFC3339 (bytes s) with Some t => Ok t | None => parse_layout s end.

Section pg.
Context `{Server, PgtypeUUID, DetailsCodec, CursorTime}.

(** Send one statement. *)
Definition exec {A} (s : nat → stmt A) : M PG A := λ db,
  let i := pg_sent db in
  match srv_fault i with
  | NoFault => let '(r, d) := s i (pg_data db) in (r, mkPG d (S i))
  | Lost e => (Err e, mkPG (pg_data db) (S i))
  | AckLost e => (Err e, mkPG (s i (pg_data db)).2 (S i))
  end.
(** [pgx.BeginFunc]: commit when the body succeeds, roll back otherwise. *)
Definition BeginFunc {A} (body : M PG A) : M PG A := λ db,
  match exec (λ _ d, (Ok tt, d)) db with
  | (Err e, db) => (Err e, db)
  | (Ok _, db) =>
      match body db with
      | (Err e, db') => (Err e, mkPG (pg_data db) (pg_sent db'))
      | (Ok a, db') =>
          match srv_fault (pg_sent db') with
          | NoFault => (Ok a, mkPG (pg_data db') (S (pg_sent db')))
          | Lost e => (Err e, mkPG (pg_data db) (S (pg_sent db')))
          | AckLost e => (Err e, mkPG (pg_data db') (S (pg_sent db')))
          end
      end
  end.

(** ** pgtype helpers *)
Definition parseUUID (s : string) : res (option uuid) :=
  match UUID_Scan s with Ok u => Ok (Some u) | Err e => Err e end.
Definition timeToTimestamptz (t : Time) : option Time := Some t.
Definition timeToTimestamptzPtr (t : option Time) : option Time := t.
Definition timestamptzToTimePtr (ts : option Time) : option Time := ts.
(** [ts.Time] of an invalid timestamp is the zero time. *)
Definition zero_time : Time := -62135596800 * Second.
Definition ts_Time (ts : option Time) : Time := default zero_time ts.

Definition parseNotificationIDErr {A} (c : M PG A) : M PG A := wrap_err "parse notification id" c.
Definition wrapNotificationErr (s : sentinel) : error := Wrapped "notification" (Sentinel s).

(** ** Rows and entities *)
Definition optional_uuid (label : string) (s : option string) : res (option uuid) :=
  match s with
  | None => Ok None
  | Some s => match parseUUID s with Ok u => Ok u | Err e => Err (Wrapped label e) end
  end.
Definition notificationToCreateParams (n : Notification) : res NotificationRow :=
  match parseUUID (ID n) with
  | Err e => Err (Wrapped "id" e)
  | Ok id =>
  match optional_uuid "batch_id" (NBatchID n) with
  | Err e => Err e
  | Ok batchID =>
  match optional_uuid "template_id" (NTemplateID n) with
  | Err e => Err e
  | Ok templateID =>
  Ok {| row_ID := id; row_BatchID := batchID;
        row_IdempotencyKey := if bool_decide (IdempotencyKey n = "") then None else Some (IdempotencyKey n);
        row_CorrelationID := CorrelationID n; row_Channel := NChannel n; row_Priority := NPriority n;
        row_Recipient := Recipient n; row_Content := Content n; row_Status := NStatus n;
        row_Attempts := int32 (Attempts n); row_LastError := LastError n;
        row_NextRetryAt := timeToTimestamptzPtr (NextRetryAt n);
        row_ScheduledAt := timeToTimestamptzPtr (ScheduledAt n); row_TemplateID := templateID;
        row_CreatedAt := timeToTimestamptz (CreatedAt n);
        row_UpdatedAt := timeToTimestamptz (UpdatedAt n) |}
  end end end.

Definition optional_text (label : string) (u : option uuid) : res (option string) :=
  match u with
  | None => Ok None
  | Some _ => match uuidToString u with Ok s => Ok (Some s) | Err e => Err (Wrapped label e) end
  end.
Definition notificationFromRow (row : NotificationRow) : res Notification :=
  match uuidToString (row_ID row) with
  | Err e => Err (Wrapped "id" e)
  | Ok id =>
  match optional_text "batch_id" (row_BatchID row) with
  | Err e => Err e
  | Ok batchID =>
  match optional_text "template_id" (row_TemplateID row) with
  | Err e => Err e
  | Ok templateID =>
  Ok {| ID := id; NBatchID := batchID; IdempotencyKey := default "" (row_IdempotencyKey row);
        CorrelationID := row_CorrelationID row; NChannel := row_Channel row;
        NPriority := row_Priority row; Recipient := row_Recipient row; Content := row_Content row;
        NStatus := row_Status row; Attempts := row_Attempts row; LastError := row_LastError row;
        NextRetryAt := timestamptzToTimePtr (row_NextRetryAt row);
        ScheduledAt := timestamptzToTimePtr (row_ScheduledAt row); NTemplateID := templateID;
        CreatedAt := ts_Time (row_CreatedAt row); UpdatedAt := ts_Time (row_UpdatedAt row) |}
  end end end.
Fixpoint rowsToNotifications (l : list NotificationRow) : res (list Notification) :=
  match l with
  | [] => Ok []
  | row :: l =>
      match notificationFromRow row with
      | Err e => Err e
      | Ok n => match rowsToNotifications l with Err e => Err e | Ok ns => Ok (n :: ns) end
      end
  end.

(** ** NotificationRepository *)
Definition pg_Create (n : Notification) : M PG unit :=
  let* params := wrap_err "convert notification" (of_result (notificationToCreateParams n)) in
  wrap_err "create notification" (exec (λ _, CreateNotification_sql params)).

(** [if errors.Is(err, pgx.ErrNoRows) { return s }] *)
Definition no_rows {A} (s : error) (label : string) (c : M PG A) : M PG A :=
  map_err (λ e, if errors_Is e LibErrNoRows then s else Wrapped label e) c.

Definition pg_ClaimForProcessing (id : NotificationID) (now : Time) : M PG Notification :=
  let* pgID := parseNotificationIDErr (of_result (parseUUID id)) in
  let* _ := no_rows (wrapNotificationErr ErrNotFound) "get notification"
              (exec (λ _, GetNotification_sql pgID)) in
  let* row := no_rows (wrapNotificationErr ErrAlreadyClaimed) "claim notification"
                (exec (λ _, ClaimForProcessing_sql pgID (timeToTimestamptz now))) in
  of_result (notificationFromRow row).

Definition pg_UpdateStatus (n : Notification) (expectedSource : Status) : M PG unit :=
  let* pgID := parseNotificationIDErr (of_result (parseUUID (ID n))) in
  let* rows := wrap_err "update notification" (exec (λ _, UpdateNotificationStatus_sql {|
      u_NewStatus := NStatus n; u_Attempts := int32 (Attempts n); u_LastError := LastError n;
      u_NextRetryAt := timeToTimestamptzPtr (NextRetryAt n);
      u_UpdatedAt := timeToTimestamptz (UpdatedAt n); u_ID := pgID;
      u_ExpectedSource := expectedSource |})) in
  if rows =? 0 then throw (Wrapped "expected source" (Sentinel ErrConcurrentUpdate)) else ret tt.

Definition pg_Get (id : NotificationID) : M PG Notification :=
  let* pgID := parseNotificationIDErr (of_result (parseUUID id)) in
  let* row := no_rows (wrapNotificationErr ErrNotFound) "get notification"
                (exec (λ _, GetNotification_sql pgID)) in
  of_result (notificationFromRow row).

Definition pg_find (label : string) (q : nat → option Time → Z → stmt (list NotificationRow))
    (t : Time) (limit : Z) : M PG (list Notification) :=
  let* rows := wrap_err label (exec (λ i, q i (timeToTimestamptz t) (int32 limit))) in
  of_result (rowsToNotifications rows).
Definition pg_FindOrphanedPending : Time → Z → M PG (list Notification) :=
  pg_find "find orphaned pending" FindOrphanedPending_sql.
Definition pg_FindStuckProcessing : Time → Z → M PG (list Notification) :=
  pg_find "find stuck processing" FindStuckProcessing_sql.
Definition pg_FindOverdueRetrying : Time → Z → M PG (list Notification) :=
  pg_find "find overdue retrying" FindOverdueRetrying_sql.
Definition pg_FindStuckQueued : Time → Z → M PG (list Notification) :=
  pg_find "find stuck queued" FindStuckQueued_sql.

(** ** Cursors and pages *)
Definition bar : ascii := "|"%char.
Definition encodeCursor (t : Time) (id : string) : string :=
  EncodeToString (FormatRFC3339Nano t +:+ String bar id).
Definition decodeCursor (s : string) : res (Time * string) :=
  match DecodeString s with
  | None => Err (Wrapped "base64" (Opaque "illegal base64 data"))
  | Some raw =>
      match cut bar raw with
      | None => Err (Opaque "malformed cursor: missing separator")
      | Some (ts, id) =>
          match ParseRFC3339Nano ts with
          | Err e => Err (Wrapped "timestamp" e)
          | Ok t => Ok (t, id)
          end
      end
  end.

Definition buildListParams (filter : NotificationFilter) (cursor : string) (limit : Z)
    : res ListNotificationsParams :=
  match (if bool_decide (cursor = "") then Ok (None, None)
         else match decodeCursor cursor with
              | Err e => Err (Wrapped "decode cursor" e)
              | Ok (t, idStr) =>
                  match parseUUID idStr with
                  | Err e => Err (Wrapped "cursor id" e)
                  | Ok pgID => Ok (timeToTimestamptz t, pgID)
                  end
              end) with
  | Err e => Err e
  | Ok (cursorCreatedAt, cursorID) =>
  match optional_uuid "batch_id filter" (f_BatchID filter) with
  | Err e => Err e
  | Ok bid =>
  Ok {| l_Status := f_Status filter; l_Channel := f_Channel filter; l_BatchID := bid;
        l_CreatedAfter := f_CreatedAfter filter; l_CreatedBefore := f_CreatedBefore filter;
        l_CursorCreatedAt := cursorCreatedAt; l_CursorID := cursorID;
        l_RowLimit := int32 (limit + 1) |}
  end end.

(** [items[limit-1]] is in range: the slice is longer than [limit], which
    callers keep positive. *)
Definition paginate (items : list Notification) (limit : Z) : list Notification * string :=
  if Z.of_nat (length items) <=? limit then (items, "")
  else match items !! Z.to_nat (limit - 1) with
       | Some last => (take (Z.to_nat limit) items, encodeCursor (CreatedAt last) (ID last))
       | None => (items, "")
       end.

Definition pg_List (filter : NotificationFilter) (cursor : string) (limit : Z)
    : M PG (list Notification * string) :=
  let* params := of_result (buildListParams filter cursor limit) in
  let* rows := wrap_err "list notifications" (exec (λ _, ListNotifications_sql params)) in
  let* items := of_result (rowsToNotifications rows) in
  ret (paginate items limit).

(** ** BatchRepository *)
Definition pg_batch_Create (b : Batch) : M PG unit :=
  let* batchID := wrap_err "parse batch id" (of_result (parseUUID (batch_ID b))) in
  BeginFunc (
    wrap_err "create batch" (exec (λ _, CreateBatch_sql
      (mkBatchRow batchID (batch_CorrelationID b) (timeToTimestamptz (batch_CreatedAt b))))) ;;;
    for_each (λ n,
      let* params := wrap_err "convert notification" (of_result (notificationToCreateParams n)) in
      wrap_err "create notification in batch" (exec (λ _, CreateNotification_sql params)))
      (batch_Notifications b)).
Definition pg_batch_Get (id : BatchID) : M PG Batch :=
  let* pgID := wrap_err "parse batch id" (of_result (parseUUID id)) in
  let* batchRow := no_rows (Wrapped "batch" (Sentinel ErrNotFound)) "get batch"
                     (exec (λ _, GetBatch_sql pgID)) in
  let* notifRows := wrap_err "list notifications for batch" (exec (λ _, ListNotificationsByBatch_sql pgID)) in
  let* notifications := wrap_err "convert batch notifications" (of_result (rowsToNotifications notifRows)) in
  let* idStr := wrap_err "batch id" (of_result (uuidToString (brow_ID batchRow))) in
  ret (mkBatch idStr (brow_CorrelationID batchRow) notifications (ts_Time (brow_CreatedAt batchRow))).

(** ** TemplateRepository *)
Definition parseTemplateIDErr {A} (c : M PG A) : M PG A := wrap_err "parse template id" c.
Definition templateFromRow (row : TemplateRow) : res Template :=
  match uuidToString (trow_ID row) with
  | Err e => Err (Wrapped "template id" e)
  | Ok id => Ok (mkTemplate id (trow_Name row) (trow_Channel row) (trow_Body row)
                   (ts_Time (trow_CreatedAt row)) (ts_Time (trow_UpdatedAt row)))
  end.
Definition pg_tmpl_Create (t : Template) : M PG unit :=
  let* id := parseTemplateIDErr (of_result (parseUUID (tpl_ID t))) in
  wrap_err "create template" (exec (λ _, CreateTemplate_sql (mkTemplateRow id (tpl_Name t)
    (tpl_Channel t) (tpl_Body t) (timeToTimestamptz (tpl_CreatedAt t)) (timeToTimestamptz (tpl_UpdatedAt t))))).
Definition pg_tmpl_Get (id : TemplateID) : M PG Template :=
  let* pgID := parseTemplateIDErr (of_result (parseUUID id)) in
  let* row := no_rows (Wrapped "template" (Sentinel ErrNotFound)) "get template"
                (exec (λ _, GetTemplate_sql pgID)) in
  of_result (templateFromRow row).
Definition pg_tmpl_GetByName (name : string) : M PG Template :=
  let* row := no_rows (Wrapped "template name" (Sentinel ErrNotFound)) "get template by name"
                (exec (λ _, GetTemplateByName_sql name)) in
  of_result (templateFromRow row).
Definition pg_tmpl_List (limit : Z) : M PG (list Template) :=
  let* rows := wrap_err "list templates" (exec (λ _, ListTemplates_sql (int32 limit))) in
  map_each (λ row, of_result (templateFromRow row)) rows.
Definition pg_tmpl_Update (t : Template) : M PG unit :=
  let* pgID := parseTemplateIDErr (of_result (parseUUID (tpl_ID t))) in
  wrap_err "update template" (exec (λ _, UpdateTemplate_sql pgID (tpl_Name t) (tpl_Channel t) (tpl_Body t))).
Definition pg_tmpl_Delete (id : TemplateID) : M PG unit :=
  let* pgID := parseTemplateIDErr (of_result (parseUUID id)) in
  wrap_err "delete template" (exec (λ _, DeleteTemplate_sql pgID)).

(** ** NotificationLogRepository *)
Definition marshal_details (d : option (gmap string any)) : res (option string) :=
  match d with
  | None => Ok None
  | Some m => match details_Marshal m with
              | Ok s => Ok (Some s) | Err e => Err (Wrapped "marshal log details" e) end
  end.
Definition pg_log_Append (entry : NotificationLog) : M PG unit :=
  let* id := wrap_err "parse log id" (of_result (parseUUID (log_ID entry))) in
  let* notifID := wrap_err "parse notification id" (of_result (parseUUID (log_NotificationID entry))) in
  let* details := of_result (marshal_details (log_Details entry)) in
  wrap_err "append log entry" (exec (λ _, AppendNotificationLog_sql (mkLogRow id notifID
    (log_CorrelationID entry) (log_Event entry) details (timeToTimestamptz (log_CreatedAt entry))))).
Definition notificationLogFromRow (row : LogRow) : res NotificationLog :=
  match uuidToString (lrow_ID row) with
  | Err e => Err (Wrapped "log id" e)
  | Ok id =>
  match uuidToString (lrow_NotificationID row) with
  | Err e => Err (Wrapped "notification id" e)
  | Ok notifID =>
  match (match lrow_Details row with
         | Some s => if bool_decide (s = "") then Ok None
                     else match details_Unmarshal s with
                          | Ok m => Ok (Some m)
                          | Err e => Err (Wrapped "unmarshal log details" e) end
         | None => Ok None
         end) with
  | Err e => Err e
  | Ok details => Ok (mkNotificationLog id notifID (lrow_CorrelationID row) (lrow_Event row) details
                        (ts_Time (lrow_CreatedAt row)))
  end end end.
Definition pg_log_List (id : NotificationID) : M PG (list NotificationLog) :=
  let* pgID := parseNotificationIDErr (of_result (parseUUID id)) in
  let* rows := wrap_err "list logs" (exec (λ _, ListNotificationLogs_sql pgID)) in
  map_each (λ row, of_result (notificationLogFromRow row)) rows.

#[export] Instance pg_notifications : NotificationRepository PG := {|
  Repo_Create := pg_Create; Repo_Get := pg_Get; Repo_ClaimForProcessing := pg_ClaimForProcessing;
  Repo_UpdateStatus := pg_UpdateStatus; Repo_List := pg_List;
  Repo_FindOrphanedPending := pg_FindOrphanedPending;
  Repo_FindStuckProcessing := pg_FindStuckProcessing;
  Repo_FindOverdueRetrying := pg_FindOverdueRetrying;
  Repo_FindStuckQueued := pg_FindStuckQueued |}.
#[export] Instance pg_batches : BatchRepository PG := {|
  BatchRepo_Create := pg_batch_Create; BatchRepo_Get := pg_batch_Get |}.
#[export] Instance pg_templates : TemplateRepository PG := {|
  TmplRepo_Create := pg_tmpl_Create; TmplRepo_Get := pg_tmpl_Get;
  TmplRepo_GetByName := pg_tmpl_GetByName; TmplRepo_List := pg_tmpl_List;
  TmplRepo_Update := pg_tmpl_Update; TmplRepo_Delete := pg_tmpl_Delete |}.
#[export] Instance pg_logs : NotificationLogRepository PG := {|
  LogRepo_Append := pg_log_Append; LogRepo_List := pg_log_List |}.
End pg.

(** ** Cursors are read back *)
Lemma parse_format `{CursorTime} t : representable t → ParseRFC3339Nano (FormatRFC3339Nano t) = Ok t.
Proof. intros Ht. unfold ParseRFC3339Nano. by rewrite FormatRFC3339Nano_parse. Qed.
Lemma format_no_bar t : contains bar (FormatRFC3339Nano t) = false.
Proof.
  unfold FormatRFC3339Nano. pose proof (format_bytes_alphabet t) as Hl.
  induction Hl as [|a l Ha _ IH]; [done|]. simpl. rewrite IH, orb_false_r.
  apply bool_decide_eq_false. intros E. subst a. discriminate Ha.
Qed.

Section cursor.
Context `{CursorTime}.

Lemma encodeCursor_nonempty t id : encodeCursor t id ≠ "".
Proof.
  unfold encodeCursor, EncodeToString. intros E.
  assert (bytes (FormatRFC3339Nano t +:+ String bar id) ≠ []) as Hne.
  { rewrite bytes_app. by intros [_ ?]%app_eq_nil. }
  destruct (bytes (FormatRFC3339Nano t +:+ String bar id)) as [|a [|b [|c l]]]; done.
Qed.

Lemma decode_encodeCursor t id : representable t → decodeCursor (encodeCursor t id) = Ok (t, id).
Proof.
  intros Ht. unfold decodeCursor, encodeCursor. rewrite DecodeString_EncodeToString.
  rewrite cut_app by apply format_no_bar. by rewrite parse_format.
Qed.
End cursor.

(** A cursor is read back as the pair it was made from, whatever bytes the
    id holds. *)
Theorem cursor_roundtrip `{CursorTime} t id (Ht : representable t) :
  decodeCursor (encodeCursor t id) = Ok (t, id).
Proof. by apply decode_encodeCursor. Qed.
