(* ===== verification/PostgresSpec.v ===== *)
(** The PostgreSQL adapter keeps the contract of the persistence ports: the
    instance of [StoreLaws] for the state of Postgres.v, for any server and
    UUID parser that satisfy their laws, whatever fails and when. *)

From S2P Require Import Prelude GoStrings Uuid Errors ValueObjects Notification Batch Template.
From S2P Require Import Ports RepoSpec Sql Postgres.

(** The entity a stored row is read back as. *)
Definition entity_of (k : uuid) (c : notification_cols) : Notification :=
  {| ID := uuid_text k; NBatchID := uuid_text <$> c_batch_id c;
     IdempotencyKey := default "" (c_idempotency_key c); CorrelationID := c_correlation_id c;
     NChannel := c_channel c; NPriority := c_priority c; Recipient := c_recipient c;
     Content := c_content c; NStatus := c_status c; Attempts := c_attempts c;
     LastError := c_last_error c; NextRetryAt := c_next_retry_at c; ScheduledAt := c_scheduled_at c;
     NTemplateID := uuid_text <$> c_template_id c; CreatedAt := c_created_at c;
     UpdatedAt := c_updated_at c |}.

Lemma notificationFromRow_select k c : notificationFromRow (select_row k c) = Ok (entity_of k c).
Proof. destruct c as [[] ? ? ? ? ? ? ? ? ? ? ? [] ? ?]; reflexivity. Qed.

Lemma rowsToNotifications_scan l :
  rowsToNotifications (scan_rows l) = Ok ((λ x, entity_of x.1 x.2) <$> l).
Proof.
  induction l as [|[k c] l IH]; [done|]. unfold scan_rows in *.
  rewrite !fmap_cons. cbn [rowsToNotifications fst snd]. by rewrite notificationFromRow_select, IH.
Qed.

Lemma foreign_Wrapped ctx e : foreign e → foreign (Wrapped ctx e).
Proof. intros H s Hs. by apply H. Qed.
Lemma foreign_Opaque msg : foreign (Opaque msg).
Proof. by intros s Hs. Qed.
#[export] Hint Resolve foreign_Wrapped foreign_Opaque : go.

Section view.
Context `{Server, PgtypeUUID}.

Definition id_key (s : string) : option uuid :=
  match UUID_Scan s with Ok u => Some u | Err _ => None end.
(** The columns an insert of [n] writes. *)
Definition cols_of (n : Notification) : notification_cols :=
  {| c_batch_id := NBatchID n ≫= id_key;
     c_idempotency_key := if bool_decide (IdempotencyKey n = "") then None else Some (IdempotencyKey n);
     c_correlation_id := CorrelationID n; c_channel := NChannel n; c_priority := NPriority n;
     c_recipient := Recipient n; c_content := Content n; c_status := NStatus n;
     c_attempts := int32 (Attempts n); c_last_error := LastError n;
     c_next_retry_at := srv_time <$> NextRetryAt n; c_scheduled_at := srv_time <$> ScheduledAt n;
     c_template_id := NTemplateID n ≫= id_key; c_created_at := srv_time (CreatedAt n);
     c_updated_at := srv_time (UpdatedAt n) |}.

#[export] Instance pg_view : StoreView PG := {|
  key := id_key;
  stamp := srv_time;
  stored := λ n, match id_key (ID n) with Some k => entity_of k (cols_of n) | None => n end;
  rows := λ db, map_imap (λ k c, Some (entity_of k c)) (t_notifications (pg_data db));
  trail := λ db, (λ l, (lc_notification_id l, lc_correlation_id l, lc_event l)) <$> t_logs (pg_data db);
|}.

Lemma lookup_rows db k : rows db !! k = entity_of k <$> t_notifications (pg_data db) !! k.
Proof. unfold rows. simpl. rewrite map_lookup_imap. by destruct (_ !! k). Qed.

Lemma rows_set_insert d i j k c :
  rows (mkPG (set_notifications (<[k := c]> (t_notifications d)) d) i) = <[k := entity_of k c]> (rows (mkPG d j)).
Proof.
  apply map_eq. intros k'. rewrite lookup_rows. cbn [pg_data t_notifications set_notifications]. destruct (decide (k' = k)) as [->|Hne].
  - by rewrite !lookup_insert_eq.
  - rewrite !lookup_insert_ne by done. by rewrite lookup_rows.
Qed.

Lemma unchanged_data db db' : pg_data db' = pg_data db → unchanged db db'.
Proof. unfold unchanged, rows, trail. simpl. by intros ->. Qed.

Lemma parseUUID_key s u : parseUUID s = Ok u → ∃ k, u = Some k ∧ id_key s = Some k.
Proof. unfold parseUUID, id_key. destruct (UUID_Scan s); [|done]. intros [= <-]. eauto. Qed.
Lemma key_parseUUID s k : id_key s = Some k → parseUUID s = Ok (Some k).
Proof. unfold parseUUID, id_key. destruct (UUID_Scan s); [|done]. by intros [= <-]. Qed.
End view.

Section laws.
Context `{ServerLaws, PgtypeUUIDLaws, DetailsCodec, CursorTime}.

Lemma parseUUID_foreign s e : parseUUID s = Err e → foreign e.
Proof. unfold parseUUID. destruct (UUID_Scan s) eqn:E; [done|]. intros [= <-]. by eapply scan_foreign. Qed.

Lemma id_key_text k : id_key (uuid_text k) = Some k.
Proof. unfold id_key. by rewrite scan_text. Qed.

(** A statement either ran, or failed with the driver's own error, in which
    case it may have run all the same. *)
Lemma wp_exec {A} (s : nat → stmt A) (Φ : res A → PG → Prop) db :
  let i := pg_sent db in
  Φ (s i (pg_data db)).1 (mkPG (s i (pg_data db)).2 (S i)) →
  (∀ e, foreign e → Φ (Err e) (mkPG (pg_data db) (S i)) ∧ Φ (Err e) (mkPG (s i (pg_data db)).2 (S i))) →
  wp (exec s) Φ db.
Proof.
  intros i Hok Herr. unfold wp, exec. fold i. destruct (srv_fault i) as [|e|e] eqn:E.
  - by destruct (s i (pg_data db)).
  - apply Herr, (srv_fault_foreign i). auto.
  - apply Herr, (srv_fault_foreign i). auto.
Qed.

Lemma wp_exec_faultless {A} (s : nat → stmt A) (Φ : res A → PG → Prop) db :
  (∀ i, srv_fault i = NoFault) →
  Φ (s (pg_sent db) (pg_data db)).1 (mkPG (s (pg_sent db) (pg_data db)).2 (S (pg_sent db))) →
  wp (exec s) Φ db.
Proof. intros Hf HΦ. unfold wp, exec. rewrite Hf. by destruct (s _ _). Qed.
Lemma wp_exec_read {A} (s : nat → stmt A) (Φ : res A → PG → Prop) db :
  (∀ i d, (s i d).2 = d) →
  (∀ db', pg_data db' = pg_data db → Φ (s (pg_sent db) (pg_data db)).1 db') →
  (∀ e db', foreign e → pg_data db' = pg_data db → Φ (Err e) db') →
  wp (exec s) Φ db.
Proof.
  intros Hr Hok Herr. apply wp_exec; [|intros e He; split]; rewrite ?Hr; auto.
Qed.

Lemma wp_parse {A} label s (k : option uuid → M PG A) (Φ : res A → PG → Prop) db :
  (∀ u, id_key s = Some u → wp (k (Some u)) Φ db) →
  (∀ e, foreign e → Φ (Err e) db) →
  wp (bind (wrap_err label (of_result (parseUUID s))) k) Φ db.
Proof.
  intros Hok Herr. go_steps. destruct (parseUUID s) as [u|e] eqn:E.
  - apply parseUUID_key in E as (k' & -> & Hk). by apply Hok.
  - apply parseUUID_foreign in E. auto with go.
Qed.

Lemma wp_no_rows {A} s label (c : M PG A) (Φ : res A → PG → Prop) w :
  wp c (λ r w', match r with
                | Ok a => Φ (Ok a) w'
                | Err e => if errors_Is e LibErrNoRows then Φ (Err s) w' else Φ (Err (Wrapped label e)) w'
                end) w →
  wp (no_rows s label c) Φ w.
Proof.
  intros Hc. apply wp_map_err. eapply wp_mono; [exact Hc|]. intros [a|e] w'; [done|]. by case_match.
Qed.
Lemma foreign_no_rows e : foreign e → errors_Is e LibErrNoRows = false.
Proof. intros He. apply He. unfold service_sentinels. set_solver. Qed.
Lemma foreign_port e s : foreign e → s ∈ port_sentinels → errors_Is e s = false.
Proof. intros He Hs. apply He. unfold service_sentinels. set_solver. Qed.

(** ** Reads *)
Lemma GetNotification_sql_reads id d : (GetNotification_sql id d).2 = d.
Proof. unfold GetNotification_sql. by repeat case_match. Qed.

Lemma GetNotification_sql_spec k d :
  (GetNotification_sql (Some k) d).1 =
    match t_notifications d !! k with
    | Some c => Ok (select_row k c)
    | None => Err (Sentinel LibErrNoRows)
    end.
Proof. unfold GetNotification_sql. by case_match. Qed.

Lemma pg_get_law id (db : PG) : wp (Repo_Get id) (λ r db',
  unchanged db db' ∧
  match r with
  | Ok n => ∃ k, key id = Some k ∧ rows db !! k = Some n
  | Err e => errors_Is e ErrNotFound = true → ∀ k, key id = Some k → rows db !! k = None
  end) db.
Proof.
  cbn [Repo_Get pg_notifications]. unfold pg_Get. apply wp_parse; last first.
  { intros e He. split; [by apply unchanged_data|].
    rewrite foreign_port; [done|done|unfold port_sentinels; set_solver]. }
  intros k Hk. apply wp_bind, wp_no_rows, wp_exec_read; [intros; apply GetNotification_sql_reads|..].
  - intros db' Hd. rewrite GetNotification_sql_spec.
    pose proof (lookup_rows db k) as Hr. destruct (t_notifications (pg_data db) !! k) as [c|].
    + go_steps. rewrite notificationFromRow_select. split; [by apply unchanged_data|]. by exists k.
    + simpl. split; [by apply unchanged_data|]. intros _ k' Hk'. simpl in Hk'. by simplify_eq.
  - intros e db' He Hd. rewrite foreign_no_rows by done. split; [by apply unchanged_data|].
    rewrite foreign_port; [done|auto with go|unfold port_sentinels; set_solver].
Qed.

(** ** Claim *)
Lemma claim_sql_cases k now d :
  match ClaimForProcessing_sql (Some k) (Some now) d with
  | (Ok row, d') => ∃ c, t_notifications d !! k = Some c ∧ claimable (entity_of k c) ∧ c_attempts c + 1 < 2 ^ 31 ∧
      row = select_row k (set_claim (srv_time now) c) ∧
      d' = set_notifications (<[k := set_claim (srv_time now) c]> (t_notifications d)) d
  | (Err e, d') => d' = d ∧
      (e = Sentinel LibErrNoRows ∧ (∀ c, t_notifications d !! k = Some c → ¬ claimable (entity_of k c)) ∨
       foreign e)
  end.
Proof.
  unfold ClaimForProcessing_sql. destruct (t_notifications d !! k) as [c|] eqn:E; [|split; [done|left; split; [done|naive_solver]]].
  case_bool_decide as Hst; last first.
  { split; [done|]. left. split; [done|]. intros c' [= <-] Hc. apply Hst.
    destruct Hc as [Hc|Hc]; simpl in Hc; rewrite Hc; set_solver. }
  destruct (Z.ltb_spec (c_attempts c + 1) (2 ^ 31)); [|split; [done|right; apply foreign_Opaque]].
  exists c. split_and!; try done. unfold claimable. simpl. set_solver.
Qed.

Lemma claim_rows id k now c db i :
  id_key id = Some k → t_notifications (pg_data db) !! k = Some c → claimable (entity_of k c) →
  c_attempts c + 1 < 2 ^ 31 →
  claim_effect id now (entity_of k (set_claim (srv_time now) c)) (rows db)
    (rows (mkPG (set_notifications (<[k := set_claim (srv_time now) c]> (t_notifications (pg_data db)))
      (pg_data db)) i)).
Proof.
  intros Hk Hc Hcl Hmax. exists k, (entity_of k c). split_and!; try done.
  - by rewrite lookup_rows, Hc.
  - rewrite (rows_set_insert _ _ (pg_sent db)). by destruct db.
Qed.

(** What a claim that returned [e] left behind. *)
Definition claim_refused id now (db : PG) (e : error) (db' : PG) : Prop :=
  trail db' = trail db ∧
  (errors_Is e ErrAlreadyClaimed = true → rows db' = rows db ∧
     ∃ k n0, key id = Some k ∧ rows db !! k = Some n0 ∧ ¬ claimable n0) ∧
  (errors_Is e ErrNotFound = true → rows db' = rows db ∧
     ∀ k, key id = Some k → rows db !! k = None) ∧
  (rows db' = rows db ∨ ∃ n, claim_effect id now n (rows db) (rows db')).
Lemma claim_foreign id now db e db' : foreign e → pg_data db' = pg_data db → claim_refused id now db e db'.
Proof.
  intros He [Hr Ht]%unchanged_data. unfold claim_refused.
  rewrite !foreign_port by (done || (unfold port_sentinels; set_solver)). split_and!; [done|done|done|by left].
Qed.
Lemma claim_missing id k now db db' : key id = Some k → t_notifications (pg_data db) !! k = None →
  pg_data db' = pg_data db → claim_refused id now db (Sentinel ErrNotFound) db'.
Proof.
  intros Hk Ec [Hr Ht]%unchanged_data. unfold claim_refused. rewrite !errors_Is_Sentinel.
  split; [done|]. split_and!; [done| |by left]. intros _. split; [done|]. intros k' Hk'.
  simplify_eq. by rewrite lookup_rows, Ec.
Qed.
Lemma claim_lost id k now db c db' : key id = Some k → t_notifications (pg_data db) !! k = Some c →
  ¬ claimable (entity_of k c) → pg_data db' = pg_data db →
  claim_refused id now db (Sentinel ErrAlreadyClaimed) db'.
Proof.
  intros Hk Ec Hno [Hr Ht]%unchanged_data. unfold claim_refused. rewrite !errors_Is_Sentinel.
  split; [done|]. split_and!; [|done|by left]. intros _. split; [done|].
  exists k, (entity_of k c). split_and!; [done|by rewrite lookup_rows, Ec|done].
Qed.
Lemma claim_unacknowledged id now db n e db' : foreign e → trail db' = trail db →
  claim_effect id now n (rows db) (rows db') → claim_refused id now db e db'.
Proof.
  intros He Ht Hc. unfold claim_refused. split; [done|]. split_and!; [| |by right; eauto];
    rewrite foreign_port by (done || (unfold port_sentinels; set_solver)); done.
Qed.
Lemma pg_claim_law id now (db : PG) : wp (Repo_ClaimForProcessing id now) (λ r db',
  trail db' = trail db ∧
  match r with
  | Ok n => claim_effect id now n (rows db) (rows db')
  | Err e =>
      (errors_Is e ErrAlreadyClaimed = true → rows db' = rows db ∧
         ∃ k n0, key id = Some k ∧ rows db !! k = Some n0 ∧ ¬ claimable n0) ∧
      (errors_Is e ErrNotFound = true → rows db' = rows db ∧
         ∀ k, key id = Some k → rows db !! k = None) ∧
      (rows db' = rows db ∨ ∃ n, claim_effect id now n (rows db) (rows db'))
  end) db.
Proof.
  cbn [Repo_ClaimForProcessing pg_notifications]. unfold pg_ClaimForProcessing. apply wp_parse;
    [|intros e He; by apply claim_foreign].
  intros k Hk. apply wp_bind, wp_no_rows, wp_exec_read; [intros; apply GetNotification_sql_reads| |];
    last first.
  { intros e db1 He Hd. rewrite foreign_no_rows by done. apply claim_foreign; auto with go. }
  intros db1 Hd1. rewrite GetNotification_sql_spec.
  destruct (t_notifications (pg_data db) !! k) as [c|] eqn:Ec; [|by apply (claim_missing _ k)].
  apply wp_bind, wp_no_rows.
  assert (∀ d' i, ClaimForProcessing_sql (Some k) (Some now) (pg_data db) = (Ok (select_row k (set_claim (srv_time now) c)), d') →
    trail (mkPG d' i) = trail db ∧
    claim_effect id now (entity_of k (set_claim (srv_time now) c)) (rows db) (rows (mkPG d' i))) as Hclaimed.
  { intros d' i E. pose proof (claim_sql_cases k now (pg_data db)) as Hcs. rewrite E in Hcs.
    destruct Hcs as (c' & Ec' & Hcl & Hmax & _ & ->). simplify_eq. split; [done|]. by apply claim_rows. }
  pose proof (claim_sql_cases k now (pg_data db)) as Hcs.
  apply wp_exec; rewrite Hd1; unfold timeToTimestamptz;
    destruct (ClaimForProcessing_sql (Some k) (Some now) (pg_data db)) as [[row|e0] d'] eqn:E; cbn [fst snd].
  - destruct Hcs as (c' & Ec' & Hcl & Hmax & -> & Hd'). simplify_eq.
    apply wp_of_result. rewrite notificationFromRow_select. by apply Hclaimed.
  - destruct Hcs as (-> & [[-> Hno]|He]); [by eapply claim_lost; eauto|].
    rewrite foreign_no_rows by done. apply claim_foreign; auto with go.
  - destruct Hcs as (c' & Ec' & Hcl & Hmax & -> & Hd'). simplify_eq.
    intros e He. rewrite foreign_no_rows by done. destruct (Hclaimed _ (S (pg_sent db1)) eq_refl) as [Ht Hcf].
    split; [apply claim_foreign; auto with go|by eapply claim_unacknowledged; auto with go].
  - destruct Hcs as [-> _]. intros e He. rewrite foreign_no_rows by done.
    split; apply claim_foreign; auto with go.
Qed.

(** ** Guarded update *)
Definition update_params (n : Notification) (k : uuid) (src : Status) : UpdateStatusParams := {|
  u_NewStatus := NStatus n; u_Attempts := int32 (Attempts n); u_LastError := LastError n;
  u_NextRetryAt := NextRetryAt n; u_UpdatedAt := Some (UpdatedAt n); u_ID := Some k;
  u_ExpectedSource := src |}.

Lemma update_sql_cases n k src d :
  match UpdateNotificationStatus_sql (update_params n k src) d with
  | (Ok rows, d') =>
      rows = 1 ∧ (∃ c, t_notifications d !! k = Some c ∧ c_status c = src ∧
        d' = set_notifications (<[k := set_update (update_params n k src) (srv_time (UpdatedAt n)) c]>
               (t_notifications d)) d) ∨
      rows = 0 ∧ d' = d ∧ ∀ c, t_notifications d !! k = Some c → c_status c ≠ src
  | (Err e, d') => d' = d ∧ foreign e
  end.
Proof.
  unfold UpdateNotificationStatus_sql, with_texts. destruct (forallb _ _); [|split; auto with go].
  cbn [u_ID update_params u_ExpectedSource u_UpdatedAt].
  destruct (t_notifications d !! k) as [c|] eqn:E; [|by right; split_and!].
  case_bool_decide; [|right; split_and!; naive_solver].
  destruct (negb _); [split; auto with go|]. left. split; [done|]. by exists c.
Qed.

Lemma update_rows n k src c db i :
  id_key (ID n) = Some k → t_notifications (pg_data db) !! k = Some c → c_status c = src →
  update_effect n src (rows db)
    (rows (mkPG (set_notifications (<[k := set_update (update_params n k src) (srv_time (UpdatedAt n)) c]>
      (t_notifications (pg_data db))) (pg_data db)) i)).
Proof.
  intros Hk Hc Hs. exists k, (entity_of k c). split_and!; try done.
  - by rewrite lookup_rows, Hc.
  - rewrite (rows_set_insert _ _ (pg_sent db)). by destruct db.
Qed.

Lemma pg_update_law n src (db : PG) : wp (Repo_UpdateStatus n src) (λ r db',
  trail db' = trail db ∧
  match r with
  | Ok _ => update_effect n src (rows db) (rows db')
  | Err e =>
      (errors_Is e ErrConcurrentUpdate = true → rows db' = rows db ∧
         ∀ k n0, key (ID n) = Some k → rows db !! k = Some n0 → NStatus n0 ≠ src) ∧
      (rows db' = rows db ∨ update_effect n src (rows db) (rows db'))
  end) db.
Proof.
  assert (∀ e db', foreign e → trail db' = trail db →
    rows db' = rows db ∨ update_effect n src (rows db) (rows db') →
    trail db' = trail db ∧
    (errors_Is e ErrConcurrentUpdate = true → rows db' = rows db ∧
      ∀ k n0, key (ID n) = Some k → rows db !! k = Some n0 → NStatus n0 ≠ src) ∧
    (rows db' = rows db ∨ update_effect n src (rows db) (rows db'))) as Hf.
  { intros e db' He Ht Hr. rewrite foreign_port by (done || (unfold port_sentinels; set_solver)).
    by split_and!. }
  cbn [Repo_UpdateStatus pg_notifications]. unfold pg_UpdateStatus. apply wp_parse;
    [|intros e He; apply Hf; auto].
  intros k Hk. fold (update_params n k src). apply wp_bind, wp_wrap_err.
  pose proof (update_sql_cases n k src (pg_data db)) as Hc.
  apply wp_exec; destruct (UpdateNotificationStatus_sql _ (pg_data db)) as [[z|e0] d'] eqn:E; cbn [fst snd].
  - destruct Hc as [(-> & c & Hc & Hs & ->)|(-> & -> & Hno)];
      cbn [Z.eqb]; go_steps.
    + split; [done|]. by apply update_rows.
    + pose proof (unchanged_data db (mkPG (pg_data db) (S (pg_sent db))) eq_refl) as [Hr Ht].
      split; [done|]. split; [|by left]. intros _. split; [done|].
      intros k' n0 Hk' Hn0. change (id_key (ID n) = Some k') in Hk'. simplify_eq.
      rewrite lookup_rows in Hn0. apply fmap_Some in Hn0 as (c & Hc & ->). by apply (Hno c).
  - destruct Hc as [-> He]. apply Hf; [auto with go|done|by left].
  - intros e He. split; apply Hf; auto with go.
    + destruct Hc as [(_ & c & Hc & Hs & ->)|(_ & -> & _)]; done.
    + destruct Hc as [(_ & c & Hc & Hs & ->)|(_ & -> & _)]; [right; by apply update_rows|by left].
  - destruct Hc as [-> _]. intros e He. split; apply Hf; auto with go.
Qed.

(** ** Inserts *)
Lemma create_params n params : notificationToCreateParams n = Ok params →
  ∃ k, id_key (ID n) = Some k ∧ row_ID params = Some k ∧
    (∀ d r d', CreateNotification_sql params d = (r, d') →
       match r with
       | Ok _ => t_notifications d !! k = None ∧
                 d' = set_notifications (<[k := cols_of n]> (t_notifications d)) d
       | Err _ => d' = d
       end).
Proof.
  unfold notificationToCreateParams. intros Hp.
  destruct (parseUUID (ID n)) as [id|e] eqn:Ei; [|done].
  apply parseUUID_key in Ei as (k & -> & Hk).
  assert (∀ label o u, optional_uuid label o = Ok u → u = o ≫= id_key) as Ho.
  { intros label o u. unfold optional_uuid. destruct o as [t|]; [|by intros [= <-]].
    destruct (parseUUID t) as [v|] eqn:E; [|done]. intros [= <-].
    apply parseUUID_key in E as (k' & -> & Hk'). by simpl. }
  destruct (optional_uuid "batch_id" _) as [b|e] eqn:Eb; [|done].
  destruct (optional_uuid "template_id" _) as [t|e] eqn:Et; [|done].
  apply Ho in Eb as ->. apply Ho in Et as ->. simplify_eq.
  exists k. split_and!; [done|done|]. intros d r d' Hs.
  unfold CreateNotification_sql, with_texts in Hs. destruct (forallb _ _); [|unfold pg_error in Hs; by simplify_eq].
  cbn [row_ID row_CreatedAt row_UpdatedAt timeToTimestamptz] in Hs.
  repeat (match type of Hs with (if ?b then _ else _) = _ => destruct b eqn:? end;
    [unfold pg_error in Hs; by simplify_eq|]).
  simplify_eq. split; [|done].
  match goal with E : bool_decide (is_Some _) = false |- _ =>
    apply bool_decide_eq_false in E; by apply eq_None_not_Some end.
Qed.

Lemma stored_cols n k : id_key (ID n) = Some k → stored n = entity_of k (cols_of n).
Proof. intros Hk. simpl. by rewrite Hk. Qed.

Lemma create_rows n k d i j : id_key (ID n) = Some k → t_notifications d !! k = None →
  create_effect n (rows (mkPG d i))
    (rows (mkPG (set_notifications (<[k := cols_of n]> (t_notifications d)) d) j)).
Proof.
  intros Hk Hc. exists k. split_and!; [done|by rewrite lookup_rows; cbn; rewrite Hc|].
  rewrite (rows_set_insert _ _ i). by rewrite (stored_cols n k Hk).
Qed.

Lemma pg_create_law n (db : PG) : wp (Repo_Create n) (λ r db',
  trail db' = trail db ∧
  match r with
  | Ok _ => create_effect n (rows db) (rows db')
  | Err _ => rows db' = rows db ∨ create_effect n (rows db) (rows db')
  end) db.
Proof.
  cbn [Repo_Create pg_notifications]. unfold pg_Create. go_steps.
  destruct (notificationToCreateParams n) as [params|e] eqn:Ep; [|by split; [|left]].
  destruct (create_params n params Ep) as (k & Hk & _ & Hs).
  go_steps. destruct db as [d i]. destruct (CreateNotification_sql params d) as [r d'] eqn:E.
  pose proof (Hs _ _ _ E) as Hr.
  assert (trail (mkPG d' (S i)) = trail (mkPG d i) ∧
    (rows (mkPG d' (S i)) = rows (mkPG d i) ∨ create_effect n (rows (mkPG d i)) (rows (mkPG d' (S i))))) as [Ht Hd].
  { destruct r; [destruct Hr as [Hno ->]|subst d']; (split; [done|]); [right; by apply create_rows|by left]. }
  apply wp_exec; cbn [pg_data pg_sent]; rewrite E; cbn [fst snd].
  - destruct r as [[]|e]; (split; [done|]); [|done]. destruct Hr as [Hno ->]. by apply create_rows.
  - intros e He. split; [by split; [|left]|done].
Qed.

Lemma wp_exec_ok {A} (s : nat → stmt A) (Φ : res A → PG → Prop) db :
  (∀ a d', s (pg_sent db) (pg_data db) = (Ok a, d') → Φ (Ok a) (mkPG d' (S (pg_sent db)))) →
  (∀ e db', Φ (Err e) db') →
  wp (exec s) Φ db.
Proof.
  intros Hok Herr. apply wp_exec; [|intros; split; apply Herr].
  destruct (s (pg_sent db) (pg_data db)) as [[a|e] d'] eqn:E; [by apply Hok|apply Herr].
Qed.

Definition insert_member (n : Notification) : M PG unit :=
  let* params := wrap_err "convert notification" (of_result (notificationToCreateParams n)) in
  wrap_err "create notification in batch" (exec (λ _, CreateNotification_sql params)).

Lemma insert_members_spec l (db : PG) :
  wp (for_each insert_member l) (λ r db', r = Ok tt →
    trail db' = trail db ∧ creates_effect l (rows db) (rows db')) db.
Proof.
  revert db. induction l as [|n l IH]; intros db; cbn [for_each creates_effect]; [by go_steps|].
  unfold insert_member at 1. go_steps.
  destruct (notificationToCreateParams n) as [params|e] eqn:Ep; [|done].
  destruct (create_params n params Ep) as (k & Hk & _ & Hs). go_steps.
  apply wp_exec_ok; [|done]. intros [] d' E. destruct (Hs _ _ _ E) as [Hno ->].
  wp_use IH. intros r db' Hr ->. destruct (Hr eq_refl) as [Ht Hc].
  split; [done|]. eexists. split; [|exact Hc]. destruct db as [d i]. by apply create_rows.
Qed.

Lemma CreateBatch_sql_frame arg d : t_notifications (CreateBatch_sql arg d).2 = t_notifications d ∧
  t_logs (CreateBatch_sql arg d).2 = t_logs d.
Proof. unfold CreateBatch_sql, with_texts, pg_error. by repeat case_match. Qed.

Lemma rows_trail_data d d' i j : t_notifications d' = t_notifications d → t_logs d' = t_logs d →
  rows (mkPG d' i) = rows (mkPG d j) ∧ trail (mkPG d' i) = trail (mkPG d j).
Proof. unfold rows, trail. simpl. by intros -> ->. Qed.

(** A transaction keeps the postcondition of a successful body or nothing. *)
Lemma wp_BeginFunc {A} (body : M PG A) (P : A → PG → Prop) (Φ : res A → PG → Prop) db :
  (∀ i, wp body (λ r db', ∀ a, r = Ok a → P a db') (mkPG (pg_data db) i)) →
  (∀ a d i j, P a (mkPG d i) → Φ (Ok a) (mkPG d j) ∧ ∀ e, Φ (Err e) (mkPG d j)) →
  (∀ e i, Φ (Err e) (mkPG (pg_data db) i)) →
  wp (BeginFunc body) Φ db.
Proof.
  intros Hbody Hok Herr. unfold wp, BeginFunc, exec.
  destruct (srv_fault (pg_sent db)); simpl; try by apply Herr.
  specialize (Hbody (S (pg_sent db))). unfold wp in Hbody.
  destruct (body _) as [[a|e] db'] eqn:E; [|apply Herr].
  destruct db' as [d' i']. simpl in *. specialize (Hbody a eq_refl).
  destruct (srv_fault i'); simpl; [by apply (Hok a d' i')|apply Herr|by apply (Hok a d' i')].
Qed.

Lemma pg_batch_create_law b (db : PG) : wp (BatchRepo_Create b) (λ r db',
  trail db' = trail db ∧
  match r with
  | Ok _ => creates_effect (batch_Notifications b) (rows db) (rows db')
  | Err _ => rows db' = rows db ∨ creates_effect (batch_Notifications b) (rows db) (rows db')
  end) db.
Proof.
  cbn [BatchRepo_Create pg_batches]. unfold pg_batch_Create. apply wp_parse; last first.
  { intros e _. by split; [|left]. }
  intros k _. destruct db as [d i0].
  apply (wp_BeginFunc _ (λ _ db', trail db' = trail (mkPG d i0) ∧
    creates_effect (batch_Notifications b) (rows (mkPG d i0)) (rows db'))).
  - intros i. cbn [pg_data]. go_steps. apply wp_exec_ok; [|done]. cbn [pg_data pg_sent].
    intros [] d1 E1. destruct (CreateBatch_sql_frame (mkBatchRow (Some k) (batch_CorrelationID b)
      (timeToTimestamptz (batch_CreatedAt b))) d) as [Hn Hl]. rewrite E1 in Hn, Hl.
    destruct (rows_trail_data d d1 (S i) i0 Hn Hl) as [Hr Ht].
    change (wp (for_each insert_member (batch_Notifications b)) (λ r db', ∀ a, r = Ok a →
      trail db' = trail (mkPG d i0) ∧
      creates_effect (batch_Notifications b) (rows (mkPG d i0)) (rows db')) (mkPG d1 (S i))).
    wp_use insert_members_spec. intros r db' Hr' [] ->. destruct (Hr' eq_refl) as [Ht' Hc].
    rewrite <-Ht, <-Hr. done.
  - intros [] d' i j [Ht Hc]. split; [by split|]. intros e. split; [done|]. by right.
  - intros e i. by split; [|left].
Qed.

Lemma append_sql_cases arg id nid d :
  lrow_ID arg = Some id → lrow_NotificationID arg = Some nid →
  match AppendNotificationLog_sql arg d with
  | (Ok _, d') => t_notifications d' = t_notifications d ∧
      ∃ c, t_logs d' = t_logs d ++ [c] ∧
        (lc_notification_id c, lc_correlation_id c, lc_event c) = (nid, lrow_CorrelationID arg, lrow_Event arg)
  | (Err _, d') => d' = d
  end.
Proof.
  intros Hid Hn. unfold AppendNotificationLog_sql, with_texts, pg_error. rewrite Hid, Hn.
  destruct (forallb _ _); [|done]. destruct (stored_details _); [|done]. destruct (lrow_CreatedAt arg); [|done]. repeat case_match; simplify_eq; try done.
  split; [done|]. eexists. by split.
Qed.

Lemma pg_append_law e (db : PG) : wp (LogRepo_Append e) (λ r db',
  rows db' = rows db ∧
  match r with
  | Ok _ => append_effect e (trail db) (trail db')
  | Err _ => trail db' = trail db ∨ append_effect e (trail db) (trail db')
  end) db.
Proof.
  cbn [LogRepo_Append pg_logs]. unfold pg_log_Append.
  apply wp_parse; [|intros; by split; [|left]]. intros id _.
  apply wp_parse; [|intros; by split; [|left]]. intros nid Hnid. go_steps.
  destruct (marshal_details _) as [details|err]; [|by split; [|left]]. go_steps.
  set (arg := mkLogRow _ _ _ _ _ _).
  pose proof (append_sql_cases arg id nid (pg_data db) eq_refl eq_refl) as Hc.
  assert (∀ d' i, t_notifications d' = t_notifications (pg_data db) → rows (mkPG d' i) = rows db) as Hrows.
  { intros d' i E. unfold rows. simpl. by rewrite E. }
  assert (∀ d' i c, t_logs d' = t_logs (pg_data db) ++ [c] →
    (lc_notification_id c, lc_correlation_id c, lc_event c) = (nid, lrow_CorrelationID arg, lrow_Event arg) →
    append_effect e (trail db) (trail (mkPG d' i))) as Happ.
  { intros d' i c El Ec. exists nid. split; [done|]. unfold trail. simpl. rewrite El, fmap_app. simpl.
    by rewrite Ec. }
  apply wp_exec; destruct (AppendNotificationLog_sql arg (pg_data db)) as [[[]|e0] d'] eqn:E; cbn [fst snd].
  - destruct Hc as (Hn & c & Hl & Ec). split; [by apply Hrows|by eapply Happ].
  - subst d'. by split; [|left].
  - destruct Hc as (Hn & c & Hl & Ec). intros err _. split; [by split; [|left]|].
    split; [by apply Hrows|right; by eapply Happ].
  - subst d'. intros err _. by split; (split; [|left]).
Qed.

(** ** Queries *)
Lemma submseteq_NoDup {A} (l k : list A) : l ⊆+ k → NoDup k → NoDup l.
Proof. intros [k' Hk]%submseteq_Permutation Hnd. rewrite Hk in Hnd. apply NoDup_app in Hnd. tauto. Qed.

Lemma select_where_submseteq {A} (P : A → bool) (R : relation A) `{∀ x y, Decision (R x y)} limit l l' :
  select_where P R limit l = Ok l' → l' ⊆+ l ∧ Forall (λ x, P x = true) l'.
Proof.
  unfold select_where. destruct (limit <? 0); [done|]. intros [= <-].
  set (f := filter _ (srv_plan l)).
  assert (take (Z.to_nat limit) (merge_sort R f) ⊆+ f) as Hsub.
  { etrans; [apply sublist_submseteq, sublist_take|]. by rewrite merge_sort_Permutation. }
  split.
  - etrans; [exact Hsub|]. etrans; [apply sublist_submseteq, sublist_filter|]. by rewrite srv_plan_perm.
  - rewrite Forall_forall. intros x Hx. eapply elem_of_submseteq in Hx; [|exact Hsub].
    unfold f in Hx. by apply list_elem_of_filter in Hx as [? _].
Qed.

Lemma pg_find_law label P R `{∀ x y, Decision (R x y)} q t limit (db : PG) :
  (∀ i, q i (Some t) (int32 limit) = query i P R (int32 limit)) →
  wp (pg_find label q t limit) (λ r db', unchanged db db' ∧ ∀ l, r = Ok l →
    NoDup (ID <$> l) ∧ Forall (λ n, ∃ k c, t_notifications (pg_data db) !! k = Some c ∧
      n = entity_of k c ∧ P (k, c) = true) l) db.
Proof.
  intros Hq. unfold pg_find. go_steps. apply wp_exec_read.
  - intros i d. unfold timeToTimestamptz. by rewrite Hq.
  - intros db' Hd. unfold timeToTimestamptz. rewrite Hq. unfold query. cbn [fst].
    destruct (select_where _ _ _ _) as [l|e] eqn:E; [|by split; [apply unchanged_data|]].
    go_steps. rewrite rowsToNotifications_scan. split; [by apply unchanged_data|]. intros ? [= <-].
    apply select_where_submseteq in E as [Hsub HP].
    assert (l ⊆+ map_to_list (t_notifications (pg_data db))) as Hsub'.
    { etrans; [exact Hsub|]. apply sublist_submseteq, sublist_filter. }
    split.
    + rewrite <-list_fmap_compose.
      assert (ID ∘ (λ x : uuid * notification_cols, entity_of x.1 x.2) <$> l = uuid_text <$> l.*1) as ->.
      { rewrite <-list_fmap_compose. done. }
      apply NoDup_fmap_2_strong; [intros u v _ _; apply uuid_text_inj|].
      eapply submseteq_NoDup; [by apply fmap_submseteq|]. apply NoDup_fst_map_to_list.
    + apply Forall_fmap, Forall_forall. intros [k c] Hin. exists k, c. split_and!; [|done|].
      * apply elem_of_map_to_list. by eapply elem_of_submseteq.
      * rewrite Forall_forall in HP. by apply HP.
  - intros e db' He Hd. by split; [apply unchanged_data|].
Qed.

Lemma before_lt t b : before t (Some b) = true ↔ ∃ t', t = Some t' ∧ t' < srv_time b.
Proof. unfold before. destruct t as [t|]; [rewrite Z.ltb_lt|]; naive_solver. Qed.

(** From the rows a find returns to the contract's wording. *)
Lemma found_rows (P : uuid → notification_cols → bool) (Q : Notification → Prop) db l :
  (∀ k c, P k c = true → Q (entity_of k c)) →
  Forall (λ n, ∃ k c, t_notifications (pg_data db) !! k = Some c ∧ n = entity_of k c ∧ P k c = true) l →
  Forall (λ n, (∃ k, rows db !! k = Some n) ∧ Q n) l.
Proof.
  intros HPQ Hl. eapply Forall_impl; [exact Hl|]. intros n (k & c & Hc & -> & HP).
  split; [|by apply HPQ]. exists k. by rewrite lookup_rows, Hc.
Qed.

Lemma pg_orphaned_law t limit (db : PG) : wp (Repo_FindOrphanedPending t limit) (λ r db',
  unchanged db db' ∧ ∀ l, r = Ok l → NoDup (ID <$> l) ∧
    Forall (λ n, (∃ k, rows db !! k = Some n) ∧ NStatus n = StatusPending ∧ CreatedAt n < stamp t) l) db.
Proof.
  eapply wp_mono; [eapply pg_find_law; intros; reflexivity|]. intros r db' [Hu Hl]. split; [done|].
  intros l ->. destruct (Hl l eq_refl) as [Hnd Hf]. split; [done|].
  eapply found_rows; [|exact Hf]. intros k c Hp. simpl in Hp.
  rewrite andb_true_iff, bool_decide_eq_true, Z.ltb_lt in Hp. done.
Qed.
Lemma pg_stuck_processing_law t limit (db : PG) : wp (Repo_FindStuckProcessing t limit) (λ r db',
  unchanged db db' ∧ ∀ l, r = Ok l → NoDup (ID <$> l) ∧
    Forall (λ n, (∃ k, rows db !! k = Some n) ∧ NStatus n = StatusProcessing ∧ UpdatedAt n < stamp t) l) db.
Proof.
  eapply wp_mono; [eapply pg_find_law; intros; reflexivity|]. intros r db' [Hu Hl]. split; [done|].
  intros l ->. destruct (Hl l eq_refl) as [Hnd Hf]. split; [done|].
  eapply found_rows; [|exact Hf]. intros k c Hp. simpl in Hp.
  rewrite andb_true_iff, bool_decide_eq_true, Z.ltb_lt in Hp. done.
Qed.
Lemma pg_overdue_law t limit (db : PG) : wp (Repo_FindOverdueRetrying t limit) (λ r db',
  unchanged db db' ∧ ∀ l, r = Ok l → NoDup (ID <$> l) ∧
    Forall (λ n, (∃ k, rows db !! k = Some n) ∧ NStatus n = StatusRetrying ∧
      ∃ d, NextRetryAt n = Some d ∧ d < stamp t) l) db.
Proof.
  eapply wp_mono; [eapply pg_find_law; intros; reflexivity|]. intros r db' [Hu Hl]. split; [done|].
  intros l ->. destruct (Hl l eq_refl) as [Hnd Hf]. split; [done|].
  eapply found_rows; [|exact Hf]. intros k c Hp.
  rewrite andb_true_iff, bool_decide_eq_true, before_lt in Hp. done.
Qed.
Lemma pg_stuck_queued_law t limit (db : PG) : wp (Repo_FindStuckQueued t limit) (λ r db',
  unchanged db db' ∧ ∀ l, r = Ok l → NoDup (ID <$> l) ∧
    Forall (λ n, (∃ k, rows db !! k = Some n) ∧ NStatus n = StatusQueued ∧ UpdatedAt n < stamp t ∧
      ∀ s, ScheduledAt n = Some s → s < stamp t) l) db.
Proof.
  eapply wp_mono; [eapply pg_find_law; intros; reflexivity|]. intros r db' [Hu Hl]. split; [done|].
  intros l ->. destruct (Hl l eq_refl) as [Hnd Hf]. split; [done|].
  eapply found_rows; [|exact Hf]. intros k c Hp.
  rewrite !andb_true_iff, orb_true_iff, !bool_decide_eq_true, !before_lt in Hp.
  destruct Hp as [[Hst (u & [= <-] & Hu')] Hs]. split_and!; [done|done|].
  intros s Hsch. simpl in Hsch. destruct Hs as [Hs|(s' & Hs & Hlt)]; rewrite Hs in Hsch; by simplify_eq.
Qed.

(** ** Frames of the remaining operations *)
Lemma exec_read_frame {A} (s : nat → stmt A) db : (∀ i d, (s i d).2 = d) →
  wp (exec s) (λ _ db', pg_data db' = pg_data db) db.
Proof. intros Hs. by apply wp_exec_read. Qed.

Lemma reads_intro {A} (c : M PG A) : (∀ db, wp c (λ _ db', unchanged db db') db) → reads c.
Proof. intros H' db. apply H'. Qed.

Lemma wp_unchanged_bind {A B} (c : M PG A) (k : A → M PG B) db :
  wp c (λ _ db', unchanged db db') db →
  (∀ a db', wp (k a) (λ _ db'', unchanged db' db'') db') →
  wp (bind c k) (λ _ db', unchanged db db') db.
Proof.
  intros Hc Hk. apply wp_bind. eapply wp_mono; [exact Hc|]. intros [a|e] db' Hu; [|done].
  eapply wp_mono; [apply Hk|]. intros r db'' Hu'. unfold unchanged in *. intuition congruence.
Qed.
Lemma wp_unchanged_pure {A} (r : res A) (db : PG) : wp (of_result r) (λ _ db', unchanged db db') db.
Proof. done. Qed.
Lemma wp_unchanged_map_err {A} f (c : M PG A) db :
  wp c (λ _ db', unchanged db db') db → wp (map_err f c) (λ _ db', unchanged db db') db.
Proof. intros Hc. apply wp_map_err. eapply wp_mono; [exact Hc|]. by intros []. Qed.
Lemma wp_unchanged_exec {A} (s : nat → stmt A) db :
  (∀ i d, t_notifications (s i d).2 = t_notifications d ∧ t_logs (s i d).2 = t_logs d) →
  wp (exec s) (λ _ db', unchanged db db') db.
Proof.
  intros Hs. destruct (Hs (pg_sent db) (pg_data db)) as [Hn Hl]. unfold unchanged.
  assert (∀ i, rows (mkPG (s (pg_sent db) (pg_data db)).2 i) = rows db ∧
    trail (mkPG (s (pg_sent db) (pg_data db)).2 i) = trail db) as Hu.
  { intros i. unfold rows, trail. simpl. by rewrite Hn, Hl. }
  apply wp_exec; [apply Hu|]. intros e _. split; [done|apply Hu].
Qed.
Lemma wp_unchanged_map_each {A B} (f : A → res B) l (db : PG) :
  wp (map_each (λ x, of_result (f x)) l) (λ _ db', unchanged db db') db.
Proof.
  revert db. induction l as [|x l IH]; intros db; cbn [map_each]; [done|].
  apply wp_unchanged_bind; [done|]. intros y db'. apply wp_unchanged_bind; [apply IH|]. done.
Qed.

Ltac frame_sql := intros; split; unfold with_texts, pg_error; repeat case_match; done.

Lemma pg_list_reads f c l : reads (DB:=PG) (Repo_List f c l).
Proof.
  apply reads_intro. intros db. cbn [Repo_List pg_notifications]. unfold pg_List.
  apply wp_unchanged_bind; [done|]. intros params db1.
  apply wp_unchanged_bind; [by apply wp_unchanged_map_err, wp_unchanged_exec|]. intros rws db2.
  by apply wp_unchanged_bind.
Qed.
Lemma pg_batch_get_reads id : reads (DB:=PG) (BatchRepo_Get id).
Proof.
  apply reads_intro. intros db. cbn [BatchRepo_Get pg_batches]. unfold pg_batch_Get.
  apply wp_unchanged_bind; [by apply wp_unchanged_map_err|]. intros u db1.
  apply wp_unchanged_bind; [apply wp_unchanged_map_err, wp_unchanged_exec; unfold GetBatch_sql; frame_sql|].
  intros row db2. apply wp_unchanged_bind; [by apply wp_unchanged_map_err, wp_unchanged_exec|].
  intros rws db3. apply wp_unchanged_bind; [by apply wp_unchanged_map_err|]. intros ns db4.
  apply wp_unchanged_bind; [by apply wp_unchanged_map_err|]. done.
Qed.
Lemma pg_log_list_reads id : reads (DB:=PG) (LogRepo_List id).
Proof.
  apply reads_intro. intros db. cbn [LogRepo_List pg_logs]. unfold pg_log_List.
  apply wp_unchanged_bind; [by apply wp_unchanged_map_err|]. intros u db1.
  apply wp_unchanged_bind; [by apply wp_unchanged_map_err, wp_unchanged_exec|]. intros rws db2.
  apply wp_unchanged_map_each.
Qed.
Lemma pg_tmpl_create_frame t : reads (DB:=PG) (TmplRepo_Create t).
Proof.
  apply reads_intro. intros db. cbn [TmplRepo_Create pg_templates]. unfold pg_tmpl_Create.
  apply wp_unchanged_bind; [by apply wp_unchanged_map_err|]. intros u db1.
  apply wp_unchanged_map_err, wp_unchanged_exec. unfold CreateTemplate_sql. frame_sql.
Qed.
Lemma pg_tmpl_get_reads id : reads (DB:=PG) (TmplRepo_Get id).
Proof.
  apply reads_intro. intros db. cbn [TmplRepo_Get pg_templates]. unfold pg_tmpl_Get.
  apply wp_unchanged_bind; [by apply wp_unchanged_map_err|]. intros u db1.
  apply wp_unchanged_bind; [|done].
  apply wp_unchanged_map_err, wp_unchanged_exec. unfold GetTemplate_sql. frame_sql.
Qed.
Lemma pg_tmpl_get_by_name_reads s : reads (DB:=PG) (TmplRepo_GetByName s).
Proof.
  apply reads_intro. intros db. cbn [TmplRepo_GetByName pg_templates]. unfold pg_tmpl_GetByName.
  apply wp_unchanged_bind; [|done].
  apply wp_unchanged_map_err, wp_unchanged_exec. unfold GetTemplateByName_sql. frame_sql.
Qed.
Lemma pg_tmpl_list_reads l : reads (DB:=PG) (TmplRepo_List l).
Proof.
  apply reads_intro. intros db. cbn [TmplRepo_List pg_templates]. unfold pg_tmpl_List.
  apply wp_unchanged_bind; [by apply wp_unchanged_map_err, wp_unchanged_exec|].
  intros rws db1. apply wp_unchanged_map_each.
Qed.
Lemma pg_tmpl_update_frame t : reads (DB:=PG) (TmplRepo_Update t).
Proof.
  apply reads_intro. intros db. cbn [TmplRepo_Update pg_templates]. unfold pg_tmpl_Update.
  apply wp_unchanged_bind; [by apply wp_unchanged_map_err|]. intros u db1.
  apply wp_unchanged_map_err, wp_unchanged_exec. unfold UpdateTemplate_sql. frame_sql.
Qed.

Lemma entity_clear_template tid k c : ∃ t,
  entity_of k (clear_template tid c) = with_template t (entity_of k c).
Proof.
  unfold clear_template. case_bool_decide; [by exists None|].
  exists (NTemplateID (entity_of k c)). by destruct c.
Qed.
Lemma pg_tmpl_delete_frame id (db : PG) : wp (TmplRepo_Delete id) (λ _ db',
  trail db' = trail db ∧ ∀ k, option_Forall2 (λ n n', ∃ tid, n' = with_template tid n)
    (rows db !! k) (rows db' !! k)) db.
Proof.
  assert (∀ db', pg_data db' = pg_data db → trail db' = trail db ∧
    ∀ k, option_Forall2 (λ n n', ∃ tid, n' = with_template tid n) (rows db !! k) (rows db' !! k)) as Hsame.
  { intros db' [Hr Ht]%unchanged_data. split; [done|]. rewrite Hr. intros k.
    destruct (rows db !! k) as [n|]; constructor. exists (NTemplateID n). by destruct n. }
  cbn [TmplRepo_Delete pg_templates]. unfold pg_tmpl_Delete. apply wp_parse; [|intros e _; by apply Hsame].
  intros k _. go_steps.
  assert (∀ db', pg_data db' = (DeleteTemplate_sql (Some k) (pg_data db)).2 → trail db' = trail db ∧
    ∀ k, option_Forall2 (λ n n', ∃ tid, n' = with_template tid n) (rows db !! k) (rows db' !! k)) as Hdel.
  { intros db' Hd. unfold DeleteTemplate_sql in Hd. simpl in Hd. case_bool_decide; [|by apply Hsame].
    split; [unfold trail; simpl; by rewrite Hd|]. intros k'. rewrite !lookup_rows, Hd. cbn.
    rewrite lookup_fmap. destruct (t_notifications (pg_data db) !! k') as [c|]; constructor.
    apply entity_clear_template. }
  apply wp_exec; [by apply Hdel|]. intros e _. split; [by apply Hsame|by apply Hdel].
Qed.

#[export] Instance pg_store_laws : StoreLaws PG.
Proof.
  split.
  - intros db k n Hn. rewrite lookup_rows in Hn. apply fmap_Some in Hn as (c & _ & ->). apply id_key_text.
  - intros n. simpl. by destruct (id_key (ID n)).
  - intros n. simpl. destruct (id_key (ID n)) eqn:E; [apply id_key_text|done].
  - intros n Hn. simpl. destruct (id_key (ID n)); [by apply int32_small|done].
  - apply pg_claim_law.
  - apply pg_update_law.
  - apply pg_create_law.
  - apply pg_batch_create_law.
  - apply pg_append_law.
  - apply pg_get_law.
  - apply pg_orphaned_law.
  - apply pg_stuck_processing_law.
  - apply pg_overdue_law.
  - apply pg_stuck_queued_law.
  - apply pg_list_reads.
  - apply pg_batch_get_reads.
  - apply pg_log_list_reads.
  - apply pg_tmpl_create_frame.
  - apply pg_tmpl_get_reads.
  - apply pg_tmpl_get_by_name_reads.
  - apply pg_tmpl_list_reads.
  - apply pg_tmpl_update_frame.
  - apply pg_tmpl_delete_frame.
Qed.

(** ** Storing and reading back *)

(** An id that names a row of [t], or none. *)
Definition refers {C} (t : gmap uuid C) (id : option string) : Prop :=
  match id with None => True | Some s => ∃ u, id_key s = Some u ∧ is_Some (t !! u) end.
(** What the schema asks of a new row: the enumerated columns, text the
    encoding has, references to rows that exist, and a new idempotency key. *)
Definition insertable (n : Notification) (d : data) : Prop :=
  Channel_IsValid (NChannel n) = true ∧ Priority_IsValid (NPriority n) = true ∧
  Status_IsValid (NStatus n) = true ∧
  Forall (λ s, text_ok s = true)
    [IdempotencyKey n; CorrelationID n; Recipient n; Content n; LastError n] ∧
  refers (t_batches d) (NBatchID n) ∧ refers (t_templates d) (NTemplateID n) ∧
  (IdempotencyKey n = "" ∨
   ∀ k c, t_notifications d !! k = Some c → c_idempotency_key c ≠ Some (IdempotencyKey n)).

Lemma refers_uuid {C} label (t : gmap uuid C) id : refers t id → optional_uuid label id = Ok (id ≫= id_key).
Proof.
  destruct id as [s|]; [|done]. intros (u & Hu & _). unfold optional_uuid.
  rewrite (key_parseUUID _ _ Hu). simpl. by rewrite Hu.
Qed.
Lemma refers_key {C} (t : gmap uuid C) id : refers t id →
  match id ≫= id_key with Some u => bool_decide (t !! u = None) | None => false end = false.
Proof.
  destruct id as [s|]; [|done]. intros (u & Hu & Hs). simpl. rewrite Hu.
  apply bool_decide_eq_false. intros E. rewrite E in Hs. by destruct Hs.
Qed.
Lemma Channel_text s : Channel_IsValid s = true → text_ok s = true.
Proof.
  unfold Channel_IsValid. rewrite !orb_true_iff, !bool_decide_eq_true. intros [[->| ->]| ->]; vm_compute; done.
Qed.
Lemma Priority_text s : Priority_IsValid s = true → text_ok s = true.
Proof.
  unfold Priority_IsValid. rewrite !orb_true_iff, !bool_decide_eq_true. intros [[->| ->]| ->]; vm_compute; done.
Qed.
Lemma Status_text s : Status_IsValid s = true → text_ok s = true.
Proof.
  unfold Status_IsValid. rewrite bool_decide_eq_true. intros Hs.
  assert (Forall (λ s, text_ok s = true) statuses) as Hall by (repeat constructor; vm_compute; done).
  rewrite Forall_forall in Hall. by apply Hall.
Qed.
Lemma LogEvent_text s : LogEvent_IsValid s = true → text_ok s = true.
Proof.
  unfold LogEvent_IsValid. rewrite bool_decide_eq_true. intros Hs.
  assert (Forall (λ s, text_ok s = true) log_events) as Hall by (repeat constructor; vm_compute; done).
  rewrite Forall_forall in Hall. by apply Hall.
Qed.

(** The parameters an insertable notification is sent with. *)
Lemma insertable_params n k d : insertable n d → id_key (ID n) = Some k →
  ∃ params, notificationToCreateParams n = Ok params ∧ forallb text_ok (row_texts params) = true ∧
    row_BatchID params = NBatchID n ≫= id_key ∧ row_TemplateID params = NTemplateID n ≫= id_key.
Proof.
  intros (Hc & Hp & Hs & Ht & Hb & Htm & _) Hk. unfold notificationToCreateParams.
  rewrite (key_parseUUID _ _ Hk), (refers_uuid _ _ _ Hb), (refers_uuid _ _ _ Htm).
  eexists. split; [done|]. split; [|done]. apply Channel_text in Hc. apply Priority_text in Hp.
  apply Status_text in Hs. rewrite !Forall_cons in Ht. destruct Ht as (Hi & Hco & Hr & Hct & Hl & _).
  unfold row_texts. cbn [row_IdempotencyKey row_CorrelationID row_Channel row_Priority row_Recipient
    row_Content row_Status row_LastError].
  rewrite forallb_app. apply andb_true_iff. split; [case_bool_decide; simpl; by rewrite ?Hi|].
  cbn [forallb]. by rewrite Hco, Hc, Hp, Hr, Hct, Hs, Hl.
Qed.

Lemma insertable_sql n k d params : insertable n d → notificationToCreateParams n = Ok params →
  id_key (ID n) = Some k → t_notifications d !! k = None →
  CreateNotification_sql params d = (Ok tt, set_notifications (<[k := cols_of n]> (t_notifications d)) d).
Proof.
  intros Hins Hparams Hk Hno.
  destruct (create_params n params Hparams) as (k' & Hk' & _ & Hspec).
  assert (k' = k) as -> by congruence.
  destruct (CreateNotification_sql params d) as [[[]|e] d'] eqn:E;
    pose proof (Hspec _ _ _ E) as Hr; [by destruct Hr as [_ ->]|]. exfalso.
  destruct (insertable_params n k d Hins Hk) as (params' & Hp' & Htexts & _).
  rewrite Hparams in Hp'. injection Hp' as <-.
  destruct Hins as (Hc & Hp & Hs & _ & Hb & Ht & Hkey).
  unfold CreateNotification_sql, with_texts in E. rewrite Htexts in E.
  unfold notificationToCreateParams in Hparams.
  rewrite (key_parseUUID _ _ Hk), (refers_uuid _ _ _ Hb), (refers_uuid _ _ _ Ht) in Hparams. simplify_eq.
  unfold notifications_checks in E.
  cbn [row_ID row_CreatedAt row_UpdatedAt timeToTimestamptz row_BatchID row_TemplateID row_Channel
    row_Priority row_Status row_IdempotencyKey c_channel c_priority c_status c_idempotency_key
    c_batch_id c_template_id] in E.
  rewrite Hc, Hp, Hs, Hno, (refers_key _ _ Hb), (refers_key _ _ Ht) in E. cbn [andb negb] in E.
  rewrite bool_decide_eq_false_2 in E by (by intros [? ?]).
  destruct (bool_decide (IdempotencyKey n = "")) eqn:He; [done|].
  destruct (negb _ && existsb _ _) eqn:Hex in E; [|done]. apply andb_true_iff in Hex as [_ Hex].
  apply existsb_exists in Hex as ([k1 c] & Hin & Heq).
  apply bool_decide_eq_true in Heq. apply list_elem_of_In, elem_of_map_to_list in Hin.
  apply bool_decide_eq_false in He. destruct Hkey as [|Hkey]; [done|]. by apply (Hkey k1 c Hin).
Qed.

(** The ids in the text form the store prints, times at its precision. *)
Definition canonical_id (id : option string) : Prop := ∀ s, id = Some s → ∃ u, s = uuid_text u.
Definition canonical (n : Notification) (k : uuid) : Prop :=
  ID n = uuid_text k ∧ canonical_id (NBatchID n) ∧ canonical_id (NTemplateID n) ∧
  in_int32 (Attempts n) ∧ srv_time (CreatedAt n) = CreatedAt n ∧
  srv_time (UpdatedAt n) = UpdatedAt n ∧ srv_time <$> NextRetryAt n = NextRetryAt n ∧
  srv_time <$> ScheduledAt n = ScheduledAt n.
Lemma canonical_id_key id : canonical_id id → uuid_text <$> (id ≫= id_key) = id.
Proof.
  destruct id as [s|]; [|done]. intros Hs. destruct (Hs s eq_refl) as [u ->]. simpl. by rewrite id_key_text.
Qed.
Lemma canonical_stored n k : canonical n k → stored n = n.
Proof.
  intros (Hid & Hb & Ht & Ha & Hc & Hu & Hr & Hs).
  rewrite (stored_cols n k) by (rewrite Hid; apply id_key_text).
  unfold entity_of, cols_of. cbn [c_batch_id c_template_id c_idempotency_key c_correlation_id c_channel
    c_priority c_recipient c_content c_status c_attempts c_last_error c_next_retry_at c_scheduled_at
    c_created_at c_updated_at].
  rewrite <-Hid, Hc, Hu, Hr, Hs, (canonical_id_key _ Hb), (canonical_id_key _ Ht), int32_small by done.
  destruct n. simpl in *. case_bool_decide; simpl; subst; done.
Qed.

Lemma create_then_get n k (db : PG) :
  (∀ i, srv_fault i = NoFault) → insertable n (pg_data db) → id_key (ID n) = Some k →
  t_notifications (pg_data db) !! k = None →
  (bind (Repo_Create n) (λ _, Repo_Get (ID n)) db).1 = Ok (stored n).
Proof.
  intros Hf Hins Hk Hno. destruct (insertable_params n k _ Hins Hk) as (params & Hp & _). destruct db as [d i]. cbn [pg_data] in *.
  assert (∀ A (s : nat → stmt A) d i, exec s (mkPG d i) = let '(r, d) := s i d in (r, mkPG d (S i))) as Hexec.
  { intros A s d0 i0. unfold exec. cbn [pg_sent pg_data]. by rewrite Hf. }
  cbn [Repo_Create Repo_Get pg_notifications]. unfold pg_Create, pg_Get, parseNotificationIDErr, no_rows.
  unfold wrap_err, bind, map_err, of_result. rewrite Hp. cbn beta iota zeta.
  rewrite Hexec, (insertable_sql n k d params Hins Hp Hk Hno).
  rewrite (key_parseUUID _ _ Hk). cbn beta iota zeta. unfold map_err. rewrite Hexec. unfold GetNotification_sql. cbn [t_notifications set_notifications].
  rewrite lookup_insert_eq, notificationFromRow_select. cbn [fst]. by rewrite (stored_cols n k Hk).
Qed.
End laws.

(** C9. The PostgreSQL adapter keeps the whole contract of the persistence
    ports, statement by statement, whatever the server answers and whenever a
    statement or its acknowledgement is lost. *)
Theorem Postgres_keeps_the_contract `{ServerLaws, PgtypeUUIDLaws, DetailsCodec, CursorTime} :
  @StoreLaws PG pg_view pg_notifications pg_batches pg_templates pg_logs.
Proof. apply pg_store_laws. Qed.

(** C16. A notification the schema admits under a new id, batch and template
    references included, is inserted, and read back as the store keeps it; with
    ids in the store's text form and times at its precision that is the very
    same notification. *)
Theorem create_get_roundtrip `{ServerLaws, PgtypeUUIDLaws, DetailsCodec, CursorTime} n k (db : PG)
    (Hf : ∀ i, srv_fault i = NoFault) (Hn : insertable n (pg_data db))
    (Hk : id_key (ID n) = Some k) (Hnew : t_notifications (pg_data db) !! k = None) :
  (bind (Repo_Create n) (λ _, Repo_Get (ID n)) db).1 = Ok (stored n) ∧ (canonical n k → stored n = n).
Proof. split; [by apply (create_then_get n k)|]. by apply canonical_stored. Qed.
