(* ===== verification/Pagination.v ===== *)
(** Listing by keyset (notification_repository.go: List, buildListParams,
    paginate, encodeCursor, decodeCursor): following the cursors from the first
    page visits every matching row once, newest first. *)

From S2P Require Import Prelude GoStrings Base64 RFC3339 Uuid Errors ValueObjects Notification.
From S2P Require Import Batch Template Ports RepoSpec Sql Postgres PostgresSpec.

Lemma uuid_N_inj u v : uuid_N u = uuid_N v → u = v.
Proof. apply uuid_eq. Qed.

(** ** The keyset order *)
Lemma keyset_lt_spec t u t' u' :
  keyset_lt t u t' u' = true ↔ t < t' ∨ t = t' ∧ (uuid_N u < uuid_N u')%N.
Proof. unfold keyset_lt. rewrite orb_true_iff, andb_true_iff, Z.ltb_lt, Z.eqb_eq, N.ltb_lt. done. Qed.
Lemma keyset_ge_spec t u t' u' :
  keyset_lt t u t' u' = false ↔ t' < t ∨ t' = t ∧ (uuid_N u' ≤ uuid_N u)%N.
Proof. rewrite <-not_true_iff_false, keyset_lt_spec. lia. Qed.

Section order.
Context `{Server}.
#[export] Instance newest_first_trans : Transitive newest_first.
Proof. intros x y z. unfold newest_first. rewrite !keyset_ge_spec. lia. Qed.
#[export] Instance newest_first_total : Total newest_first.
Proof. intros x y. unfold newest_first. rewrite !keyset_ge_spec. lia. Qed.
End order.

(** Sorted by [R], the elements strictly after the j-th are those [after] it. *)
Lemma filter_after {A} (R : relation A) (after : A → A → bool) (l : list A) j x :
  StronglySorted R l → NoDup l → l !! j = Some x →
  (∀ y, y ∈ l → after x y = true ↔ R x y ∧ y ≠ x) →
  (∀ y, y ∈ l → R x y → R y x → y = x) →
  filter (λ y, after x y = true) l = drop (S j) l.
Proof.
  intros Hs Hnd Hj Hafter Hanti.
  rewrite <-(take_drop_middle l j x Hj) in Hs, Hnd, Hafter, Hanti |- *.
  assert (length (take j l) = j) as Hlen.
  { apply length_take_le. apply lookup_lt_Some in Hj. lia. }
  rewrite filter_app. rewrite filter_none, filter_cons_False.
  - rewrite filter_all; [|].
    + simpl. rewrite drop_app_ge by lia. rewrite Hlen.
      replace (S j - j)%nat with 1%nat by lia. done.
    + apply Forall_forall. intros y Hy. apply Hafter; [set_solver|].
      apply StronglySorted_app in Hs as (_ & _ & Hs). apply StronglySorted_inv in Hs as [_ Hs].
      rewrite Forall_forall in Hs. split; [by apply Hs|]. intros ->.
      apply NoDup_app in Hnd as (_ & _ & Hnd). apply NoDup_cons in Hnd as [Hnd _]. done.
  - intros Hx. apply Hafter in Hx as [_ Hx]; [done|set_solver].
  - apply Forall_forall. intros y Hy Ha. apply Hafter in Ha as [Hxy Hne]; [|set_solver].
    apply Hne, Hanti; [set_solver|done|].
    apply StronglySorted_app in Hs as (Hs & _ & _). apply Hs; [done|left].
Qed.

Section walk.
Context `{ServerLaws, PgtypeUUIDLaws, DetailsCodec, CursorTime}.
Abbreviation entry := (uuid * notification_cols)%type.

Definition list_params (f : NotificationFilter) (bid : option uuid) (cursor : option (Time * uuid))
    (limit : Z) : ListNotificationsParams := {|
  l_Status := f_Status f; l_Channel := f_Channel f; l_BatchID := bid;
  l_CreatedAfter := f_CreatedAfter f; l_CreatedBefore := f_CreatedBefore f;
  l_CursorCreatedAt := fst <$> cursor; l_CursorID := snd <$> cursor; l_RowLimit := limit |}.

(** Every matching row, newest first. *)
Definition matching (f : NotificationFilter) (bid : option uuid) (d : data) : list entry :=
  merge_sort newest_first (filter (λ x, list_where (list_params f bid None 0) x = true)
    (srv_plan (map_to_list (t_notifications d)))).

Lemma list_where_cursor f bid t u limit x :
  list_where (list_params f bid (Some (t, u)) limit) x =
  list_where (list_params f bid None 0) x && keyset_lt (c_created_at x.2) x.1 (srv_time t) u.
Proof. destruct x as [k c]. simpl. by rewrite andb_true_r. Qed.

Section table.
Variables (f : NotificationFilter) (bid : option uuid) (d : data).
Let M := matching f bid d.

Lemma matching_row x : x ∈ M → t_notifications d !! x.1 = Some x.2.
Proof.
  unfold M, matching. rewrite merge_sort_Permutation. intros [_ Hx]%list_elem_of_filter.
  rewrite srv_plan_perm in Hx. by apply elem_of_map_to_list; destruct x.
Qed.
Lemma matching_sorted : StronglySorted newest_first M.
Proof. apply StronglySorted_merge_sort; apply _. Qed.
Lemma matching_NoDup : NoDup M.
Proof.
  unfold M, matching. rewrite merge_sort_Permutation. apply NoDup_filter.
  rewrite srv_plan_perm. apply NoDup_map_to_list.
Qed.
Lemma matching_antisym x y : x ∈ M → y ∈ M → newest_first x y → newest_first y x → x = y.
Proof.
  unfold newest_first. rewrite !keyset_ge_spec. intros Hx Hy Hxy Hyx.
  assert (x.1 = y.1) as E by (apply uuid_N_inj; lia).
  apply matching_row in Hx. apply matching_row in Hy. rewrite E in Hx. destruct x, y. naive_solver.
Qed.

(** Timestamps in the table are at the server's precision. *)
Definition stamped : Prop :=
  ∀ k c, t_notifications d !! k = Some c → srv_time (c_created_at c) = c_created_at c ∧ representable (c_created_at c).

Lemma select_after j x limit : stamped → M !! j = Some x → 0 ≤ limit →
  select_where (list_where (list_params f bid (Some (c_created_at x.2, x.1)) limit)) newest_first limit
    (map_to_list (t_notifications d)) = Ok (take (Z.to_nat limit) (drop (S j) M)).
Proof.
  intros Hst Hj Hl. assert (x ∈ M) as Hx by by eapply list_elem_of_lookup_2.
  destruct (Hst x.1 x.2 (matching_row x Hx)) as [Htime _].
  unfold select_where. destruct (Z.ltb_spec limit 0); [lia|]. do 2 f_equal.
  rewrite <-(filter_after newest_first (λ x y, keyset_lt (c_created_at y.2) y.1 (c_created_at x.2) x.1)
    M j x matching_sorted matching_NoDup Hj).
  - apply StronglySorted_unique_strong with newest_first.
    + intros y z Hy Hz. rewrite merge_sort_Permutation in Hy.
      apply list_elem_of_filter in Hy as [Hy1 Hy2]. apply list_elem_of_filter in Hz as [_ Hz].
      apply matching_antisym; [|done]. unfold M, matching. rewrite merge_sort_Permutation.
      apply list_elem_of_filter. split; [|done].
      rewrite list_where_cursor, andb_true_iff in Hy1. by destruct Hy1.
    + apply StronglySorted_merge_sort; apply _.
    + assert (StronglySorted newest_first M) as Hs by apply matching_sorted.
      clear -Hs. induction Hs as [|y l Hl IH Hy]; [constructor|].
      rewrite filter_cons. case_decide; [|done]. constructor; [done|].
      rewrite Forall_forall in *. intros z [_ Hz]%list_elem_of_filter. by apply Hy.
    + rewrite merge_sort_Permutation. unfold M, matching. rewrite merge_sort_Permutation.
      rewrite list_filter_filter. apply reflexive_eq, list_filter_iff. intros y.
      rewrite list_where_cursor, Htime, andb_true_iff. tauto.
  - intros y Hy. unfold newest_first. rewrite keyset_lt_spec, keyset_ge_spec. split.
    + intros Hlt. split; [lia|]. intros ->. lia.
    + intros [Hge Hne]. destruct Hge as [?|[E Hle]]; [by left|]. right. split; [done|].
      apply N.le_neq. split; [done|]. intros E2. apply Hne, matching_antisym; [done..| |];
        unfold newest_first; rewrite keyset_ge_spec; lia.
  - intros y Hy H1' H2'. by apply matching_antisym.
Qed.

Lemma select_first limit : 0 ≤ limit →
  select_where (list_where (list_params f bid None limit)) newest_first limit
    (map_to_list (t_notifications d)) = Ok (take (Z.to_nat limit) M).
Proof. intros Hl. unfold select_where. destruct (Z.ltb_spec limit 0); [lia|]. done. Qed.
End table.

(** The entities of a stretch of rows, and the cursor after it. *)
Definition entities (l : list entry) : list Notification := (λ x, entity_of x.1 x.2) <$> l.
Definition cursor_at (x : entry) : string := encodeCursor (c_created_at x.2) (uuid_text x.1).
(** The page that starts after the first [j] rows of [l]. *)
Definition page (l : list entry) (limit : Z) (j : nat) : list Notification * string :=
  (entities (take (Z.to_nat limit) (drop j l)),
   match drop j l !! Z.to_nat limit with
   | None => ""
   | Some _ => default "" (cursor_at <$> drop j l !! Z.to_nat (limit - 1))
   end).
(** [cursor] resumes after the first [j] rows of [l]. *)
Definition resumes (l : list entry) (j : nat) (cursor : string) : Prop :=
  (j = 0%nat ∧ cursor = "") ∨ ∃ j' x, j = S j' ∧ l !! j' = Some x ∧ cursor = cursor_at x.

Lemma paginate_page l limit j : 0 < limit →
  paginate (entities (take (Z.to_nat (limit + 1)) (drop j l))) limit = page l limit j.
Proof.
  intros Hl. unfold paginate, page. set (k := drop j l).
  replace (Z.to_nat (limit + 1)) with (S (Z.to_nat limit)) by lia.
  unfold entities. rewrite length_fmap, length_take.
  destruct (k !! Z.to_nat limit) as [x|] eqn:E.
  - apply lookup_lt_Some in E. rewrite Nat.min_l by lia.
    destruct (Z.leb_spec (Z.of_nat (S (Z.to_nat limit))) limit); [lia|].
    rewrite list_lookup_fmap, lookup_take by lia.
    destruct (k !! Z.to_nat (limit - 1)) as [y|] eqn:Ey; [|apply lookup_ge_None in Ey; lia].
    rewrite decide_True by lia. simpl. by rewrite <-fmap_take, take_take, Nat.min_l by lia.
  - apply lookup_ge_None in E. destruct (Z.leb_spec (Z.of_nat (S (Z.to_nat limit) `min` length k)) limit); [|lia].
    by rewrite !take_ge by lia.
Qed.

Lemma pg_List_page f bid limit j cursor (db : PG) :
  let M := matching f bid (pg_data db) in
  optional_uuid "batch_id filter" (f_BatchID f) = Ok bid →
  0 < limit < 2 ^ 31 - 1 → stamped (pg_data db) → resumes M j cursor →
  (∀ i, srv_fault i = NoFault) →
  wp (pg_List f cursor limit) (λ r db', pg_data db' = pg_data db ∧ r = Ok (page M limit j)) db.
Proof.
  intros M Hbid Hl Hst Hres Hf.
  assert (∃ cur, buildListParams f cursor limit = Ok (list_params f bid cur (limit + 1)) ∧
    select_where (list_where (list_params f bid cur (limit + 1))) newest_first (limit + 1)
      (map_to_list (t_notifications (pg_data db))) = Ok (take (Z.to_nat (limit + 1)) (drop j M)))
    as (cur & Hparams & Hsel).
  { unfold buildListParams. rewrite Hbid.
    assert (int32 (limit + 1) = limit + 1) as -> by (apply int32_small; unfold in_int32; lia).
    destruct Hres as [[-> ->]|(j' & x & -> & Hx & ->)].
    - exists None. split; [done|]. rewrite drop_0. apply select_first. lia.
    - exists (Some (c_created_at x.2, x.1)). split; [|by apply select_after; [| |lia]].
      unfold cursor_at. rewrite (bool_decide_false _ (encodeCursor_nonempty _ _)).
      rewrite decode_encodeCursor; last first.
      { apply list_elem_of_lookup_2, matching_row in Hx. by apply (Hst x.1). }
      unfold parseUUID. by rewrite scan_text. }
  unfold pg_List. go_steps. rewrite Hparams. go_steps.
  apply wp_exec_faultless; [done|]. unfold ListNotifications_sql.
  change (l_RowLimit (list_params f bid cur (limit + 1))) with (limit + 1). rewrite Hsel.
  cbn [fst snd]. go_steps. rewrite rowsToNotifications_scan. go_steps. split; [done|].
  f_equal. apply paginate_page. lia.
Qed.

(** Follow the cursors from [cursor] to the last page. *)
Fixpoint walk (fuel : nat) (f : NotificationFilter) (cursor : string) (limit : Z) : M PG (list Notification) :=
  match fuel with
  | O => throw (Opaque "out of fuel")
  | S fuel =>
      let* p := pg_List f cursor limit in
      if bool_decide (p.2 = "") then ret p.1
      else let* rest := walk fuel f p.2 limit in ret (p.1 ++ rest)
  end.

Lemma walk_from fuel f bid limit : ∀ j cursor (db : PG),
  let M := matching f bid (pg_data db) in
  optional_uuid "batch_id filter" (f_BatchID f) = Ok bid →
  0 < limit < 2 ^ 31 - 1 → stamped (pg_data db) → resumes M j cursor →
  (∀ i, srv_fault i = NoFault) → (length M - j < fuel)%nat →
  wp (walk fuel f cursor limit) (λ r _, r = Ok (entities (drop j M))) db.
Proof.
  induction fuel as [|fuel IH]; intros j cursor db M Hbid Hl Hst Hres Hf Hfuel; [lia|].
  cbn [walk]. apply wp_bind.
  eapply wp_mono; [by apply (pg_List_page f bid limit j)|]. intros r db1 [Hd ->]. fold M.
  unfold page. cbn [fst snd]. destruct (drop j M !! Z.to_nat limit) as [y|] eqn:E; last first.
  { rewrite bool_decide_true by done. apply wp_ret. apply lookup_ge_None in E. by rewrite take_ge. }
  pose proof (lookup_lt_Some _ _ _ E) as Hlen. rewrite length_drop in Hlen.
  destruct (drop j M !! Z.to_nat (limit - 1)) as [x|] eqn:Ex; last first.
  { apply lookup_ge_None in Ex. rewrite length_drop in Ex. lia. }
  cbn [fmap option_fmap option_map default from_option].
  rewrite (bool_decide_false (cursor_at x = "") (encodeCursor_nonempty _ _)). apply wp_bind.
  eapply wp_mono; [apply (IH (j + Z.to_nat limit)%nat); rewrite ?Hd; try done; fold M|].
  - right. exists (j + Z.to_nat (limit - 1))%nat, x. split_and!; [lia| |done]. by rewrite lookup_drop in Ex.
  - lia.
  - intros r db2 ->. rewrite Hd. fold M. apply wp_ret. f_equal. unfold entities.
    rewrite <-fmap_app. f_equal. rewrite <-drop_drop. apply take_drop.
Qed.
End walk.

(** C10. Keyset pagination is complete and exact: on a server that does not
    fail, following the cursors from the empty one with any page size returns
    every notification that matches the filter, exactly once, newest first by
    (created_at, id), in at most one page more than there are rows. *)
Theorem pagination_complete `{ServerLaws, PgtypeUUIDLaws, DetailsCodec, CursorTime}
    (f : NotificationFilter) (bid : option uuid) (limit : Z) (db : PG)
    (Hbid : optional_uuid "batch_id filter" (f_BatchID f) = Ok bid)
    (Hlimit : 0 < limit < 2 ^ 31 - 1) (Hstamped : stamped (pg_data db))
    (Hfaults : ∀ i, srv_fault i = NoFault) :
  let M := matching f bid (pg_data db) in
  NoDup M ∧ StronglySorted newest_first M ∧
  (∀ k c, (k, c) ∈ M ↔ t_notifications (pg_data db) !! k = Some c ∧
     list_where (list_params f bid None 0) (k, c) = true) ∧
  (walk (S (length M)) f "" limit db).1 = Ok (entities M).
Proof.
  intros M. split_and!.
  - apply matching_NoDup.
  - apply matching_sorted.
  - intros k c. unfold M, matching. rewrite merge_sort_Permutation, list_elem_of_filter, srv_plan_perm.
    rewrite elem_of_map_to_list. tauto.
  - apply (walk_from _ f bid limit 0 "" db); try done; [by left|unfold M; lia].
Qed.
