(* ===== verification/Discipline.v ===== *)
(** The discipline of the use cases: which port calls a use case may make,
    depending on the claim it holds.  Every use case keeps to it, whatever its
    ports answer; System.v derives from it what the concurrent service
    guarantees. *)

From S2P Require Import Prelude GoStrings Uuid Errors ValueObjects Notification Batch Template.
From S2P Require Import Ports RetryPolicy RepoSpec ProcessNotification CreateNotification.
From S2P Require Import CancelNotification Reconcile CreateBatch Queries TemplateUseCases.

(** What a thread holds: nothing; a notification it claimed; or one it claimed
    and handed to the provider. *)
Inductive hold := Idle | Claimed (n : Notification) | Sent (n : Notification).
Definition held (g : hold) : option Notification :=
  match g with Idle => None | Claimed n | Sent n => Some n end.

Definition holds_after {B} (o : op B) : res B → hold → hold :=
  match o in op B return res B → hold → hold with
  | repo_ClaimForProcessing _ _ => λ r g, match r with Ok n => Claimed n | Err _ => g end
  | provider_Send _ _ _ _ => λ _ g, match g with Claimed n => Sent n | _ => g end
  | repo_UpdateStatus _ src => λ _ g, if bool_decide (src = StatusProcessing) then Idle else g
  | _ => λ _ g, g
  end.

Definition attempts_ok (n : Notification) : Prop := 0 ≤ Attempts n < 2 ^ 31.

(** Who may take a row out of [processing]: anyone, to [failed] (a time-out);
    otherwise the holder of its claim - and, once the provider was called, to
    [retrying] only below the attempt limit. *)
Definition may_settle (g : hold) (n : Notification) : Prop :=
  NStatus n = StatusFailed ∨
  match g with
  | Idle => False
  | Claimed c => ID c = ID n ∧ Attempts n = Attempts c
  | Sent c => ID c = ID n ∧ Attempts n = Attempts c ∧
              (NStatus n = StatusRetrying → Attempts n < defaultMaxAttempts)
  end.

Definition fresh_entity (n : Notification) : Prop := NStatus n = StatusPending ∧ Attempts n = 0.
Lemma fresh_attempts_ok n : fresh_entity n → attempts_ok n.
Proof. unfold attempts_ok. intros [_ ->]. lia. Qed.

(** What a thread may call, given what it holds. *)
Definition allowed {B} (g : hold) (o : op B) : Prop :=
  match o with
  | repo_ClaimForProcessing _ _ => g = Idle
  | repo_UpdateStatus n src =>
      fsm src (NStatus n) ∧ attempts_ok n ∧ (src = StatusProcessing → may_settle g n)
  | repo_Create n => fresh_entity n
  | batch_Create b => Forall fresh_entity (batch_Notifications b)
  | provider_Send _ ch rcpt content =>
      ∃ n, g = Claimed n ∧ ch = NChannel n ∧ rcpt = Recipient n ∧ content = Content n
  | _ => True
  end.

(** What the ports guarantee of an answer when every row has a sound counter. *)
Definition plausible {B} (o : op B) : res B → Prop :=
  match o in op B return res B → Prop with
  | repo_ClaimForProcessing _ _ => λ r, ∀ n, r = Ok n → NStatus n = StatusProcessing ∧ attempts_ok n
  | repo_Get _ => λ r, ∀ n, r = Ok n → attempts_ok n
  | repo_FindOrphanedPending _ _ =>
      λ r, ∀ l, r = Ok l → Forall (λ n, NStatus n = StatusPending ∧ attempts_ok n) l
  | repo_FindStuckProcessing _ _ =>
      λ r, ∀ l, r = Ok l → Forall (λ n, NStatus n = StatusProcessing ∧ attempts_ok n) l
  | _ => λ _, True
  end.

(** [c], from hold [g], makes only allowed calls and ends as [Q] says. *)
Fixpoint safe {A} (c : proc A) (g : hold) (Q : hold → res A → Prop) : Prop :=
  match c with
  | Done r => Q g r
  | Call o k => allowed g o ∧ ∀ r, plausible o r → safe (k r) (holds_after o r g) Q
  end.

Lemma safe_mono {A} (c : proc A) g (Q Q' : hold → res A → Prop) :
  safe c g Q → (∀ g' r, Q g' r → Q' g' r) → safe c g Q'.
Proof.
  intros H HQ. revert g H. induction c as [r|B o k IH]; intros g; simpl; [apply HQ|].
  intros [Ha Hk]. split; [done|]. intros r Hr. by apply IH, Hk.
Qed.
Lemma safe_then {A B} (k : res A → proc B) c g Q :
  safe c g (λ g' r, safe (k r) g' Q) → safe (proc_then k c) g Q.
Proof.
  revert g. induction c as [r|B0 o c IH]; intros g; simpl; [done|].
  intros [Ha Hk]. split; [done|]. intros r Hr. by apply IH, Hk.
Qed.
Lemma safe_bind {A B} (k : A → proc B) c g Q :
  safe c g (λ g' r, match r with Ok a => safe (k a) g' Q | Err e => Q g' (Err e) end) →
  safe (c ≫= k) g Q.
Proof. intros H. apply safe_then. eapply safe_mono; [exact H|]. by intros g' [a|e]. Qed.
Lemma safe_wrapped {A} ctx (c : proc A) g Q :
  safe c g (λ g' r, match r with Ok a => Q g' (Ok a) | Err e => Q g' (Err (Wrapped ctx e)) end) →
  safe (wrapped ctx c) g Q.
Proof. intros H. apply safe_then. eapply safe_mono; [exact H|]. by intros g' [a|e]. Qed.
Lemma safe_outcome {A} (c : proc A) g Q :
  safe c g (λ g' r, Q g' (Ok r)) → safe (outcome c) g Q.
Proof. intros H. apply safe_then. exact H. Qed.
Lemma safe_deferred {A} (d : proc unit) (c : proc A) g Q :
  safe c g (λ g' r, safe d g' (λ g'' _, Q g'' r)) → safe (deferred d c) g Q.
Proof.
  intros H. apply safe_then. eapply safe_mono; [exact H|]. intros g' r Hd. by apply safe_then.
Qed.
Lemma safe_call {B} (o : op B) g Q :
  allowed g o → (∀ r, plausible o r → Q (holds_after o r g) r) → safe (call o) g Q.
Proof. done. Qed.
Lemma safe_when (b : bool) c g (Q : hold → res unit → Prop) :
  (b = true → safe c g Q) → (b = false → Q g (Ok tt)) → safe (when b c) g Q.
Proof. destruct b; simpl; auto. Qed.
(** A call that neither claims nor updates, whatever it answers. *)
Lemma safe_neutral {B} (o : op B) g Q :
  allowed g o → (∀ r, holds_after o r g = g) → (∀ r, Q g r) → safe (call o) g Q.
Proof. intros Ha Hh HQ. apply safe_call; [done|]. intros r _. by rewrite Hh. Qed.

(** The helpers that only observe and record. *)
Lemma safe_observe (b : bool) o g (Q : hold → res unit → Prop) :
  (∀ r, Q g r) → safe (when b (call (observe o))) g Q.
Proof. intros HQ. destruct b; [by apply safe_neutral|apply HQ]. Qed.
Lemma safe_StartSpan uc name g (Q : hold → res nat → Prop) :
  (∀ r, Q g r) → safe (StartSpan uc name) g Q.
Proof. intros HQ. unfold StartSpan. destruct (pn_tracer uc); [by apply safe_neutral|apply HQ]. Qed.
Lemma safe_append_event b a n ev now g Q : (∀ r, Q g r) → safe (append_event b a n ev now) g Q.
Proof.
  intros HQ. unfold append_event. apply safe_bind, safe_neutral; [done|done|intros [id|e]; [|apply HQ]].
  apply safe_bind, safe_wrapped. unfold lift. cbn [safe].
  destruct (NewNotificationLog _ _ _ _ _ _); [|apply HQ].
  apply safe_wrapped, safe_neutral; [done|done|by intros [[]|e]; apply HQ].
Qed.
Lemma safe_recordEvent n ev g Q : (∀ r, Q g r) → safe (recordEvent n ev) g Q.
Proof.
  intros HQ. unfold recordEvent. apply safe_bind, safe_neutral; [done|done|intros [id|e]; [|apply HQ]].
  apply safe_bind, safe_neutral; [done|done|intros [now|e]; [|apply HQ]].
  apply safe_bind, safe_wrapped. unfold lift. cbn [safe].
  destruct (NewNotificationLog _ _ _ _ _ _); [|apply HQ].
  apply safe_bind, safe_wrapped, safe_neutral; [done|done|intros [[]|e]; [|apply HQ]].
  apply safe_wrapped, safe_neutral; [done|done|by intros [[]|e]; apply HQ].
Qed.

Ltac safe_step :=
  lazymatch goal with
  | |- safe (let _ := _ in _) _ _ => cbn zeta
  | |- safe (mbind _ _) _ _ => apply safe_bind
  | |- safe (wrapped _ _) _ _ => apply safe_wrapped
  | |- safe (outcome _) _ _ => apply safe_outcome
  | |- safe (deferred _ _) _ _ => apply safe_deferred
  | |- safe (when _ (call (observe _))) _ _ => apply safe_observe; intros [[]|?]
  | |- safe (emit _ _) _ _ => apply safe_observe; intros [[]|?]
  | |- safe (span _ _) _ _ => apply safe_observe; intros [[]|?]
  | |- safe (StartSpan _ _) _ _ => apply safe_StartSpan; intros [?|?]
  | |- safe (recordEvent _ _) _ _ => apply safe_recordEvent; intros [[]|?]
  | |- safe (append_event _ _ _ _ _) _ _ => apply safe_append_event; intros [[]|?]
  | |- safe (logProcessingOutcome _ _ _ _ _) _ _ => apply safe_neutral; [done|done|intros [[]|?]]
  | |- safe (call (repo_ClaimForProcessing _ _)) _ _ => fail "claim"
  | |- safe (call (repo_UpdateStatus _ _)) _ _ => fail "update"
  | |- safe (call (provider_Send _ _ _ _)) _ _ => fail "send"
  | |- safe (call (repo_Get _)) _ _ => fail "get"
  | |- safe (call (repo_Create _)) _ _ => fail "create"
  | |- safe (call (batch_Create _)) _ _ => fail "create batch"
  | |- safe (call (repo_FindOrphanedPending _ _)) _ _ => fail "find"
  | |- safe (call (repo_FindStuckProcessing _ _)) _ _ => fail "find"
  | |- safe (call _) _ _ => apply safe_neutral; [done|done|intros [?|?]]
  | |- safe (mret _) _ _ => cbn [safe mret proc_ret]
  | |- safe (lift ?r) _ _ => unfold lift; cbn [safe]
  | |- safe (raise _) _ _ => unfold raise; cbn [safe]
  | |- safe (Done _) _ _ => cbn [safe]
  | |- safe (entity _ _) _ _ => fail "entity"
  end; cbn beta iota.
Ltac safe_steps := repeat (safe_step; try done); auto.

(** ** Every use case is safe: it starts and ends holding nothing *)
Section usecases.
(** Where a use case may end. *)
Definition ends {A} : hold → res A → Prop := λ _ _, True.
Hint Extern 0 (ends _ _) => exact I : core.

(** An update out of [processing]: the thread holds nothing any more. *)
Lemma safe_update_held ctx n' g (Q : hold → res unit → Prop) :
  fsm StatusProcessing (NStatus n') → attempts_ok n' → may_settle g n' → (∀ r, Q Idle r) →
  safe (wrapped ctx (call (repo_UpdateStatus n' StatusProcessing))) g Q.
Proof. intros Hf Ha Hm HQ. safe_step. apply safe_call; [done|]. intros [] _; apply HQ. Qed.

(** A guarded mutation of an entity: it succeeds along the state machine only. *)
Lemma safe_entity n target now side g (Q : hold → res Notification → Prop) :
  (fsm (NStatus n) target → Q g (Ok (side (with_status target now n)))) → (∀ e, Q g (Err e)) →
  safe (entity n (transition target now side)) g Q.
Proof.
  intros Hk He. unfold entity, lift, transition. cbn [safe].
  destruct (Status_CanTransitionTo (NStatus n) target) eqn:E; simpl; [|apply He].
  apply CanTransitionTo_fsm in E. by apply Hk.
Qed.

Lemma safe_settle uc ctx n result start : NStatus n = StatusProcessing → attempts_ok n →
  safe (applyResult uc ctx n result start) (Sent n) ends.
Proof.
  intros Hst Ha. unfold applyResult. safe_steps.
  assert (∀ g r, safe (emit uc (ObserveProcessing (NChannel n) (time_Sub a start))) g
    (λ g'' _, ends (A:=unit) g'' r)) as Hend by (intros; safe_steps).
  destruct (Success result); [|destruct (negb _ || _) eqn:Hmax];
    (apply safe_bind, safe_entity; [|auto]); rewrite Hst; intros Hf;
    (apply safe_bind, safe_update_held; [done|done| |intros [[]|e]; auto; safe_steps; auto]);
    right; split_and!; try done.
  intros _. apply orb_false_iff in Hmax as [_ Hmax]. simpl. lia.
Qed.

Lemma safe_reschedule uc ctx n start : NStatus n = StatusProcessing → attempts_ok n →
  safe (rescheduleForRateLimit uc ctx n start) (Claimed n) ends.
Proof.
  intros Hst Ha. unfold rescheduleForRateLimit. safe_step. safe_step; [|done].
  apply safe_bind, safe_entity; [|done]. rewrite Hst. intros Hf.
  apply safe_bind, safe_update_held; [done|done|by right|]. intros [[]|e]; safe_steps.
Qed.

Lemma safe_send uc ctx n (Q : hold → res DeliveryResult → Prop) :
  (∀ g e, Q g (Err e)) → (∀ result, Q (Sent n) (Ok result)) →
  safe (send uc ctx n) (Claimed n) Q.
Proof.
  intros He HQ. unfold send. safe_steps. apply safe_call; [by exists n|].
  intros [result|e] _; [|apply He]. cbn [holds_after]. safe_steps.
Qed.

Lemma safe_ProcessNotification uc ctx id : safe (ProcessNotification_Execute uc ctx id) Idle ends.
Proof.
  unfold ProcessNotification_Execute. safe_steps. apply safe_call; [done|].
  intros [n|e] Hr; cbn [holds_after]; [|by destruct (errors_Is e _)].
  destruct (Hr n eq_refl) as [Hst Ha]. unfold deliver. safe_steps.
  destruct a0 as [[] after]; cbn [negb fst]; [|by apply safe_reschedule].
  apply safe_bind, safe_send; [done|]. intros result. safe_steps. by apply safe_settle.
Qed.

(** Without a claim: any legal update but out of [processing], or a time-out. *)
Lemma safe_update_free ctx n src (Q : hold → res unit → Prop) :
  fsm src (NStatus n) → attempts_ok n → (src = StatusProcessing → NStatus n = StatusFailed) →
  (∀ r, Q Idle r) → safe (wrapped ctx (call (repo_UpdateStatus n src))) Idle Q.
Proof.
  intros Hf Ha Hst HQ. safe_step. apply safe_call; [split_and!; [done|done|left; auto]|].
  intros r _. cbn [holds_after]. case_bool_decide; destruct r; apply HQ.
Qed.

Lemma safe_resolveCorrelation s g Q : (∀ r, Q g r) → safe (resolveCorrelation s) g Q.
Proof. intros HQ. unfold resolveCorrelation. case_bool_decide; [by apply safe_neutral|apply HQ]. Qed.
Lemma safe_renderTemplate `{TextTemplate} id vars g Q : (∀ r, Q g r) → safe (renderTemplate id vars) g Q.
Proof. intros HQ. unfold renderTemplate. safe_steps. destruct (Template_Render _ _); apply HQ. Qed.
Lemma safe_resolveContent `{TextTemplate} inp g Q : (∀ r, Q g r) → safe (resolveContent inp) g Q.
Proof.
  intros HQ. unfold resolveContent. destruct (cn_TemplateID inp); [case_bool_decide|]; try apply HQ.
  by apply safe_renderTemplate.
Qed.

Lemma safe_persist uc n now : fresh_entity n → safe (persist uc n now) Idle ends.
Proof.
  intros Hst. pose proof (fresh_attempts_ok n Hst) as Ha. unfold persist. safe_step. safe_step. apply safe_call; [done|].
  intros [[]|e] _; [|done]. safe_steps.
  unfold enqueue. destruct (ScheduledAt n); safe_steps; unfold markQueued; do 2 safe_step;
    (apply safe_entity; [|done]); intros _;
    (apply safe_bind, safe_update_free; [constructor|done|done|]); intros [[]|e]; safe_steps.
Qed.

Lemma safe_CreateNotification `{TextTemplate} uc inp : safe (CreateNotification_Execute uc inp) Idle ends.
Proof.
  unfold CreateNotification_Execute. safe_step. safe_step. destruct (NewChannel _); [|done].
  safe_step. safe_step. destruct (NewPriority _); [|done].
  safe_step. apply safe_resolveCorrelation. intros [corr|e]; [|done]. safe_steps.
  apply safe_resolveContent. intros [content|e]; [|done]. safe_steps.
  destruct (NewNotification _ _) as [n|e] eqn:E; [|done].
  apply NewNotification_Ok in E as [_ ->]. by apply safe_persist.
Qed.

Lemma safe_ScheduleNotification `{TextTemplate} uc inp :
  safe (ScheduleNotification_Execute uc inp) Idle ends.
Proof.
  unfold ScheduleNotification_Execute. safe_steps.
  destruct (negb _); [done|]. apply safe_CreateNotification.
Qed.

Lemma safe_CancelNotification nid : safe (CancelNotification_Execute nid) Idle ends.
Proof.
  unfold CancelNotification_Execute. safe_step. safe_step. apply safe_call; [done|].
  intros [n|e] Hr; [|done]. cbn [holds_after]. pose proof (Hr n eq_refl) as Ha.
  safe_steps. apply safe_entity; [|done]. intros Hf.
  apply safe_bind, safe_update_free; [done|done|intros Heq; rewrite Heq in Hf; inversion Hf|].
  intros [[]|e]; safe_steps.
Qed.

Lemma safe_enqueueMembers uc now l : Forall fresh_entity l →
  safe (enqueueMembers uc now l) Idle ends.
Proof.
  induction 1 as [|n l Hst%fresh_attempts_ok _ IH]; cbn [enqueueMembers]; [done|].
  unfold enqueueMember, recordCreated, recordQueued. safe_steps.
  apply safe_entity; [|done]. intros _. apply safe_bind, safe_update_free; [constructor|done|done|]. intros [[]|e]; safe_steps.
  all: eapply safe_mono; [exact IH|]. all: by intros g' [?|?].
Qed.
Lemma safe_buildNotifications items corr now Q :
  (∀ e, Q Idle (Err e)) → (∀ l, Forall fresh_entity l → Q Idle (Ok l)) →
  safe (buildNotifications items corr now) Idle Q.
Proof.
  revert Q. induction items as [|item items IH]; intros Q He HQ; cbn [buildNotifications].
  { by apply HQ. }
  unfold buildNotification, wrapItemErr. safe_steps. destruct (NewChannel _); [|apply He].
  safe_steps. destruct (NewPriority _); [|apply He]. safe_steps.
  destruct (NewNotification _ now) as [n|e] eqn:E; [|apply He].
  apply NewNotification_Ok in E as [_ E]. safe_step. apply IH; [done|]. intros l Hl. safe_steps.
  apply HQ. constructor; [by rewrite E|done].
Qed.
Lemma safe_CreateBatch uc inp : safe (CreateBatch_Execute uc inp) Idle ends.
Proof.
  unfold CreateBatch_Execute. safe_step. apply safe_resolveCorrelation. intros [corr|e]; [|done].
  safe_steps. apply safe_buildNotifications; [done|]. intros l Hl. safe_steps.
  destruct (NewBatch _ _) as [b|e] eqn:E; [|done].
  assert (Forall fresh_entity (batch_Notifications b)) as Hb.
  { unfold NewBatch in E. repeat case_match; simplify_eq/=. by apply Forall_map. }
  safe_steps. apply safe_call; [done|]. intros [[]|e] _; [|done]. cbn beta iota. safe_step.
  eapply safe_mono; [by apply safe_enqueueMembers|]. by intros g' [?|?].
Qed.

Lemma safe_sweep_rows (P : Notification → Prop) handler l d :
  (∀ n, P n → safe (handler n) Idle (λ g _, g = Idle)) → Forall P l →
  safe (sweep_rows handler l d) Idle (λ g r, g = Idle).
Proof.
  intros Hh Hl. revert d. induction Hl as [|n l Hn _ IH]; intros d; cbn [sweep_rows]; [done|].
  apply safe_bind, safe_outcome. eapply safe_mono; [by apply Hh|].
  intros g [[]|e] ->; [apply IH|done].
Qed.
Lemma safe_sweep (P : Notification → Prop) label find handler :
  allowed Idle find → (∀ r, holds_after find r Idle = Idle) →
  (∀ r, plausible find r → ∀ l, r = Ok l → Forall P l) →
  (∀ n, P n → safe (handler n) Idle (λ g _, g = Idle)) →
  safe (sweep label find handler) Idle (λ g r, g = Idle).
Proof.
  intros Ha Hf Hp Hh. unfold sweep. apply safe_bind, safe_outcome, safe_call; [done|].
  intros r Hr. rewrite Hf. destruct r as [l|e]; [|done].
  apply (safe_sweep_rows P); [done|]. by eapply Hp.
Qed.
Lemma safe_reenqueue label n : safe (reenqueue label n) Idle (λ g _, g = Idle).
Proof. unfold reenqueue. safe_steps. Qed.

Lemma safe_Reconcile : safe Reconcile_Execute Idle ends.
Proof.
  unfold Reconcile_Execute. safe_steps.
  eapply safe_mono; [apply (safe_sweep (λ n, NStatus n = StatusPending ∧ attempts_ok n)); [done..|]|].
  { intros n [Hst Ha]. unfold handleOrphanedPending, reconcile_recordEvent. safe_steps.
    apply safe_entity; [|done]. intros _. apply safe_bind, safe_update_free; [constructor|done|done|]. intros [[]|e]; safe_steps.
    eapply safe_mono; [apply safe_reenqueue|done]. }
  intros g [[n1 [e|]]|e] ->; [done| |done]. cbn beta iota. safe_step.
  eapply safe_mono; [apply (safe_sweep (λ n, NStatus n = StatusProcessing ∧ attempts_ok n)); [done..|]|].
  { intros n [Hst Ha]. unfold handleStuckProcessing, reconcile_recordEvent. safe_steps.
    apply safe_entity; [|done]. intros _. apply safe_bind, safe_update_free; [constructor|done|done|]. intros [[]|e]; safe_steps. }
  intros g [[n2 [e|]]|e] ->; [done| |done]. cbn beta iota. safe_step.
  eapply safe_mono; [apply (safe_sweep (λ n, True)); [done..| |]|].
  { intros r _ l _. by apply Forall_true. }
  { intros n _. apply safe_reenqueue. }
  intros g [[n3 [e|]]|e] ->; [done| |done]. cbn beta iota. safe_step.
  eapply safe_mono; [apply (safe_sweep (λ n, True)); [done..| |]|].
  { intros r _ l _. by apply Forall_true. }
  { intros n _. apply safe_reenqueue. }
  by intros g [[n4 err]|e].
Qed.

(** The use cases that neither claim nor update. *)
Lemma safe_ListNotifications inp : safe (ListNotifications_Execute inp) Idle ends.
Proof.
  unfold ListNotifications_Execute. safe_steps. destruct (parse_filter _ _); [|done].
  safe_steps. destruct (parse_filter _ _); [|done]. safe_steps.
Qed.
Lemma safe_GetNotificationTrace nid : safe (GetNotificationTrace_Execute nid) Idle ends.
Proof.
  unfold GetNotificationTrace_Execute. safe_step. safe_step. apply safe_call; [done|].
  intros [n|e] _; [|done]. cbn [holds_after]. safe_steps.
Qed.
Lemma safe_CreateTemplate `{TextTemplate} inp : safe (CreateTemplate_Execute inp) Idle ends.
Proof.
  unfold CreateTemplate_Execute. safe_steps. destruct (NewChannel _); [|done]. safe_steps.
  destruct (NewTemplate _ _); [|done]. safe_steps.
Qed.
Lemma safe_ListTemplates inp : safe (ListTemplates_Execute inp) Idle ends.
Proof. unfold ListTemplates_Execute. safe_steps. Qed.
Lemma safe_ReplaceTemplate `{TextTemplate} inp : safe (ReplaceTemplate_Execute inp) Idle ends.
Proof.
  unfold ReplaceTemplate_Execute. safe_steps. destruct (NewChannel _); [|done]. safe_steps.
  destruct (NewTemplate _ _); [|done]. safe_steps.
Qed.
Lemma safe_RenderTemplate `{TextTemplate} inp : safe (RenderTemplate_Execute inp) Idle ends.
Proof. unfold RenderTemplate_Execute. safe_steps. destruct (Template_Render _ _); safe_steps. Qed.
End usecases.

(** ** The entry points of the service

    What cmd/worker, the HTTP handlers and cmd/reconciler start; the result
    goes to their caller. *)
Section requests.
Context `{TextTemplate}.

Inductive request :=
| Process (uc : ProcessNotification) (ctx : context) (nid : NotificationID)
| Create (uc : CreateNotification) (inp : CreateNotificationInput)
| Schedule (uc : CreateNotification) (inp : ScheduleNotificationInput)
| CancelRequest (nid : NotificationID)
| CreateBatchRequest (uc : CreateBatch) (inp : CreateBatchInput)
| ReconcilePass
| ListRequest (inp : ListNotificationsInput)
| GetRequest (nid : NotificationID)
| GetBatchRequest (bid : BatchID)
| TraceRequest (nid : NotificationID)
| CreateTemplateRequest (inp : CreateTemplateInput)
| GetTemplateRequest (tid : TemplateID)
| ListTemplatesRequest (inp : ListTemplatesInput)
| ReplaceTemplateRequest (inp : ReplaceTemplateInput)
| DeleteTemplateRequest (tid : TemplateID)
| RenderTemplateRequest (inp : RenderTemplateInput).

Definition discard {A} (c : proc A) : proc unit :=
  proc_then (λ r, Done (match r with Ok _ => Ok tt | Err e => Err e end)) c.
Definition program (r : request) : proc unit :=
  match r with
  | Process uc ctx nid => ProcessNotification_Execute uc ctx nid
  | Create uc inp => discard (CreateNotification_Execute uc inp)
  | Schedule uc inp => discard (ScheduleNotification_Execute uc inp)
  | CancelRequest nid => discard (CancelNotification_Execute nid)
  | CreateBatchRequest uc inp => discard (CreateBatch_Execute uc inp)
  | ReconcilePass => discard Reconcile_Execute
  | ListRequest inp => discard (ListNotifications_Execute inp)
  | GetRequest nid => discard (GetNotification_Execute nid)
  | GetBatchRequest bid => discard (GetBatch_Execute bid)
  | TraceRequest nid => discard (GetNotificationTrace_Execute nid)
  | CreateTemplateRequest inp => discard (CreateTemplate_Execute inp)
  | GetTemplateRequest tid => discard (GetTemplate_Execute tid)
  | ListTemplatesRequest inp => discard (ListTemplates_Execute inp)
  | ReplaceTemplateRequest inp => discard (ReplaceTemplate_Execute inp)
  | DeleteTemplateRequest tid => DeleteTemplate_Execute tid
  | RenderTemplateRequest inp => discard (RenderTemplate_Execute inp)
  end.

Lemma safe_discard {A} (c : proc A) g : safe c g ends → safe (discard c) g ends.
Proof. intros Hc. apply safe_then. eapply safe_mono; [exact Hc|]. by intros g' [?|?]. Qed.

Lemma program_safe r : safe (program r) Idle ends.
Proof.
  destruct r; cbn [program]; try apply safe_discard.
  all: eauto using safe_ProcessNotification, safe_CreateNotification, safe_ScheduleNotification,
    safe_CancelNotification, safe_CreateBatch, safe_Reconcile, safe_ListNotifications,
    safe_GetNotificationTrace, safe_CreateTemplate, safe_ListTemplates, safe_ReplaceTemplate,
    safe_RenderTemplate.
  all: done.
Qed.
End requests.
