(* ===== verification/Accounting.v ===== *)
(** Accounts kept along the use-case programs: an account has a balance, every
    port call is either refused by it or changes it, also by its answer.
    [spends c s Q]: from balance [s], [c] makes no refused call whatever its
    ports answer - within what the account assumes of them - and ends in a
    balance and with a result that satisfy [Q].  Budget.v counts the calls of a
    program with it; Metrics.v the observations a run may emit. *)

From S2P Require Import Prelude Errors Notification Ports.

Record account (S : Type) := mkAccount {
  may : ∀ {B}, op B → S → Prop;
  next : ∀ {B}, op B → S → res B → S;
  answer : ∀ {B}, op B → S → res B → Prop;
}.
Arguments mkAccount {S} may next answer.
Arguments may {S} a {B} o s.
Arguments next {S} a {B} o s r.
Arguments answer {S} a {B} o s r.

Section spends.
Context {S : Type} (acc : account S).

Fixpoint spends {A} (c : proc A) (s : S) (Q : S → res A → Prop) : Prop :=
  match c with
  | Done r => Q s r
  | Call o k =>
      may acc o s ∧ ∀ r, answer acc o s r → spends (k r) (next acc o s r) Q
  end.

Lemma spends_mono {A} (c : proc A) s (Q Q' : S → res A → Prop) :
  spends c s Q → (∀ s' r, Q s' r → Q' s' r) → spends c s Q'.
Proof.
  intros Hc HQ. revert s Hc. induction c as [r|B o k IH]; intros s; simpl; [apply HQ|].
  intros [Hm Hk]. split; [done|]. intros r Hr. by apply IH, Hk.
Qed.
Lemma spends_then {A B} (k : res B → proc A) (c : proc B) s (Q : S → res A → Prop) :
  spends c s (λ s' r, spends (k r) s' Q) → spends (proc_then k c) s Q.
Proof.
  revert s. induction c as [r|B0 o c IH]; intros s; simpl; [done|].
  intros [Hm Hk]. split; [done|]. intros r Hr. by apply IH, Hk.
Qed.
Lemma spends_bind {A B} (k : B → proc A) (c : proc B) s (Q : S → res A → Prop) :
  spends c s (λ s' r, match r with Ok a => spends (k a) s' Q | Err e => Q s' (Err e) end) →
  spends (c ≫= k) s Q.
Proof. intros Hc. apply spends_then. eapply spends_mono; [exact Hc|]. by intros s' [a|e]. Qed.
Lemma spends_wrapped {A} ctx (c : proc A) s (Q : S → res A → Prop) :
  spends c s (λ s' r, match r with Ok a => Q s' (Ok a) | Err e => Q s' (Err (Wrapped ctx e)) end) →
  spends (wrapped ctx c) s Q.
Proof. intros Hc. apply spends_then. eapply spends_mono; [exact Hc|]. by intros s' [a|e]. Qed.
Lemma spends_deferred {A} (d : proc unit) (c : proc A) s (Q : S → res A → Prop) :
  spends c s (λ s' r, spends d s' (λ s'' _, Q s'' r)) → spends (deferred d c) s Q.
Proof. intros Hc. apply spends_then. eapply spends_mono; [exact Hc|]. intros s' r Hd. by apply spends_then. Qed.
Lemma spends_call {A} (o : op A) s (Q : S → res A → Prop) : may acc o s →
  (∀ r, answer acc o s r → Q (next acc o s r) r) → spends (call o) s Q.
Proof. done. Qed.
(** A mutation of an entity calls nothing. *)
Lemma spends_lift {A} (x : res A) s (Q : S → res A → Prop) : (∀ a, x = Ok a → Q s (Ok a)) → (∀ e, x = Err e → Q s (Err e)) →
  spends (lift x) s Q.
Proof. intros Hok Herr. destruct x; simpl; auto. Qed.

Lemma spends_outcome {A} (c : proc A) s (Q : S → res (res A) → Prop) :
  spends c s (λ s' r, Q s' (Ok r)) → spends (outcome c) s Q.
Proof. intros Hc. apply spends_then. exact Hc. Qed.
Lemma spends_entity n (m : M Notification unit) s (Q : S → res Notification → Prop) :
  (∀ n', m n = (Ok tt, n') → Q s (Ok n')) → (∀ e, Q s (Err e)) → spends (entity n m) s Q.
Proof. intros Hok Herr. unfold entity, lift. cbn [spends]. destruct (m n) as [[[]|e] n']; auto. Qed.
Lemma spends_when (b : bool) c s (Q : S → res unit → Prop) :
  (b = true → spends c s Q) → (b = false → Q s (Ok tt)) → spends (when b c) s Q.
Proof. destruct b; simpl; auto. Qed.

(** The account is kept when the program runs: [R] relates the balance to the
    world before every call. *)
Lemma spends_run {DB Q PR RL BC} `{NotificationRepository DB, BatchRepository DB, TemplateRepository DB,
    NotificationLogRepository DB, Queue Q, Provider PR, RateLimiter RL, StatusBroadcaster BC, Clock,
    IDGenerator} (R : S → World DB Q PR RL BC → Prop) {A} (c : proc A) s (P : S → res A → Prop) w :
  (∀ B (o : op B) s w, R s w → may acc o s →
     wp (handle o) (λ r w', answer acc o s r ∧ R (next acc o s r) w') w) →
  R s w → spends c s P → wp (run c) (λ r w', ∃ s', P s' r ∧ R s' w') w.
Proof.
  intros Hstep. revert s w. induction c as [r|B o k IH]; intros s w HR Hc.
  { apply wp_Done. by exists s. }
  destruct Hc as [Hm Hk]. apply wp_Call. eapply wp_mono; [by apply (Hstep B o s w)|].
  intros r w' [Ha HR']. eapply IH; [exact HR'|]. by apply Hk.
Qed.
End spends.

(** The structural steps of a [spends] goal; the calls are the account's. *)
Ltac spend_struct :=
  lazymatch goal with
  | |- spends _ (let _ := _ in _) _ _ => cbn zeta
  | |- spends _ (mbind _ _) _ _ => apply spends_bind
  | |- spends _ (wrapped _ _) _ _ => apply spends_wrapped
  | |- spends _ (outcome _) _ _ => apply spends_outcome
  | |- spends _ (deferred _ _) _ _ => apply spends_deferred
  | |- spends _ (mret _) _ _ => cbn [spends mret proc_ret]
  | |- spends _ (lift _) _ _ => unfold lift; cbn [spends]
  | |- spends _ (raise _) _ _ => unfold raise; cbn [spends]
  | |- spends _ (Done _) _ _ => cbn [spends]
  end; cbn beta iota.
