(* ===== verification/System.v ===== *)
(** The service as a whole: any number of use cases - workers, API requests,
    reconcilers - interleaved one port call at a time over one world, with
    crashes.  A claim makes its worker the only one that may call the provider,
    a notification is sent a bounded number of times, and rows move only along
    the state machine. *)

From S2P Require Import Prelude GoStrings Uuid Errors ValueObjects Notification Batch Template.
From S2P Require Import Ports RetryPolicy RepoSpec ProcessNotification CreateNotification.
From S2P Require Import CancelNotification Reconcile CreateBatch Queries TemplateUseCases.
From S2P Require Import Discipline.

(** What no operation on a row ever changes. *)
Definition payload (n : Notification) :=
  (ID n, NBatchID n, IdempotencyKey n, CorrelationID n,
   (NChannel n, NPriority n, Recipient n, Content n, ScheduledAt n, CreatedAt n)).

Section effects.
Context {DB Q PR RL BC : Type}.
Context `{StoreLaws DB, Queue Q, Provider PR, RateLimiter RL,
  StatusBroadcaster BC, Clock, IDGenerator}.
Local Abbreviation W := (World DB Q PR RL BC).
Implicit Types (w : W) (R : rowmap).

(** ** What a port call does to the rows *)
Definition cleared (n n' : Notification) : Prop := ∃ tid, n' = with_template tid n.
Definition touches {B} (o : op B) : res B → rowmap → rowmap → Prop :=
  match o in op B return res B → rowmap → rowmap → Prop with
  | repo_ClaimForProcessing nid now => λ r R R',
      match r with
      | Ok n => claim_effect nid now n R R'
      | Err _ => R' = R ∨ ∃ n, claim_effect nid now n R R'
      end
  | repo_UpdateStatus n src => λ _ R R', R' = R ∨ update_effect n src R R'
  | repo_Create n => λ _ R R', R' = R ∨ create_effect n R R'
  | batch_Create b => λ _ R R', R' = R ∨ creates_effect (batch_Notifications b) R R'
  | tmpl_Delete _ => λ _ R R', ∀ k, option_Forall2 cleared (R !! k) (R' !! k)
  | _ => λ _ R R', R' = R
  end.

Definition rows_sound R : Prop := ∀ k n, R !! k = Some n → attempts_ok n ∧ key (ID n) = Some k.

Lemma reads_rows {A} (c : M DB A) (db : DB) : reads c → wp c (λ _ db', rows db' = rows db) db.
Proof. intros Hc. apply Hc. Qed.

Lemma handle_touches {B} (o : op B) w :
  wp (handle o) (λ r w', touches o r (rows (w_db w)) (rows (w_db w'))) w.
Proof.
  destruct o; cbn [touches]; try done; uc_op; world_simpl; try done;
    try (by apply wp_intro).
  - wp_use create_law. intros [[]|e] db [_ Hr]; [by right|done].
  - wp_use get_law. by intros r db [[Hr _] _].
  - wp_use claim_law. intros [n|e] db [_ Hr]; [done|by destruct Hr as (_ & _ & Hr)].
  - wp_use update_law. intros [[]|e] db [_ Hr]; [by right|by destruct Hr as [_ Hr]].
  - apply reads_rows, list_reads.
  - wp_use orphaned_law. by intros r db [[Hr _] _].
  - wp_use stuck_processing_law. by intros r db [[Hr _] _].
  - wp_use overdue_law. by intros r db [[Hr _] _].
  - wp_use stuck_queued_law. by intros r db [[Hr _] _].
  - wp_use batch_create_law. intros [[]|e] db [_ Hr]; [by right|done].
  - apply reads_rows, batch_get_reads.
  - apply reads_rows, tmpl_create_frame.
  - apply reads_rows, tmpl_get_reads.
  - apply reads_rows, tmpl_get_by_name_reads.
  - apply reads_rows, tmpl_list_reads.
  - apply reads_rows, tmpl_update_frame.
  - wp_use tmpl_delete_frame. by intros r db [_ Hr].
  - wp_use append_law. by intros r db [Hr _].
  - apply reads_rows, log_list_reads.
Qed.

Lemma handle_plausible {B} (o : op B) w : rows_sound (rows (w_db w)) →
  wp (handle o) (λ r _, plausible o r) w.
Proof.
  intros Hs. destruct o; cbn [plausible]; try done; uc_op; try done; try (by apply wp_intro).
  - wp_use get_law. intros r db [_ Hr] n ->. destruct Hr as (k & _ & Hk). by apply Hs in Hk as [? _].
  - wp_use claim_law. intros r db [_ Hr] n ->.
    destruct Hr as (k & n0 & _ & Hk & _ & Hmax & -> & _). apply Hs in Hk as [Ha _].
    split; [done|]. unfold attempts_ok in *. simpl. lia.
  - wp_use orphaned_law. intros r db [_ Hr] l ->. destruct (Hr l eq_refl) as [_ Hl].
    eapply Forall_impl; [exact Hl|]. intros n ((k & Hk) & Hst & _). by apply Hs in Hk as [? _].
  - wp_use stuck_processing_law. intros r db [_ Hr] l ->. destruct (Hr l eq_refl) as [_ Hl].
    eapply Forall_impl; [exact Hl|]. intros n ((k & Hk) & Hst & _). by apply Hs in Hk as [? _].
Qed.

(** ** The ledger

  [sent k]: how often the provider was called for row [k]. *)
Implicit Types sent : uuid → Z.

Definition row_inv (sent_k : Z) (n : Notification) : Prop :=
  attempts_ok n ∧
  (NStatus n = StatusPending → sent_k = 0) ∧
  (claimable n → sent_k < defaultMaxAttempts ∧ sent_k ≤ Attempts n).
Definition ledger sent R : Prop :=
  (∀ k, 0 ≤ sent k ≤ defaultMaxAttempts) ∧
  (∀ k, R !! k = None → sent k = 0) ∧
  (∀ k n, R !! k = Some n → key (ID n) = Some k ∧ row_inv (sent k) n).

Definition key_of (g : hold) : option uuid := held g ≫= λ n, key (ID n).
(** The row of a held notification: still [processing] as claimed, or timed out. *)
Definition holds_row n m : Prop :=
  payload m = payload n ∧
  (NStatus m = StatusFailed ∨ NStatus m = StatusProcessing ∧ Attempts m = Attempts n).
Definition hold_inv sent R (g : hold) : Prop :=
  match g with
  | Idle => True
  | Claimed n => ∃ k m, key (ID n) = Some k ∧ R !! k = Some m ∧ holds_row n m ∧
      sent k < defaultMaxAttempts ∧ sent k < Attempts n
  | Sent n => ∃ k m, key (ID n) = Some k ∧ R !! k = Some m ∧ holds_row n m ∧ sent k ≤ Attempts n
  end.

Lemma hold_inv_row sent R g k : hold_inv sent R g → key_of g = Some k →
  ∃ m, R !! k = Some m ∧ (NStatus m = StatusProcessing ∨ NStatus m = StatusFailed).
Proof.
  destruct g as [|n|n]; [done|..]; intros (k' & m & Hk & Hm & (_ & Hst) & _) Hg;
    unfold key_of in Hg; simpl in Hg; simplify_eq; exists m; naive_solver.
Qed.
(** A hold stays as it is when its row does, up to what a hold looks at. *)
Lemma hold_inv_frame sent R sent' R' g : hold_inv sent R g →
  (∀ k m, key_of g = Some k → R !! k = Some m →
     sent' k = sent k ∧ ∃ m', R' !! k = Some m' ∧ ∀ n, holds_row n m → holds_row n m') →
  hold_inv sent' R' g.
Proof.
  intros Hg Hf. destruct g as [|n|n]; [done|..];
    destruct Hg as (k & m & Hk & Hm & Hrow & Hs);
    (destruct (Hf k m) as (Hsent & m' & Hm' & Hrow'); [by unfold key_of|done|]);
    exists k, m'; rewrite Hsent; split_and!; naive_solver.
Qed.
Lemma hold_inv_insert sent R g k m' : hold_inv sent R g → key_of g ≠ Some k →
  hold_inv sent (<[k := m']> R) g.
Proof.
  intros Hg Hne. eapply hold_inv_frame; [exact Hg|]. intros k' m Hk' Hm. split; [done|].
  exists m. rewrite lookup_insert_ne by congruence. done.
Qed.
Lemma unheld sent R g k m : hold_inv sent R g → R !! k = Some m →
  NStatus m ≠ StatusProcessing → NStatus m ≠ StatusFailed → key_of g ≠ Some k.
Proof. intros Hg Hm H1' H2' Hk. destruct (hold_inv_row _ _ _ _ Hg Hk) as (m' & Hm' & [?|?]); congruence. Qed.

Lemma ledger_insert sent R k m' : ledger sent R → key (ID m') = Some k → row_inv (sent k) m' →
  ledger sent (<[k := m']> R).
Proof.
  intros (H5' & Hnone & Hrows) Hk Hm. split_and!; [done|..].
  - intros k' Hk'. apply Hnone. by apply lookup_insert_None in Hk' as [? _].
  - intros k' n [[<- <-]|[Hne Hn]]%lookup_insert_Some; [done|by apply Hrows].
Qed.

(** What a call does to the ledger, to its own thread's hold [g'], and to any
    other thread's hold [h]. *)
Definition call_ok sent' R' (g' : hold) sent R (g : hold) : Prop :=
  ledger sent' R' ∧ hold_inv sent' R' g' ∧
  ∀ h, hold_inv sent R h → (∀ k, key_of g = Some k → key_of h ≠ Some k) →
    hold_inv sent' R' h ∧ (∀ k, key_of g' = Some k → key_of h ≠ Some k).

Lemma call_ok_same sent R g : ledger sent R → hold_inv sent R g → call_ok sent R g sent R g.
Proof. by unfold call_ok. Qed.
Lemma call_ok_drop sent' R' g' sent R g : call_ok sent' R' g' sent R g → call_ok sent' R' Idle sent R g.
Proof. intros (Hl & _ & Hh). split_and!; [done|done|]. intros h Hh1 Hh2. by split; [apply Hh|]. Qed.

Lemma claim_ok sent R R' nid now n : ledger sent R → claim_effect nid now n R R' →
  call_ok sent R' (Claimed n) sent R Idle.
Proof.
  intros Hl (k & n0 & Hk & Hn0 & Hc & Hmax & -> & ->). pose proof Hl as (_ & _ & Hrows).
  destruct (Hrows _ _ Hn0) as (Hk0 & Ha & _ & Hs). destruct (Hs Hc) as [Hlt Hle].
  assert (∀ h, hold_inv sent R h → key_of h ≠ Some k) as Hfree.
  { intros h Hh. eapply unheld; [done..| |]; destruct Hc as [-> | ->]; done. }
  split_and!.
  - apply ledger_insert; [done|done|]. split; [unfold attempts_ok in *; simpl; lia|].
    split; [done|]. by intros [|].
  - exists k, (claimed (stamp now) n0). rewrite lookup_insert_eq. split_and!; try done.
    + split; [done|]. by right.
    + simpl. lia.
  - intros h Hh _. split; [by apply hold_inv_insert; auto|].
    intros k' Hk'. unfold key_of in Hk'. simpl in Hk'. rewrite Hk0 in Hk'. simplify_eq. by apply Hfree.
Qed.

Lemma fsm_source s t : fsm s t → s ≠ StatusFailed.
Proof. by destruct 1. Qed.

Lemma payload_key n m : payload m = payload n → ID m = ID n.
Proof. unfold payload. congruence. Qed.

Lemma holds_row_settled src n n0 c : holds_row c n0 → NStatus n = StatusFailed →
  holds_row c (updated src n n0).
Proof. intros [Hp _] Hst. split; [exact Hp|by left]. Qed.

Lemma attempts_int32 n : attempts_ok n → int32 (Attempts n) = Attempts n.
Proof. intros Ha. apply int32_small. unfold attempts_ok, in_int32 in *. lia. Qed.

(** The row an update leaves keeps the row's part of the ledger. *)
Lemma updated_row_inv sent R g n src k n0 : ledger sent R → hold_inv sent R g →
  fsm src (NStatus n) → attempts_ok n → (src = StatusProcessing → may_settle g n) →
  key (ID n) = Some k → R !! k = Some n0 → NStatus n0 = src →
  row_inv (sent k) (updated stamp n n0).
Proof.
  intros (_ & _ & Hrows) Hg Hf Ha Hm Hk Hn0 Hsrc. destruct (Hrows _ _ Hn0) as (_ & _ & Hp & _).
  unfold row_inv, claimable, attempts_ok in *. simpl. rewrite attempts_int32 by done.
  split; [done|]. remember (NStatus n) as t eqn:Et.
  destruct Hf; (split; [done|intros [|]; try done]).
  - rewrite Hp by done. unfold defaultMaxAttempts. lia.
  - destruct (Hm eq_refl) as [Hfail|Hset]; [by rewrite Hfail in Et|].
    destruct g as [|c|c]; [done|..]; destruct Hg as (k' & m & Hk' & Hm' & _ & Hs).
    + destruct Hset as [Hid Hatt]. rewrite Hid in Hk'. simplify_eq. lia.
    + destruct Hset as (Hid & Hatt & Hlim). rewrite Hid in Hk'. simplify_eq.
      specialize (Hlim (eq_sym Et)). lia.
Qed.

Lemma guarded_update_ok sent R R' g n src r : ledger sent R → hold_inv sent R g →
  allowed g (repo_UpdateStatus n src) → update_effect n src R R' →
  call_ok sent R' (holds_after (repo_UpdateStatus n src) r g) sent R g.
Proof.
  intros Hl Hg (Hf & Ha & Hm) (k & n0 & Hk & Hn0 & Hsrc & ->).
  pose proof Hl as (_ & _ & Hrows). destruct (Hrows _ _ Hn0) as [Hk0 _].
  assert (ledger sent (<[k := updated stamp n n0]> R)) as Hl'.
  { apply ledger_insert; [done|done|]. by eapply updated_row_inv. }
  cbn [holds_after]. case_bool_decide as Hp.
  - split_and!; [done|done|]. intros h Hh Hne. split; [|done]. destruct (Hm Hp) as [Hst|Hst].
    + eapply hold_inv_frame; [exact Hh|]. intros k' m Hk' Hm'. split; [done|].
      destruct (decide (k' = k)) as [->|]; [|exists m; rewrite lookup_insert_ne by done; done].
      rewrite lookup_insert_eq. eexists. split; [done|]. simplify_eq. intros c Hc.
      by apply holds_row_settled.
    + apply hold_inv_insert; [done|]. apply Hne. unfold key_of.
      destruct g as [|c|c]; [done|..]; destruct Hst as [Hid _]; simpl; by rewrite Hid.
  - assert (∀ h, hold_inv sent R h → key_of h ≠ Some k) as Hfree.
    { intros h Hh. eapply unheld; [done..|congruence|]. rewrite Hsrc. by eapply fsm_source. }
    split_and!; [done|apply hold_inv_insert; auto|]. intros h Hh Hne.
    split; [apply hold_inv_insert; auto|done].
Qed.

Lemma create_ok sent R R' g n : ledger sent R → hold_inv sent R g → fresh_entity n →
  create_effect n R R' → call_ok sent R' g sent R g.
Proof.
  intros Hl Hg [Hst Ha] (k & Hk & Hnone & ->). pose proof Hl as (_ & Hzero & _).
  assert (∀ h, hold_inv sent R h → key_of h ≠ Some k) as Hfree.
  { intros h Hh Hhk. destruct (hold_inv_row _ _ _ _ Hh Hhk) as (m & Hm & _). congruence. }
  split_and!; [|apply hold_inv_insert; auto|].
  - apply ledger_insert; [done|by rewrite stored_key|].
    unfold row_inv, claimable, attempts_ok. rewrite stored_status, Hst, stored_attempts, Ha
      by (unfold in_int32; rewrite Ha; lia).
    split; [lia|]. split; [auto|]. by intros [|].
  - intros h Hh Hne. split; [apply hold_inv_insert; auto|done].
Qed.

Lemma call_ok_trans sent R g sent1 R1 g1 sent2 R2 g2 :
  call_ok sent1 R1 g1 sent R g → call_ok sent2 R2 g2 sent1 R1 g1 → call_ok sent2 R2 g2 sent R g.
Proof.
  intros (_ & _ & H1') (Hl & Hg & H2'). split_and!; [done|done|]. intros h Hh Hne.
  destruct (H1' h Hh Hne) as [? ?]. by apply H2'.
Qed.
Lemma creates_ok sent g l R R' : ledger sent R → hold_inv sent R g → Forall fresh_entity l →
  creates_effect l R R' → call_ok sent R' g sent R g.
Proof.
  intros Hl Hg Hf. revert R Hl Hg. induction Hf as [|n l Hn _ IH]; intros R Hl Hg; cbn [creates_effect].
  { intros ->. by apply call_ok_same. }
  intros (R1 & H1' & H2'). pose proof (create_ok _ _ _ _ _ Hl Hg Hn H1') as Hc.
  eapply call_ok_trans; [exact Hc|]. destruct Hc as (? & ? & _). by apply IH.
Qed.

Lemma cleared_holds_row c m m' : cleared m m' → holds_row c m → holds_row c m'.
Proof. intros [tid ->]. done. Qed.
Lemma cleared_ok sent R R' g : ledger sent R → hold_inv sent R g →
  (∀ k, option_Forall2 cleared (R !! k) (R' !! k)) → call_ok sent R' g sent R g.
Proof.
  intros Hl Hg Hc. pose proof Hl as (H5' & Hzero & Hrows).
  assert (∀ h, hold_inv sent R h → hold_inv sent R' h) as Hframe.
  { intros h Hh. eapply hold_inv_frame; [exact Hh|]. intros k m _ Hm. split; [done|].
    specialize (Hc k). rewrite Hm in Hc. inversion Hc as [? m' Hmm' E1 E2|]; subst.
    exists m'. split; [done|]. intros c. by apply cleared_holds_row. }
  split_and!; [|by apply Hframe|intros h Hh Hne; split; [by apply Hframe|done]].
  split_and!; [done|..]; intros k.
  - specialize (Hc k). intros Hk. apply Hzero. rewrite Hk in Hc. by inversion Hc.
  - intros n' Hn'. specialize (Hc k). rewrite Hn' in Hc.
    inversion Hc as [n ? [tid ->] E1 E2|]; subst. by apply (Hrows k n).
Qed.

(** One more call of the provider, for the row of [g]. *)
Definition sent_after (g : hold) sent : uuid → Z :=
  λ k, if bool_decide (key_of g = Some k) then sent k + 1 else sent k.
Lemma send_ok sent R n : ledger sent R → hold_inv sent R (Claimed n) →
  call_ok (sent_after (Claimed n) sent) R (Sent n) sent R (Claimed n).
Proof.
  intros Hl (k & m & Hk & Hm & Hrow & Hlt & Hle).
  assert (∀ k', sent_after (Claimed n) sent k' = if bool_decide (k' = k) then sent k + 1 else sent k') as Hsent.
  { intros k'. unfold sent_after, key_of. simpl. rewrite Hk.
    by repeat case_bool_decide; simplify_eq. }
  pose proof Hl as (H5' & Hzero & Hrows). split_and!.
  - split_and!; intros k'.
    + rewrite Hsent. pose proof (H5' k'). pose proof (H5' k). case_bool_decide; subst; lia.
    + rewrite Hsent. intros Hk'. rewrite bool_decide_false by congruence. auto.
    + intros n' Hn'. destruct (Hrows _ _ Hn') as [Hkey Hinv]. split; [done|]. rewrite Hsent.
      case_bool_decide; [|done]. subst. simplify_eq. destruct Hinv as (Ha & _). split; [done|].
      destruct Hrow as (_ & [Hst|[Hst _]]); unfold claimable; rewrite Hst; (split; [done|by intros [|]]).
  - exists k, m. split_and!; [done..|]. rewrite Hsent, bool_decide_true by done. lia.
  - intros h Hh Hne. split; [|exact Hne]. eapply hold_inv_frame; [exact Hh|].
    intros k' m' Hk' Hm'. split; [|eauto]. rewrite Hsent, bool_decide_false; [done|].
    intros ->. by apply (Hne k).
Qed.

Lemma call_ok_ext sent1 sent2 R' g' sent R g : (∀ k, sent1 k = sent2 k) →
  call_ok sent1 R' g' sent R g → call_ok sent2 R' g' sent R g.
Proof.
  intros Heq ((H5' & Hzero & Hrows) & Hg & Hh).
  assert (∀ h, hold_inv sent1 R' h → hold_inv sent2 R' h) as Hext.
  { intros h Hi. eapply hold_inv_frame; [exact Hi|]. eauto. }
  split_and!.
  - split_and!; intros k; rewrite <-Heq; auto.
  - auto.
  - intros h H1' H2'. destruct (Hh h H1' H2'). auto.
Qed.

Definition sends {B} (o : op B) : bool := match o with provider_Send _ _ _ _ => true | _ => false end.
(** Every call of the discipline keeps the books. *)
Lemma touches_ok {B} (o : op B) r R R' sent g : ledger sent R → hold_inv sent R g →
  allowed g o → touches o r R R' →
  call_ok (if sends o then sent_after g sent else sent) R' (holds_after o r g) sent R g.
Proof.
  intros Hl Hg Ha Ht. destruct o; cbn [sends touches] in *;
    try (subst R'; by apply call_ok_same).
  - destruct Ht as [->|Ht]; [by apply call_ok_same|by eapply create_ok].
  - cbn [allowed] in Ha. subst g. destruct r as [n|e]; [by eapply claim_ok|].
    destruct Ht as [->|[n Ht]]; [by apply call_ok_same|]. by eapply call_ok_drop, claim_ok.
  - destruct Ht as [->|Ht]; [|by eapply guarded_update_ok].
    cbn [holds_after]. case_bool_decide; [eapply call_ok_drop|]; by apply call_ok_same.
  - destruct Ht as [->|Ht]; [by apply call_ok_same|by eapply creates_ok].
  - by apply cleared_ok.
  - destruct Ha as (n & -> & _). subst R'. by apply send_ok.
Qed.

(** ** How rows move *)
Definition moves R R' : Prop := ∀ k,
  match R !! k, R' !! k with
  | Some n, Some n' => payload n' = payload n ∧ (NStatus n' = NStatus n ∨ fsm (NStatus n) (NStatus n'))
  | Some _, None => False
  | None, Some n' => NStatus n' = StatusPending
  | None, None => True
  end.
Lemma moves_refl R : moves R R.
Proof. intros k. destruct (R !! k); auto. Qed.
Lemma moves_insert R k n n' : R !! k = Some n → payload n' = payload n → fsm (NStatus n) (NStatus n') →
  moves R (<[k := n']> R).
Proof.
  intros Hk Hp Hf k'. destruct (decide (k' = k)) as [->|].
  - rewrite Hk, lookup_insert_eq. auto.
  - rewrite lookup_insert_ne by done. apply moves_refl.
Qed.
Lemma moves_create R R1 R2 n : create_effect n R R1 → NStatus n = StatusPending →
  moves R1 R2 → (∀ k m, R1 !! k = Some m → R2 !! k = Some m) → moves R R2.
Proof.
  intros (k & Hk & Hnone & ->) Hst Hm Hkeep k'. destruct (decide (k' = k)) as [->|].
  - rewrite Hnone, (Hkeep k (stored n)) by apply lookup_insert_eq. by rewrite stored_status.
  - specialize (Hm k'). by rewrite lookup_insert_ne in Hm.
Qed.
Lemma moves_creates l R R' : creates_effect l R R' → Forall fresh_entity l →
  moves R R' ∧ ∀ k m, R !! k = Some m → R' !! k = Some m.
Proof.
  intros Hc Hl. revert R Hc. induction Hl as [|n l [Hst _] _ IH]; intros R; cbn [creates_effect].
  { intros ->. split; [apply moves_refl|done]. }
  intros (R1 & H1' & H2'). destruct (IH _ H2') as [Hm Hkeep].
  split; [by eapply moves_create|]. intros k m Hk. apply Hkeep.
  destruct H1' as (k' & _ & Hnone & ->). rewrite lookup_insert_ne by congruence. done.
Qed.
Lemma claim_moves nid now n R R' : claim_effect nid now n R R' → moves R R'.
Proof.
  intros (k & n0 & _ & Hk & Hc & _ & -> & ->). eapply moves_insert; [done..|].
  destruct Hc as [-> | ->]; constructor.
Qed.

Lemma touches_moves {B} (o : op B) r R R' g : allowed g o → touches o r R R' → moves R R'.
Proof.
  intros Ha Ht. destruct o; cbn [touches] in *; try (subst R'; apply moves_refl).
  - destruct Ht as [->|Ht]; [apply moves_refl|]. destruct Ha as [Hst _].
    eapply moves_create; [done..|apply moves_refl|done].
  - destruct r as [n|e]; [|destruct Ht as [->|[n Ht]]];
      eauto using moves_refl, claim_moves.
  - destruct Ht as [->|(k & n0 & _ & Hk & Hsrc & ->)]; [apply moves_refl|].
    destruct Ha as [Hf _]. eapply moves_insert; [done..|]. by rewrite Hsrc.
  - destruct Ht as [->|Ht]; [apply moves_refl|]. by eapply moves_creates.
  - intros k. specialize (Ht k). inversion Ht as [n n' [tid ->]|]; auto.
Qed.
End effects.

(** ** The interleaved service *)
Section system.
Context {DB Q PR RL BC : Type}.
Context `{TextTemplate, StoreLaws DB, Queue Q, Provider PR, RateLimiter RL,
  StatusBroadcaster BC, Clock, IDGenerator}.
Local Abbreviation W := (World DB Q PR RL BC).

(** [s_sends] logs every call of the provider with the claim it was made under. *)
Record sys := mkSys {
  s_world : W;
  s_threads : list (hold * proc unit);
  s_sends : list (option Notification);
}.
Definition claim_of (g : hold) : option Notification :=
  match g with Claimed n => Some n | _ => None end.
Definition s_rows (s : sys) : rowmap := rows (w_db (s_world s)).

(** A request arrives (a task may be delivered any number of times); a thread
    makes its next port call; a thread crashes between two calls; anything
    else happens that leaves the notification rows alone. *)
Inductive step : sys → sys → Prop :=
| step_start w ts ss (r : request) :
    step (mkSys w ts ss) (mkSys w (ts ++ [(Idle, program r)]) ss)
| step_call w ts ss i g B (o : op B) k r w' :
    ts !! i = Some (g, Call o k) → handle o w = (r, w') →
    step (mkSys w ts ss)
      (mkSys w' (<[i := (holds_after o r g, k r)]> ts) (if sends o then ss ++ [claim_of g] else ss))
| step_crash w ts ss i e :
    step (mkSys w ts ss) (mkSys w (<[i := (Idle, Done (Err e))]> ts) ss)
| step_env w ts ss w' : rows (w_db w') = rows (w_db w) →
    step (mkSys w ts ss) (mkSys w' ts ss).

Definition initial (w : W) : sys := mkSys w [] [].
Definition reachable (w0 : W) (s : sys) : Prop := rtc step (initial w0) s.

(** The steps, executed: a request arrives; thread [i] makes its next call. *)
Definition spawn (r : request) (s : sys) : sys :=
  mkSys (s_world s) (s_threads s ++ [(Idle, program r)]) (s_sends s).
Definition advance (i : nat) (s : sys) : sys :=
  match s_threads s !! i with
  | Some (g, Call o k) =>
      let '(r, w) := handle o (s_world s) in
      mkSys w (<[i := (holds_after o r g, k r)]> (s_threads s))
        (if sends o then s_sends s ++ [claim_of g] else s_sends s)
  | _ => s
  end.
(** The arguments of the provider call a program is about to make. *)
Definition next_send {A} (c : proc A) : option (context * Channel * string * string) :=
  match c with
  | Call (provider_Send ctx ch rcpt content) _ => Some (ctx, ch, rcpt, content)
  | _ => None
  end.

Definition for_row (k : uuid) (o : option Notification) : bool :=
  match o with Some n => bool_decide (key (ID n) = Some k) | None => false end.
Definition sent_of (ss : list (option Notification)) (k : uuid) : Z :=
  Z.of_nat (length (filter (λ o, for_row k o = true) ss)).

Definition thread_ok (sent : uuid → Z) (R : rowmap) (t : hold * proc unit) : Prop :=
  safe t.2 t.1 ends ∧ hold_inv sent R t.1.
(** No two threads hold the same row. *)
Definition exclusive (ts : list (hold * proc unit)) : Prop := ∀ i j t u k,
  ts !! i = Some t → ts !! j = Some u → i ≠ j → key_of t.1 = Some k → key_of u.1 ≠ Some k.
Definition inv (s : sys) : Prop :=
  let sent := sent_of (s_sends s) in
  ledger sent (s_rows s) ∧ Forall (thread_ok sent (s_rows s)) (s_threads s) ∧
  exclusive (s_threads s) ∧ Forall is_Some (s_sends s).

Lemma spawn_steps w0 r s : reachable w0 s → reachable w0 (spawn r s).
Proof. intros Hs. eapply rtc_r; [exact Hs|]. destruct s. constructor. Qed.
Definition can_call (i : nat) (s : sys) : bool :=
  match s_threads s !! i with Some (_, Call _ _) => true | _ => false end.
Lemma advance_step i s : can_call i s = true → step s (advance i s).
Proof.
  unfold can_call, advance. destruct s as [w1 ts ss]. cbn [s_threads s_world s_sends].
  destruct (ts !! i) as [[g [r|B o k]]|] eqn:E; [done| |done]. intros _.
  destruct (handle o w1) as [r w] eqn:Er. by eapply step_call.
Qed.
Lemma advance_steps w0 i s : reachable w0 s → reachable w0 (advance i s).
Proof.
  intros Hs. destruct (can_call i s) eqn:E; [by eapply rtc_r, advance_step|].
  unfold can_call, advance in *. by destruct (s_threads s !! i) as [[g [r|B o k]]|].
Qed.
Lemma next_send_Call {A} (c : proc A) ctx ch rcpt content :
  next_send c = Some (ctx, ch, rcpt, content) → ∃ k, c = Call (provider_Send ctx ch rcpt content) k.
Proof. destruct c as [r|B o k]; [done|]. destruct o; try done. intros [= -> -> -> ->]. by exists k. Qed.

Lemma exclusive_idle ts c : exclusive ts → exclusive (ts ++ [(Idle, c)]).
Proof.
  intros He i j t u k Ht Hu Hij Hk Hk'.
  apply lookup_snoc_Some in Ht as [[Hi Ht]|[-> <-]]; [|done].
  apply lookup_snoc_Some in Hu as [[Hj Hu]|[-> <-]]; [|done].
  by eapply (He i j).
Qed.
(** A thread changes its hold to [g'], which no other thread holds. *)
Lemma exclusive_insert ts i t : exclusive ts →
  (∀ j u k, ts !! j = Some u → i ≠ j → key_of t.1 = Some k → key_of u.1 ≠ Some k) →
  exclusive (<[i := t]> ts).
Proof.
  intros He Hi j1 j2 t1 t2 k H1' H2' Hne Hk Hk'.
  apply list_lookup_insert_Some in H1' as [(-> & -> & ?)|[Hn1 H1']];
    apply list_lookup_insert_Some in H2' as [(-> & -> & ?)|[Hn2 H2']]; [done|..].
  - by eapply (Hi j2).
  - by eapply (Hi j1).
  - by eapply (He j1 j2).
Qed.

Lemma sent_of_snoc ss n k : sent_after (Claimed n) (sent_of ss) k = sent_of (ss ++ [Some n]) k.
Proof.
  unfold sent_after, sent_of, key_of. simpl. rewrite filter_app, length_app, filter_cons, filter_nil.
  cbn [for_row]. repeat case_bool_decide; try congruence; simpl; lia.
Qed.

Lemma ledger_sound sent R : ledger sent R → rows_sound R.
Proof. intros (_ & _ & Hr) k n Hk. by destruct (Hr k n Hk) as (? & ? & _). Qed.

(** One port call of a disciplined thread. *)
Lemma call_books {B} (o : op B) k g w r w' ss : handle o w = (r, w') →
  thread_ok (sent_of ss) (rows (w_db w)) (g, Call o k) →
  ledger (sent_of ss) (rows (w_db w)) →
  let ss' := if sends o then ss ++ [claim_of g] else ss in
  safe (k r) (holds_after o r g) ends ∧
  call_ok (sent_of ss') (rows (w_db w')) (holds_after o r g) (sent_of ss) (rows (w_db w)) g ∧
  moves (rows (w_db w)) (rows (w_db w')) ∧ (Forall is_Some ss → Forall is_Some ss').
Proof.
  intros Hr [[Ha Hk] Hg] Hl ss'. cbn [fst snd] in Ha, Hk, Hg.
  pose proof (wp_run _ _ _ _ _ (handle_touches o w) Hr) as Ht.
  pose proof (wp_run _ _ _ _ _ (handle_plausible o w (ledger_sound _ _ Hl)) Hr) as Hp.
  pose proof (touches_ok o r _ _ _ g Hl Hg Ha Ht) as Hc.
  split; [by apply Hk|]. split; [|split; [exact (touches_moves o r _ _ g Ha Ht)|]].
  - unfold ss'. destruct (sends o) eqn:E; [|done]. eapply call_ok_ext; [|exact Hc].
    destruct o; try done. destruct Ha as (n & -> & _). intros k'. apply sent_of_snoc.
  - unfold ss'. destruct (sends o) eqn:E; [|done]. destruct o; try done.
    destruct Ha as (n & -> & _). intros Hs. apply Forall_app. split; [done|]. by repeat constructor.
Qed.

Lemma step_inv s s' : inv s → step s s' → inv s' ∧ moves (s_rows s) (s_rows s').
Proof.
  intros (Hl & Hts & He & Hs) Hstep. destruct Hstep as [w ts ss r|w ts ss i g B o k r w' Hi Hr|w ts ss i e|w ts ss w' Hw];
    unfold s_rows in *; cbn [s_world s_threads s_sends] in *.
  - split; [|apply moves_refl]. split_and!; [done| |by apply exclusive_idle|done].
    apply Forall_app. split; [done|]. repeat constructor. apply program_safe.
  - pose proof (Forall_lookup_1 _ _ _ _ Hts Hi) as Hti.
    destruct (call_books o k g w r w' ss Hr Hti Hl) as (Hk & (Hl' & Hg' & Hh) & Hm & Hs').
    split; [|done].
    assert (∀ j u, ts !! j = Some u → i ≠ j → thread_ok (sent_of (if sends o then ss ++ [claim_of g] else ss))
      (rows (w_db w')) u ∧ ∀ k, key_of (holds_after o r g) = Some k → key_of u.1 ≠ Some k) as Hothers.
    { intros j u Hu Hij. destruct (Forall_lookup_1 _ _ _ _ Hts Hu) as [Hsu Hhu].
      destruct (Hh u.1 Hhu) as [? ?]; [|done]. intros k' Hk'. by eapply (He i j). }
    split_and!; [done| |apply exclusive_insert; [done|by intros j u k' Hu Hij; apply (Hothers j u)]|auto].
    apply Forall_lookup. intros j u [(-> & <- & _)|[Hij Hu]]%list_lookup_insert_Some; [by split|].
    by apply (Hothers j u).
  - split; [|apply moves_refl]. split_and!; [done| | |done].
    + apply Forall_insert; [done|]. by split.
    + apply exclusive_insert; [done|]. done.
  - unfold inv, s_rows. cbn [s_world s_threads s_sends]. rewrite Hw.
    split; [by split_and!|apply moves_refl].
Qed.

(** Rows with an attempt counter that an execution may start from. *)
Definition counters_ok (w : W) : Prop := ∀ k n, rows (w_db w) !! k = Some n → attempts_ok n.

Lemma initial_inv w : counters_ok w → inv (initial w).
Proof.
  intros Hw. split_and!; [|constructor|by intros ? ?|constructor].
  split_and!; [done|done|]. intros k n Hn. split; [by eapply rows_keyed|].
  pose proof (Hw _ _ Hn) as [? ?]. by split.
Qed.
Lemma steps_inv s s' : inv s → rtc step s s' → inv s'.
Proof. intros Hi Hs. induction Hs as [|s1 s2 s3 Hs _ IH]; [done|]. by apply IH, (step_inv s1). Qed.
Lemma reachable_inv w0 s : counters_ok w0 → reachable w0 s → inv s.
Proof. intros Hw. by apply steps_inv, initial_inv. Qed.

Lemma moves_terminal R R' k n : moves R R' → R !! k = Some n → Status_IsTerminal (NStatus n) = true →
  ∃ n', R' !! k = Some n' ∧ NStatus n' = NStatus n ∧ payload n' = payload n.
Proof.
  intros Hm Hk Ht. specialize (Hm k). rewrite Hk in Hm. destruct (R' !! k) as [n'|]; [|done].
  exists n'. destruct Hm as [Hp [Hst|Hf]]; [done|]. by destruct Hf.
Qed.
Lemma steps_terminal s s' k n : inv s → rtc step s s' → s_rows s !! k = Some n →
  Status_IsTerminal (NStatus n) = true →
  ∃ n', s_rows s' !! k = Some n' ∧ NStatus n' = NStatus n ∧ payload n' = payload n.
Proof.
  intros Hi Hs. revert n. induction Hs as [|s1 s2 s3 Hs _ IH]; intros n Hk Ht; [by exists n|].
  destruct (step_inv _ _ Hi Hs) as [Hi2 Hm].
  destruct (moves_terminal _ _ _ _ Hm Hk Ht) as (n2 & Hk2 & Hst2 & Hp2).
  destruct (IH Hi2 n2 Hk2) as (n3 & Hk3 & Hst3 & Hp3); [by rewrite Hst2|].
  exists n3. by rewrite Hst3, Hp3.
Qed.

(** A row of status processing or failed that carries the payload of [n]. *)
Definition under_claim (n : Notification) (s : sys) (k : uuid) : Prop :=
  ∃ m, s_rows s !! k = Some m ∧ payload m = payload n ∧
    (NStatus m = StatusProcessing ∨ NStatus m = StatusFailed).
Definition others_free (s : sys) (i : nat) (k : uuid) : Prop :=
  ∀ j u, s_threads s !! j = Some u → j ≠ i → key_of u.1 ≠ Some k.

(** C1. Whatever the interleaving of workers (with duplicated deliveries),
    API requests, reconciler passes and crashes: a thread about to call the
    provider holds a claim it has not yet used; it sends exactly the channel,
    recipient and content of the row that claim returned, which the store
    still has (processing, or timed out by the reconciler); and no other
    thread holds a claim on that row. *)
Theorem send_needs_exclusive_claim w0 s i g c ctx ch rcpt content :
  counters_ok w0 → reachable w0 s →
  s_threads s !! i = Some (g, c) → next_send c = Some (ctx, ch, rcpt, content) →
  ∃ n key_n, g = Claimed n ∧ ch = NChannel n ∧ rcpt = Recipient n ∧ content = Content n ∧
    key (ID n) = Some key_n ∧ under_claim n s key_n ∧ others_free s i key_n.
Proof.
  intros Hw (_ & Hts & He & _)%reachable_inv Hi [k ->]%next_send_Call; [|done].
  destruct (Forall_lookup_1 _ _ _ _ Hts Hi) as [[Ha _] Hg]. cbn [fst snd] in Ha, Hg.
  destruct Ha as (n & -> & -> & -> & ->).
  destruct Hg as (key_n & m & Hk & Hm & [Hp Hst] & _). exists n, key_n. split_and!; try done.
  - exists m. destruct Hst as [?|[? _]]; auto.
  - intros j u Hj Hne. by eapply (He i j).
Qed.

(** C2. In any execution the provider is called at most five times for one
    notification - [defaultMaxAttempts] - and never outside a claim, however
    often its task is delivered and whichever workers crash in between. *)
Theorem sends_bounded w0 s k : counters_ok w0 → reachable w0 s →
  sent_of (s_sends s) k ≤ 5 ∧ Forall is_Some (s_sends s).
Proof. intros Hw ((H5' & _) & _ & _ & Hs)%reachable_inv; [|done]. split; [apply H5'|done]. Qed.

(** C6. Every step of the service moves every row along the domain's state
    machine or not at all: no row is deleted, new rows are pending, and what
    the client asked for never changes. *)
Theorem rows_follow_the_state_machine w0 s s' : counters_ok w0 → reachable w0 s → step s s' →
  moves (s_rows s) (s_rows s').
Proof. intros Hw Hr Hs. apply (step_inv s s'); [by eapply reachable_inv|done]. Qed.

(** C8. A delivered, failed or cancelled notification stays so for ever. *)
Theorem terminal_rows_stay w0 s s' k n : counters_ok w0 → reachable w0 s → rtc step s s' →
  s_rows s !! k = Some n → Status_IsTerminal (NStatus n) = true →
  ∃ n', s_rows s' !! k = Some n' ∧ NStatus n' = NStatus n ∧ payload n' = payload n.
Proof. intros Hw Hr. apply steps_terminal. by eapply reachable_inv. Qed.
End system.
