(* ===== verification/Budget.v ===== *)
(** Termination with a bound: how many port calls a request makes at most,
    whatever its ports answer, and what follows for the interleaved service -
    a thread that was scheduled that often has finished. *)

From S2P Require Import Prelude GoStrings Uuid Errors ValueObjects Notification Batch Template.
From S2P Require Import Ports RetryPolicy RepoSpec ProcessNotification CreateNotification.
From S2P Require Import CancelNotification Reconcile CreateBatch Queries TemplateUseCases.
From S2P Require Import Sql Postgres PostgresSpec Discipline System Accounting.

(** A page holds at most [limit] rows, for a limit the protocol can carry. *)
Definition page {A} (limit : Z) (r : res (list A)) : Prop :=
  ∀ l, in_int32 limit → r = Ok l → Z.of_nat (length l) ≤ limit.
(** The account: every call costs one; the sweeps' queries return pages. *)
Definition paged {B} (o : op B) : res B → Prop :=
  match o in op B return res B → Prop with
  | repo_FindOrphanedPending _ l | repo_FindStuckProcessing _ l
  | repo_FindOverdueRetrying _ l | repo_FindStuckQueued _ l => page l
  | _ => λ _, True
  end.
Definition budget : account Z :=
  mkAccount (λ B o n, 1 ≤ n) (λ B o n r, n - 1) (λ B o n, paged o).
(** [c] finishes from the balance [n], whatever its ports answer, and [Q]
    holds of what is left and of the result. *)
Abbreviation within c n Q := (spends budget c n Q).

Lemma within_call {B} (o : op B) n (Q : Z → res B → Prop) : 1 ≤ n →
  (∀ r, paged o r → Q (n - 1) r) → within (call o) n Q.
Proof.
  intros Hn HQ. by apply (spends_call budget).
Qed.
Lemma within_observe (b : bool) o n (Q : Z → res unit → Prop) : 1 ≤ n →
  (∀ m r, n - 1 ≤ m → Q m r) → within (when b (call (observe o))) n Q.
Proof.
  intros Hn HQ. apply spends_when; intros _; [|apply HQ; lia].
  apply within_call; [done|]. intros r _. apply HQ. lia.
Qed.
Lemma within_StartSpan uc name n (Q : Z → res nat → Prop) : 1 ≤ n →
  (∀ m r, n - 1 ≤ m → Q m r) → within (StartSpan uc name) n Q.
Proof.
  intros Hn HQ. unfold StartSpan. destruct (pn_tracer uc); [|apply HQ; lia].
  apply within_call; [done|]. intros r _. apply HQ. lia.
Qed.

Ltac budget_step :=
  first [ spend_struct
  | lazymatch goal with
    | |- within (when _ (call (observe _))) _ _ => apply within_observe; [lia|intros ? [[]|?] ?]
    | |- within (emit _ _) _ _ => apply within_observe; [lia|intros ? [[]|?] ?]
    | |- within (span _ _) _ _ => apply within_observe; [lia|intros ? [[]|?] ?]
    | |- within (StartSpan _ _) _ _ => apply within_StartSpan; [lia|intros ? [?|?] ?]
    | |- within (logProcessingOutcome _ _ _ _ _) _ _ => apply within_call; [lia|intros [[]|?] _]
    | |- within (call _) _ _ => apply within_call; [lia|intros [?|?] _]
    | |- within (entity _ _) _ _ => apply spends_entity; [intros ? _|intros ?]
    end ]; cbn beta iota.
Ltac budget_steps := repeat budget_step.

Section usecases.
(** The helpers. *)
Lemma within_append_event b a n ev now k (Q : Z → res unit → Prop) : 2 ≤ k →
  (∀ m r, k - 2 ≤ m → Q m r) → within (append_event b a n ev now) k Q.
Proof.
  intros Hk HQ. unfold append_event. budget_steps; try (apply HQ; lia).
  destruct (NewNotificationLog _ _ _ _ _ _); budget_steps; apply HQ; lia.
Qed.
Lemma within_recordEvent n ev k (Q : Z → res unit → Prop) : 4 ≤ k →
  (∀ m r, k - 4 ≤ m → Q m r) → within (recordEvent n ev) k Q.
Proof.
  intros Hk HQ. unfold recordEvent. budget_steps; try (apply HQ; lia).
  destruct (NewNotificationLog _ _ _ _ _ _); budget_steps; apply HQ; lia.
Qed.

(** At least [k] calls are left. *)
Definition leaves {A} (k : Z) : Z → res A → Prop := λ m _, k ≤ m.

Ltac budget_help :=
  first [ budget_step
  | lazymatch goal with
    | |- within (recordEvent _ _) _ _ => apply within_recordEvent; [lia|intros ? [[]|?] ?]
    | |- within (append_event _ _ _ _ _) _ _ => apply within_append_event; [lia|intros ? [[]|?] ?]
    | |- leaves _ _ _ => unfold leaves; lia
    end ]; cbn beta iota.
Ltac budget_all := repeat budget_help.

Lemma within_applyResult uc ctx n result start k : 9 ≤ k →
  within (applyResult uc ctx n result start) k (leaves (k - 9)).
Proof.
  intros Hk. unfold applyResult, markDelivered, markFailed, markRetrying. budget_all.
  destruct (Success result); [|destruct (negb _ || _)]; budget_all.
Qed.
Lemma within_send uc ctx n k (Q : Z → res DeliveryResult → Prop) : 7 ≤ k →
  (∀ m r, k - 7 ≤ m → Q m r) → within (send uc ctx n) k Q.
Proof. intros Hk HQ. unfold send. budget_all; apply HQ; lia. Qed.
Lemma within_ProcessNotification uc ctx nid k : 24 ≤ k →
  within (ProcessNotification_Execute uc ctx nid) k (leaves (k - 24)).
Proof.
  intros Hk. unfold ProcessNotification_Execute. budget_all; [|destruct (errors_Is _ _); budget_all].
  unfold deliver, rescheduleForRateLimit. budget_all. destruct (negb _); budget_all.
  apply within_send; [lia|]. intros ? [result|e] ?; budget_all.
  eapply spends_mono; [apply within_applyResult; lia|]. unfold leaves. lia.
Qed.

Lemma within_resolveCorrelation s k (Q : Z → res string → Prop) : 1 ≤ k →
  (∀ m r, k - 1 ≤ m → Q m r) → within (resolveCorrelation s) k Q.
Proof.
  intros Hk HQ. unfold resolveCorrelation.
  case_bool_decide; [budget_all; apply HQ; lia|apply HQ; lia].
Qed.
Lemma within_resolveContent `{TextTemplate} inp k (Q : Z → res string → Prop) : 1 ≤ k →
  (∀ m r, k - 1 ≤ m → Q m r) → within (resolveContent inp) k Q.
Proof.
  intros Hk HQ. unfold resolveContent, renderTemplate.
  destruct (cn_TemplateID inp); [case_bool_decide|]; budget_all; try (apply HQ; lia).
  destruct (Template_Render _ _); apply HQ; lia.
Qed.
Lemma within_persist uc n now k : 8 ≤ k → within (persist uc n now) k (leaves (k - 8)).
Proof. intros Hk. unfold persist, enqueue, markQueued. budget_all. destruct (ScheduledAt n); budget_all. Qed.
Lemma within_CreateNotification `{TextTemplate} uc inp k : 12 ≤ k →
  within (CreateNotification_Execute uc inp) k (leaves (k - 12)).
Proof.
  intros Hk. unfold CreateNotification_Execute. budget_all. destruct (NewChannel _); budget_all.
  destruct (NewPriority _); budget_all. apply within_resolveCorrelation; [lia|].
  intros ? [corr|e] ?; budget_all. apply within_resolveContent; [lia|].
  intros ? [content|e] ?; budget_all. destruct (NewNotification _ _); budget_all.
  eapply spends_mono; [apply within_persist; lia|]. unfold leaves. lia.
Qed.
Lemma within_ScheduleNotification `{TextTemplate} uc inp k : 13 ≤ k →
  within (ScheduleNotification_Execute uc inp) k (leaves (k - 13)).
Proof.
  intros Hk. unfold ScheduleNotification_Execute. budget_all. destruct (negb _); budget_all.
  eapply spends_mono; [apply within_CreateNotification; lia|]. unfold leaves. lia.
Qed.
Lemma within_CancelNotification nid k : 6 ≤ k →
  within (CancelNotification_Execute nid) k (leaves (k - 6)).
Proof. intros Hk. unfold CancelNotification_Execute. budget_all. Qed.

(** A batch: one id per item, seven calls per member. *)
Lemma within_buildNotifications items corr now k (Q : Z → res (list Notification) → Prop) :
  Z.of_nat (length items) ≤ k →
  (∀ m r, k - Z.of_nat (length items) ≤ m → (∀ l, r = Ok l → length l = length items) → Q m r) →
  within (buildNotifications items corr now) k Q.
Proof.
  revert k Q. induction items as [|item items IH]; intros k Q Hk HQ; cbn [buildNotifications length] in *.
  { apply HQ; [lia|]. by intros l [= <-]. }
  unfold buildNotification, wrapItemErr. budget_all.
  destruct (NewChannel _); budget_all; [|apply HQ; [lia|done]].
  destruct (NewPriority _); budget_all; [|apply HQ; [lia|done]..].
  destruct (NewNotification _ now); budget_all; [|apply HQ; [lia|done]].
  apply IH; [lia|]. intros ? [l|e] ? Hl; budget_all; (apply HQ; [lia|]); [|done].
  intros ? [= <-]. by rewrite <-(Hl l).
Qed.
Lemma within_enqueueMembers uc now l k : 7 * Z.of_nat (length l) ≤ k →
  within (enqueueMembers uc now l) k (leaves (k - 7 * Z.of_nat (length l))).
Proof.
  revert k. induction l as [|n l IH]; intros k Hk; cbn [enqueueMembers length] in *; [unfold leaves; simpl; lia|].
  unfold enqueueMember, recordCreated, recordQueued. budget_all.
  all: eapply spends_mono; [apply IH; lia|]; unfold leaves; intros ? [?|?]; simpl; lia.
Qed.
Lemma NewBatch_length inp now b : NewBatch inp now = Ok b →
  length (batch_Notifications b) = length (nb_Notifications inp).
Proof. unfold NewBatch. intros E. repeat case_match; simplify_eq/=. by rewrite length_map. Qed.
Lemma within_CreateBatch uc inp k : 4 + 8 * Z.of_nat (length (cb_Notifications inp)) ≤ k →
  within (CreateBatch_Execute uc inp) k (leaves (k - (4 + 8 * Z.of_nat (length (cb_Notifications inp))))).
Proof.
  intros Hk. unfold CreateBatch_Execute. budget_all. apply within_resolveCorrelation; [lia|].
  intros ? [corr|e] ?; budget_all. apply within_buildNotifications; [lia|].
  intros ? [l|e] ? Hl; budget_all. specialize (Hl l eq_refl).
  destruct (NewBatch _ _) as [b|e] eqn:Hb; budget_all. apply NewBatch_length in Hb. simpl in Hb.
  eapply spends_mono; [apply within_enqueueMembers; lia|]. unfold leaves. intros ? [?|?]; simpl; lia.
Qed.

(** A sweep: one query, then at most [c] calls for each of its 100 rows. *)
Lemma within_sweep_rows handler c l d k : 0 ≤ c →
  (∀ n k, c ≤ k → within (handler n) k (leaves (k - c))) → c * Z.of_nat (length l) ≤ k →
  within (sweep_rows handler l d) k (leaves (k - c * Z.of_nat (length l))).
Proof.
  intros Hc Hh. revert k d. induction l as [|n l IH]; intros k d Hk; cbn [sweep_rows length] in *;
    [unfold leaves; simpl; lia|].
  apply spends_bind, spends_outcome. eapply spends_mono; [apply Hh; lia|].
  unfold leaves. intros m [[]|e] Hm; [|simpl; lia].
  eapply spends_mono; [apply IH; lia|]. unfold leaves. lia.
Qed.
Lemma within_sweep label find handler c k :
  (∀ r, paged find r → page reconcilerBatchSize r) → 0 ≤ c →
  (∀ n k, c ≤ k → within (handler n) k (leaves (k - c))) → 1 + c * 100 ≤ k →
  within (sweep label find handler) k (leaves (k - (1 + c * 100))).
Proof.
  intros Hf Hc Hh Hk. unfold sweep. apply spends_bind, spends_outcome, within_call; [lia|].
  intros [l|e] Hr%Hf; [|unfold leaves; simpl; lia]. specialize (Hr l ltac:(done) eq_refl). unfold reconcilerBatchSize in Hr.
  eapply spends_mono; [apply (within_sweep_rows handler c); [done|done|nia]|]. unfold leaves. nia.
Qed.
Lemma within_Reconcile k : 905 ≤ k → within Reconcile_Execute k (leaves (k - 905)).
Proof.
  intros Hk. unfold Reconcile_Execute. budget_all.
  eapply spends_mono; [apply (within_sweep _ _ _ 4); [done|done| |lia]|].
  { intros n b Hb. unfold handleOrphanedPending, reconcile_recordEvent, reenqueue. budget_all. }
  intros b1 [[n1 [e|]]|e] H1; unfold leaves in H1; budget_all.
  eapply spends_mono; [apply (within_sweep _ _ _ 3); [done|done| |lia]|].
  { intros n b Hb. unfold handleStuckProcessing, reconcile_recordEvent. budget_all. }
  intros b2 [[n2 [e|]]|e] H2; unfold leaves in H2; budget_all.
  eapply spends_mono; [apply (within_sweep _ _ _ 1); [done|done| |lia]|].
  { intros n b Hb. unfold handleOverdueRetrying, reenqueue. budget_all. }
  intros b3 [[n3 [e|]]|e] H3; unfold leaves in H3; budget_all.
  eapply spends_mono; [apply (within_sweep _ _ _ 1); [done|done| |lia]|].
  { intros n b Hb. unfold handleStuckQueued, reenqueue. budget_all. }
  intros b4 [[n4 err]|e] H4; unfold leaves in H4; budget_all.
Qed.

Lemma within_ListNotifications inp k : 1 ≤ k → within (ListNotifications_Execute inp) k (leaves (k - 1)).
Proof.
  intros Hk. unfold ListNotifications_Execute. budget_all.
  destruct (parse_filter _ _); budget_all. destruct (parse_filter _ _); budget_all.
Qed.
Lemma within_GetNotificationTrace nid k : 2 ≤ k →
  within (GetNotificationTrace_Execute nid) k (leaves (k - 2)).
Proof. intros Hk. unfold GetNotificationTrace_Execute. budget_all. Qed.
Lemma within_CreateTemplate `{TextTemplate} inp k : 3 ≤ k →
  within (CreateTemplate_Execute inp) k (leaves (k - 3)).
Proof.
  intros Hk. unfold CreateTemplate_Execute. budget_all. destruct (NewChannel _); budget_all.
  destruct (NewTemplate _ _); budget_all.
Qed.
Lemma within_ReplaceTemplate `{TextTemplate} inp k : 3 ≤ k →
  within (ReplaceTemplate_Execute inp) k (leaves (k - 3)).
Proof.
  intros Hk. unfold ReplaceTemplate_Execute. budget_all. destruct (NewChannel _); budget_all.
  destruct (NewTemplate _ _); budget_all.
Qed.
Lemma within_RenderTemplate `{TextTemplate} inp k : 1 ≤ k →
  within (RenderTemplate_Execute inp) k (leaves (k - 1)).
Proof. intros Hk. unfold RenderTemplate_Execute. budget_all. destruct (Template_Render _ _); budget_all. Qed.
Lemma within_one {B} (o : op B) k : 1 ≤ k → within (call o) k (leaves (k - 1)).
Proof. intros Hk. budget_all. Qed.

(** The bound of every request. *)
Definition max_calls (r : request) : Z :=
  match r with
  | Process _ _ _ => 24
  | Create _ _ => 12
  | Schedule _ _ => 13
  | CancelRequest _ => 6
  | CreateBatchRequest _ inp => 4 + 8 * Z.of_nat (length (cb_Notifications inp))
  | ReconcilePass => 905
  | TraceRequest _ => 2
  | CreateTemplateRequest _ | ReplaceTemplateRequest _ => 3
  | ListRequest _ | GetRequest _ | GetBatchRequest _ | GetTemplateRequest _
  | ListTemplatesRequest _ | DeleteTemplateRequest _ | RenderTemplateRequest _ => 1
  end.
Lemma within_discard {A} (c : proc A) k j : within c k (leaves j) → within (discard c) k (leaves j).
Proof. intros Hc. apply spends_then. eapply spends_mono; [exact Hc|]. by intros m [?|?]. Qed.
Lemma within_ListTemplates inp k : 1 ≤ k → within (ListTemplates_Execute inp) k (leaves (k - 1)).
Proof. intros Hk. unfold ListTemplates_Execute. budget_all. Qed.
#[local] Hint Resolve within_ProcessNotification within_CreateNotification within_ScheduleNotification
  within_CancelNotification within_CreateBatch within_Reconcile within_ListNotifications
  within_GetNotificationTrace within_CreateTemplate within_ReplaceTemplate within_RenderTemplate
  within_ListTemplates within_one : core.
Lemma within_program `{TextTemplate} r : within (program r) (max_calls r) (leaves 0).
Proof.
  eapply spends_mono with (Q := leaves (max_calls r - max_calls r)); [|unfold leaves; lia].
  destruct r; cbn [program max_calls]; try apply within_discard; eauto using Z.le_refl.
  all: by apply within_one.
Qed.
End usecases.

(** ** The repository's part: its queries have a LIMIT *)
Class PagedFinds (DB : Type) `{NotificationRepository DB} := paged_finds : ∀ t limit (db : DB),
  page limit (Repo_FindOrphanedPending t limit db).1 ∧ page limit (Repo_FindStuckProcessing t limit db).1 ∧
  page limit (Repo_FindOverdueRetrying t limit db).1 ∧ page limit (Repo_FindStuckQueued t limit db).1.

Section postgres.
Context `{ServerLaws, PgtypeUUID, DetailsCodec, CursorTime}.
Lemma pg_find_page label P R `{∀ x y, Decision (R x y)} q t limit (db : PG) :
  (∀ i, q i (Some t) (int32 limit) = query i P R (int32 limit)) →
  page limit (pg_find label q t limit db).1.
Proof.
  intros Hq. change (wp (pg_find label q t limit) (λ r _, page limit r) db).
  unfold pg_find. go_steps. apply wp_exec_read.
  - intros i d. unfold timeToTimestamptz. by rewrite Hq.
  - intros db' Hd. unfold timeToTimestamptz. rewrite Hq. unfold query, select_where. cbn [fst].
    destruct (int32 limit <? 0) eqn:Hneg; [done|]. go_steps. rewrite rowsToNotifications_scan.
    intros l Hl [= <-]. rewrite length_fmap, length_take, int32_small in * by done. apply Z.ltb_ge in Hneg. lia.
  - done.
Qed.
#[export] Instance pg_paged_finds : PagedFinds PG.
Proof. intros t limit db. split_and!; by eapply pg_find_page. Qed.
End postgres.

(** ** The interleaved service, scheduled *)
Section schedule.
Context {DB Q PR RL BC : Type}.
Context `{TextTemplate, StoreLaws DB, Queue Q, Provider PR, RateLimiter RL,
  StatusBroadcaster BC, Clock, IDGenerator, !PagedFinds DB}.
Local Abbreviation W := (World DB Q PR RL BC).
Local Abbreviation Sys := (sys (DB:=DB) (Q:=Q) (PR:=PR) (RL:=RL) (BC:=BC)).

(** A request arrives; thread [i] gets its turn; thread [i] crashes; anything
    happens to the world. *)
Inductive event :=
| Arrive (r : request)
| Turn (i : nat)
| Crash (i : nat) (e : error)
| Elsewhere (f : W → W).
Definition exec_event (s : Sys) (ev : event) : Sys :=
  match ev with
  | Arrive r => spawn r s
  | Turn i => advance i s
  | Crash i e => mkSys (s_world s) (<[i := (Idle, Done (Err e))]> (s_threads s)) (s_sends s)
  | Elsewhere f => mkSys (f (s_world s)) (s_threads s) (s_sends s)
  end.
Definition exec_all (s : Sys) (l : list event) : Sys := foldl exec_event s l.

(** A schedule whose outside events leave the rows alone is an execution. *)
Definition harmless (ev : event) : Prop :=
  match ev with Elsewhere f => ∀ w, rows (w_db (f w)) = rows (w_db w) | _ => True end.
Lemma exec_reachable w0 s l : reachable w0 s → Forall harmless l → reachable w0 (exec_all s l).
Proof.
  intros Hs Hl. revert s Hs. induction Hl as [|ev l Hev _ IH]; intros s Hs; [done|].
  apply IH. destruct ev; cbn [exec_event].
  - by apply spawn_steps.
  - by apply advance_steps.
  - eapply rtc_r; [exact Hs|]. destruct s. constructor.
  - eapply rtc_r; [exact Hs|]. destruct s. constructor. apply Hev.
Qed.

(** How often thread [i] is scheduled. *)
Fixpoint scheduled (i : nat) (l : list event) : Z :=
  match l with
  | [] => 0
  | Turn j :: l => (if decide (i = j) then 1 else 0) + scheduled i l
  | _ :: l => scheduled i l
  end.
Definition finished (i : nat) (s : Sys) : Prop := ∃ g r, s_threads s !! i = Some (g, Done r).
(** Thread [i] has at most [n] calls to make. *)
Definition has_left (i : nat) (n : Z) (s : Sys) : Prop :=
  ∃ g c, s_threads s !! i = Some (g, c) ∧ within c n (λ _ _, True).

Lemma handle_paged {B} (o : op B) w : wp (handle o) (λ r _, paged o r) w.
Proof.
  destruct o; try (by apply wp_intro); apply (wp_zoom w_db set_db);
    by destruct (paged_finds olderThan limit (w_db w)) as (? & ? & ? & ?)
    || by destruct (paged_finds before limit (w_db w)) as (? & ? & ? & ?).
Qed.

Lemma finished_has_left i n s : finished i s → has_left i n s.
Proof. intros (g & r & Hi). by exists g, (Done r). Qed.
Lemma has_left_finished i n s : has_left i n s → n < 1 → finished i s.
Proof.
  intros (g & [r|B o k] & Hi & Hc) Hn; [by exists g, r|].
  destruct Hc as [Hle _]. simpl in Hle. lia.
Qed.
Lemma advance_has_left i n s : has_left i n s → has_left i (n - 1) (advance i s).
Proof.
  intros (g & [r|B o k] & Hi & Hc); unfold advance; rewrite Hi.
  { by exists g, (Done r). }
  destruct Hc as [_ Hk]. destruct (handle o (s_world s)) as [r w] eqn:Hr.
  pose proof (wp_run _ _ _ _ _ (handle_paged o (s_world s)) Hr) as Hp.
  exists (holds_after o r g), (k r). cbn [s_threads]. split; [|by apply Hk].
  apply list_lookup_insert_eq. by eapply lookup_lt_Some.
Qed.
(** What other threads and the outside do leaves the thread alone. *)
Lemma advance_other i j n s : i ≠ j → has_left i n s → has_left i n (advance j s).
Proof.
  intros Hij Hl. unfold advance. destruct (s_threads s !! j) as [[g' [r|B o k]]|]; [done| |done].
  destruct (handle o (s_world s)) as [r w]. destruct Hl as (g & c & Hi & Hc).
  exists g, c. cbn [s_threads]. by rewrite list_lookup_insert_ne.
Qed.
Lemma exec_has_left i n s ev : has_left i n s → has_left i (n - scheduled i [ev]) (exec_event s ev).
Proof.
  intros Hl. destruct ev as [r|j|j e|f]; cbn [exec_event scheduled]; rewrite ?Z.sub_0_r, ?Z.add_0_r.
  - destruct Hl as (g & c & Hi & Hc). exists g, c. split; [|done]. by apply lookup_app_l_Some.
  - destruct (decide (i = j)) as [<-|Hij]; [by apply advance_has_left|].
    rewrite Z.sub_0_r. by apply advance_other.
  - destruct Hl as (g & c & Hi & Hc). destruct (decide (i = j)) as [<-|Hij].
    + apply finished_has_left. exists Idle, (Err e). apply list_lookup_insert_eq. by eapply lookup_lt_Some.
    + exists g, c. cbn [s_threads]. by rewrite list_lookup_insert_ne.
  - exact Hl.
Qed.
Lemma exec_all_has_left i n s l : has_left i n s → has_left i (n - scheduled i l) (exec_all s l).
Proof.
  revert n s. induction l as [|ev l IH]; intros n s Hl; [by rewrite Z.sub_0_r|].
  replace (n - scheduled i (ev :: l)) with ((n - scheduled i [ev]) - scheduled i l).
  - by apply IH, exec_has_left.
  - destruct ev; cbn [scheduled]; lia.
Qed.

(** The calls of a program that runs alone, and their bound. *)
Fixpoint calls_made {A} (c : proc A) (w : W) : nat :=
  match c with
  | Done _ => 0
  | Call o k => let '(r, w') := handle o w in S (calls_made (k r) w')
  end.
Lemma calls_made_bounded {A} (c : proc A) n (P : Z → res A → Prop) w : 0 ≤ n → within c n P → Z.of_nat (calls_made c w) ≤ n.
Proof.
  revert n w. induction c as [r|B o k IH]; intros n w Hn Hc; cbn [calls_made]; [lia|].
  destruct Hc as [Hle Hk]. simpl in Hle.
  destruct (handle o w) as [r w'] eqn:Hr.
  pose proof (wp_run _ _ _ _ _ (handle_paged o w) Hr) as Hp.
  specialize (IH r (n - 1) w' ltac:(lia) (Hk r Hp)). lia.
Qed.
Lemma request_calls r w : Z.of_nat (calls_made (program r) w) ≤ max_calls r.
Proof. eapply calls_made_bounded, within_program. destruct r; cbn [max_calls]; lia. Qed.

(** C4. Every request terminates: from any state of the service - whatever the
    database, queue, provider, limiter and broadcaster answer, and whatever
    other requests, crashes and outside changes are interleaved - the thread
    of a request has finished once it was scheduled [max_calls] times: 24 for a
    delivery, 905 for a reconciler pass, four and eight per member for a batch. *)
Theorem request_terminates (s : Sys) r l :
  max_calls r ≤ scheduled (length (s_threads s)) l →
  finished (length (s_threads s)) (exec_all (spawn r s) l).
Proof.
  intros Hl. apply (has_left_finished _ (max_calls r - scheduled (length (s_threads s)) l)); [|lia].
  apply exec_all_has_left. exists Idle, (program r). split.
  - unfold spawn. cbn [s_threads]. by rewrite lookup_app_r, Nat.sub_diag by lia.
  - eapply spends_mono; [apply within_program|done].
Qed.
End schedule.
