(* ===== verification/Reports.v ===== *)
(** What the worker tells its metrics recorder: along every run of the delivery
    use case, whatever the ports answer, the reports match what the run did -
    what it called, what the provider answered and what the store holds. *)

From S2P Require Import Prelude GoStrings Uuid Errors ValueObjects Notification Ports RetryPolicy RepoSpec.
From S2P Require Import ProcessNotification Discipline Accounting System.

(** The calls of the MetricsRecorder among the observations. *)
Definition is_metric (o : observation) : bool :=
  
  match o with SlogInfo _ _ _ | SpanStart _ | SpanAttr _ _ _ | SpanError _ _ | SpanEnd _ => false | _ => true end.
Definition metrics_of (l : list observation) : list observation := filter (λ o, is_metric o = true) l.

(** The account of a run: what it reported, what the provider answered, and
    the entity whose update the store acknowledged. *)
Record report := mkReport {
  rp_metrics : list observation;
  rp_answer : option (Channel * DeliveryResult);
  rp_written : option Notification;
}.
Definition blank : report := mkReport [] None None.
Definition failure_reason (r : DeliveryResult) : string :=
  if bool_decide (Reason r = "") then "unspecified" else Reason r.
Definition attempted (ch : Channel) (r : DeliveryResult) : observation :=
  NotificationAttempt ch (attemptOutcome r).

(** The end a run may report after the attempt: its channel, the decision of
    the answer, and a row that was written that way. *)
Inductive outcome_report ch r : list observation → option Notification → Prop :=
| no_outcome wr : outcome_report ch r [] wr
| reported_delivered n : Success r = true → NStatus n = StatusDelivered → NChannel n = ch →
    outcome_report ch r [NotificationDelivered ch] (Some n)
| reported_failed n : Success r = false → NStatus n = StatusFailed → NChannel n = ch →
    outcome_report ch r [NotificationFailed ch (failure_reason r)] (Some n).

(** What may be reported next. *)
Inductive reportable : report → observation → Prop :=
| may_limit ch n : NStatus n = StatusRetrying → NChannel n = ch →
    reportable (mkReport [] None (Some n)) (OutboundRateLimitHit ch)
| may_attempt ch r : reportable (mkReport [] (Some (ch, r)) None) (attempted ch r)
| may_outcome ch r o wr : outcome_report ch r [o] wr →
    reportable (mkReport [attempted ch r] (Some (ch, r)) wr) o
| may_duration ch r l wr d : outcome_report ch r l wr →
    reportable (mkReport (attempted ch r :: l) (Some (ch, r)) wr) (ObserveProcessing ch d).

Definition may_call {B} (o : op B) (b : report) : Prop :=
  match o with
  | observe x => is_metric x = true → reportable b x
  | provider_Send _ _ _ _ => b = blank
  | repo_ClaimForProcessing _ _ | repo_UpdateStatus _ _ => rp_written b = None
  | repo_Create _ | batch_Create _ | tmpl_Delete _ => False
  | _ => True
  end.
Definition noted {B} (o : op B) (b : report) : res B → report :=
  match o in op B return res B → report with
  | observe x => λ _, if is_metric x then mkReport (rp_metrics b ++ [x]) (rp_answer b) (rp_written b) else b
  | provider_Send _ ch _ _ => λ r,
      match r with Ok r => mkReport (rp_metrics b) (Some (ch, r)) (rp_written b) | Err _ => b end
  | repo_UpdateStatus n _ => λ r,
      match r with Ok _ => mkReport (rp_metrics b) (rp_answer b) (Some n) | Err _ => b end
  | _ => λ _, b
  end.
(** The clock, the recorder, the tracer and the logger do not fail. *)
Definition infallible {B} (o : op B) : res B → Prop :=
  match o in op B return res B → Prop with
  | observe _ | clock_Now | provider_Send _ _ _ _ | tracer_StartSpan _ => λ r, ∃ a, r = Ok a
  | _ => λ _, True
  end.
Definition reports : account report := mkAccount (@may_call) (@noted) (λ B o b, infallible o).

(** How a run may have ended. *)
Inductive complete : report → Prop :=
| ended_early wr : complete (mkReport [] None wr)
| ended_limited ch n : NStatus n = StatusRetrying → NChannel n = ch →
    complete (mkReport [OutboundRateLimitHit ch] None (Some n))
| ended_attempted ch r l wr d : outcome_report ch r l wr →
    complete (mkReport (attempted ch r :: l ++ [ObserveProcessing ch d]) (Some (ch, r)) wr).

Section runs.
Variable tracer : bool.
Let uc := mkProcessNotification true tracer.
Definition ends_complete {A} : report → res A → Prop := λ b _, complete b.

Lemma reports_quiet {B} (o : op B) b (Q : report → res B → Prop) :
  may_call o b → (∀ r, noted o b r = b) → (∀ r, infallible o r → Q b r) → spends reports (call o) b Q.
Proof. intros Hm Hn HQ. apply (spends_call reports); [exact Hm|]. intros r Hr. cbn [next reports]. rewrite Hn. by apply HQ. Qed.
Lemma reports_span o b (Q : report → res unit → Prop) : is_metric o = false →
  Q b (Ok tt) → spends reports (span uc o) b Q.
Proof.
  intros Ho HQ. apply spends_when; intros _; [|done]. apply reports_quiet; simpl; rewrite ?Ho; [done|done|].
  by intros r [[] ->].
Qed.
Lemma reports_StartSpan name b (Q : report → res nat → Prop) : (∀ sp, Q b (Ok sp)) →
  spends reports (StartSpan uc name) b Q.
Proof.
  intros HQ. unfold StartSpan. destruct (pn_tracer uc); [|apply HQ].
  apply reports_quiet; [done|done|]. by intros r [sp ->].
Qed.
Lemma reports_emit o b (Q : report → res unit → Prop) : is_metric o = true → reportable b o →
  Q (mkReport (rp_metrics b ++ [o]) (rp_answer b) (rp_written b)) (Ok tt) → spends reports (emit uc o) b Q.
Proof.
  intros Ho Hr HQ. unfold emit. cbn [when pn_metrics uc].
  apply (spends_call reports); [exact (λ _, Hr)|].
  intros r [[] ->]. cbn [next reports noted]. by rewrite Ho.
Qed.
Lemma reports_recordEvent n ev b (Q : report → res unit → Prop) : (∀ r, Q b r) →
  spends reports (recordEvent n ev) b Q.
Proof.
  intros HQ. unfold recordEvent. apply spends_bind, reports_quiet; [done..|intros [nid|e] _; [|apply HQ]].
  apply spends_bind, reports_quiet; [done..|intros [now|e] _; [|apply HQ]].
  spend_struct. spend_struct. spend_struct. destruct (NewNotificationLog _ _ _ _ _ _); [|apply HQ].
  do 2 spend_struct. apply reports_quiet; [done..|intros [[]|e] _; [|apply HQ]].
  spend_struct. apply reports_quiet; [done..|]. intros [[]|e] _; apply HQ.
Qed.
Lemma reports_log ctx n out d reason b (Q : report → res unit → Prop) : Q b (Ok tt) →
  spends reports (logProcessingOutcome ctx n out d reason) b Q.
Proof. intros HQ. unfold logProcessingOutcome. apply reports_quiet; [done..|]. by intros r [[] ->]. Qed.
Lemma reports_update ctx n src m a (Q : report → res unit → Prop) :
  Q (mkReport m a (Some n)) (Ok tt) → (∀ e, Q (mkReport m a None) (Err e)) →
  spends reports (wrapped ctx (call (repo_UpdateStatus n src))) (mkReport m a None) Q.
Proof. intros Hok He. spend_struct. apply (spends_call reports); [done|]. by intros [[]|e] _. Qed.

(** The entity a guarded mutation leaves: the target status, the same channel. *)
Lemma reports_entity n target now side b (Q : report → res Notification → Prop) :
  (∀ n, NStatus (side n) = NStatus n ∧ NChannel (side n) = NChannel n) →
  (∀ n', NStatus n' = target → NChannel n' = NChannel n → Q b (Ok n')) → (∀ e, Q b (Err e)) →
  spends reports (entity n (transition target now side)) b Q.
Proof.
  intros Hside Hok He. apply spends_entity; [|done]. intros n' Ht.
  unfold transition in Ht. destruct (negb _) in Ht; [done|]. injection Ht as <-.
  destruct (Hside (with_status target now n)) as [H1 H2]. by apply Hok; [rewrite H1|rewrite H2].
Qed.

(** The settling branches: after the attempt, at most one outcome that the
    written row and the provider's answer justify. *)
Section settle.
Variables (ctx : context) (n : Notification) (r : DeliveryResult) (now : Time) (d : Duration).
Let ch := NChannel n.
Definition settled_report {A} : report → res A → Prop := λ b _, ∃ l wr,
  b = mkReport (attempted ch r :: l) (Some (ch, r)) wr ∧ outcome_report ch r l wr.
Lemma settled_silent {A} wr (x : res A) : settled_report (mkReport [attempted ch r] (Some (ch, r)) wr) x.
Proof. exists [], wr. split; [done|constructor]. Qed.

Lemma reports_tail m ev out reason (fin : res unit) b : settled_report b (Ok tt : res unit) →
  spends reports (recordEvent m ev;; logProcessingOutcome ctx m out d reason;; Done fin) b settled_report.
Proof.
  intros Hb. apply spends_bind, reports_recordEvent. intros [[]|e]; [|exact Hb].
  apply spends_bind, reports_log. exact Hb.
Qed.
Lemma reports_markDelivered : Success r = true → spends reports (markDelivered uc ctx n now d)
  (mkReport [attempted ch r] (Some (ch, r)) None) settled_report.
Proof.
  intros Hs. unfold markDelivered, MarkDelivered. apply spends_bind, reports_entity; [done| |intros; apply settled_silent].
  intros n' Hst Hch. apply spends_bind, reports_update; [|intros; apply settled_silent].
  apply spends_bind, reports_emit; [done|rewrite Hch; by constructor; econstructor|].
  apply reports_tail. rewrite Hch. exists [NotificationDelivered ch], (Some n'). split; [done|]. by constructor.
Qed.
Lemma reports_markFailed : Success r = false → spends reports (markFailed uc ctx n r now d)
  (mkReport [attempted ch r] (Some (ch, r)) None) settled_report.
Proof.
  intros Hs. unfold markFailed, MarkFailed. apply spends_bind, reports_entity; [done| |intros; apply settled_silent].
  intros n' Hst Hch. apply spends_bind, reports_update; [|intros; apply settled_silent].
  apply spends_bind. cbn zeta. fold (failure_reason r).
  apply reports_emit; [done|rewrite Hch; by constructor; econstructor|].
  apply reports_tail. rewrite Hch. exists [NotificationFailed ch (failure_reason r)], (Some n'). split; [done|]. by constructor.
Qed.
Lemma reports_markRetrying : spends reports (markRetrying ctx n r now d)
  (mkReport [attempted ch r] (Some (ch, r)) None) settled_report.
Proof.
  unfold markRetrying, MarkRetrying. cbn zeta. apply spends_bind, reports_entity; [done| |intros; apply settled_silent].
  intros n' Hst Hch. apply spends_bind, reports_update; [|intros; apply settled_silent].
  apply reports_tail, settled_silent.
Qed.
End settle.

Lemma reports_clock b (Q : report → res Time → Prop) : (∀ t, Q b (Ok t)) → spends reports (call clock_Now) b Q.
Proof. intros HQ. apply reports_quiet; [done..|]. by intros r [t ->]. Qed.

Lemma reports_applyResult ctx n r start :
  spends reports (applyResult uc ctx n r start)
    (mkReport [attempted (NChannel n) r] (Some (NChannel n, r)) None) ends_complete.
Proof.
  unfold applyResult. apply spends_bind, reports_clock. intros now. cbn zeta. apply spends_deferred.
  set (d := time_Sub now start).
  assert (∀ b (x : res unit), settled_report n r b x →
    spends reports (emit uc (ObserveProcessing (NChannel n) d)) b (λ b' _, ends_complete b' x)) as Hend.
  { intros b x (l & wr & -> & Ho). apply reports_emit; [done|by constructor|]. by constructor. }
  destruct (Success r) eqn:Hs; [|destruct (negb (Retryable r) || _)]; eapply spends_mono;
    [by apply reports_markDelivered|apply Hend|by apply reports_markFailed|apply Hend|apply reports_markRetrying|apply Hend].
Qed.

Lemma reports_reschedule ctx n start : spends reports (rescheduleForRateLimit uc ctx n start) blank ends_complete.
Proof.
  assert (∀ A wr (x : res A), ends_complete (mkReport [] None wr) x) as Hearly by constructor.
  unfold rescheduleForRateLimit, MarkRetrying. apply spends_bind, reports_clock. intros now.
  apply spends_bind, reports_entity; [done| |intros; apply Hearly].
  intros n' Hst Hch. apply spends_bind, reports_update; [|intros; apply Hearly].
  apply spends_bind, reports_emit; [done|by constructor|].
  apply spends_bind, reports_recordEvent. intros [[]|e]; [|by constructor].
  apply spends_bind, reports_log. by constructor.
Qed.

Lemma reports_send ctx n (Q : report → res DeliveryResult → Prop) :
  (∀ r, Q (mkReport [] (Some (NChannel n, r)) None) (Ok r)) → spends reports (send uc ctx n) blank Q.
Proof.
  intros HQ. unfold send. apply spends_bind, reports_StartSpan. intros sp.
  do 2 (apply spends_bind, reports_span; [done|]).
  apply spends_bind, (spends_call reports); [done|]. intros r [result ->]. cbn [next reports noted].
  do 3 (apply spends_bind, reports_span; [done|]). apply HQ.
Qed.

Lemma reports_ProcessNotification ctx nid :
  spends reports (ProcessNotification_Execute uc ctx nid) blank ends_complete.
Proof.
  assert (∀ A (x : res A), ends_complete blank x) as Hearly by constructor.
  unfold ProcessNotification_Execute. apply spends_bind, reports_clock. intros start.
  apply spends_bind, spends_outcome, reports_quiet; [done..|]. intros [n|e] _; [|destruct (errors_Is _ _); apply Hearly].
  unfold deliver. cbn zeta. apply spends_bind, reports_recordEvent. intros [[]|e]; [|apply Hearly].
  apply spends_bind, spends_wrapped, reports_quiet; [done..|]. intros [[allowed after]|e] _; [|apply Hearly].
  destruct (negb _); [apply reports_reschedule|].
  apply spends_bind, reports_send. intros r. apply spends_bind, reports_emit; [done|constructor|].
  apply reports_applyResult.
Qed.
End runs.

(** ** The reports and the world *)
Section world.
Context {DB Q PR RL BC : Type}.
Context `{StoreLaws DB, Queue Q, Provider PR, RateLimiter RL, StatusBroadcaster BC, Clock, IDGenerator}.
Local Abbreviation W := (World DB Q PR RL BC).
Implicit Types w : W.

(** The provider was called once, for [ch], and answered [r]. *)
Definition answered (ch : Channel) (r : DeliveryResult) (pr pr' : PR) : Prop :=
  ∃ ctx recipient content, Provider_Send ctx ch recipient content pr = (r, pr').
(** A row of status [st] is stored under the id of the entity written. *)
Definition row_written (n : Notification) (R : rowmap) : Prop :=
  ∃ k m, key (ID n) = Some k ∧ R !! k = Some m ∧ NStatus m = NStatus n.
Definition witnessed w0 (b : report) w : Prop :=
  (∃ new, w_obs w = w_obs w0 ++ new ∧ metrics_of new = rp_metrics b) ∧
  match rp_answer b with
  | None => w_provider w = w_provider w0
  | Some (ch, r) => answered ch r (w_provider w0) (w_provider w)
  end ∧
  ∀ n, rp_written b = Some n → row_written n (rows (w_db w)).

Lemma handle_quiet {B} (o : op B) w : wp (handle o) (λ _ w',
  w_obs w' = w_obs w ++ observed o ∧
  match o with provider_Send _ _ _ _ => True | _ => w_provider w' = w_provider w end) w.
Proof.
  destruct o; uc_op; cbn [observed]; rewrite ?app_nil_r; try done; apply wp_intro; intros; by rewrite ?app_nil_r.
Qed.

Lemma witnessed_same w0 b w w' : witnessed w0 b w → w_obs w' = w_obs w → w_provider w' = w_provider w →
  rows (w_db w') = rows (w_db w) → witnessed w0 b w'.
Proof. unfold witnessed. by intros ? -> -> ->. Qed.

(** Before an update was acknowledged the rows do not matter. *)
Lemma witnessed_unwritten w0 b w w' : witnessed w0 b w → rp_written b = None → w_obs w' = w_obs w →
  w_provider w' = w_provider w → witnessed w0 b w'.
Proof. unfold witnessed. by intros (? & ? & _) -> -> ->. Qed.
Lemma witnessed_observe w0 x b w : witnessed w0 b w →
  witnessed w0 (noted (observe x) b (Ok tt)) (set_obs (w_obs w ++ [x]) w).
Proof.
  intros ((new & Hobs & Hm) & Ha & Hw). cbn [noted].
  assert (metrics_of (new ++ [x]) = rp_metrics b ++ if is_metric x then [x] else []) as Hnew.
  { unfold metrics_of in *. rewrite filter_app, Hm, filter_cons, filter_nil. by destruct (is_metric x). }
  destruct (is_metric x); (split; [exists (new ++ [x]); world_simpl; rewrite Hobs, app_assoc; split; [done|]|done]).
  - exact Hnew.
  - by rewrite Hnew, app_nil_r.
Qed.
Lemma handle_update n src w : wp (handle (repo_UpdateStatus n src))
  (λ r w', match r with Ok _ => row_written n (rows (w_db w')) | Err _ => True end) w.
Proof.
  uc_op. wp_use update_law. intros [[]|e] db [_ Hr]; [|done]. world_simpl.
  destruct Hr as (k & n0 & Hk & _ & _ & ->). exists k, (updated stamp n n0).
  by rewrite lookup_insert_eq.
Qed.

Lemma witnessed_step w0 B (o : op B) b w : witnessed w0 b w → may reports o b →
  wp (handle o) (λ r w', infallible o r ∧ witnessed w0 (noted o b r) w') w.
Proof.
  intros Hw Hm. apply wp_intro. intros r w' E.
  pose proof (wp_run _ _ _ _ _ (handle_touches o w) E) as Ht.
  pose proof (wp_run _ _ _ _ _ (handle_quiet o w) E) as [Ho Hp]. cbn beta in Ht, Ho, Hp.
  destruct o; cbn [observed] in Ho; rewrite ?app_nil_r in Ho; try (split; [done|by eapply witnessed_same]); try done.
  - split; [done|]. by apply (witnessed_unwritten w0 b w).
  - split; [done|]. pose proof (wp_run _ _ _ _ _ (handle_update n expectedSource w) E) as Hu.
    cbn [noted]. destruct r as [[]|e]; [|by apply (witnessed_unwritten w0 b w)].
    destruct Hw as (Hobs & Ha & _). rewrite <-Ho, <-Hp in *. split_and!; [done|done|].
    intros ? [= <-]. exact Hu.
  - unfold handle in E. destruct (Provider_Send ctx channel recipient content (w_provider w)) as [x pr] eqn:Es.
    injection E as <- <-. split; [by eexists|]. rewrite Hm in Hw |- *. destruct Hw as (Hobs & Ha & _).
    cbn in Ha. split_and!; [done| |done]. exists ctx, recipient, content. by rewrite <-Ha.
  - injection E as <- <-. split; [by eexists|]. by eapply witnessed_same.
  - injection E as <- <-. split; [by eexists|]. by apply witnessed_observe.
  - injection E as <- <-. split; [by eexists|].
    pose proof (witnessed_observe w0 (SpanStart name) b w Hw) as Hw'. exact Hw'.
Qed.

(** What the reports of a run may say of the provider's states [pr] before and
    [pr'] after it and of the rows [R] it leaves. *)
Inductive told (pr pr' : PR) (R : rowmap) : list observation → Prop :=
| told_nothing : pr' = pr → told pr pr' R []
| told_limited n : pr' = pr → NStatus n = StatusRetrying → row_written n R →
    told pr pr' R [OutboundRateLimitHit (NChannel n)]
| told_attempt ch r d : answered ch r pr pr' →
    told pr pr' R [NotificationAttempt ch (attemptOutcome r); ObserveProcessing ch d]
| told_delivered n r d : answered (NChannel n) r pr pr' → Success r = true →
    NStatus n = StatusDelivered → row_written n R →
    told pr pr' R [NotificationAttempt (NChannel n) "success"; NotificationDelivered (NChannel n);
                   ObserveProcessing (NChannel n) d]
| told_failed n r d : answered (NChannel n) r pr pr' → Success r = false →
    NStatus n = StatusFailed → row_written n R →
    told pr pr' R [NotificationAttempt (NChannel n) (attemptOutcome r);
                   NotificationFailed (NChannel n) (failure_reason r); ObserveProcessing (NChannel n) d].

Lemma complete_told w0 b w : complete b → witnessed w0 b w →
  told (w_provider w0) (w_provider w) (rows (w_db w)) (rp_metrics b).
Proof.
  intros Hc (_ & Ha & Hw). destruct Hc as [wr|ch n Hst <-|ch r l wr d Ho]; cbn [rp_metrics rp_answer rp_written] in *.
  - by apply told_nothing.
  - apply told_limited; auto.
  - destruct Ho as [|n Hs Hst <-|n Hs Hst <-]; simpl; [by apply told_attempt| |].
    + assert (attempted (NChannel n) r = NotificationAttempt (NChannel n) "success") as ->.
      { unfold attempted, attemptOutcome. by rewrite Hs. }
      eapply told_delivered; eauto.
    + eapply told_failed; eauto.
Qed.

End world.
