(* ===== verification/Telemetry.v ===== *)
(** Logging and tracing: internal/infrastructure/logger and
    internal/infrastructure/tracing over the interfaces of log/slog and
    OpenTelemetry. *)

From S2P Require Import Prelude GoStrings Errors Notification Ports.

(** ** log/slog *)
Inductive Level := LevelDebug | LevelInfo | LevelWarn | LevelError.
#[export] Instance level_eq_dec : EqDecision Level.
Proof. solve_decision. Defined.
Definition level_value (l : Level) : Z :=
  match l with LevelDebug => -4 | LevelInfo => 0 | LevelWarn => 4 | LevelError => 8 end.
Abbreviation slog_attr := (string * attr)%type.
Record Record_ := mkRecord { rec_Level : Level; rec_Message : string; rec_Attrs : list slog_attr }.
Definition AddAttrs (l : list slog_attr) (r : Record_) : Record_ :=
  mkRecord (rec_Level r) (rec_Message r) (rec_Attrs r ++ l).

(** [slog.Handler]: a handler and the lines it writes. *)
Class Handler_ (H : Type) (line : Type) := {
  Enabled : H → context → Level → bool;
  Handle_ : H → context → Record_ → list line;
  WithAttrs : H → list slog_attr → H;
  WithGroup : H → string → H;
}.
(** A line of the JSON handler: level, message and the attributes, each under
    the groups open when it was added. *)
Record json_line := mkLine { ln_level : Level; ln_msg : string; ln_attrs : list (list string * slog_attr) }.
Record JSONHandler := mkJSONHandler {
  jh_level : Level; jh_groups : list string; jh_attrs : list (list string * slog_attr) }.
Definition grouped (h : JSONHandler) (l : list slog_attr) : list (list string * slog_attr) :=
  (λ a, (jh_groups h, a)) <$> l.
#[export] Instance json_handler : Handler_ JSONHandler json_line := {|
  Enabled := λ h _ l, level_value (jh_level h) <=? level_value l;
  Handle_ := λ h _ r, [mkLine (rec_Level r) (rec_Message r) (jh_attrs h ++ grouped h (rec_Attrs r))];
  WithAttrs := λ h l, mkJSONHandler (jh_level h) (jh_groups h) (jh_attrs h ++ grouped h l);
  WithGroup := λ h name, if bool_decide (name = "") then h
                         else mkJSONHandler (jh_level h) (jh_groups h ++ [name]) (jh_attrs h) |}.
Definition NewJSONHandler (l : Level) : JSONHandler := mkJSONHandler l [] [].

(** ** logger.go *)
Record contextHandler (H : Type) := mkContextHandler { inner : H; service : string }.
Arguments mkContextHandler {H}.
Arguments inner {H}.
Arguments service {H}.

Definition contextHandler_Enabled {H line} `{Handler_ H line} (h : contextHandler H) (ctx : context)
    (level : Level) : bool := Enabled (inner h) ctx level.
Definition contextHandler_Handle {H line} `{Handler_ H line} (h : contextHandler H) (ctx : context)
    (r : Record_) : list line :=
  let r := if bool_decide (service h = "") then r else AddAttrs [("service", AttrString (service h))] r in
  let id := FromContext ctx in
  let r := if bool_decide (id = "") then r else AddAttrs [("correlation_id", AttrString id)] r in
  Handle_ (inner h) ctx r.
Definition contextHandler_WithAttrs {H line} `{Handler_ H line} (h : contextHandler H)
    (attrs : list slog_attr) : contextHandler H := mkContextHandler (WithAttrs (inner h) attrs) (service h).
Definition contextHandler_WithGroup {H line} `{Handler_ H line} (h : contextHandler H)
    (name : string) : contextHandler H := mkContextHandler (WithGroup (inner h) name) (service h).
#[export] Instance context_handler {H line} `{Handler_ H line} : Handler_ (contextHandler H) line := {|
  Enabled := contextHandler_Enabled;
  Handle_ := contextHandler_Handle;
  WithAttrs := contextHandler_WithAttrs;
  WithGroup := contextHandler_WithGroup |}.

Definition parseLevel (s : string) : Level :=
  if bool_decide (s = "debug") then LevelDebug
  else if bool_decide (s = "warn") then LevelWarn
  else if bool_decide (s = "error") then LevelError
  else LevelInfo.

Record LoggerConfig := mkLoggerConfig { lc_Level : string; lc_Service : string }.
Definition logger_New (cfg : LoggerConfig) : contextHandler JSONHandler :=
  mkContextHandler (NewJSONHandler (parseLevel (lc_Level cfg))) (lc_Service cfg).

(** [Logger.InfoContext] and its siblings. *)
Definition log_at {H line} `{Handler_ H line} (h : H) (ctx : context) (level : Level) (msg : string)
    (attrs : list slog_attr) : list line :=
  if Enabled h ctx level then Handle_ h ctx (mkRecord level msg attrs) else [].
(** [Logger.With] and [Logger.WithGroup], in the order of the calls. *)
Inductive derivation := With (attrs : list slog_attr) | Group (name : string).
Definition derive {H line} `{Handler_ H line} (h : H) (d : derivation) : H :=
  match d with
  | With [] => h
  | With attrs => WithAttrs h attrs
  | Group name => if bool_decide (name = "") then h else WithGroup h name
  end.

(** What derivations leave: the groups open, and the attributes set on the
    way, each under the groups open at its time. *)
Fixpoint groups_of (ds : list derivation) : list string :=
  match ds with
  | [] => []
  | With _ :: ds => groups_of ds
  | Group name :: ds => (if bool_decide (name = "") then [] else [name]) ++ groups_of ds
  end.
Fixpoint presets (open : list string) (ds : list derivation) : list (list string * slog_attr) :=
  match ds with
  | [] => []
  | With l :: ds => ((λ a, (open, a)) <$> l) ++ presets open ds
  | Group name :: ds => presets (open ++ if bool_decide (name = "") then [] else [name]) ds
  end.
Definition stamps (service : string) (ctx : context) : list slog_attr :=
  (if bool_decide (service = "") then [] else [("service", AttrString service)]) ++
  (if bool_decide (FromContext ctx = "") then [] else [("correlation_id", AttrString (FromContext ctx))]).

Lemma derive_json (h : contextHandler JSONHandler) ds :
  foldl derive h ds = mkContextHandler (mkJSONHandler (jh_level (inner h)) (jh_groups (inner h) ++ groups_of ds)
    (jh_attrs (inner h) ++ presets (jh_groups (inner h)) ds)) (service h).
Proof.
  revert h. induction ds as [|[[|a l]|name] ds IH]; intros [[lv gs at_] sv]; cbn [foldl].
  - by rewrite !app_nil_r.
  - apply IH.
  - rewrite IH. cbn. by rewrite <-app_assoc.
  - rewrite IH. cbn [derive groups_of presets]. destruct (decide (name = "")) as [->|Hn].
    + by rewrite !bool_decide_true, !app_nil_r by done.
    + rewrite !bool_decide_false by done. cbn. rewrite bool_decide_false by done. cbn. by rewrite <-app_assoc.
Qed.
(** Every record a logger of the project emits - whatever was derived from it -
    passes the configured level, and carries the attributes set on the way, the
    call's own, the service and, when the context has one, the correlation id. *)
Theorem records_are_stamped cfg ds ctx level msg attrs :
  log_at (foldl derive (logger_New cfg) ds) ctx level msg attrs =
  if level_value (parseLevel (lc_Level cfg)) <=? level_value level
  then [mkLine level msg (presets [] ds ++
         ((λ a, (groups_of ds, a)) <$> attrs ++ stamps (lc_Service cfg) ctx))]
  else [].
Proof.
  rewrite derive_json. unfold log_at, stamps. cbn. destruct (_ <=? _); [|done].
  unfold contextHandler_Handle. cbn. do 2 case_bool_decide; cbn; unfold grouped; cbn; by rewrite ?app_nil_r, <-?app_assoc.
Qed.
(** Once a group is open the stamps are inside it, not at the top level. *)
Lemma stamps_move_into_groups cfg name ctx : lc_Service cfg ≠ "" → name ≠ "" → FromContext ctx ≠ "" →
  log_at (foldl derive (logger_New cfg) [Group name]) ctx LevelError "m" [] =
  [mkLine LevelError "m" [([name], ("service", AttrString (lc_Service cfg)));
                          ([name], ("correlation_id", AttrString (FromContext ctx)))]].
Proof.
  intros Hs Hn Hc. rewrite records_are_stamped. unfold stamps. cbn [groups_of presets].
  rewrite !bool_decide_false by done. cbn. unfold parseLevel. by repeat case_bool_decide.
Qed.

(** ** tracing.go *)
Record TracingConfig := mkTracingConfig { tc_ServiceName : string; tc_Endpoint : string }.
(** The OpenTelemetry SDK: the global propagator and provider, a resource
    [Res], the exporter [X] and the provider [TP] built on it. *)
Class OTelSDK (G Res X TP : Type) := {
  SetTextMapPropagator : list string → G → G;
  resource_New : string → M G Res;
  otlptracegrpc_New : string → M G X;
  NewTracerProvider : X → Duration → Res → G → TP * G;
  SetTracerProvider : TP → G → G;
  tp_Shutdown : TP → M G unit;
  exp_Shutdown : X → M G unit;
}.
Section setup.
Context {G Res X TP : Type} `{OTelSDK G Res X TP}.

Definition ShutdownFunc : Type := M G unit.
Definition tracing_endpoint (cfg : TracingConfig) (getenv : string) : string :=
  if bool_decide (tc_Endpoint cfg = "") then getenv else tc_Endpoint cfg.
(** [getenv] is the value of OTEL_EXPORTER_OTLP_ENDPOINT. *)
Definition Setup (cfg : TracingConfig) (getenv : string) : M G ShutdownFunc :=
  let endpoint := tracing_endpoint cfg getenv in
  modify (SetTextMapPropagator ["tracecontext"; "baggage"]);;;
  if bool_decide (endpoint = "") then ret (ret tt) else
  let* r := wrap_err "build resource" (resource_New (tc_ServiceName cfg)) in
  let* exporter := wrap_err "build otlp exporter" (otlptracegrpc_New endpoint) in
  let* tp := (λ g, let '(tp, g) := NewTracerProvider exporter (5 * Second) r g in (Ok tp, g)) in
  modify (SetTracerProvider tp);;;
  ret (let* _ := attempt (tp_Shutdown tp) in let* _ := attempt (exp_Shutdown exporter) in ret tt).

(** Without an endpoint only the propagator is set and the shutdown does
    nothing; with one, [Setup] fails exactly when the resource or the exporter
    cannot be built, and installs no provider then; no shutdown reports an error. *)
Lemma Setup_outcomes cfg getenv g :
  let g1 := SetTextMapPropagator ["tracecontext"; "baggage"] g in
  let '(r, g') := Setup cfg getenv g in
  match r with
  | Ok shutdown =>
      (∀ g2, (shutdown g2).1 = Ok tt) ∧
      (tracing_endpoint cfg getenv = "" → g' = g1 ∧ ∀ g2, (shutdown g2).2 = g2)
  | Err e => tracing_endpoint cfg getenv ≠ "" ∧ ∃ e0,
      (e = Wrapped "build resource" e0 ∧ resource_New (tc_ServiceName cfg) g1 = (Err e0, g')) ∨
      (∃ rs g2, e = Wrapped "build otlp exporter" e0 ∧ resource_New (tc_ServiceName cfg) g1 = (Ok rs, g2) ∧
         otlptracegrpc_New (tracing_endpoint cfg getenv) g2 = (Err e0, g'))
  end.
Proof.
  unfold Setup, bind, wrap_err, map_err, modify, ret, attempt. cbn beta iota zeta.
  case_bool_decide as He; [by split|].
  destruct (resource_New _ _) as [[rs|e] g2]; cbn; [|split; [done|]; exists e; by left].
  destruct (otlptracegrpc_New _ _) as [[x|e] g3] eqn:Ex; cbn; [|split; [done|]; exists e; right; by exists rs, g2].
  destruct (NewTracerProvider _ _ _ _) as [tp g4]. split; [|done].
  intros g5. destruct (tp_Shutdown tp g5) as [? g6]. cbn. by destruct (exp_Shutdown x g6).
Qed.
End setup.

(** ** tracer.go *)

(** Spans of the OpenTelemetry API; a tracer is named after its scope. *)
Class OTelTrace (G Sp : Type) := {
  tracer_Start : string → string → G → Sp * G;
  span_SetAttributes : Sp → list slog_attr → G → G;
  (** [SetStatus(codes.Error, err.Error())] *)
  span_SetStatus : Sp → error → G → G;
  span_End : Sp → G → G;
}.
Record Tracer := mkTracer { tr_name : string }.
Definition NewTracer (name : string) : Tracer := mkTracer name.

Section tracer.
Context {G Sp : Type} `{OTelTrace G Sp}.
Definition Tracer_StartSpan (t : Tracer) (name : string) (g : G) : Sp * G := tracer_Start (tr_name t) name g.
Definition otelSpan_SetStringAttr (s : Sp) (key value : string) : G → G :=
  span_SetAttributes s [(key, AttrString value)].
Definition otelSpan_SetBoolAttr (s : Sp) (key : string) (value : bool) : G → G :=
  span_SetAttributes s [(key, AttrBool value)].
Definition otelSpan_End (s : Sp) : G → G := span_End s.

(** The open spans, innermost first, each under the position of its start among
    the observations, which is what the code's span variable holds. *)
Definition open_spans : Type := list (nat * Sp).
Fixpoint find_span (h : nat) (open : open_spans) : option Sp :=
  match open with
  | [] => None
  | (h', s) :: open => if decide (h = h') then Some s else find_span h open
  end.
Fixpoint drop_span (h : nat) (open : open_spans) : open_spans :=
  match open with
  | [] => []
  | (h', s) :: open => if decide (h = h') then open else (h', s) :: drop_span h open
  end.
(** One observation, the [pos]-th, on the API; [ts] is the tracer that starts a
    span of a given name.  [None]: an attribute, a status or an end of a span
    that is not open, or an attribute of a type the port has no setter for. *)
Definition trace_observation (ts : string → Tracer) (pos : nat) (o : observation)
    (x : open_spans * G) : option (open_spans * G) :=
  let '(open, g) := x in
  match o with
  | SpanStart name => let '(s, g) := Tracer_StartSpan (ts name) name g in Some ((pos, s) :: open, g)
  | SpanAttr h key (AttrString v) => (λ s, (open, otelSpan_SetStringAttr s key v g)) <$> find_span h open
  | SpanAttr h key (AttrBool v) => (λ s, (open, otelSpan_SetBoolAttr s key v g)) <$> find_span h open
  | SpanAttr _ _ (AttrInt _) => None
  | SpanError h e => (λ s, (open, span_SetStatus s e g)) <$> find_span h open
  | SpanEnd h => (λ s, (drop_span h open, otelSpan_End s g)) <$> find_span h open
  | _ => Some x
  end.
(** The observations of a run, from position [pos] on. *)
Fixpoint trace_all (ts : string → Tracer) (pos : nat) (l : list observation) (x : open_spans * G)
    : option (open_spans * G) :=
  match l with
  | [] => Some x
  | o :: l => trace_observation ts pos o x ≫= trace_all ts (S pos) l
  end.
End tracer.

(** ** [ports.NoopTracer] (internal/ports/tracing.go), the tracer of a use case
    that was given none. *)
Section noop.
Context {G : Type}.
Definition NoopTracer_StartSpan (name : string) (g : G) : unit * G := (tt, g).
Definition noopSpan_SetStringAttr (s : unit) (key value : string) (g : G) : G := g.
Definition noopSpan_SetBoolAttr (s : unit) (key : string) (value : bool) (g : G) : G := g.
Definition noopSpan_End (s : unit) (g : G) : G := g.
#[local] Instance noop_trace : OTelTrace G unit := {|
  tracer_Start := λ _, NoopTracer_StartSpan;
  span_SetAttributes := λ s attrs g,
    foldl (λ g a, match a.2 with
                  | AttrString v => noopSpan_SetStringAttr s a.1 v g
                  | AttrBool b => noopSpan_SetBoolAttr s a.1 b g
                  | _ => g
                  end) g attrs;
  (** ports.Span has no status; the no-op span of the OpenTelemetry API ignores it *)
  span_SetStatus := λ _ _ g, g;
  span_End := noopSpan_End |}.
(** Whatever a run does with its spans, the no-op tracer leaves no trace. *)
Lemma noop_records_nothing ts pos l open (g : G) open' g' :
  trace_all ts pos l (open, g) = Some (open', g') → g' = g.
Proof.
  revert pos open g. induction l as [|o l IH]; intros pos open g; [by intros [= -> ->]|].
  cbn [trace_all]. intros ([open1 g1] & E & H'%IH)%bind_Some. subst g'.
  destruct o as [| | | | | | |name|h key [v|v|v]|h e|h]; cbn in E; try (by simplify_eq);
    apply fmap_Some in E as (s & _ & E); by simplify_eq/=.
Qed.
End noop.
