(* ===== verification/Liveness.v ===== *)
(** Progress: when the ports answer, every notification settles.

    The safety theorems hold whatever fails; here nothing fails.  A worker that
    is handed the same task again and again - as asynq does until a run returns
    nil - brings the row to a terminal status: each run uses up an attempt, and
    at the fifth a transient answer of the provider ends in [failed] too.  Runs
    the outbound rate limiter defers do not decide anything and are counted
    separately.

    A failure's reason is written to a text column, which takes UTF-8 text and
    nothing else.  The webhook provider cuts a reply in the middle of a rune
    (Providers.reason_may_be_invalid_utf8); such an update is refused
    ([pg_refuses_reason]) and the row stays in [processing], for the reconciler.
    So the theorem asks that the reasons the provider gives are text. *)

From S2P Require Import Prelude GoStrings Uuid Errors ValueObjects Notification Batch Template.
From S2P Require Import Ports RetryPolicy RepoSpec ProcessNotification Sql Postgres PostgresSpec.

(** A store that carries out what the contract allows, given text.  [ready j b db]: the
    next [b] audit ids, from the [j]-th generated one on, are new. *)
Class HealthyStore (DB : Type) `{StoreLaws DB, IDGenerator} := {
  ready : nat → nat → DB → Prop;
  ready_id : ∀ j b (db : DB), ready j (S b) db → Gen_LogID j ≠ "";
  healthy_claim : ∀ id now k n0 j b (db : DB), key id = Some k → rows db !! k = Some n0 →
    claimable n0 → Attempts n0 + 1 < 2 ^ 31 → ready j b db →
    wp (Repo_ClaimForProcessing id now) (λ r db', is_Ok r = true ∧ ready j b db') db;
  healthy_update : ∀ n src k n0 j b (db : DB), key (ID n) = Some k → rows db !! k = Some n0 →
    NStatus n0 = src → Status_IsValid (NStatus n) = true → Status_IsValid src = true →
    text_ok (LastError n) = true → ready j b db → wp (Repo_UpdateStatus n src) (λ r db', r = Ok tt ∧ ready j b db') db;
  healthy_append : ∀ e k n0 j b (db : DB), key (log_NotificationID e) = Some k → rows db !! k = Some n0 →
    log_ID e = Gen_LogID j → LogEvent_IsValid (log_Event e) = true → log_Details e = None →
    text_ok (log_CorrelationID e) = true → ready j (S b) db → wp (LogRepo_Append e) (λ r db', r = Ok tt ∧ ready (S j) b db') db;
}.
Class HealthyPorts (RL BC : Type) `{RateLimiter RL, StatusBroadcaster BC} : Prop := {
  limiter_answers : ∀ bucket (s : RL), is_Ok (Limiter_Allow bucket s).1 = true;
  bcast_answers : ∀ id st (s : BC), (Bcast_Publish id st s).1 = Ok tt;
}.

Section progress.
Context {DB Q PR RL BC : Type}.
Context `{HealthyStore DB, Queue Q, Provider PR, !RateLimiter RL, !StatusBroadcaster BC,
  !HealthyPorts RL BC, Clock}.
Variables (uc : ProcessNotification) (ctx : context) (id : NotificationID) (k : uuid).
Local Abbreviation W := (World DB Q PR RL BC).
Implicit Types w : W.

(** What an audit entry about a row needs. *)
Definition auditable (n : Notification) : Prop :=
  key (ID n) = Some k ∧ ID n ≠ "" ∧ CorrelationID n ≠ "" ∧ text_ok (CorrelationID n) = true.
(** Row [k] is [n], and the next [b] audit ids are new. *)
Definition holds (b : nat) w (n : Notification) : Prop :=
  rows (w_db w) !! k = Some n ∧ ready (w_fresh w) b (w_db w).

Lemma recordEvent_succeeds n ev m b w : auditable n → LogEvent_IsValid ev = true → holds (S b) w m →
  wp (run (recordEvent n ev)) (λ r w', r = Ok tt ∧ holds b w' m ∧ w_provider w' = w_provider w) w.
Proof.
  intros (Hk & Hid & Hc & Htext) Hev [Hrow Hready]. unfold recordEvent. uc_steps. world_simpl.
  unfold NewNotificationLog. pose proof (ready_id _ _ _ Hready) as Hlog.
  rewrite !bool_decide_eq_false_2, Hev by done. cbn [negb]. uc_steps.
  set (e := {| log_ID := _ |}).
  wp_use (wp_conj _ _ _ _ (append_law e (w_db w))
    (healthy_append e k m (w_fresh w) b (w_db w) Hk Hrow eq_refl Hev eq_refl Htext Hready)).
  intros r db1 [[Hrows _] [-> Hready1]]. uc_steps. world_simpl.
  apply wp_intro. intros r bc Hbc. pose proof (bcast_answers (ID n) (NStatus n) (w_bcast w)) as Hok.
  rewrite Hbc in Hok. cbn in Hok. subst r. unfold holds. world_simpl. by rewrite Hrows.
Qed.

(** The guarded update of row [k] by the decided entity, then an audited end. *)
Lemma settles_with n v now lbl (post : proc unit) r0 b b' w : auditable n → NStatus n = StatusProcessing →
  text_ok (LastError (settle v now n)) = true → holds b w n → (∀ w', holds b w' (updated stamp (settle v now n) n) →
    wp (run post) (λ r w'', r = r0 ∧ holds b' w'' (updated stamp (settle v now n) n)) w') →
  wp (run (wrapped lbl (call (repo_UpdateStatus (settle v now n) StatusProcessing));; post))
    (λ r w', r = r0 ∧ holds b' w' (updated stamp (settle v now n) n)) w.
Proof.
  intros (Hk & _) Hst Htext [Hrow Hready] Hpost. uc_steps.
  assert (key (ID (settle v now n)) = Some k) as Hk' by by rewrite settle_ID.
  assert (Status_IsValid (NStatus (settle v now n)) = true) as Hv by by destruct v.
  wp_use (wp_conj _ _ _ _ (update_law (settle v now n) StatusProcessing (w_db w))
    (healthy_update (settle v now n) StatusProcessing k n (w_fresh w) b (w_db w) Hk' Hrow Hst Hv eq_refl Htext Hready)).
  intros r db1 [[_ Heff] [-> Hready1]]. uc_steps. world_simpl. apply Hpost.
  destruct Heff as (k1 & n1 & Hk1 & Hn1 & _ & Hrows). simplify_eq. unfold holds. world_simpl.
  split; [|done]. rewrite Hrows. apply lookup_insert_eq.
Qed.

Lemma auditable_settled v now n : auditable n → auditable (settle v now n).
Proof. by destruct v. Qed.

(** The end of every branch: one audit entry, one log line, the answer. *)
Lemma audited_end n ev c out d reason (r0 : res unit) m b w :
  auditable n → LogEvent_IsValid ev = true → holds (S b) w m →
  wp (run (recordEvent n ev;; logProcessingOutcome c n out d reason;; Done r0))
    (λ r w', r = r0 ∧ holds b w' m) w.
Proof.
  intros Ha Hev Hm. uc_step. wp_use (recordEvent_succeeds n ev m b w Ha Hev Hm).
  intros r w1 (-> & Hm1 & _). unfold logProcessingOutcome. by uc_steps.
Qed.
Lemma emitted o (post : proc unit) (Φ : res unit → W → Prop) w :
  (∀ w', w_db w' = w_db w → w_fresh w' = w_fresh w → wp (run post) Φ w') →
  wp (run (emit uc o;; post)) Φ w.
Proof. intros Hpost. uc_step. by apply wp_emit; apply Hpost. Qed.

Section branches.
Variables (c : context) (n : Notification) (b : nat) (w : W).
Hypotheses (Ha : auditable n) (Hst : NStatus n = StatusProcessing) (Hn : holds (S b) w n).

(** What a branch that decides [v] and returns [r0] achieves. *)
Definition achieves (v : verdict) (r0 : res unit) (body : proc unit) : Prop :=
  wp (run body) (λ r w', r = r0 ∧ ∃ now, holds b w' (updated stamp (settle v now n) n)) w.

Lemma achieves_intro v now lbl (m : M Notification unit) (post : Notification → proc unit) r0 :
  m n = (Ok tt, settle v now n) → text_ok (LastError (settle v now n)) = true →
  (∀ w', holds (S b) w' (updated stamp (settle v now n) n) →
    wp (run (post (settle v now n))) (λ r w'', r = r0 ∧ holds b w'' (updated stamp (settle v now n) n)) w') →
  achieves v r0 (n' ← entity n m; wrapped lbl (call (repo_UpdateStatus n' StatusProcessing));; post n').
Proof.
  intros Hm Htext Hpost. apply (entity_settled n v now); [done|].
  eapply wp_mono; [by apply (settles_with n v now lbl _ r0 (S b))|]. intros r w' [-> Hw']. eauto.
Qed.

Lemma holds_same_db b' w1 w2 m : w_db w2 = w_db w1 → w_fresh w2 = w_fresh w1 →
  holds b' w1 m → holds b' w2 m.
Proof. unfold holds. by intros -> ->. Qed.

Lemma markDelivered_succeeds now d : achieves VDelivered (Ok tt) (markDelivered uc c n now d).
Proof.
  apply (achieves_intro VDelivered now); [apply mark_processing_legal; [done|constructor]|done|].
  intros w' Hw'. apply emitted. intros w2 Hd Hf. apply audited_end; [by apply auditable_settled|done|].
  by eapply holds_same_db.
Qed.
Lemma markFailed_succeeds result now d : text_ok (Reason result) = true →
  achieves (VFailed (Reason result)) (Ok tt) (markFailed uc c n result now d).
Proof.
  intros Htext. apply (achieves_intro (VFailed (Reason result)) now); [apply mark_processing_legal; [done|constructor]|done|].
  intros w' Hw'. apply emitted. intros w2 Hd Hf. apply audited_end; [by apply auditable_settled|done|].
  by eapply holds_same_db.
Qed.
Lemma markRetrying_succeeds result now d : text_ok (Reason result) = true → achieves (VRetry (Reason result))
  (Err (Wrapped "transient failure" (Sentinel ErrProviderTransient))) (markRetrying c n result now d).
Proof.
  intros Htext. apply (achieves_intro (VRetry (Reason result)) now);
    [apply mark_processing_legal; [done|constructor]|done|].
  intros w' Hw'. apply audited_end; [by apply (auditable_settled (VRetry _))|done|done].
Qed.
End branches.

Lemma rescheduleForRateLimit_succeeds c n start b w : auditable n → NStatus n = StatusProcessing →
  holds (S b) w n →
  achieves n b w VRateLimited (Err (Wrapped "rate limited" (Sentinel ErrOutboundRateLimited)))
    (rescheduleForRateLimit uc c n start).
Proof.
  intros Ha Hst Hn. unfold rescheduleForRateLimit, achieves. uc_step. uc_step. uc_op.
  set (now := Clock_reading _). set (w1 := set_ticks _ w). change (holds (S b) w1 n) in Hn.
  refine (achieves_intro n b w1 Ha Hst Hn VRateLimited now _ _
    (λ n, emit uc (OutboundRateLimitHit (NChannel n));; recordEvent n LogEventRetrying;;
          logProcessingOutcome c n "rate_limited" (time_Sub now start) "outbound rate limit exceeded";;
          raise (Wrapped "rate limited" (Sentinel ErrOutboundRateLimited))) _ _ _ _);
    [apply mark_processing_legal; [done|constructor]|done|].
  intros w' Hw'. apply emitted. intros w2 Hd Hf.
  apply audited_end; [by apply (auditable_settled VRateLimited)|done|by eapply holds_same_db].
Qed.

Lemma applyResult_succeeds c n result start b w : auditable n → NStatus n = StatusProcessing →
  text_ok (Reason result) = true → holds (S b) w n →
  wp (run (applyResult uc c n result start))
    (λ _ w', ∃ now, holds b w' (updated stamp (settle (verdict_of result (Attempts n)) now n) n)) w.
Proof.
  intros Ha Hst Htext Hn. unfold applyResult. uc_step. uc_step. uc_op. set (now := Clock_reading _).
  set (w1 := set_ticks _ w). change (holds (S b) w1 n) in Hn. set (body := if Success result then _ else _).
  assert (∃ r0, achieves n b w1 (verdict_of result (Attempts n)) r0 body) as [r0 Hb].
  { unfold body, verdict_of, defaultMaxAttempts.
    destruct (Success result); [by eexists; apply markDelivered_succeeds|].
    destruct (Retryable result); simpl; [|by eexists; apply markFailed_succeeds].
    destruct (Z.leb_spec 5 (Attempts n)), (Z.ltb_spec (Attempts n) 5); try lia; eexists;
      [by apply markFailed_succeeds|by apply markRetrying_succeeds]. }
  uc_step. unfold achieves in Hb. wp_use Hb. intros r w' [_ [now' Hw']].
  apply wp_emit; exists now'; [done|]. by eapply holds_same_db.
Qed.

(** ** One delivery *)
Definition rate_limited (r : res unit) : bool :=
  match r with Err e => errors_Is e ErrOutboundRateLimited | Ok _ => false end.
(** Delivered or failed. *)
Definition decided_row (n : Notification) : Prop := NStatus n = StatusDelivered ∨ NStatus n = StatusFailed.
(** The reasons the provider may give in state [s] are text. *)
Definition plain_reasons (s : PR) : Prop := ∀ c ch rcpt content,
  text_ok (Reason (Provider_Send c ch rcpt content s).1) = true.
(** The outcome of a run on a claimable row that had [a] attempts. *)
Definition attempted (a : Z) (r : res unit) (n : Notification) : Prop :=
  decided_row n ∨
  claimable n ∧ Attempts n = a + 1 ∧ auditable n ∧ (rate_limited r = true ∨ a + 1 < 5).

Lemma settle_attempted v now n r : auditable n → in_int32 (Attempts n) →
  (∀ reason, v = VRetry reason → Attempts n < 5) → (v = VRateLimited → rate_limited r = true) →
  attempted (Attempts n - 1) r (updated stamp (settle v now n) n).
Proof.
  intros Ha H32 Hretry Hlimit. unfold attempted.
  assert (Attempts (settle v now n) = Attempts n) as Hat by by destruct v.
  destruct v as [|reason|reason|]; [by left; left|by left; right|right..];
    (split; [by right|]); cbn [updated with_next_retry with_last_error with_attempts Attempts];
    rewrite int32_small by (by rewrite Hat); (split; [rewrite Hat; lia|]); (split; [exact Ha|]).
  - right. pose proof (Hretry _ eq_refl). lia.
  - left. by apply Hlimit.
Qed.

Lemma send_succeeds c n w :
  wp (run (send uc c n)) (λ r w', r = Ok (Provider_Send c (NChannel n) (Recipient n) (Content n) (w_provider w)).1 ∧
    w_db w' = w_db w ∧ w_fresh w' = w_fresh w) w.
Proof.
  unfold send, StartSpan, span, when.
  destruct (pn_tracer uc); uc_steps; world_simpl; by rewrite ?Hsend.
Qed.

Lemma deliver_succeeds n start b w : auditable n → NStatus n = StatusProcessing → in_int32 (Attempts n) →
  plain_reasons (w_provider w) → holds (S (S b)) w n →
  wp (run (deliver uc ctx n start)) (λ r w', ∃ n', holds b w' n' ∧ attempted (Attempts n - 1) r n') w.
Proof.
  intros Ha Hst H32 Hplain Hn. unfold deliver. uc_step.
  wp_use (recordEvent_succeeds n LogEventProcessing n (S b) w Ha eq_refl Hn). intros r w1 (-> & Hn1 & Hpr).
  uc_steps. apply wp_intro. intros r lim Hallow.
  pose proof (limiter_answers ("channel:" +:+ NChannel n) (w_limiter w1)) as Hok. rewrite Hallow in Hok.
  destruct r as [[[] retryAfter]|e]; [| |done]; cbn [negb fst]; clear Hok.
  - uc_step. wp_use (send_succeeds (reseed ctx n) n (set_limiter lim w1)).
    intros r w2 (-> & Hdb & Hf). world_simpl. rewrite Hpr. set (result := (Provider_Send _ _ _ _ _).1).
    apply emitted. intros w3 Hdb3 Hf3.
    wp_use (applyResult_succeeds (reseed ctx n) n result start b w3 Ha Hst (Hplain _ _ _ _));
      [by eapply holds_same_db; [rewrite Hdb3, Hdb|rewrite Hf3, Hf|exact Hn1]|].
    intros r w' [now Hw']. eexists. split; [exact Hw'|]. apply settle_attempted; try done.
    + unfold verdict_of. intros reason. destruct (Success result); [done|].
      destruct (Retryable result); [|done]. simpl. by destruct (Z.ltb_spec (Attempts n) 5).
    + unfold verdict_of. by repeat case_match.
  - wp_use (rescheduleForRateLimit_succeeds (reseed ctx n) n start b (set_limiter lim w1) Ha Hst Hn1).
    intros r w' [-> [now Hw']]. eexists. split; [exact Hw'|]. by apply settle_attempted.
Qed.

Lemma Execute_attempts n b w : key id = Some k → auditable n → claimable n → 0 ≤ Attempts n →
  Attempts n + 1 < 2 ^ 31 → plain_reasons (w_provider w) → holds (S (S b)) w n →
  wp (run (ProcessNotification_Execute uc ctx id))
    (λ r w', ∃ n', holds b w' n' ∧ attempted (Attempts n) r n') w.
Proof.
  intros Hid Ha Hcl H0' Hmax Hplain [Hrow Hready]. unfold ProcessNotification_Execute. uc_steps.
  set (now := Clock_reading _). world_simpl.
  wp_use (wp_conj _ _ _ _ (claim_law id now (w_db w))
    (healthy_claim id now k n (w_fresh w) (S (S b)) (w_db w) Hid Hrow Hcl Hmax Hready)).
  intros r db1 [[_ Hr] [Hok Hready1]]. destruct r as [m|e]; [|done].
  destruct Hr as (k' & n0 & Hk' & Hn0 & _ & _ & -> & Hrows). simplify_eq.
  set (m := claimed (stamp now) n). replace (Attempts n) with (Attempts m - 1) by (simpl; lia).
  apply deliver_succeeds; [exact Ha|done|unfold in_int32; simpl; lia|exact Hplain|].
  unfold holds. world_simpl. rewrite Hrows. split; [apply lookup_insert_eq|done].
Qed.

(** A row that cannot be claimed is left alone. *)
Lemma Execute_settled n w : key id = Some k → ¬ claimable n → rows (w_db w) !! k = Some n →
  rows (w_db (run (ProcessNotification_Execute uc ctx id) w).2) !! k = Some n.
Proof.
  intros Hid Hcl Hrow. pose proof (Execute_processed uc ctx id w) as Hp. unfold wp in Hp.
  destruct (run _ w) as [r w']. cbn [fst snd] in *.
  assert (∀ nw now' R, claim_effect id now' nw (rows (w_db w)) R → False) as Hno.
  { intros nw now' R (k1 & n1 & Hk1 & Hn1 & Hc1 & _). by simplify_eq. }
  inversion Hp as [k1 n0 ? Hk1 Hn0 Hc Hrows|? ? Hrows|? ? ? ? ? ? Hclaim]; subst.
  - by rewrite Hrows.
  - destruct Hrows as [Hrows|[? Hce]]; [by rewrite Hrows|by apply Hno in Hce].
  - by apply Hno in Hclaim.
Qed.

(** ** Redelivery *)
Definition redeliver (w : W) : W := (run (ProcessNotification_Execute uc ctx id) w).2.
Definition deliveries (i : nat) (w : W) : W := Nat.iter i redeliver w.
(** Runs among the first [i] that the rate limiter deferred. *)
Definition deferred_runs (i : nat) (w : W) : nat :=
  length (filter (λ j, rate_limited (run (ProcessNotification_Execute uc ctx id) (deliveries j w)).1 = true)
    (seq 0 i)).
Lemma deferred_runs_S i w : deferred_runs (S i) w =
  (deferred_runs i w +
   if rate_limited (run (ProcessNotification_Execute uc ctx id) (deliveries i w)).1 then 1 else 0)%nat.
Proof.
  unfold deferred_runs. rewrite seq_S, filter_app, length_app. f_equal. simpl.
  rewrite filter_cons, filter_nil. by destruct (rate_limited _).
Qed.

Lemma decided_not_claimable n : decided_row n → ¬ claimable n.
Proof. intros [Ht|Ht] [Hc|Hc]; by rewrite Hc in Ht. Qed.

Lemma progress n b w i : key id = Some k → auditable n → claimable n → 0 ≤ Attempts n →
  Attempts n + Z.of_nat i < 2 ^ 31 → (∀ j, (j < i)%nat → plain_reasons (w_provider (deliveries j w))) →
  holds (2 * i + b) w n →
  ∃ n', rows (w_db (deliveries i w)) !! k = Some n' ∧
    (decided_row n' ∨
     claimable n' ∧ Attempts n' = Attempts n + Z.of_nat i ∧ auditable n' ∧ holds b (deliveries i w) n' ∧
     (i ≤ deferred_runs i w + Z.to_nat (4 - Attempts n))%nat).
Proof.
  intros Hid Ha Hcl H0' Hmax Hplain Hw. revert b Hw. induction i as [|i IH]; intros b Hw.
  { exists n. split; [apply Hw|]. right. split_and!; try done; [simpl; lia|lia]. }
  destruct (IH ltac:(lia) ltac:(auto with lia) (S (S b))) as (m & Hm & Hcase);
    [by replace (2 * i + S (S b))%nat with (2 * S i + b)%nat by lia|].
  change (deliveries (S i) w) with (redeliver (deliveries i w)).
  destruct Hcase as [Ht|(Hcm & Hat & Ham & Hhm & Hle)].
  { exists m. split; [|by left]. by apply Execute_settled; [|apply decided_not_claimable|]. }
  pose proof (Execute_attempts m b (deliveries i w) Hid Ham Hcm ltac:(lia) ltac:(lia)
    (Hplain i ltac:(lia)) Hhm)
    as (m' & Hhm' & Hout). exists m'. split; [apply Hhm'|].
  destruct Hout as [Ht|(Hc' & Hat' & Ha' & Hwhy)]; [by left|right].
  split_and!; [done|lia|done|done|]. rewrite deferred_runs_S.
  destruct Hwhy as [->|Hlt]; [|destruct (rate_limited _)]; lia.
Qed.
End progress.

(** ** A PostgreSQL server without faults is healthy *)
Section postgres.
Context `{ServerLaws, PgtypeUUIDLaws, DetailsCodec, CursorTime, IDGenerator}.
Hypothesis no_fault : ∀ i, srv_fault i = NoFault.

Definition fresh_log_id (i : nat) (db : PG) : Prop :=
  Gen_LogID i ≠ "" ∧ ∃ u, id_key (Gen_LogID i) = Some u ∧ Forall (λ l, lc_id l ≠ u) (t_logs (pg_data db)).
Definition pg_ready (j b : nat) (db : PG) : Prop :=
  (∀ i, j ≤ i < j + b → fresh_log_id i db)%nat ∧
  (∀ i i', j ≤ i < j + b → j ≤ i' < j + b → id_key (Gen_LogID i) = id_key (Gen_LogID i') → i = i')%nat.
Lemma pg_ready_id j b db : pg_ready j (S b) db → Gen_LogID j ≠ "".
Proof. intros [Hf _]. apply (Hf j). lia. Qed.

Lemma wp_parse_key {A} label s u (f : option uuid → M PG A) (Φ : res A → PG → Prop) db :
  id_key s = Some u → wp (f (Some u)) Φ db →
  wp (bind (wrap_err label (of_result (parseUUID s))) f) Φ db.
Proof. intros Hu Hf. go_steps. by rewrite (key_parseUUID _ _ Hu). Qed.

Lemma pg_healthy_claim id now k n0 j b (db : PG) : id_key id = Some k → rows db !! k = Some n0 →
  claimable n0 → Attempts n0 + 1 < 2 ^ 31 → pg_ready j b db →
  wp (Repo_ClaimForProcessing id now) (λ r db', is_Ok r = true ∧ pg_ready j b db') db.
Proof.
  rewrite lookup_rows. intros Hk Hrow Hcl Hmax Hready. apply fmap_Some in Hrow as (c & Hc & ->).
  cbn [Repo_ClaimForProcessing pg_notifications]. unfold pg_ClaimForProcessing.
  eapply wp_parse_key; [exact Hk|]. apply wp_bind, wp_no_rows, (wp_exec_faultless _ _ _ no_fault).
  rewrite GetNotification_sql_spec, Hc, GetNotification_sql_reads.
  apply wp_bind, wp_no_rows, (wp_exec_faultless _ _ _ no_fault). cbn [pg_data pg_sent].
  pose proof (claim_sql_cases k now (pg_data db)) as Hcs. unfold timeToTimestamptz.
  unfold ClaimForProcessing_sql in *. rewrite Hc in *.
  rewrite bool_decide_eq_true_2 in * by (destruct Hcl as [Hs|Hs]; simpl in Hs; rewrite Hs; set_solver).
  destruct (Z.ltb_spec (c_attempts c + 1) (2 ^ 31)) as [_|Hge]; [|simpl in Hmax; lia].
  cbn [negb fst snd]. apply wp_of_result. by rewrite notificationFromRow_select.
Qed.

Lemma pg_healthy_update n src k n0 j b (db : PG) : id_key (ID n) = Some k → rows db !! k = Some n0 →
  NStatus n0 = src → Status_IsValid (NStatus n) = true → Status_IsValid src = true →
  text_ok (LastError n) = true → pg_ready j b db →
  wp (Repo_UpdateStatus n src) (λ r db', r = Ok tt ∧ pg_ready j b db') db.
Proof.
  rewrite lookup_rows. intros Hk Hrow Hsrc Hv Hvs Htext Hready. apply fmap_Some in Hrow as (c & Hc & ->).
  cbn [Repo_UpdateStatus pg_notifications]. unfold pg_UpdateStatus.
  eapply wp_parse_key; [exact Hk|]. go_steps. apply (wp_exec_faultless _ _ _ no_fault).
  unfold UpdateNotificationStatus_sql, with_texts.
  cbn [u_ID u_ExpectedSource u_UpdatedAt u_NewStatus u_LastError forallb].
  rewrite (Status_text _ Hv), (Status_text _ Hvs), Htext. cbn [andb]. rewrite Hc, bool_decide_eq_true_2, Hv by done. by go_steps.
Qed.

(** An update whose reason is not text is refused: the row stays as it was. *)
Lemma pg_refuses_reason n src (db : PG) : text_ok (LastError n) = false →
  wp (Repo_UpdateStatus n src) (λ r db', is_Ok r = false ∧ pg_data db' = pg_data db) db.
Proof.
  intros Htext. cbn [Repo_UpdateStatus pg_notifications]. unfold pg_UpdateStatus.
  apply wp_parse; [|done]. intros u _. go_steps. apply (wp_exec_faultless _ _ _ no_fault).
  unfold UpdateNotificationStatus_sql, with_texts. cbn [u_NewStatus u_LastError forallb].
  rewrite Htext, andb_false_r. by go_steps.
Qed.

Lemma pg_healthy_append e k n0 j b (db : PG) : id_key (log_NotificationID e) = Some k →
  rows db !! k = Some n0 → log_ID e = Gen_LogID j → LogEvent_IsValid (log_Event e) = true →
  log_Details e = None → text_ok (log_CorrelationID e) = true → pg_ready j (S b) db →
  wp (LogRepo_Append e) (λ r db', r = Ok tt ∧ pg_ready (S j) b db') db.
Proof.
  rewrite lookup_rows. intros Hk Hrow Hid Hev Hdet Htext [Hfresh Hinj]. apply fmap_Some in Hrow as (c & Hc & _).
  destruct (Hfresh j ltac:(lia)) as (_ & u & Hu & Hlogs). cbn [LogRepo_Append pg_logs]. unfold pg_log_Append.
  eapply wp_parse_key; [by rewrite Hid|]. eapply wp_parse_key; [exact Hk|]. go_steps.
  rewrite Hdet. cbn [marshal_details]. go_steps. apply (wp_exec_faultless _ _ _ no_fault).
  unfold AppendNotificationLog_sql, with_texts. cbn [lrow_CorrelationID lrow_Event forallb].
  rewrite Htext, (LogEvent_text _ Hev). cbn. rewrite Hev. cbn [negb].
  destruct (existsb _ _) eqn:Hdup.
  { apply existsb_exists in Hdup as (l & Hl%list_elem_of_In & Heq%bool_decide_eq_true).
    rewrite Forall_forall in Hlogs. by destruct (Hlogs l Hl). }
  rewrite bool_decide_eq_false_2 by by rewrite Hc. split; [done|]. split; [|intros; apply Hinj; lia || done].
  intros i Hi. destruct (Hfresh i ltac:(lia)) as (Hne & u' & Hu' & Hlogs'). split; [done|].
  exists u'. split; [done|]. cbn. apply Forall_app. split; [done|]. constructor; [|done]. cbn.
  intros ->. assert (j = i) by (apply Hinj; [lia..|congruence]). lia.
Qed.

Definition pg_healthy : HealthyStore PG := {|
  ready := pg_ready; ready_id := pg_ready_id; healthy_claim := pg_healthy_claim;
  healthy_update := pg_healthy_update; healthy_append := pg_healthy_append |}.
End postgres.

(** C3. Nothing stays undecided: with ports that answer, a store that takes
    text and a provider whose reasons are text, a queued or retrying
    notification is delivered or failed after as many redeliveries as the
    limiter deferred plus what is left of the five attempts (one at least),
    and stays so. *)
Theorem redelivery_settles {DB Q PR RL BC : Type} `{HealthyStore DB, Queue Q, Provider PR,
    !RateLimiter RL, !StatusBroadcaster BC, !HealthyPorts RL BC, Clock} uc ctx id k n
    (w : World DB Q PR RL BC) i :
  key id = Some k → auditable k n → claimable n → 0 ≤ Attempts n → Attempts n + Z.of_nat i < 2 ^ 31 →
  (∀ j, (j < i)%nat → plain_reasons (w_provider (deliveries uc ctx id j w))) →
  holds k (2 * i) w n → (deferred_runs uc ctx id i w + Nat.max 1 (Z.to_nat (5 - Attempts n)) ≤ i)%nat →
  ∃ n', rows (w_db (deliveries uc ctx id i w)) !! k = Some n' ∧
    (NStatus n' = StatusDelivered ∨ NStatus n' = StatusFailed).
Proof.
  intros Hid Ha Hcl H0' Hmax Hplain Hw Hi.
  destruct (progress uc ctx id k n 0 w i Hid Ha Hcl H0' Hmax Hplain ltac:(by rewrite Nat.add_0_r)) as (n' & Hn' & [Ht|(_ & _ & _ & _ & Hle)]);
    [by exists n'|lia].
Qed.
