(* ===== verification/Redis.v ===== *)
(** The Redis commands the adapters of internal/adapters/redis send, as an
    interface with their documented behaviour, and the connection that carries
    them.  [MemRedis] is a concrete server that keeps the laws.

    Times on this side are the server's milliseconds. *)

From S2P Require Import Prelude GoStrings Strconv Errors.

Record entry := mkEntry { e_value : string; e_expires : option Z }.
#[export] Instance entry_eq_dec : EqDecision entry.
Proof. solve_decision. Defined.

(** The replies a client decodes. *)
Inductive reply := RInt (z : Z) | RBulk (s : string) | RNil | RArray (l : list reply).

(** What becomes of a request: the executions whose answer was lost and that
    the client repeated, and the error it finally gives up with, if it does. *)
Record delivery := mkDelivery { d_lost : nat; d_error : option error }.

Class Redis (R : Type) := {
  redis_now : R → Z;
  (** the unexpired entry of a key *)
  redis_key : string → R → option entry;
  (** the messages published so far, oldest first *)
  redis_log : R → list (string * string);
  cmd_INCR : string → M R Z;
  cmd_PEXPIRE : string → Z → M R Z;
  cmd_PTTL : string → M R Z;
  cmd_SET : string → string → Duration → M R unit;
  cmd_GET : string → M R (option string);
  cmd_PUBLISH : string → string → M R unit;
  (** the connection: time passes until a request reaches the server *)
  conn_pause : R → R;
  conn_next : R → delivery * R;
}.

(** Time may pass and foreign keys may change; a key that has not reached its
    expiry stays, one past it is gone, and no key appears. *)
Record later `{Redis R} (k : string) (r r' : R) : Prop := {
  later_now : redis_now r ≤ redis_now r';
  later_kept : redis_key k r' = redis_key k r ∨
    redis_key k r' = None ∧ ∃ e t, redis_key k r = Some e ∧ e_expires e = Some t ∧ t ≤ redis_now r';
  later_gone : ∀ e t, redis_key k r' = Some e → e_expires e = Some t → redis_now r' ≤ t;
}.

(** The counter a key holds; a missing key counts zero. *)
Definition counter (o : option entry) : Z → Prop := λ n,
  match o with None => n = 0 | Some e => e_value e = FormatInt n end.

(** The expiry [SET] gives a key: none without a positive TTL. *)
Definition set_expiry (now : Z) (ttl : Duration) : option Z :=
  if ttl <=? 0 then None else Some (now + Z.max 1 (ttl / Millisecond)).

(** The effect of a command on the keys: only [k] may change, and no time
    passes. *)
Definition writes `{Redis R} (k : string) (o : option entry) (r r' : R) : Prop :=
  redis_now r' = redis_now r ∧ redis_key k r' = o ∧
  (∀ k', k' ≠ k → redis_key k' r' = redis_key k' r) ∧ redis_log r' = redis_log r.

Class RedisLaws R `{Redis R} : Prop := {
  INCR_law k r n : counter (redis_key k r) n → - 2 ^ 63 ≤ n < 2 ^ 63 - 1 →
    ∃ r', cmd_INCR k r = (Ok (n + 1), r') ∧
      writes k (Some (mkEntry (FormatInt (n + 1)) (redis_key k r ≫= e_expires))) r r';
  INCR_overflow k r n : counter (redis_key k r) n → n = 2 ^ 63 - 1 →
    ∃ e, cmd_INCR k r = (Err e, r);
  PEXPIRE_law k ms r e : redis_key k r = Some e → 0 < ms < 2 ^ 53 →
    ∃ r', cmd_PEXPIRE k ms r = (Ok 1, r') ∧
      writes k (Some (mkEntry (e_value e) (Some (redis_now r + ms)))) r r';
  PTTL_law k r e t : redis_key k r = Some e → e_expires e = Some t →
    cmd_PTTL k r = (Ok (t - redis_now r), r);
  live_law k r e t : redis_key k r = Some e → e_expires e = Some t → redis_now r ≤ t;
  SET_law k v ttl r : 0 ≤ ttl → ∃ r', cmd_SET k v ttl r = (Ok (), r') ∧
      writes k (Some (mkEntry v (set_expiry (redis_now r) ttl))) r r';
  GET_law k r : cmd_GET k r = (Ok (e_value <$> redis_key k r), r);
  PUBLISH_law ch m r : ∃ r', cmd_PUBLISH ch m r = (Ok (), r') ∧
      redis_now r' = redis_now r ∧ (∀ k, redis_key k r' = redis_key k r) ∧
      redis_log r' = redis_log r ++ [(ch, m)];
  pause_law k r : later k r (conn_pause r) ∧ redis_log (conn_pause r) = redis_log r;
  next_law k r : later k r (conn_next r).2 ∧ redis_log (conn_next r).2 = redis_log r;
}.

Section conn.
Context {R : Type} `{Redis R}.

(** A request: every lost execution took effect, the last one answers unless
    the client gave up. *)
Fixpoint lost_runs {A} (n : nat) (cmd : M R A) (r : R) : R :=
  match n with O => r | S n => lost_runs n cmd (conn_pause (cmd r).2) end.
Definition request {A} (cmd : M R A) : M R A := λ r,
  let '(d, r) := conn_next r in
  let r := lost_runs (d_lost d) cmd r in
  match d_error d with Some e => (Err e, r) | None => cmd r end.
End conn.

Lemma later_refl `{RedisLaws R} k r : later k r r.
Proof. split; [lia|by left|]. intros e t He Ht. by eapply live_law. Qed.
Lemma later_trans `{Redis R} k r1 r2 r3 : later k r1 r2 → later k r2 r3 → later k r1 r3.
Proof.
  intros [N1 K1 G1] [N2 K2 G2]. split; [lia| |done].
  destruct K2 as [->|(-> & e & t & He & Ht & Hle)].
  - destruct K1 as [->|(-> & e & t & He & Ht & Hle)]; [by left|]. right. split; [done|].
    exists e, t. split_and!; try done. lia.
  - right. split; [done|]. destruct K1 as [E|(E & _)]; [|congruence].
    rewrite E in He. by eauto 10.
Qed.

(** ** A concrete server: a clock that advances with each request, a map, and
    a script of deliveries. *)
Record mem := mkMem {
  m_now : Z; m_keys : gmap string entry; m_log : list (string * string); m_script : list delivery }.
Definition alive (now : Z) (e : entry) : bool :=
  match e_expires e with Some t => now <=? t | None => true end.
Definition m_live (k : string) (s : mem) : option entry :=
  e ← m_keys s !! k; if alive (m_now s) e then Some e else None.
Definition m_put (k : string) (e : entry) (s : mem) : mem :=
  mkMem (m_now s) (<[k := e]> (m_keys s)) (m_log s) (m_script s).
Definition m_incr k n e (s : mem) : res Z * mem :=
  if n <? 2 ^ 63 - 1 then (Ok (n + 1), m_put k (mkEntry (FormatInt (n + 1)) e) s)
  else (Err (Opaque "ERR increment or decrement would overflow"), s).
Definition m_cmd_INCR (k : string) : M mem Z := λ s,
  match m_live k s with
  | None => m_incr k 0 None s
  | Some e => match Atoi (e_value e) with
              | Some n => m_incr k n (e_expires e) s
              | None => (Err (Opaque "ERR value is not an integer or out of range"), s)
              end
  end.
Definition m_cmd_PEXPIRE (k : string) (ms : Z) : M mem Z := λ s,
  match m_live k s with
  | None => (Ok 0, s)
  | Some e => (Ok 1, m_put k (mkEntry (e_value e) (Some (m_now s + ms))) s)
  end.
Definition m_cmd_PTTL (k : string) : M mem Z := λ s,
  (Ok match m_live k s with
      | None => -2
      | Some e => match e_expires e with Some t => t - m_now s | None => -1 end
      end, s).
Definition m_cmd_SET (k v : string) (ttl : Duration) : M mem unit := λ s,
  (Ok (), m_put k (mkEntry v (set_expiry (m_now s) ttl)) s).
Definition m_cmd_GET (k : string) : M mem (option string) := λ s, (Ok (e_value <$> m_live k s), s).
Definition m_cmd_PUBLISH (ch m : string) : M mem unit := λ s,
  (Ok (), mkMem (m_now s) (m_keys s) (m_log s ++ [(ch, m)]) (m_script s)).
Definition m_pause (s : mem) : mem := mkMem (m_now s + 1) (m_keys s) (m_log s) (m_script s).
Definition m_next (s : mem) : delivery * mem :=
  (default (mkDelivery 0 None) (head (m_script s)),
   mkMem (m_now s + 1) (m_keys s) (m_log s) (tail (m_script s))).

#[export] Instance MemRedis : Redis mem := {
  redis_now := m_now; redis_key := m_live; redis_log := m_log;
  cmd_INCR := m_cmd_INCR; cmd_PEXPIRE := m_cmd_PEXPIRE; cmd_PTTL := m_cmd_PTTL;
  cmd_SET := m_cmd_SET; cmd_GET := m_cmd_GET; cmd_PUBLISH := m_cmd_PUBLISH;
  conn_pause := m_pause; conn_next := m_next;
}.


Lemma m_live_expiry k s e t : m_live k s = Some e → e_expires e = Some t → m_now s ≤ t.
Proof.
  unfold m_live. destruct (m_keys s !! k) as [e'|]; simpl; [|done].
  unfold alive. case_match eqn:Ha; [|done]. intros [= <-] Ht. rewrite Ht in Ha. lia.
Qed.
Lemma m_put_writes k e s :
  alive (m_now s) e = true → writes k (Some e) s (m_put k e s).
Proof.
  intros Ha. split_and!; try done; simpl.
  - unfold m_live. simpl. by rewrite lookup_insert_eq; simpl; rewrite Ha.
  - intros k' Hk. unfold m_live. simpl. by rewrite lookup_insert_ne.
Qed.
Lemma m_tick_later k s s' :
  m_now s' = m_now s + 1 → m_keys s' = m_keys s → m_log s' = m_log s → later k s s'.
Proof.
  intros Hn Hk Hl. split; simpl; [lia| |by apply m_live_expiry].
  unfold m_live. rewrite Hk, Hn. destruct (m_keys s !! k) as [e|]; simpl; [|by left].
  unfold alive. destruct (e_expires e) as [t|] eqn:Ht; [|by left].
  destruct (Z.leb_spec (m_now s) t), (Z.leb_spec (m_now s + 1) t); try by left; try lia.
  right. split; [done|]. exists e, t. split_and!; try done. lia.
Qed.

#[export] Instance MemRedis_laws : RedisLaws mem.
Proof.
  split; simpl.
  - intros k r n Hc Hn. unfold m_cmd_INCR. destruct (m_live k r) as [e|] eqn:E; simpl in *.
    + rewrite Hc, Atoi_FormatInt by (unfold in_int64; lia).
      unfold m_incr. destruct (Z.ltb_spec n (2 ^ 63 - 1)); [|lia]. eexists. split; [done|].
      apply m_put_writes. unfold alive; simpl. destruct (e_expires e) as [t|] eqn:Ht; [|done].
      apply Z.leb_le. by eapply m_live_expiry.
    + subst n. unfold m_incr. destruct (Z.ltb_spec 0 (2 ^ 63 - 1)); [|lia].
      eexists. split; [done|]. by apply m_put_writes.
  - intros k r n Hc ->. unfold m_cmd_INCR. destruct (m_live k r) as [e|] eqn:E; simpl in *; [|done].
    rewrite Hc, Atoi_FormatInt by (unfold in_int64; lia). unfold m_incr.
    destruct (Z.ltb_spec (2 ^ 63 - 1) (2 ^ 63 - 1)); [lia|]. by eexists.
  - intros k ms r e E Hms. unfold m_cmd_PEXPIRE. rewrite E. eexists. split; [done|].
    apply m_put_writes. unfold alive; simpl. apply Z.leb_le. lia.
  - intros k r e t E Ht. unfold m_cmd_PTTL. by rewrite E, Ht.
  - intros k r e t. apply m_live_expiry.
  - intros k v ttl r Httl. eexists. split; [done|]. apply m_put_writes.
    unfold alive, set_expiry; simpl. case_match; [|done]. case_match; [done|]. simplify_eq.
    apply Z.leb_le. lia.
  - done.
  - intros ch m r. eexists. by split_and!.
  - intros k r. split; [|done]. by apply m_tick_later.
  - intros k r. split; [|done]. by apply m_tick_later.
Qed.
