(* ===== verification/RateLimiter.v ===== *)
(** The outbound rate limiter of internal/adapters/redis/outbound_rate_limiter.go:
    the Lua script over the Redis commands, [Allow], and what the fixed window
    guarantees. *)

From S2P Require Import Prelude GoStrings Strconv Errors Ports Redis.

(** A Lua number is a binary64: integers beyond 53 bits are rounded to even. *)
Definition lua_number (z : Z) : Z :=
  let a := Z.abs z in
  let s := Z.log2 a - 52 in
  if s <=? 0 then z
  else let q := a / 2 ^ s in
       let up := (2 ^ (s - 1) <? a mod 2 ^ s) || ((a mod 2 ^ s =? 2 ^ (s - 1)) && Z.odd q) in
       Z.sgn z * ((if up then q + 1 else q) * 2 ^ s).

Lemma lua_small z : Z.abs z < 2 ^ 53 → lua_number z = z.
Proof.
  intros Hz. unfold lua_number. rewrite (proj2 (Z.leb_le _ _)); [done|].
  destruct (Z.eq_dec (Z.abs z) 0) as [->|Hn]; [by vm_compute|].
  apply Z.log2_lt_pow2 in Hz; lia.
Qed.
Lemma lua_large z : 2 ^ 53 ≤ z → 2 ^ 53 ≤ lua_number z.
Proof.
  intros Hz. unfold lua_number. rewrite Z.abs_eq, Z.sgn_pos by lia.
  pose proof (Z.log2_spec z ltac:(lia)) as [Hl _].
  pose proof (Z.log2_le_mono _ _ Hz) as Hm. change (Z.log2 (2 ^ 53)) with 53 in Hm.
  set (g := Z.log2 z) in *. destruct (Z.leb_spec (g - 52) 0); [lia|].
  assert (2 ^ 52 ≤ z / 2 ^ (g - 52)) as Hq.
  { apply Z.div_le_lower_bound; [apply Z.pow_pos_nonneg; lia|].
    rewrite Z.mul_comm, <-Z.pow_add_r by lia. replace (52 + (g - 52)) with g by lia. done. }
  assert (2 ^ 1 ≤ 2 ^ (g - 52)) as Hp by (apply Z.pow_le_mono_r; lia).
  case_match; nia.
Qed.

Definition rateLimitKeyPrefix : string := "ratelimit:".

Section limiter.
Context {R : Type} `{Redis R}.

(** The script of one hit: count, open a window on the first, and report the
    remaining window beyond the limit. *)
Definition verdict (KEY : string) (limit current : Z) : M R reply :=
  if lua_number limit <? lua_number current then
    let* ttl := cmd_PTTL KEY in
    ret (RArray [RInt 0; RInt (if lua_number ttl <? 0 then 0 else lua_number ttl)])
  else ret (RArray [RInt 1; RInt 0]).
Definition rateLimitScript (KEY : string) (limit windowMs : Z) : M R reply :=
  let* current := cmd_INCR KEY in
  let* _ := (if lua_number current =? 1
             then let* _ := cmd_PEXPIRE KEY windowMs in ret () else ret ()) in
  verdict KEY limit current.

Record OutboundRateLimiter := NewOutboundRateLimiter { limit : Z; window : Duration }.

(** [Duration.Milliseconds] truncates; the script needs at least one. *)
Definition window_ms (l : OutboundRateLimiter) : Z :=
  let windowMs := Z.quot (window l) Millisecond in if windowMs <? 1 then 1 else windowMs.

Definition Allow (l : OutboundRateLimiter) (bucket : string) : M R (bool * Duration) :=
  let key := (rateLimitKeyPrefix +:+ bucket)%string in
  let* res := wrap_err "rate limit script"
                (request (rateLimitScript key (limit l) (window_ms l))) in
  match res with
  | RArray [allowedRaw; retryMs] =>
      match allowedRaw with
      | RInt allowedRaw =>
          match retryMs with
          | RInt retryMs => ret (allowedRaw =? 1, int64 (retryMs * Millisecond))
          | _ => throw (Opaque "rate limit script: bad retry_after field")
          end
      | _ => throw (Opaque "rate limit script: bad allowed field")
      end
  | _ => throw (Opaque "rate limit script returned unexpected value")
  end.

(** The limiter behind its port. *)
Definition redis_limiter (l : OutboundRateLimiter) : RateLimiter R := Allow l.

(** ** The window of a bucket *)
Definition bucket_key (bucket : string) : string := (rateLimitKeyPrefix +:+ bucket)%string.

(** [window_at w k r (Some (n, t))]: [n] hits so far in the window ending at [t]. *)
Inductive window_at (w : Z) (k : string) (r : R) : option (Z * Z) → Prop :=
| window_closed : redis_key k r = None → window_at w k r None
| window_open n t :
    redis_key k r = Some (mkEntry (FormatInt n) (Some t)) → 1 ≤ n < 2 ^ 63 →
    t ≤ redis_now r + w →
    window_at w k r (Some (n, t)).

(** The window after a hit at [now]. *)
Definition hit (w now : Z) (o : option (Z * Z)) : Z * Z :=
  match o with None => (1, now + w) | Some (n, t) => (n + 1, t) end.

Definition sound_limiter (l : OutboundRateLimiter) : Prop :=
  Z.abs (limit l) < 2 ^ 53 ∧ in_int64 (window l).
Lemma window_ms_bounds l : in_int64 (window l) → 1 ≤ window_ms l ≤ 2 ^ 63 / 10 ^ 6.
Proof.
  unfold in_int64, window_ms, Millisecond. intros Hw.
  pose proof (Z.quot_le_mono (window l) (2 ^ 63) 1000000 ltac:(lia) ltac:(lia)) as Hq.
  change (Z.quot (2 ^ 63) 1000000) with (2 ^ 63 / 10 ^ 6) in Hq.
  destruct (Z.ltb_spec (Z.quot (window l) 1000000) 1); [|lia]. split; [lia|]. by vm_compute.
Qed.

Lemma lua_gt limit n : Z.abs limit < 2 ^ 53 → 0 ≤ n →
  (lua_number limit <? lua_number n) = negb (n <=? limit).
Proof.
  intros Hl Hn. rewrite (lua_small limit) by done. rewrite <-Z.ltb_antisym.
  destruct (Z.lt_ge_cases n (2 ^ 53)) as [Hs|Hs].
  - by rewrite lua_small by lia.
  - pose proof (lua_large n Hs). rewrite !(proj2 (Z.ltb_lt _ _)) by lia. done.
Qed.
Lemma lua_one n : 1 ≤ n → (lua_number n =? 1) = (n =? 1).
Proof.
  intros Hn. destruct (Z.lt_ge_cases n (2 ^ 53)) as [Hs|Hs].
  - by rewrite lua_small by lia.
  - pose proof (lua_large n Hs). rewrite !(proj2 (Z.eqb_neq _ _)) by lia. done.
Qed.

Context `{!RedisLaws R}.

(** What one execution of the script can answer. *)
Inductive script_result (k : string) (l : OutboundRateLimiter) (o : option (Z * Z)) (r : R) :
    res reply * R → Prop :=
| script_ok n t r' :
    hit (window_ms l) (redis_now r) o = (n, t) → window_at (window_ms l) k r' (Some (n, t)) →
    redis_now r' = redis_now r → redis_now r ≤ t →
    script_result k l o r
      (Ok (RArray (if n <=? limit l then [RInt 1; RInt 0] else [RInt 0; RInt (t - redis_now r)])), r')
| script_full e : script_result k l o r (Err e, r).

(** The script after the count: a window ending at [t] is open with [n] hits. *)
Lemma script_tail k l r n t :
  sound_limiter l → window_at (window_ms l) k r (Some (n, t)) →
  verdict k (limit l) n r =
  (Ok (RArray (if n <=? limit l then [RInt 1; RInt 0] else [RInt 0; RInt (t - redis_now r)])), r).
Proof.
  intros [Hl Hi] Hw. pose proof (window_ms_bounds l Hi) as Hms.
  change (2 ^ 63 / 10 ^ 6) with 9223372036854 in Hms.
  inversion Hw as [|n' t' Hk Hn Ht]; subst n' t'.
  unfold verdict. rewrite lua_gt by (done || lia). destruct (n <=? limit l); simpl; [done|].
  pose proof (live_law k r _ t Hk eq_refl).
  unfold bind. rewrite (PTTL_law k r _ t Hk eq_refl). rewrite lua_small by lia.
  destruct (Z.ltb_spec (t - redis_now r) 0); [lia|done].
Qed.

Lemma script_spec k l r o :
  sound_limiter l → window_at (window_ms l) k r o →
  script_result k l o r (rateLimitScript k (limit l) (window_ms l) r).
Proof.
  intros Hl Hw. pose proof (window_ms_bounds l (proj2 Hl)) as Hms.
  change (2 ^ 63 / 10 ^ 6) with 9223372036854 in Hms. unfold rateLimitScript, bind at 1.
  destruct Hw as [Hk|n t Hk Hn Ht].
  - destruct (INCR_law k r 0) as (r1 & -> & Hnow & Hk1 & _); [by rewrite Hk|lia|].
    rewrite Hk in Hk1. simpl in Hk1. rewrite lua_one by lia. simpl.
    destruct (PEXPIRE_law k (window_ms l) r1 _ Hk1 ltac:(lia)) as (r2 & HE & Hnow2 & Hk2 & _).
    unfold bind at 1, bind at 1. rewrite HE. simpl in Hk2 |- *.
    assert (window_at (window_ms l) k r2 (Some (1, redis_now r1 + window_ms l))) as Hw2 by (constructor; [done|lia..]).
    change (0 + 1) with 1. rewrite (script_tail k l r2 _ _ Hl Hw2), Hnow2, Hnow. rewrite Hnow in Hw2.
    apply (script_ok k l None r 1); [done|done|lia|lia].
  - destruct (decide (n = 2 ^ 63 - 1)) as [->|Hne].
    { destruct (INCR_overflow k r (2 ^ 63 - 1)) as [e ->]; [by rewrite Hk|done|]. constructor. }
    destruct (INCR_law k r n) as (r1 & -> & Hnow & Hk1 & _); [by rewrite Hk|lia|].
    rewrite Hk in Hk1. simpl in Hk1. rewrite lua_one by lia.
    destruct (Z.eqb_spec (n + 1) 1); [lia|]. simpl. unfold bind at 1, ret at 1.
    pose proof (live_law k r _ t Hk eq_refl) as Hlive.
    assert (window_at (window_ms l) k r1 (Some (n + 1, t))) as Hw1 by (constructor; [done|lia..]).
    rewrite (script_tail k l r1 _ _ Hl Hw1), Hnow.
    apply (script_ok k l (Some (n, t)) r (n + 1)); [done|done|lia|lia].
Qed.

(** ** Hits and time *)
Lemma later_window w k r r' o :
  later k r r' → window_at w k r o →
  window_at w k r' o ∨ window_at w k r' None ∧ ∃ n t, o = Some (n, t) ∧ t ≤ redis_now r'.
Proof.
  intros [Hn Hk _] Hw. destruct Hk as [E|(E & e & t & He & Ht & Hle)].
  - left. destruct Hw; constructor; try done; [congruence..|lia].
  - right. split; [by constructor|]. destruct Hw as [|n t' Hk']; [congruence|].
    rewrite Hk' in He. simplify_eq/=. by eauto.
Qed.

Definition granted (x : res reply) : bool :=
  match x with Ok (RArray (RInt a :: _)) => a =? 1 | _ => false end.

(** The requests that reach the server between [r] and [r'], lost answers
    included, and the times at which the script granted one. *)
Inductive hits (k : string) (l : OutboundRateLimiter) : R → list Z → R → Prop :=
| hits_nil r : hits k l r [] r
| hits_later r r' gs r'' : later k r r' → hits k l r' gs r'' → hits k l r gs r''
| hits_hit r x r' gs r'' :
    rateLimitScript k (limit l) (window_ms l) r = (x, r') → hits k l r' gs r'' →
    hits k l r ((if granted x then [redis_now r] else []) ++ gs) r''.

Lemma hits_trans k l r1 gs1 r2 gs2 r3 :
  hits k l r1 gs1 r2 → hits k l r2 gs2 r3 → hits k l r1 (gs1 ++ gs2) r3.
Proof.
  induction 1; intros; [done|by eapply hits_later; eauto|].
  rewrite <-app_assoc. by eapply hits_hit; eauto.
Qed.

Definition count_in (a w : Z) (gs : list Z) : Z :=
  Z.of_nat (length (filter (λ t, a ≤ t < a + w) gs)).
Lemma count_in_app a w gs1 gs2 : count_in a w (gs1 ++ gs2) = count_in a w gs1 + count_in a w gs2.
Proof. unfold count_in. rewrite filter_app, length_app. lia. Qed.
Lemma count_in_one a w t : count_in a w [t] = if decide (a ≤ t < a + w) then 1 else 0.
Proof. unfold count_in. rewrite filter_cons, filter_nil. by case_decide. Qed.
Lemma count_in_sublist a w gs1 gs2 : gs1 `sublist_of` gs2 → count_in a w gs1 ≤ count_in a w gs2.
Proof.
  intros Hs. unfold count_in. apply inj_le. apply sublist_length.
  induction Hs as [|x l1 l2 _ IH|x l1 l2 _ IH]; [done| |].
  - rewrite !filter_cons. case_decide; [by constructor|done].
  - rewrite filter_cons. case_decide; [by constructor|done].
Qed.

(** What a state can still grant within [[a, a + w)]. *)
Record window_budget (l : OutboundRateLimiter) (a now : Z) (o : option (Z * Z)) (c : Z) : Prop := {
  wb_past : a + window_ms l ≤ now → c = 0;
  wb_closed : o = None → a ≤ now → c ≤ Z.max 0 (limit l);
  wb_open n t : o = Some (n, t) → a + window_ms l ≤ t → c ≤ Z.max 0 (limit l - n);
  wb_ending n t : o = Some (n, t) → a ≤ t → c ≤ Z.max 0 (limit l - n) + Z.max 0 (limit l);
  wb_any : c ≤ Z.max 0 (limit l) + Z.max 0 (limit l - 1);
}.

Lemma hits_bound k l r gs r' a o :
  sound_limiter l → hits k l r gs r' → window_at (window_ms l) k r o →
  window_budget l a (redis_now r) o (count_in a (window_ms l) gs).
Proof.
  intros Hl Hh. pose proof (window_ms_bounds l (proj2 Hl)) as [Hms _]. revert o.
  induction Hh as [r|r r1 gs r2 Hlt _ IH|r x r1 gs r2 Hs _ IH]; intros o Hw.
  - unfold count_in. split; simpl; lia.
  - pose proof (later_now _ _ _ Hlt) as Hnow.
    destruct (later_window _ _ _ _ _ Hlt Hw) as [Hw'|(Hw' & n & t & -> & Ht)].
    + destruct (IH _ Hw') as [H1 H2 H3 H4 H5]. split; try done; [lia|]. intros; apply H2; [done|lia].
    + destruct (IH _ Hw') as [H1 H2 H3 H4 H5]. split; try done; [lia|intros ? ? [= <- <-] ?..].
      * rewrite H1 by lia. lia.
      * specialize (H2 eq_refl). lia.
  - pose proof (script_spec k l r o Hl Hw) as Hr. rewrite Hs in Hr.
    rewrite count_in_app. inversion Hr as [n t r1' Hhit Hw' Hnow Hle Hx|e Hx]; subst.
    + destruct (IH _ Hw') as [H1 H2 H3 H4 H5]. rewrite Hnow in *.
      specialize (H3 n t eq_refl). specialize (H4 n t eq_refl).
      set (c := count_in a (window_ms l) gs) in *. clearbody c.
      assert (count_in a (window_ms l)
        (if granted (Ok (RArray (if n <=? limit l then [RInt 1; RInt 0]
                                 else [RInt 0; RInt (t - redis_now r)])))
         then [redis_now r] else []) =
        if decide (a ≤ redis_now r < a + window_ms l ∧ n ≤ limit l) then 1 else 0) as ->.
      { destruct (Z.leb_spec n (limit l)); simpl; rewrite ?count_in_one.
        - repeat case_decide; lia.
        - case_decide; [lia|done]. }
      inversion Hw' as [|n' t' _ Hn Ht]; subst n' t'.
      destruct Hw as [|m t0 _ Hm Ht0]; simpl in Hhit; simplify_eq.
      * split; try done; intros; case_decide; lia.
      * split; try done; intros; simplify_eq; case_decide; lia.
    + by apply IH.
Qed.

Lemma lost_runs_hits k l n r :
  ∃ gs, hits k l r gs (lost_runs n (rateLimitScript k (limit l) (window_ms l)) r).
Proof.
  revert r. induction n as [|n IH]; intros r; simpl; [exists []; constructor|].
  destruct (rateLimitScript k (limit l) (window_ms l) r) as [x r1] eqn:E.
  destruct (IH (conn_pause r1)) as [gs Hgs]. eexists. eapply hits_hit; [exact E|]. simpl.
  eapply hits_later; [apply pause_law|exact Hgs].
Qed.
Lemma hits_window k l r gs r' o :
  sound_limiter l → hits k l r gs r' → window_at (window_ms l) k r o →
  ∃ o', window_at (window_ms l) k r' o'.
Proof.
  intros Hl Hh. revert o. induction Hh as [r|r r1 gs r2 Hlt _ IH|r x r1 gs r2 Hs _ IH]; intros o Hw.
  - by eauto.
  - destruct (later_window _ _ _ _ _ Hlt Hw) as [Hw'|[Hw' _]]; by eapply IH.
  - pose proof (script_spec k l r o Hl Hw) as Hr. rewrite Hs in Hr.
    inversion Hr; subst; by eapply IH.
Qed.

(** A request is some hits, then the one that answers - or an error. *)
Lemma request_script k l r o :
  sound_limiter l → window_at (window_ms l) k r o →
  ∃ gs r0 o0, hits k l r gs r0 ∧ window_at (window_ms l) k r0 o0 ∧
    let c := request (rateLimitScript k (limit l) (window_ms l)) r in
    (∃ e, c = (Err e, r0)) ∨
    rateLimitScript k (limit l) (window_ms l) r0 = c ∧ script_result k l o0 r0 c.
Proof.
  intros Hl Hw. unfold request. pose proof (next_law k r) as [Hn _].
  destruct (conn_next r) as [d r1]; simpl in Hn.
  destruct (lost_runs_hits k l (d_lost d) r1) as [gs Hgs].
  assert (hits k l r gs (lost_runs (d_lost d) (rateLimitScript k (limit l) (window_ms l)) r1)) as Hh
    by by eapply hits_later.
  destruct (hits_window k l _ _ _ o Hl Hh Hw) as [o0 Ho].
  exists gs, (lost_runs (d_lost d) (rateLimitScript k (limit l) (window_ms l)) r1), o0.
  split_and!; [done|done|]. simpl. destruct (d_error d); [left; by eexists|right].
  split; [done|by apply script_spec].
Qed.

Lemma retry_after_bound l r k n t :
  in_int64 (window l) → window_at (window_ms l) k r (Some (n, t)) →
  0 ≤ (t - redis_now r) * Millisecond ≤ Z.max Millisecond (window l).
Proof.
  intros Hi Hw. inversion Hw as [|n' t' Hk Hn Ht]; subst n' t'.
  pose proof (live_law k r _ t Hk eq_refl) as Hlive. unfold window_ms, Millisecond in *.
  pose proof (Z.quot_rem' (window l) 1000000) as Hq.
  destruct (Z.ltb_spec (Z.quot (window l) 1000000) 1) as [Hlt|Hge]; [lia|].
  assert (0 ≤ window l) as Hpos.
  { destruct (Z.le_gt_cases 0 (window l)) as [|Hneg]; [done|].
    pose proof (Z.quot_le_mono (window l) 0 1000000 ltac:(lia) ltac:(lia)) as Hq0.
    rewrite Z.quot_0_l in Hq0; lia. }
  pose proof (Z.rem_bound_pos (window l) 1000000 Hpos ltac:(lia)) as Hm. lia.
Qed.

(** The decision of a hit that leaves [n] hits in the window ending at [t]. *)
Definition decision (l : OutboundRateLimiter) (r : R) (n t : Z) : bool * Duration :=
  (n <=? limit l, if n <=? limit l then 0 else (t - redis_now r) * Millisecond).

Lemma Allow_decides l bucket r o :
  sound_limiter l → window_at (window_ms l) (bucket_key bucket) r o →
  ∃ gs r0 o0, hits (bucket_key bucket) l r gs r0 ∧ window_at (window_ms l) (bucket_key bucket) r0 o0 ∧
    let '(x, r') := Allow l bucket r in
    (∃ e, x = Err (Wrapped "rate limit script" e) ∧ r' = r0) ∨
    ∃ n t y, hit (window_ms l) (redis_now r0) o0 = (n, t) ∧
      window_at (window_ms l) (bucket_key bucket) r' (Some (n, t)) ∧
      redis_now r' = redis_now r0 ∧ x = Ok (decision l r' n t) ∧
      rateLimitScript (bucket_key bucket) (limit l) (window_ms l) r0 = (y, r') ∧
      granted y = (n <=? limit l).
Proof.
  intros Hl Hw. destruct (request_script _ l r o Hl Hw) as (gs & r0 & o0 & Hh & Hw0 & Hc).
  exists gs, r0, o0. split; [done|]. split; [done|].
  unfold Allow, wrap_err, bind, map_err. fold (bucket_key bucket). cbv zeta in Hc |- *.
  destruct (request (rateLimitScript (bucket_key bucket) (limit l) (window_ms l)) r) as [y r'].
  destruct Hc as [[e [= -> ->]]|[Hs Hr]]; [cbn; left; by eexists|].
  inversion Hr as [n t r1 Hhit Hw' Hnow Hle|e]; subst; [|cbn; left; by exists e].
  destruct (n <=? limit l) eqn:Hle'; cbn; right; exists n, t; eexists; rewrite Hle'; split_and!; try done.
  - unfold decision. by rewrite Hle'.
  - unfold decision. rewrite Hle', Hnow.
    pose proof (retry_after_bound l r' _ n t (proj2 Hl) Hw') as Hb. rewrite int64_small; [done|].
    destruct Hl as [_ Hi]. unfold in_int64, Millisecond in *. lia.
Qed.

(** ** Properties *)

(** C28. [Allow] fails only with the error of the connection or of a full
    counter; otherwise it counts one hit in the bucket's window (opening one if
    none is open), allows it exactly when the hits do not exceed the limit, and
    tells a refused caller the remaining window, which neither overflows nor
    exceeds the configured window. *)
Theorem Allow_outcomes l bucket r o :
  sound_limiter l → window_at (window_ms l) (bucket_key bucket) r o →
  ∃ gs r0 o0, hits (bucket_key bucket) l r gs r0 ∧ window_at (window_ms l) (bucket_key bucket) r0 o0 ∧
    let '(x, r') := Allow l bucket r in
    (∃ e, x = Err (Wrapped "rate limit script" e) ∧ r' = r0) ∨
    ∃ n t, hit (window_ms l) (redis_now r0) o0 = (n, t) ∧ redis_now r' = redis_now r0 ∧
      window_at (window_ms l) (bucket_key bucket) r' (Some (n, t)) ∧ x = Ok (decision l r' n t) ∧
      0 ≤ (decision l r' n t).2 ≤ Z.max Millisecond (window l).
Proof.
  intros Hl Hw. destruct (Allow_decides l bucket r o Hl Hw) as (gs & r0 & o0 & Hh & Hw0 & H1).
  exists gs, r0, o0. split; [done|]. split; [done|].
  destruct (Allow l bucket r) as [x r']. destruct H1 as [H1|(n & t & y & H1 & Hw' & H2 & -> & _)]; [by left|].
  right. exists n, t. split_and!; try done.
  all: unfold decision; simpl; pose proof (retry_after_bound l r' _ n t (proj2 Hl) Hw');
    unfold Millisecond in *; destruct (n <=? limit l); lia.
Qed.

(** Calls of [Allow] on one bucket, with anything else in between: the times
    at which a call was allowed. *)
Definition allowed (x : res (bool * Duration)) : bool := match x with Ok (true, _) => true | _ => false end.
Inductive calls (l : OutboundRateLimiter) (bucket : string) : R → list Z → R → Prop :=
| calls_nil r : calls l bucket r [] r
| calls_later r r' ts r'' :
    later (bucket_key bucket) r r' → calls l bucket r' ts r'' → calls l bucket r ts r''
| calls_Allow r x r' ts r'' :
    Allow l bucket r = (x, r') → calls l bucket r' ts r'' →
    calls l bucket r ((if allowed x then [redis_now r'] else []) ++ ts) r''.

Lemma calls_hits l bucket r ts r' o :
  sound_limiter l → calls l bucket r ts r' → window_at (window_ms l) (bucket_key bucket) r o →
  ∃ gs, hits (bucket_key bucket) l r gs r' ∧ ts `sublist_of` gs.
Proof.
  intros Hl Hc. revert o. induction Hc as [r|r r1 ts r2 Hlt _ IH|r x r1 ts r2 HA _ IH]; intros o Hw.
  - exists []. split; constructor.
  - destruct (later_window _ _ _ _ _ Hlt Hw) as [Hw'|[Hw' _]];
      destruct (IH _ Hw') as (gs & Hgs & Hs); exists gs; split; try done; by eapply hits_later.
  - destruct (Allow_decides l bucket r o Hl Hw) as (gs & r0 & o0 & Hh & Hw0 & H1). rewrite HA in H1.
    destruct H1 as [(e & -> & ->)|(n & t & y & _ & Hw' & Hnow & -> & Hs & Hg)].
    + destruct (IH _ Hw0) as (gs' & Hgs' & Hsub). exists (gs ++ gs').
      split; [by eapply hits_trans|]. simpl. by apply sublist_inserts_l.
    + destruct (IH _ Hw') as (gs' & Hgs' & Hsub). eexists.
      split; [eapply hits_trans; [exact Hh|]; eapply hits_hit; [exact Hs|exact Hgs']|].
      rewrite Hg, Hnow. apply sublist_inserts_l. apply sublist_app; [|done].
      unfold decision. simpl. by destruct (n <=? limit l).
Qed.

(** C29. Whatever the connection does - lost answers and repeated requests
    included - at most [2 * limit - 1] calls are allowed within any interval as
    long as the window: the end of one window can meet the start of the next
    (the bound is attained, Lemma [burst_across_windows]). *)
Theorem limiter_window_bound l bucket r ts r' :
  sound_limiter l → redis_key (bucket_key bucket) r = None → calls l bucket r ts r' →
  ∀ a, count_in a (window_ms l) ts ≤ Z.max 0 (limit l) + Z.max 0 (limit l - 1).
Proof.
  intros Hl Hk Hc a.
  assert (window_at (window_ms l) (bucket_key bucket) r None) as Hw by by constructor.
  destruct (calls_hits l bucket r ts r' _ Hl Hc Hw) as (gs & Hgs & Hs).
  pose proof (wb_any _ _ _ _ _ (hits_bound _ l r gs r' a _ Hl Hgs Hw)).
  pose proof (count_in_sublist a (window_ms l) _ _ Hs). lia.
Qed.
End limiter.

(** ** A concrete run *)
Section demo.
Definition demo_limiter : OutboundRateLimiter := NewOutboundRateLimiter 2 (4 * Millisecond).
Definition demo_redis : mem :=
  mkMem 1000 ∅ [] [mkDelivery 0 None; mkDelivery 0 (Some (Opaque "i/o timeout"))].
(** Calls of [Allow] on a bucket in sequence, with their times. *)
Fixpoint run_calls (n : nat) (l : OutboundRateLimiter) (bucket : string) (r : mem) : list Z * mem :=
  match n with
  | O => ([], r)
  | S n => let '(x, r1) := Allow l bucket r in
           let '(ts, r2) := run_calls n l bucket r1 in
           ((if allowed x then [m_now r1] else []) ++ ts, r2)
  end.
Lemma run_calls_calls n l bucket r :
  calls l bucket r (run_calls n l bucket r).1 (run_calls n l bucket r).2.
Proof.
  revert r. induction n as [|n IH]; intros r; simpl; [constructor|].
  destruct (Allow l bucket r) as [x r1] eqn:E. specialize (IH r1).
  destruct (run_calls n l bucket r1) as [ts r2]. exact (calls_Allow l bucket r x r1 ts r2 E IH).
Qed.
Lemma demo_sound : sound_limiter demo_limiter.
Proof. split; vm_compute; intuition discriminate. Qed.

Lemma Allow_outcomes_witness :
  sound_limiter demo_limiter ∧
  window_at (window_ms demo_limiter) (bucket_key "sms") demo_redis None ∧
  (Allow demo_limiter "sms" demo_redis).1 = Ok (true, 0) ∧
  ∃ gs r0 o0, hits (bucket_key "sms") demo_limiter demo_redis gs r0 ∧
    window_at (window_ms demo_limiter) (bucket_key "sms") r0 o0.
Proof.
  assert (window_at (window_ms demo_limiter) (bucket_key "sms") demo_redis None) as Hw
    by by constructor.
  split; [exact demo_sound|]. split; [exact Hw|]. split; [by vm_compute|].
  destruct (Allow_outcomes demo_limiter "sms" demo_redis None demo_sound Hw)
    as (gs & r0 & o0 & Hh & H0 & _). by exists gs, r0, o0.
Defined.

(** A limit of 2 per 4 ms, and calls from 1001 on: the bound holds. *)
Lemma limiter_window_bound_witness :
  let ts := (run_calls 12 demo_limiter "sms" demo_redis).1 in
  redis_key (bucket_key "sms") demo_redis = None ∧ length ts = 6%nat ∧
  ∀ a, count_in a (window_ms demo_limiter) ts ≤ 3.
Proof.
  assert (redis_key (bucket_key "sms") demo_redis = None) as Hk by by vm_compute.
  split; [exact Hk|]. split; [by vm_compute|].
  exact (limiter_window_bound demo_limiter "sms" demo_redis _
    (run_calls 12 demo_limiter "sms" demo_redis).2 demo_sound Hk (run_calls_calls _ _ _ _)).
Defined.

(** With a limit of 2 in 4 ms, three calls are allowed between 1005 and 1007. *)
Lemma burst_across_windows :
  let r0 := mkMem 1000 ∅ [] [] in
  let '(x1, r1) := Allow demo_limiter "sms" r0 in
  let r1 := m_pause (m_pause (m_pause r1)) in
  let '(x2, r2) := Allow demo_limiter "sms" r1 in
  let '(x3, r3) := Allow demo_limiter "sms" r2 in
  let '(x4, r4) := Allow demo_limiter "sms" r3 in
  [allowed x1; allowed x2; allowed x3; allowed x4] = [true; true; true; true] ∧
  [m_now r2; m_now r3; m_now r4] = [1005; 1006; 1007].
Proof. by vm_compute. Qed.
End demo.
