(* ===== verification/Hub.v ===== *)
(** The WebSocket hub of internal/adapters/websocket/hub.go and the client
    protocol of internal/adapters/http/websocket_handler.go.

    The hub keeps two maps in lock-step; each method is one critical section
    under its mutex, except [Broadcast], which snapshots the recipients under
    the lock and sends outside it.  [run_instr] gives each method as the
    sequence of its critical sections and emissions, so that the sequential
    methods and the interleaved goroutines share one definition. *)

From S2P Require Import Prelude GoStrings Errors Json Notification.

(** [StatusUpdate], and its JSON as the consumer reads it. *)
Record StatusUpdate := mkStatusUpdate { u_NotificationID : string; u_Status : string }.
#[export] Instance status_update_eq_dec : EqDecision StatusUpdate.
Proof. solve_decision. Defined.

Definition StatusUpdate_fields : list string := ["notification_id"; "status"].
Definition StatusUpdate_set (field : string) (v : json) (u : StatusUpdate) :
    option error * StatusUpdate :=
  if bool_decide (field = "notification_id")
  then let '(e, x) := decode_string v (u_NotificationID u) in (e, mkStatusUpdate x (u_Status u))
  else let '(e, x) := decode_string v (u_Status u) in (e, mkStatusUpdate (u_NotificationID u) x).
Definition StatusUpdate_Unmarshal (payload : string) : res StatusUpdate :=
  Unmarshal StatusUpdate_fields StatusUpdate_set payload (mkStatusUpdate "" "").
(** [json.Marshal] of the struct: the same fields in order. *)
Definition StatusUpdate_Marshal (u : StatusUpdate) : string :=
  Marshal (JObj [("notification_id", JStr (u_NotificationID u)); ("status", JStr (u_Status u))]).

(** The [Client] interface: an identifier, and a [Send] over the state of the
    connections. *)
Class Client (C W : Type) := {
  client_ID : C → string;
  client_Send : C → StatusUpdate → W → option error * W;
}.

(** [Hub]: notification id to clients by id, and the reverse index; [metrics]
    tells whether a recorder is wired. *)
Record Hub {C : Type} := mkHub {
  subscribers : gmap NotificationID (gmap string C);
  clientSubs : gmap string (gset NotificationID);
  metrics : bool;
}.
Arguments Hub : clear implicits.
Arguments mkHub {C}.

(** Go ranges over a map in an unspecified order: the orders one execution
    picks. *)
Record range_order (C : Type) := mkOrder {
  ids_of : gset NotificationID → list NotificationID;
  clients_of : gmap string C → list C;
  ids_of_all : ∀ X, ids_of X ≡ₚ elements X;
  clients_of_all : ∀ m, clients_of m ≡ₚ (map_to_list m).*2;
}.
Arguments ids_of {C}.
Arguments clients_of {C}.
Arguments ids_of_all {C}.
Arguments clients_of_all {C}.
Definition map_order (C : Type) : range_order C :=
  mkOrder C elements (λ m, (map_to_list m).*2) (λ _, reflexivity _) (λ _, reflexivity _).

Section hub.
Context {C W : Type} `{!Client C W}.
Implicit Types (h : Hub C) (c : C) (n : NotificationID).

(** ** The critical sections *)
Definition NewHub : Hub C := mkHub ∅ ∅ false.
Definition NewHubWithMetrics (rec : bool) : Hub C := mkHub ∅ ∅ rec.

Definition subscribe_locked c n h : Hub C :=
  let clients := default ∅ (subscribers h !! n) in
  let subs := default ∅ (clientSubs h !! client_ID c) in
  mkHub (<[n := <[client_ID c := c]> clients]> (subscribers h))
        (<[client_ID c := {[n]} ∪ subs]> (clientSubs h)) (metrics h).

(** [delete(inner, k)], then drop the inner map if it became empty. *)
Definition remove_client (id : string) n (m : gmap NotificationID (gmap string C)) :=
  match m !! n with
  | None => m
  | Some clients =>
      let clients' := delete id clients in
      if bool_decide (clients' = ∅) then delete n m else <[n := clients']> m
  end.
Definition remove_sub (id : string) n (m : gmap string (gset NotificationID)) :=
  match m !! id with
  | None => m
  | Some subs =>
      let subs' := subs ∖ {[n]} in
      if bool_decide (subs' = ∅) then delete id m else <[id := subs']> m
  end.
Definition removeLocked (id : string) n h : Hub C :=
  mkHub (remove_client id n (subscribers h)) (remove_sub id n (clientSubs h)) (metrics h).

(** [None] when the client holds no subscription: the early return. *)
Definition unsubscribe_all_locked (ω : range_order C) c h : option (Hub C) :=
  match clientSubs h !! client_ID c with
  | None => None
  | Some subs => Some (foldl (λ h n, removeLocked (client_ID c) n h) h (ids_of ω subs))
  end.

Definition recipients (ω : range_order C) n h : list C :=
  clients_of ω (default ∅ (subscribers h !! n)).

Definition SubscriberCount h n : nat := size (default ∅ (subscribers h !! n)).
Definition client_count h : nat := size (clientSubs h).

(** ** The hub at work: its maps, the gauge last emitted, the connections, and
    what was subscribed and sent so far. *)
Inductive event :=
| Subscribed (id : string) (n : NotificationID)
| Delivered (c : C) (msg : StatusUpdate) (err : option error).

Record site := mkSite {
  s_hub : Hub C;
  s_gauge : option nat;
  s_conns : W;
  s_log : list event;
}.
Definition set_hub (h : Hub C) (s : site) := mkSite h (s_gauge s) (s_conns s) (s_log s).

(** What a goroutine still has to do. *)
Inductive instr :=
| ISubscribe (c : C) (n : NotificationID)
| IUnsubscribe (c : C) (n : NotificationID)
| IUnsubscribeAll (c : C)
| IBroadcast (n : NotificationID) (status : string)
| ISend (c : C) (msg : StatusUpdate)
| IGauge (count : nat).

(** [if h.metrics != nil { h.metrics.SetWebSocketClients(count) }] *)
Definition emit h : list instr := if metrics h then [IGauge (client_count h)] else [].

(** One atomic step: its effect and what it leaves to do first. *)
Definition run_instr (ω : range_order C) (i : instr) (s : site) : list instr * site :=
  match i with
  | ISubscribe c n =>
      let h := subscribe_locked c n (s_hub s) in
      (emit h, mkSite h (s_gauge s) (s_conns s) (s_log s ++ [Subscribed (client_ID c) n]))
  | IUnsubscribe c n => ([], set_hub (removeLocked (client_ID c) n (s_hub s)) s)
  | IUnsubscribeAll c =>
      match unsubscribe_all_locked ω c (s_hub s) with
      | None => ([], s)
      | Some h => (emit h, set_hub h s)
      end
  | IBroadcast n status =>
      (map (λ c, ISend c (mkStatusUpdate n status)) (recipients ω n (s_hub s)), s)
  | ISend c msg =>
      let '(err, w) := client_Send c msg (s_conns s) in
      (if err then [IUnsubscribeAll c] else [],
       mkSite (s_hub s) (s_gauge s) w (s_log s ++ [Delivered c msg err]))
  | IGauge count => ([], mkSite (s_hub s) (Some count) (s_conns s) (s_log s))
  end.

(** ** The methods, run without interference

    [run] executes an instruction with what it pushes; [rounds] bounds the
    rounds of work it can leave behind (Lemma [run_saturated]). *)
Fixpoint run (fuel : nat) (ω : range_order C) (i : instr) (s : site) : site :=
  match fuel with
  | O => s
  | S fuel => let '(k, s') := run_instr ω i s in foldl (λ s i, run fuel ω i s) s' k
  end.
Definition rounds (i : instr) : nat :=
  match i with
  | IGauge _ | IUnsubscribe _ _ => 1
  | ISubscribe _ _ | IUnsubscribeAll _ => 2
  | ISend _ _ => 3
  | IBroadcast _ _ => 4
  end.
Definition exec (ω : range_order C) (i : instr) : site → site := run (rounds i) ω i.
Definition Subscribe ω c n s := exec ω (ISubscribe c n) s.
Definition Unsubscribe ω c n s := exec ω (IUnsubscribe c n) s.
Definition UnsubscribeAll ω c s := exec ω (IUnsubscribeAll c) s.
Definition Broadcast ω n status s := exec ω (IBroadcast n status) s.

(** ** The invariant: the two maps describe one set of pairs *)
Definition subscribed h n (id : string) : option C := subscribers h !! n ≫= (.!! id).
Definition indexed h n (id : string) : Prop := ∃ subs, clientSubs h !! id = Some subs ∧ n ∈ subs.

Record lockstep h : Prop := {
  index_agrees : ∀ n id, is_Some (subscribed h n id) ↔ indexed h n id;
  keyed_by_id : ∀ n id c, subscribed h n id = Some c → client_ID c = id;
  no_empty_subscribers : ∀ n m, subscribers h !! n = Some m → m ≠ ∅;
  no_empty_subs : ∀ id X, clientSubs h !! id = Some X → X ≠ ∅;
}.

Lemma lockstep_new rec : lockstep (NewHubWithMetrics rec).
Proof.
  split; unfold subscribed, indexed; simpl.
  - intros n id. rewrite lookup_empty, is_Some_alt. simpl. split; [done|].
    intros (X & HX & _). by rewrite lookup_empty in HX.
  - intros n id c. by rewrite lookup_empty.
  - intros n X. by rewrite lookup_empty.
  - intros id X. by rewrite lookup_empty.
Qed.

(** ** What the critical sections do to the pairs *)
Lemma subscribed_subscribe c n h m id :
  subscribed (subscribe_locked c n h) m id =
  if decide (m = n ∧ id = client_ID c) then Some c else subscribed h m id.
Proof.
  unfold subscribed, subscribe_locked; simpl.
  destruct (decide (m = n)) as [->|Hm].
  - rewrite lookup_insert_eq. simpl. destruct (decide (id = client_ID c)) as [->|Hi].
    + rewrite lookup_insert_eq, decide_True by done. done.
    + rewrite lookup_insert_ne, decide_False by (try naive_solver; done).
      by destruct (subscribers h !! n).
  - rewrite lookup_insert_ne, decide_False by naive_solver. done.
Qed.
Lemma indexed_subscribe c n h m id :
  indexed (subscribe_locked c n h) m id ↔ (m = n ∧ id = client_ID c) ∨ indexed h m id.
Proof.
  unfold indexed, subscribe_locked; simpl.
  destruct (decide (id = client_ID c)) as [->|Hi].
  - rewrite lookup_insert_eq. destruct (clientSubs h !! client_ID c) as [X|]; simpl.
    + split; [intros (Y & [= <-] & HY); set_solver|].
      intros [[-> _]|(Y & [= <-] & HY)]; eexists; split; try done; set_solver.
    + split; [intros (Y & [= <-] & HY); set_solver|].
      intros [[-> _]|(Y & HY & _)]; [|done]. eexists; split; [done|set_solver].
  - rewrite lookup_insert_ne by done. naive_solver.
Qed.

Lemma lookup_remove_client id n m k :
  remove_client id n m !! k ≫= (.!! id) = (if decide (k = n) then None else m !! k ≫= (.!! id)).
Proof.
  unfold remove_client. destruct (decide (k = n)) as [->|Hk].
  - destruct (m !! n) as [cs|] eqn:E; simpl; [|by rewrite E].
    case_bool_decide.
    + by rewrite lookup_delete_eq.
    + rewrite lookup_insert_eq. simpl. apply lookup_delete_eq.
  - destruct (m !! n) as [cs|]; [|done]. case_bool_decide.
    + by rewrite lookup_delete_ne.
    + by rewrite lookup_insert_ne.
Qed.
Lemma lookup_remove_client_ne id n m k id' :
  id' ≠ id → remove_client id n m !! k ≫= (.!! id') = m !! k ≫= (.!! id').
Proof.
  intros Hi. unfold remove_client. destruct (m !! n) as [cs|] eqn:E; [|done].
  destruct (decide (k = n)) as [->|Hk].
  - assert (delete id cs !! id' = cs !! id') as Hd by by rewrite lookup_delete_ne.
    rewrite E. simpl. case_bool_decide as He.
    + rewrite lookup_delete_eq. simpl. rewrite <-Hd, He. done.
    + by rewrite lookup_insert_eq.
  - case_bool_decide; by rewrite ?lookup_delete_ne, ?lookup_insert_ne.
Qed.
Lemma subscribed_remove id n h m id' :
  subscribed (removeLocked id n h) m id' =
  if decide (m = n ∧ id' = id) then None else subscribed h m id'.
Proof.
  unfold subscribed. simpl. destruct (decide (id' = id)) as [->|Hi].
  - rewrite lookup_remove_client. repeat case_decide; naive_solver.
  - rewrite lookup_remove_client_ne, decide_False by naive_solver. done.
Qed.
Lemma indexed_remove id n h m id' :
  indexed (removeLocked id n h) m id' ↔ ¬ (m = n ∧ id' = id) ∧ indexed h m id'.
Proof.
  unfold indexed, removeLocked, remove_sub; simpl.
  destruct (clientSubs h !! id) as [X|] eqn:E.
  - destruct (decide (id' = id)) as [->|Hi].
    + rewrite E. case_bool_decide as He.
      * rewrite lookup_delete_eq. split; [by intros (Y & HY & _)|].
        intros (Hn & Y & [= <-] & HY). set_solver.
      * rewrite lookup_insert_eq. split.
        -- intros (Y & [= <-] & HY). split; [set_solver|]. eexists; split; [done|set_solver].
        -- intros (Hn & Y & [= <-] & HY). eexists; split; [done|set_solver].
    + case_bool_decide; rewrite ?lookup_delete_ne, ?lookup_insert_ne by done; naive_solver.
  - split; [|naive_solver]. intros (Y & HY & Hm). split; [|by eauto].
    intros [-> ->]. by rewrite E in HY.
Qed.

Lemma lockstep_subscribe c n h : lockstep h → lockstep (subscribe_locked c n h).
Proof.
  intros [Hi Hk He Hs]. split.
  - intros m id. rewrite subscribed_subscribe, indexed_subscribe, <-Hi.
    case_decide; [split; eauto|]. naive_solver.
  - intros m id c'. rewrite subscribed_subscribe. case_decide; [naive_solver|eauto].
  - unfold subscribe_locked; simpl. intros m X. rewrite lookup_insert_Some.
    intros [[-> <-]|[_ HX]]; [apply insert_non_empty|eauto].
  - unfold subscribe_locked; simpl. intros id X. rewrite lookup_insert_Some.
    intros [[-> <-]|[_ HX]]; [set_solver|eauto].
Qed.
Lemma lockstep_remove id n h : lockstep h → lockstep (removeLocked id n h).
Proof.
  intros [Hi Hk He Hs]. split.
  - intros m id'. rewrite subscribed_remove, indexed_remove, <-Hi.
    case_decide; [|naive_solver]. rewrite is_Some_alt. naive_solver.
  - intros m id' c'. rewrite subscribed_remove. case_decide; [done|eauto].
  - unfold removeLocked, remove_client; simpl. intros m X.
    destruct (subscribers h !! n) as [cs|]; [|eauto]. case_bool_decide.
    + rewrite lookup_delete_Some. naive_solver.
    + rewrite lookup_insert_Some. naive_solver.
  - unfold removeLocked, remove_sub; simpl. intros id' X.
    destruct (clientSubs h !! id) as [cs|]; [|eauto]. case_bool_decide.
    + rewrite lookup_delete_Some. naive_solver.
    + rewrite lookup_insert_Some. naive_solver.
Qed.

(** A hub is determined by its pairs: lock-step hubs hold no other state. *)
Lemma lockstep_ext h1 h2 :
  lockstep h1 → lockstep h2 → metrics h1 = metrics h2 →
  (∀ n id, subscribed h1 n id = subscribed h2 n id) → h1 = h2.
Proof.
  intros L1 L2 Hm H.
  assert (∀ n id, indexed h1 n id ↔ indexed h2 n id) as HI.
  { intros n id. rewrite <-(index_agrees h1 L1), <-(index_agrees h2 L2), H. done. }
  destruct h1 as [S1 X1 m1], h2 as [S2 X2 m2]; simpl in *; subst m2. f_equal.
  - apply map_eq; intros n. unfold subscribed in H; simpl in H.
    pose proof (no_empty_subscribers _ L1 n) as E1. pose proof (no_empty_subscribers _ L2 n) as E2.
    simpl in *. specialize (H n).
    destruct (S1 !! n) as [a|], (S2 !! n) as [b|]; simpl in *; try done.
    + f_equal. apply map_eq, H.
    + destruct (E1 a eq_refl). by apply map_empty.
    + destruct (E2 b eq_refl). apply map_empty. intros id. by rewrite <-H.
  - apply map_eq; intros id. unfold indexed in HI; simpl in HI.
    pose proof (no_empty_subs _ L1 id) as E1. pose proof (no_empty_subs _ L2 id) as E2.
    simpl in *. assert (∀ n, (∃ s, X1 !! id = Some s ∧ n ∈ s) ↔ ∃ s, X2 !! id = Some s ∧ n ∈ s)
      as HI' by by intros n.
    destruct (X1 !! id) as [a|], (X2 !! id) as [b|]; simpl in *; try done.
    + f_equal. set_solver.
    + destruct (E1 a eq_refl). set_solver.
    + destruct (E2 b eq_refl). set_solver.
Qed.

(** ** Dropping a client *)
Lemma remove_all_spec id l h :
  let h' := foldl (λ h n, removeLocked id n h) h l in
  metrics h' = metrics h ∧ (lockstep h → lockstep h') ∧
  ∀ m id', subscribed h' m id' = if decide (m ∈ l ∧ id' = id) then None else subscribed h m id'.
Proof.
  revert h. induction l as [|n l IH]; intros h; cbn [foldl].
  - split_and!; [done|done|]. intros m id'. case_decide; [set_solver|done].
  - destruct (IH (removeLocked id n h)) as (Hm & Hl & Hs). split_and!; [done| |].
    + intros. by apply Hl, lockstep_remove.
    + intros m id'. rewrite Hs, subscribed_remove.
      repeat case_decide; try done; set_solver.
Qed.

(** [h'] is [h] without the clients of [ids]. *)
Definition without (ids : list string) h h' : Prop :=
  metrics h' = metrics h ∧ lockstep h' ∧
  ∀ m id, subscribed h' m id = if decide (id ∈ ids) then None else subscribed h m id.
Lemma without_nil h : lockstep h → without [] h h.
Proof. intros L. split_and!; [done|done|]. intros. case_decide; [set_solver|done]. Qed.
Lemma without_trans a b h1 h2 h3 : without a h1 h2 → without b h2 h3 → without (a ++ b) h1 h3.
Proof.
  intros (M1 & _ & S1) (M2 & L2 & S2). split_and!; [congruence|done|].
  intros m id. rewrite S2, S1. repeat case_decide; try done; set_solver.
Qed.
(** Nothing but the set of dropped clients matters: the order of the drops,
    and of the map iterations, does not. *)
Lemma without_unique a b h h1 h2 :
  (∀ id, id ∈ a ↔ id ∈ b) → without a h h1 → without b h h2 → h1 = h2.
Proof.
  intros Hab (M1 & L1 & S1) (M2 & L2 & S2). apply lockstep_ext; try done; [congruence|].
  intros m id. rewrite S1, S2. repeat case_decide; naive_solver.
Qed.

Lemma drop_spec ω c h :
  lockstep h → without [client_ID c] h (default h (unsubscribe_all_locked ω c h)).
Proof.
  intros L. unfold unsubscribe_all_locked.
  destruct (clientSubs h !! client_ID c) as [X|] eqn:E; simpl.
  - destruct (remove_all_spec (client_ID c) (ids_of ω X) h) as (Hm & Hl & Hs).
    split_and!; [done|by apply Hl|]. intros m id. rewrite Hs.
    assert (m ∈ ids_of ω X ↔ m ∈ X) as Hin by by rewrite ids_of_all, elem_of_elements.
    pose proof (list_elem_of_singleton id (client_ID c)) as Hs1.
    destruct (decide (id = client_ID c)) as [->|Hid].
    + rewrite (decide_True (P:=client_ID c ∈ _)) by naive_solver. case_decide as Hd; [done|].
      apply eq_None_not_Some. rewrite (index_agrees h L).
      intros (Y & HY & Hm'). simplify_eq. naive_solver.
    + repeat case_decide; naive_solver.
  - split_and!; [done|done|]. intros m id. case_decide as Hd; [|done].
    apply list_elem_of_singleton in Hd as ->. apply eq_None_not_Some.
    rewrite (index_agrees h L). intros (Y & HY & _). congruence.
Qed.

(** ** Saturation *)
Lemma run_instr_rounds ω i s k : k ∈ (run_instr ω i s).1 → (rounds k < rounds i)%nat.
Proof.
  unfold run_instr, emit. destruct i; simpl; try case_match; simpl; try case_match; simpl;
    rewrite ?list_elem_of_singleton, ?elem_of_nil; try (intros ->; simpl; lia); try done.
  rewrite list_elem_of_fmap. intros (c & -> & _). simpl. lia.
Qed.
Lemma foldl_ext_in {A B} (f g : A → B → A) l a :
  (∀ a b, b ∈ l → f a b = g a b) → foldl f a l = foldl g a l.
Proof.
  revert a. induction l as [|b l IH]; intros a H; simpl; [done|].
  rewrite H by left. apply IH. intros. apply H. by right.
Qed.
Lemma run_enough ω a b i s :
  (rounds i ≤ a)%nat → (rounds i ≤ b)%nat → run a ω i s = run b ω i s.
Proof.
  revert b i s. induction a as [|a IH]; intros b i s Ha Hb; [destruct i; simpl in *; lia|].
  destruct b as [|b]; [destruct i; simpl in *; lia|]. simpl.
  pose proof (run_instr_rounds ω i s) as Hk. destruct (run_instr ω i s) as [k s'].
  apply foldl_ext_in. intros s0 j Hj. specialize (Hk j Hj). apply IH; lia.
Qed.
Lemma run_saturated ω fuel i s : (rounds i ≤ fuel)%nat → run fuel ω i s = exec ω i s.
Proof. intros. by apply run_enough. Qed.
(** A method is its first critical section followed by what that leaves to do. *)
Lemma exec_unfold ω i s :
  exec ω i s = let '(k, s') := run_instr ω i s in foldl (λ s i, exec ω i s) s' k.
Proof.
  rewrite <-(run_saturated ω (S (rounds i))) by lia. simpl.
  pose proof (run_instr_rounds ω i s) as Hk. destruct (run_instr ω i s) as [k s'].
  apply foldl_ext_in. intros s0 j Hj. apply run_saturated. specialize (Hk j Hj). lia.
Qed.

(** ** Broadcasting *)
(** The sends themselves: every client in turn, whatever the others answered. *)
Fixpoint sends (msg : StatusUpdate) (cs : list C) (w : W) : list (C * option error) * W :=
  match cs with
  | [] => ([], w)
  | c :: cs =>
      let '(err, w) := client_Send c msg w in
      let '(ds, w) := sends msg cs w in ((c, err) :: ds, w)
  end.
Definition failed (ds : list (C * option error)) : list string :=
  map (λ d, client_ID d.1) (filter (λ d, is_Some d.2) ds).

Lemma failed_cons c err ds :
  failed ((c, err) :: ds) = (if err then [client_ID c] else []) ++ failed ds.
Proof.
  unfold failed. destruct err.
  - by rewrite filter_cons_True by (by eexists).
  - by rewrite filter_cons_False by (intros Hs; by apply is_Some_None in Hs).
Qed.

(** The gauge after a drop, or a series of them, that met subscribed clients. *)
Definition gauge_after (ids : list string) s (h' : Hub C) : option nat :=
  if metrics h' && negb (bool_decide (ids = [])) then Some (client_count h') else s_gauge s.

Lemma drop_found ω c h :
  lockstep h → (∃ n, is_Some (subscribed h n (client_ID c))) →
  is_Some (unsubscribe_all_locked ω c h).
Proof.
  intros L [n Hn]. apply (index_agrees h L) in Hn as (X & HX & _).
  unfold unsubscribe_all_locked. rewrite HX. by eexists.
Qed.

Lemma exec_send ω c msg s :
  lockstep (s_hub s) → (∃ n, is_Some (subscribed (s_hub s) n (client_ID c))) →
  let '(err, w) := client_Send c msg (s_conns s) in
  let s' := exec ω (ISend c msg) s in
  s_conns s' = w ∧ s_log s' = s_log s ++ [Delivered c msg err] ∧
  without (failed [(c, err)]) (s_hub s) (s_hub s') ∧
  s_gauge s' = gauge_after (failed [(c, err)]) s (s_hub s').
Proof.
  intros L Hc. unfold exec; simpl.
  destruct (client_Send c msg (s_conns s)) as [[e|] w]; rewrite failed_cons; simpl.
  - pose proof (drop_spec ω c _ L) as Hd. destruct (drop_found ω c _ L Hc) as [h Hh].
    rewrite Hh in *. simpl in *. unfold emit, gauge_after; simpl.
    destruct (metrics h) eqn:Hm; simpl; by rewrite ?Hm.
  - unfold gauge_after; simpl. rewrite andb_false_r.
    split_and!; done || by apply without_nil.
Qed.
Lemma exec_sends ω msg cs s :
  lockstep (s_hub s) → NoDup (client_ID <$> cs) →
  (∀ c, c ∈ cs → ∃ n, is_Some (subscribed (s_hub s) n (client_ID c))) →
  let '(ds, w) := sends msg cs (s_conns s) in
  let s' := foldl (λ s i, exec ω i s) s (map (λ c, ISend c msg) cs) in
  ds.*1 = cs ∧ s_conns s' = w ∧
  s_log s' = s_log s ++ map (λ d, Delivered d.1 msg d.2) ds ∧
  without (failed ds) (s_hub s) (s_hub s') ∧
  s_gauge s' = gauge_after (failed ds) s (s_hub s').
Proof.
  revert s. induction cs as [|c cs IH]; intros s L HN HS; simpl.
  { unfold gauge_after; simpl. rewrite andb_false_r.
    split_and!; [done|done|by rewrite app_nil_r|by apply without_nil|done]. }
  pose proof (exec_send ω c msg s L (HS c ltac:(left))) as Hc.
  destruct (client_Send c msg (s_conns s)) as [err w]. destruct Hc as (Hw & Hlog & Hh & Hg).
  rewrite fmap_cons, NoDup_cons in HN. destruct HN as [Hni HN].
  specialize (IH (exec ω (ISend c msg) s) (proj1 (proj2 Hh)) HN). rewrite Hw in IH.
  destruct (sends msg cs w) as [ds w']. destruct IH as (E1 & E2 & E3 & E4 & E5).
  { intros c' Hc'. destruct (HS c' ltac:(by right)) as [n Hn]. exists n.
    destruct Hh as (_ & _ & Hs). rewrite Hs, decide_False; [done|].
    rewrite failed_cons, app_nil_r. destruct err; [|set_solver].
    rewrite list_elem_of_singleton. intros Heq. apply Hni. rewrite <-Heq.
    by apply list_elem_of_fmap_2. }
  assert (failed ((c, err) :: ds) = failed [(c, err)] ++ failed ds) as Ef
    by by rewrite !failed_cons, app_nil_r.
  split_and!.
  - by rewrite fmap_cons, E1.
  - done.
  - rewrite E3, Hlog, <-app_assoc. done.
  - rewrite Ef. by eapply without_trans.
  - rewrite E5, Ef. unfold gauge_after. rewrite Hg. unfold gauge_after.
    destruct (failed ds) as [|d ds0] eqn:Ed.
    + rewrite app_nil_r, bool_decide_true, andb_false_r by done.
      by rewrite (without_unique [] [] _ _ _ (λ _, reflexivity _) E4 (without_nil _ (proj1 (proj2 Hh)))).
    + rewrite (bool_decide_false (failed [(c, err)] ++ d :: ds0 = [])) by by destruct (failed [_]).
      rewrite bool_decide_false by done. destruct E4 as (M2 & _). rewrite M2.
      by destruct (metrics (s_hub (exec ω (ISend c msg) s))).
Qed.

(** ** The goroutines of an API instance

    A connection handler ([WebSocketHandler.ServeHTTP]) turns the messages it
    reads into calls and drops the client when the connection ends; the Redis
    consumer broadcasts what it decodes. *)
Record clientMessage := mkClientMessage { Action : string; msg_NotificationID : string }.
Definition subscribeAction : string := "subscribe".
Definition unsubscribeAction : string := "unsubscribe".

Definition dispatch (c : C) (msg : clientMessage) : list instr :=
  if bool_decide (msg_NotificationID msg = "") then []
  else if bool_decide (Action msg = subscribeAction) then [ISubscribe c (msg_NotificationID msg)]
  else if bool_decide (Action msg = unsubscribeAction) then [IUnsubscribe c (msg_NotificationID msg)]
  else [].
Definition clientMessage_fields : list string := ["action"; "notification_id"].
Definition clientMessage_set (field : string) (v : json) (m : clientMessage) :
    option error * clientMessage :=
  if bool_decide (field = "action")
  then let '(e, x) := decode_string v (Action m) in (e, mkClientMessage x (msg_NotificationID m))
  else let '(e, x) := decode_string v (msg_NotificationID m) in (e, mkClientMessage (Action m) x).
(** One iteration of the read loop: a frame that does not decode is skipped. *)
Definition read_frame (c : C) (payload : string) : list instr :=
  match Unmarshal clientMessage_fields clientMessage_set payload (mkClientMessage "" "") with
  | Err _ => []
  | Ok msg => dispatch c msg
  end.
(** The read loop over the frames received, then the deferred clean-up. *)
Definition ServeHTTP (c : C) (frames : list string) : list instr :=
  concat (map (read_frame c) frames) ++ [IUnsubscribeAll c].

(** [Consumer.dispatch], and [Run] over the payloads received. *)
Definition consumer_dispatch (payload : string) : list instr :=
  match StatusUpdate_Unmarshal payload with
  | Err _ => []
  | Ok msg =>
      if bool_decide (u_NotificationID msg = "") || bool_decide (u_Status msg = "") then []
      else [IBroadcast (u_NotificationID msg) (u_Status msg)]
  end.
Definition Consumer_Run (payloads : list string) : list instr := concat (map consumer_dispatch payloads).

Inductive goroutine := Connection (c : C) (frames : list string) | Feed (payloads : list string).
Definition goroutine_code (g : goroutine) : list instr :=
  match g with
  | Connection c frames => ServeHTTP c frames
  | Feed payloads => Consumer_Run payloads
  end.

(** Any goroutine may take the next step, ranging over maps in any order. *)
Inductive hub_step : list (list instr) * site → list (list instr) * site → Prop :=
| hub_step_at ω gs1 i rest gs2 s k s' :
    run_instr ω i s = (k, s') →
    hub_step (gs1 ++ (i :: rest) :: gs2, s) (gs1 ++ (k ++ rest) :: gs2, s').
Definition boot (rec : bool) (w : W) (gs : list goroutine) : list (list instr) * site :=
  (map goroutine_code gs, mkSite (NewHubWithMetrics rec) None w []).
Definition hub_reachable rec w gs := rtc hub_step (boot rec w gs).

(** ** What every interleaving keeps *)
Definition asked (log : list event) n (id : string) : Prop := Subscribed id n ∈ log.

(** Pending sends are to clients that asked for the notification. *)
Definition pending_ok (log : list event) (i : instr) : Prop :=
  match i with ISend c msg => asked log (u_NotificationID msg) (client_ID c) | _ => True end.

(** Every subscription a goroutine makes is cleaned up later by it. *)
Definition cleans (id : string) (i : instr) : Prop :=
  match i with IUnsubscribeAll c => client_ID c = id | _ => False end.
Fixpoint covered (g : list instr) : Prop :=
  match g with
  | [] => True
  | i :: g =>
      match i with ISubscribe c _ => Exists (cleans (client_ID c)) g | _ => True end ∧ covered g
  end.

Record site_inv (st : list (list instr) * site) : Prop := {
  si_lockstep : lockstep (s_hub st.2);
  si_asked : ∀ n id c, subscribed (s_hub st.2) n id = Some c → asked (s_log st.2) n id;
  si_pending : Forall (Forall (pending_ok (s_log st.2))) st.1;
  si_log : ∀ l c msg err l', s_log st.2 = l ++ Delivered c msg err :: l' →
             asked l (u_NotificationID msg) (client_ID c);
  si_covered : Forall covered st.1;
  si_clean : ∀ n id c, subscribed (s_hub st.2) n id = Some c →
             Exists (Exists (cleans id)) st.1;
}.

Lemma covered_app g1 g2 : covered g1 → covered g2 → covered (g1 ++ g2).
Proof.
  intros H1 H2. induction g1 as [|i g1 IH]; simpl in *; [done|].
  destruct H1 as [Hi H1]. split; [|by apply IH].
  destruct i; try done. apply Exists_app. by left.
Qed.
Lemma covered_flat g : Forall (λ i, match i with ISubscribe _ _ => False | _ => True end) g → covered g.
Proof. induction 1 as [|i g Hi _ IH]; simpl; [done|]. split; [by destruct i|done]. Qed.
Lemma code_covered g : covered (goroutine_code g).
Proof.
  destruct g as [c frames|us]; simpl.
  - unfold ServeHTTP. induction frames as [|p frames IH]; simpl; [done|].
    unfold read_frame. destruct (Unmarshal _ _ p _) as [msg|e]; [|done].
    unfold dispatch. case_bool_decide; [done|]. case_bool_decide.
    + simpl. split; [|done]. apply Exists_app. right. apply Exists_cons. by left.
    + case_bool_decide; simpl; [|done]. by split.
  - unfold Consumer_Run. induction us as [|u us IH]; simpl; [done|]. apply covered_app; [|done].
    unfold consumer_dispatch. case_match; [|done]. by case_match.
Qed.
Lemma pending_mono log e i : pending_ok log i → pending_ok (log ++ e) i.
Proof. destruct i; simpl; try done. unfold asked. set_solver. Qed.

(** What one atomic step does to the pairs and to the log. *)
Record step_ok (i : instr) (s : site) (k : list instr) (s' : site) : Prop := {
  so_lockstep : lockstep (s_hub s');
  so_log : ∃ e, s_log s' = s_log s ++ e ∧
           (∀ c msg err, Delivered c msg err ∈ e → e = [Delivered c msg err] ∧ i = ISend c msg);
  so_pending : Forall (pending_ok (s_log s)) [i] → Forall (pending_ok (s_log s')) k;
  so_covered : covered k;
  so_pairs : ∀ n id c, subscribed (s_hub s') n id = Some c →
             subscribed (s_hub s) n id = Some c ∨ i = ISubscribe c n ∧ id = client_ID c;
  so_asked : ∀ c n, i = ISubscribe c n → asked (s_log s') n (client_ID c);
  so_cleans : ∀ id, cleans id i → ∀ n, subscribed (s_hub s') n id = None;
}.

Lemma without_sub ids h h' n id c :
  without ids h h' → subscribed h' n id = Some c → subscribed h n id = Some c.
Proof. intros (_ & _ & Hs). rewrite Hs. by case_decide. Qed.
Lemma emit_flat h log : Forall (pending_ok log) (emit h) ∧ covered (emit h).
Proof. unfold emit. destruct (metrics h); simpl; split; repeat constructor. Qed.
Lemma recipients_subscribed ω n h c :
  lockstep h → c ∈ recipients ω n h → subscribed h n (client_ID c) = Some c.
Proof.
  intros L. unfold recipients. rewrite clients_of_all, list_elem_of_fmap.
  intros ([id c'] & -> & Hc). apply elem_of_map_to_list in Hc. simpl.
  assert (subscribed h n id = Some c') as Hs.
  { unfold subscribed. by destruct (subscribers h !! n). }
  by rewrite (keyed_by_id _ L _ _ _ Hs).
Qed.

Lemma run_instr_ok ω i s k s' :
  lockstep (s_hub s) → (∀ n id c, subscribed (s_hub s) n id = Some c → asked (s_log s) n id) →
  run_instr ω i s = (k, s') → step_ok i s k s'.
Proof.
  intros L HA. destruct i; simpl; intros E.
  - simplify_eq. destruct (emit_flat (subscribe_locked c n (s_hub s)) (s_log s ++ [Subscribed (client_ID c) n])).
    split; simpl; try done.
    + by apply lockstep_subscribe.
    + exists [Subscribed (client_ID c) n]. split; [done|]. set_solver.
    + intros m id c'. rewrite subscribed_subscribe. case_decide; naive_solver.
    + intros ? ? [= <- <-]. unfold asked. set_solver.
  - simplify_eq. split; simpl; try done.
    + by apply lockstep_remove.
    + exists []. rewrite app_nil_r. set_solver.
    + intros m id c'. rewrite subscribed_remove. case_decide; naive_solver.
  - pose proof (drop_spec ω c (s_hub s) L) as Hd.
    assert (k = [] ∧ s' = s ∧ unsubscribe_all_locked ω c (s_hub s) = None ∨
      ∃ h, k = emit h ∧ s' = set_hub h s ∧ unsubscribe_all_locked ω c (s_hub s) = Some h) as Hc.
    { destruct (unsubscribe_all_locked ω c (s_hub s)) as [h|]; simplify_eq; [right|left]; eauto. }
    assert (without [client_ID c] (s_hub s) (s_hub s') ∧ s_log s' = s_log s) as [Hw Hl].
    { destruct Hc as [(-> & -> & Hn)|(h & -> & -> & Hn)]; rewrite Hn in Hd; done. }
    split; rewrite ?Hl; try done.
    + apply Hw.
    + exists []. rewrite app_nil_r. set_solver.
    + intros _. destruct Hc as [(-> & _)|(h & -> & _)]; [done|]. apply emit_flat.
    + destruct Hc as [(-> & _)|(h & -> & _)]; [done|]. by apply (emit_flat h (s_log s)).
    + intros m id c' Hs. left. by eapply without_sub.
    + simpl. intros id <- m. destruct Hw as (_ & _ & Hs). rewrite Hs.
      by rewrite decide_True by by apply list_elem_of_singleton.
  - simplify_eq. split; simpl; try done.
    + exists []. rewrite app_nil_r. set_solver.
    + intros _. apply Forall_fmap, Forall_forall. intros c Hc. simpl.
      by eapply HA, recipients_subscribed.
    + apply covered_flat, Forall_fmap, Forall_forall. done.
    + auto.
  - destruct (client_Send c msg (s_conns s)) as [err w]. simplify_eq. split; simpl; try done.
    + exists [Delivered c msg err]. split; [done|].
      intros ? ? ?. rewrite list_elem_of_singleton. by intros [= -> -> ->].
    + intros _. destruct err; repeat constructor.
    + by destruct err.
    + auto.
  - simplify_eq. split; simpl; try done; [|auto]. exists []. rewrite app_nil_r. set_solver.
Qed.

Lemma site_inv_step st st' : site_inv st → hub_step st st' → site_inv st'.
Proof.
  intros HI Hstep. destruct Hstep as [ω gs1 i rest gs2 s k s' E].
  destruct HI as [L HA HP HL HC HX]. simpl in *.
  destruct (run_instr_ok _ _ _ _ _ L HA E) as [L' (e & El & He) HP' HC' Hp Ha Hcl].
  rewrite Forall_app, Forall_cons in HP, HC. destruct HP as (P1 & Pi & P2), HC as (C1 & [Ci Cs] & C2).
  apply Forall_cons in Pi as [Pi Pis].
  assert (∀ g, Forall (pending_ok (s_log s)) g → Forall (pending_ok (s_log s')) g) as Hmono.
  { intros g Hg. rewrite El. eapply Forall_impl; [exact Hg|]. intros j. apply pending_mono. }
  assert (∀ n id, asked (s_log s) n id → asked (s_log s') n id) as Hamono.
  { intros n id. rewrite El. unfold asked. set_solver. }
  split; simpl; [done| | | | |].
  - intros n id c [Hs|[-> ->]]%Hp; [by eapply Hamono, HA|by apply Ha].
  - rewrite Forall_app, Forall_cons, Forall_app. split_and!; [|by auto..|].
    + eapply Forall_impl; [exact P1|done].
    + eapply Forall_impl; [exact P2|done].
  - intros l c msg err l' Heq. rewrite El in Heq.
    apply app_eq_app in Heq as (m & [[Hl Hm]|[Hl Hm]]).
    + destruct m as [|x m]; simpl in Hm.
      * rewrite app_nil_r in Hl. subst l.
        destruct (He c msg err) as [_ ->]; [rewrite <-Hm; by left|]. done.
      * injection Hm as <- _. rewrite Hl in HL. by eapply HL.
    + destruct (He c msg err) as [He' ->]; [rewrite Hm; set_solver|]. subst e l.
      assert (m = []) as -> by (destruct m as [|? [|]]; simpl in He'; done).
      rewrite app_nil_r. done.
  - rewrite Forall_app, Forall_cons. split_and!; [done|by apply covered_app|done].
  - intros n id c Hs. rewrite Exists_app, Exists_cons, Exists_app.
    destruct (Hp n id c Hs) as [Hs0|[-> ->]].
    + specialize (HX n id c Hs0). rewrite Exists_app, !Exists_cons in HX.
      destruct HX as [HX|[[Hi|HX]|HX]]; [tauto| |tauto..].
      specialize (Hcl id Hi n). congruence.
    + simpl in Ci. tauto.
Qed.

Lemma site_inv_boot rec w gs : site_inv (boot rec w gs).
Proof.
  split; simpl.
  - apply lockstep_new.
  - intros n id c. unfold subscribed; simpl. by rewrite lookup_empty.
  - apply Forall_fmap, Forall_forall. intros g _. simpl. destruct g as [c msgs|us]; simpl.
    + unfold ServeHTTP. rewrite Forall_app. split; [|by repeat constructor].
      apply Forall_concat, Forall_fmap, Forall_forall. intros m _. unfold read_frame, dispatch; simpl.
      case_match; [|constructor]. repeat case_bool_decide; repeat constructor.
    + apply Forall_concat, Forall_fmap, Forall_forall. intros m _. unfold consumer_dispatch; simpl.
      case_match; [|constructor]. case_match; repeat constructor.
  - intros [] * [=].
  - apply Forall_fmap, Forall_forall. intros g _. apply code_covered.
  - intros n id c. unfold subscribed; simpl. by rewrite lookup_empty.
Qed.
Lemma site_inv_reachable rec w gs st : hub_reachable rec w gs st → site_inv st.
Proof.
  unfold hub_reachable. intros H. pose proof (site_inv_boot rec w gs) as HI.
  induction H as [|a b c Hab _ IH]; [done|]. by eapply IH, site_inv_step.
Qed.

Lemma recipients_keyed ω n h : lockstep h → NoDup (client_ID <$> recipients ω n h).
Proof.
  intros L. unfold recipients. rewrite clients_of_all, <-list_fmap_compose.
  assert (∀ l : list (string * C), (∀ x, x ∈ l → client_ID x.2 = x.1) →
    (client_ID ∘ snd) <$> l = l.*1) as Hl.
  { induction l as [|x l IH]; intros Hx; [done|]. rewrite !fmap_cons, IH by set_solver.
    simpl. by rewrite Hx by left. }
  rewrite Hl; [apply NoDup_fst_map_to_list|].
  intros [id c] Hi%elem_of_map_to_list. simpl.
  apply (keyed_by_id h L n). unfold subscribed. by destruct (subscribers h !! n).
Qed.
Lemma SubscriberCount_spec ω n h : SubscriberCount h n = length (recipients ω n h).
Proof.
  unfold SubscriberCount, recipients. by rewrite clients_of_all, length_fmap, length_map_to_list.
Qed.

(** ** Properties *)

(** C23. [Subscribe], [Unsubscribe] and [UnsubscribeAll] change exactly the
    (client, notification) pairs they name, keep the two maps in lock-step, and
    do not depend on map iteration order; [Subscribe], and an [UnsubscribeAll]
    that finds the client, set the gauge to the number of connected clients,
    [Unsubscribe] leaves it alone. *)
Theorem hub_methods ω c n s :
  lockstep (s_hub s) →
  (let s' := Subscribe ω c n s in
   lockstep (s_hub s') ∧
   (∀ m id, subscribed (s_hub s') m id =
      if decide (m = n ∧ id = client_ID c) then Some c else subscribed (s_hub s) m id) ∧
   s_gauge s' = gauge_after [client_ID c] s (s_hub s')) ∧
  (let s' := Unsubscribe ω c n s in
   lockstep (s_hub s') ∧
   (∀ m id, subscribed (s_hub s') m id =
      if decide (m = n ∧ id = client_ID c) then None else subscribed (s_hub s) m id) ∧
   s_gauge s' = s_gauge s) ∧
  (let s' := UnsubscribeAll ω c s in
   without [client_ID c] (s_hub s) (s_hub s') ∧
   (∀ ω', UnsubscribeAll ω' c s = s') ∧
   ((∃ m, is_Some (subscribed (s_hub s) m (client_ID c))) →
      s_gauge s' = gauge_after [client_ID c] s (s_hub s')) ∧
   ((∀ m, subscribed (s_hub s) m (client_ID c) = None) → s' = s)).
Proof.
  intros L. unfold Subscribe, Unsubscribe, UnsubscribeAll, exec, gauge_after; simpl. split_and!.
  - unfold emit. destruct (metrics _); by apply lockstep_subscribe.
  - intros m id. rewrite <-subscribed_subscribe. unfold emit. by destruct (metrics _).
  - unfold emit; simpl. destruct (metrics (s_hub s)) eqn:Hm; simpl; rewrite Hm; done.
  - by apply lockstep_remove.
  - intros m id. apply subscribed_remove.
  - done.
  - pose proof (drop_spec ω c _ L) as Hd. destruct (unsubscribe_all_locked ω c (s_hub s)); [|done].
    simpl. unfold emit. by destruct (metrics _).
  - intros ω'. pose proof (drop_spec ω c _ L) as Hd. pose proof (drop_spec ω' c _ L) as Hd'.
    pose proof (without_unique _ _ _ _ _ (λ _, reflexivity _) Hd Hd') as Heq.
    unfold unsubscribe_all_locked in *. destruct (clientSubs _ !! _); simpl in *; [|done].
    rewrite Heq. unfold emit. by destruct (metrics _).
  - intros [h Hh]%(drop_found ω c _ L). rewrite Hh. unfold emit. simpl.
    by destruct (metrics h) eqn:Hm; simpl; rewrite ?Hm.
  - intros Hn. unfold unsubscribe_all_locked.
    destruct (clientSubs (s_hub s) !! client_ID c) as [X|] eqn:E; [|done].
    destruct (set_choose_L X (no_empty_subs _ L _ _ E)) as [m Hm].
    destruct (proj2 (index_agrees _ L m (client_ID c))) as [c' Hc'].
    { by exists X. } by rewrite Hn in Hc'.
Qed.

(** C24. A broadcast sends the update exactly once to every client subscribed
    to the notification, whatever the others answer, and to nobody else;
    afterwards the clients whose send failed are subscribed to nothing, every
    other subscription is untouched, the maps are in lock-step, and the gauge
    counts the clients that are left if any was dropped. *)
Theorem Broadcast_delivers ω n status s :
  lockstep (s_hub s) →
  let msg := mkStatusUpdate n status in
  let s' := Broadcast ω n status s in
  ∃ cs, cs ≡ₚ (map_to_list (default ∅ (subscribers (s_hub s) !! n))).*2 ∧
  NoDup (client_ID <$> cs) ∧
  let '(ds, w) := sends msg cs (s_conns s) in
  ds.*1 = cs ∧ s_conns s' = w ∧
  s_log s' = s_log s ++ map (λ d, Delivered d.1 msg d.2) ds ∧
  without (failed ds) (s_hub s) (s_hub s') ∧
  s_gauge s' = gauge_after (failed ds) s (s_hub s').
Proof.
  intros L msg s'. exists (recipients ω n (s_hub s)). split; [apply clients_of_all|].
  split; [by apply recipients_keyed|]. unfold s', Broadcast. rewrite exec_unfold. simpl.
  apply exec_sends; [done|by apply recipients_keyed|].
  intros c Hc. exists n. rewrite (recipients_subscribed ω n) by done. by eexists.
Qed.

(** C25. However the goroutines of an API instance interleave, the two maps
    stay in lock-step, and a client is only ever sent updates of
    notifications it had subscribed to before. *)
Theorem hub_deliveries rec w gs st :
  hub_reachable rec w gs st →
  lockstep (s_hub st.2) ∧
  ∀ l c msg err l', s_log st.2 = l ++ Delivered c msg err :: l' →
    Subscribed (client_ID c) (u_NotificationID msg) ∈ l.
Proof. intros H%site_inv_reachable. split; apply H. Qed.

(** C26. However the goroutines interleave, a subscription in the hub always
    has a connection handler that will still drop it: when every handler has
    finished, the hub holds nothing, so closed connections never leak. *)
Theorem hub_no_leak rec w gs st :
  hub_reachable rec w gs st →
  (∀ n id c, subscribed (s_hub st.2) n id = Some c → Exists (Exists (cleans id)) st.1) ∧
  (Forall (λ g, g = []) st.1 →
   subscribers (s_hub st.2) = ∅ ∧ clientSubs (s_hub st.2) = ∅).
Proof.
  intros H%site_inv_reachable. split; [apply H|]. intros Hdone.
  assert (∀ n id, subscribed (s_hub st.2) n id = None) as Hn.
  { intros n id. apply eq_None_not_Some. intros [c Hc].
    pose proof (si_clean _ H n id c Hc) as (g & Hg & Hx)%Exists_exists.
    rewrite Forall_forall in Hdone. apply Hdone in Hg as ->. by apply Exists_nil in Hx. }
  pose proof (lockstep_ext (s_hub st.2) (NewHubWithMetrics (metrics (s_hub st.2)))
    (si_lockstep _ H) (lockstep_new _) eq_refl) as He.
  rewrite He; [done|]. intros n id. rewrite Hn. unfold subscribed. simpl. by rewrite lookup_empty.
Qed.

(** The gauge is not emitted by [Unsubscribe]: a client that drops its last
    subscription stays counted until it disconnects. *)
Lemma Unsubscribe_leaves_gauge_stale ω c n w :
  let s := mkSite (NewHubWithMetrics true) None w [] in
  let s' := Unsubscribe ω c n (Subscribe ω c n s) in
  s_gauge s' = Some 1%nat ∧ client_count (s_hub s') = 0%nat.
Proof.
  unfold Unsubscribe, Subscribe, exec, client_count. simpl.
  assert (∀ X : gset NotificationID, X = ∅ → size (remove_sub (client_ID c) n (<[client_ID c := {[n]} ∪ X]> ∅)) = 0%nat) as Hr.
  { intros X ->. unfold remove_sub. rewrite lookup_insert_eq. simpl.
    rewrite bool_decide_true by set_solver. by rewrite delete_insert_eq, delete_empty. }
  rewrite lookup_empty in *. simpl. split; [|by apply Hr].
  unfold client_count; simpl.
  by rewrite map_size_insert_None, map_size_empty by apply lookup_empty.
Qed.
End hub.

(** ** A concrete instance: two connections, one of which is broken. *)
#[local] Instance demo_client : Client string unit := {
  client_ID := id;
  client_Send c _ w := (if bool_decide (c = "bad") then Some (Opaque "ws write") else None, w);
}.

(** The goroutine to run at each step; a finished or absent one is skipped. *)
Fixpoint schedule {C W} `{!Client C W} (ω : range_order C) (picks : list nat)
    (st : list (list instr) * site) : list (list instr) * site :=
  match picks with
  | [] => st
  | p :: picks =>
      match st.1 !! p with
      | Some (i :: rest) =>
          let '(k, s) := run_instr ω i st.2 in
          schedule ω picks (take p st.1 ++ (k ++ rest) :: drop (S p) st.1, s)
      | _ => schedule ω picks st
      end
  end.
Lemma schedule_reachable {C W} `{!Client C W} (ω : range_order C) rec w gs picks st :
  hub_reachable rec w gs st → hub_reachable rec w gs (schedule ω picks st).
Proof.
  revert st. induction picks as [|p picks IH]; intros st Hst; simpl; [done|].
  destruct (st.1 !! p) as [[|i rest]|] eqn:Hp; [by apply IH| |by apply IH].
  destruct (run_instr ω i st.2) as [k s] eqn:E. apply IH.
  eapply rtc_r; [exact Hst|]. rewrite (surjective_pairing st).
  rewrite <-(take_drop_middle _ _ _ Hp) at 1. by econstructor.
Qed.

Definition subscribe_frame (n : string) : string :=
  Marshal (JObj [("action", JStr "subscribe"); ("notification_id", JStr n)]).
Definition demo_gs : list goroutine :=
  [Connection "good" [subscribe_frame "n1"; "not json"];
   Connection "bad" [subscribe_frame "n1"; subscribe_frame "n2"];
   Feed [StatusUpdate_Marshal (mkStatusUpdate "n1" "sent");
         StatusUpdate_Marshal (mkStatusUpdate "" "sent")]].
(** Both subscribe, the broadcast snapshots, one client leaves, the sends run. *)
Definition demo_picks : list nat :=
  [0; 0; 1; 1; 1; 1; 2; 0; 0; 2; 2; 2; 2; 2; 2; 1; 1]%nat.
Definition demo_st : list (list instr) * site :=
  schedule (map_order string) demo_picks (boot true () demo_gs).
Lemma demo_reachable : hub_reachable true () demo_gs demo_st.
Proof. apply schedule_reachable. constructor. Qed.
Definition demo_site : site :=
  (schedule (map_order string) [0; 0; 1; 1; 1; 1]%nat (boot true () demo_gs)).2.
Lemma demo_lockstep : lockstep (s_hub demo_site).
Proof.
  apply (site_inv_reachable true () demo_gs (schedule _ [0; 0; 1; 1; 1; 1]%nat _)).
  apply schedule_reachable. constructor.
Qed.

Lemma hub_methods_witness :
  lockstep (s_hub demo_site) ∧
  s_gauge demo_site = Some 2%nat ∧
  UnsubscribeAll (map_order string) "bad" demo_site =
    UnsubscribeAll (map_order string) "bad" demo_site.
Proof.
  split; [exact demo_lockstep|]. split; [by vm_compute|].
  apply (hub_methods (map_order string) "bad" "n1" demo_site demo_lockstep).
Defined.

Lemma Broadcast_delivers_witness :
  let s' := Broadcast (map_order string) "n1" "sent" demo_site in
  lockstep (s_hub demo_site) ∧
  lockstep (s_hub s') ∧ SubscriberCount (s_hub s') "n1" = 1%nat ∧ s_gauge s' = Some 1%nat.
Proof.
  destruct (Broadcast_delivers (map_order string) "n1" "sent" demo_site demo_lockstep)
    as (cs & _ & _ & H).
  destruct (sends _ _ _) as [ds w]. destruct H as (_ & _ & _ & (_ & L & _) & _).
  split; [exact demo_lockstep|]. split; [exact L|]. by vm_compute.
Defined.

Lemma hub_deliveries_witness :
  hub_reachable true () demo_gs demo_st ∧ length (s_log demo_st.2) = 5%nat ∧
  lockstep (s_hub demo_st.2).
Proof.
  split; [exact demo_reachable|]. split; [by vm_compute|].
  exact (proj1 (hub_deliveries true () demo_gs demo_st demo_reachable)).
Defined.

Lemma hub_no_leak_witness :
  hub_reachable true () demo_gs demo_st ∧
  subscribers (s_hub demo_st.2) = ∅ ∧ clientSubs (s_hub demo_st.2) = ∅.
Proof.
  split; [exact demo_reachable|].
  apply (hub_no_leak true () demo_gs demo_st demo_reachable).
  apply Forall_forall. intros g Hg.
  assert (forallb (λ g, Nat.eqb (length g) 0) demo_st.1 = true) as Hall by by vm_compute.
  rewrite forallb_forall in Hall. specialize (Hall g (proj1 (list_elem_of_In _ _) Hg)).
  by destruct g.
Defined.
