(* ===== verification/RedisStores.v ===== *)
(** The idempotency store and the status broadcaster of
    internal/adapters/redis (idempotency_store.go, status_broadcaster.go). *)

From S2P Require Import Prelude GoStrings Errors ValueObjects Notification Json Ports.
From S2P Require Import Redis Hub.

(** [ports.IdempotencyEntry] *)
Record IdempotencyEntry := mkIdempotencyEntry {
  Body : gobytes; ContentType : string; RequestHash : gobytes }.
#[export] Instance idempotency_entry_eq_dec : EqDecision IdempotencyEntry.
Proof. solve_decision. Defined.
Definition no_entry : IdempotencyEntry := mkIdempotencyEntry None "" None.

Definition idempotencyKeyPrefix : string := "idempotency:".
Definition store_key (key : string) : string := (idempotencyKeyPrefix +:+ key)%string.

(** ** [idempotencyValue] on the wire *)
Definition encode_gobytes (b : gobytes) : json :=
  match b with None => JNull | Some s => JStr (StdEncoding_EncodeToString s) end.
Definition is_empty (b : gobytes) : bool :=
  match b with None => true | Some s => bool_decide (s = "") end.
Definition idempotencyValue_json (e : IdempotencyEntry) : json :=
  JObj ([("body", encode_gobytes (Body e)); ("content_type", JStr (ContentType e))]
        ++ (if is_empty (RequestHash e) then []
            else [("request_hash", encode_gobytes (RequestHash e))])).
Definition idempotencyValue_fields : list string := ["body"; "content_type"; "request_hash"].
Definition idempotencyValue_set (field : string) (v : json) (e : IdempotencyEntry) :
    option error * IdempotencyEntry :=
  if bool_decide (field = "body") then
    let '(x, b) := decode_gobytes v (Body e) in
    (x, mkIdempotencyEntry b (ContentType e) (RequestHash e))
  else if bool_decide (field = "content_type") then
    let '(x, s) := decode_string v (ContentType e) in
    (x, mkIdempotencyEntry (Body e) s (RequestHash e))
  else
    let '(x, b) := decode_gobytes v (RequestHash e) in
    (x, mkIdempotencyEntry (Body e) (ContentType e) b).
Definition idempotencyValue_Unmarshal (raw : string) : res IdempotencyEntry :=
  Unmarshal idempotencyValue_fields idempotencyValue_set raw no_entry.

(** What survives: an empty fingerprint is omitted and reads back as nil. *)
Definition wire_form (e : IdempotencyEntry) : IdempotencyEntry :=
  mkIdempotencyEntry (Body e) (ContentType e)
    (if is_empty (RequestHash e) then None else RequestHash e).

Lemma encode_gobytes_plain b : plain (encode_gobytes b).
Proof. destruct b; simpl; [apply std_encoding_valid|done]. Qed.
Lemma decode_encode_gobytes b b0 : decode_gobytes (encode_gobytes b) b0 = (None, b).
Proof. destruct b as [s|]; simpl; [|done]. by rewrite StdEncoding_roundtrip. Qed.
Lemma set_body b e : idempotencyValue_set "body" (encode_gobytes b) e =
  (None, mkIdempotencyEntry b (ContentType e) (RequestHash e)).
Proof. unfold idempotencyValue_set. rewrite bool_decide_true by done. by rewrite decode_encode_gobytes. Qed.
Lemma set_content_type s e : idempotencyValue_set "content_type" (JStr s) e =
  (None, mkIdempotencyEntry (Body e) s (RequestHash e)).
Proof. done. Qed.
Lemma set_request_hash b e : idempotencyValue_set "request_hash" (encode_gobytes b) e =
  (None, mkIdempotencyEntry (Body e) (ContentType e) b).
Proof.
  unfold idempotencyValue_set. do 2 rewrite bool_decide_false by done.
  by rewrite decode_encode_gobytes.
Qed.

Lemma idempotencyValue_roundtrip e :
  valid_utf8 (ContentType e) →
  idempotencyValue_Unmarshal (Marshal (idempotencyValue_json e)) = Ok (wire_form e).
Proof.
  intros Hv. unfold idempotencyValue_Unmarshal, Unmarshal.
  assert (plain (idempotencyValue_json e)) as Hp.
  { apply plain_JObj. rewrite Forall_app, !Forall_cons, Forall_nil. split.
    - split_and!; try done; try apply encode_gobytes_plain; by apply ascii_literal_valid.
    - destruct (is_empty _); [by rewrite Forall_nil|]. rewrite Forall_cons, Forall_nil.
      split_and!; [by apply ascii_literal_valid|apply encode_gobytes_plain|done]. }
  assert (height (idempotencyValue_json e) ≤ maxNestingDepth)%nat as Hh.
  { assert (height (idempotencyValue_json e) = 1)%nat as ->; [|unfold maxNestingDepth; lia].
    unfold idempotencyValue_json. by destruct e as [[] ? []]; simpl; try case_bool_decide. }
  rewrite parse_Marshal by done. unfold idempotencyValue_json. rewrite foldl_app.
  cbn [foldl].
  assert ("body" ∈ idempotencyValue_fields ∧ "content_type" ∈ idempotencyValue_fields ∧
    "request_hash" ∈ idempotencyValue_fields) as (Hb & Hc & Hr)
    by (unfold idempotencyValue_fields; set_solver).
  rewrite (decode_member_exact _ _ _ _ _ _ _ Hb (set_body _ _)).
  rewrite (decode_member_exact _ _ _ _ _ _ _ Hc (set_content_type _ _)).
  unfold wire_form. destruct (is_empty (RequestHash e)) eqn:Er; [done|]. cbn [foldl].
  by rewrite (decode_member_exact _ _ _ _ _ _ _ Hr (set_request_hash _ _)).
Qed.

Section stores.
Context {R : Type} `{Redis R}.

(** [IdempotencyStore.Set] *)
Definition IdempotencyStore_Set (key : string) (entry : IdempotencyEntry) (ttl : Duration) : M R unit :=
  wrap_err "redis set" (request (cmd_SET (store_key key) (Marshal (idempotencyValue_json entry)) ttl)).

(** [IdempotencyStore.Get] *)
Definition IdempotencyStore_Get (key : string) : M R (IdempotencyEntry * bool) :=
  let* raw := wrap_err "redis get" (request (cmd_GET (store_key key))) in
  match raw with
  | None => ret (no_entry, false)
  | Some raw =>
      let* val := wrap_err "unmarshal idempotency value" (of_result (idempotencyValue_Unmarshal raw)) in
      ret (val, true)
  end.

Definition StatusChannel : string := "notification.status".
(** [StatusBroadcaster.Publish]; [statusMessage] has the JSON of [StatusUpdate]. *)
Definition Publish (notificationID : NotificationID) (status : Status) : M R unit :=
  wrap_err "redis publish"
    (request (cmd_PUBLISH StatusChannel
       (StatusUpdate_Marshal (mkStatusUpdate notificationID status)))).
Definition redis_broadcaster : StatusBroadcaster R := Publish.

Context `{!RedisLaws R}.

Lemma lost_runs_read {A} k n (cmd : M R A) r :
  (∀ r, (cmd r).2 = r) → later k r (lost_runs n cmd r).
Proof.
  intros Hc. revert r. induction n as [|n IH]; intros r; simpl; [apply later_refl|].
  rewrite Hc. eapply later_trans; [apply pause_law|apply IH].
Qed.
(** A request that only reads: time passes, then it answers or fails. *)
Lemma request_read {A} k (cmd : M R A) r :
  (∀ r, (cmd r).2 = r) →
  ∃ r0, later k r r0 ∧ ((∃ e, request cmd r = (Err e, r0)) ∨ request cmd r = cmd r0).
Proof.
  intros Hc. unfold request. pose proof (next_law k r) as [Hn _]. destruct (conn_next r) as [d r1].
  exists (lost_runs (d_lost d) cmd r1).
  split; [eapply later_trans; [exact Hn|by apply lost_runs_read]|].
  destruct (d_error d) as [e|]; [left; by exists e|by right].
Qed.
(** An answered request ran last in the state it left. *)
Lemma request_ok {A} (cmd : M R A) r a r' : request cmd r = (Ok a, r') → ∃ r0, cmd r0 = (Ok a, r').
Proof.
  unfold request. destruct (conn_next r) as [d r1]. destruct (d_error d); [done|].
  intros H0. by eexists.
Qed.

(** What the idempotency store was given it gives back, byte for byte,
    until it expires: [Get] fails only with the connection's error, and finds
    nothing only once the TTL has passed. *)
Lemma Set_then_Get key e ttl r r1 r2 :
  valid_utf8 (ContentType e) → 0 < ttl →
  IdempotencyStore_Set key e ttl r = (Ok (), r1) → later (store_key key) r1 r2 →
  let '(x, r3) := IdempotencyStore_Get key r2 in
  (∃ err, x = Err (Wrapped "redis get" err)) ∨
  x = Ok (wire_form e, true) ∨
  x = Ok (no_entry, false) ∧ redis_now r1 + Z.max 1 (ttl / Millisecond) ≤ redis_now r3.
Proof.
  intros Hv Httl HS Hlt. unfold IdempotencyStore_Set, wrap_err, map_err in HS.
  destruct (request (cmd_SET _ _ _) r) as [[[]|err] r1'] eqn:E; [|done].
  injection HS as ->. apply request_ok in E as [r0 E].
  destruct (SET_law (store_key key) (Marshal (idempotencyValue_json e)) ttl r0) as (r1' & E' & Hw); [lia|].
  rewrite E in E'. injection E' as <-. destruct Hw as (Hnow & Hk & _).
  unfold IdempotencyStore_Get, wrap_err, map_err, bind, of_result.
  destruct (request_read (store_key key) (cmd_GET (store_key key)) r2) as (r3 & Hl3 & Hr).
  { intros r'. by rewrite GET_law. }
  pose proof (later_trans _ _ _ _ Hlt Hl3) as [_ Hkept _].
  destruct Hr as [[err ->]| ->]; [cbn; left; by exists err|]. rewrite GET_law.
  destruct Hkept as [Hk' | (Hk' & e0 & t & He & Ht & Hle)]; rewrite Hk', ?Hk.
  - cbn -[idempotencyValue_Unmarshal Marshal]. rewrite idempotencyValue_roundtrip by done.
    cbn. right. by left.
  - cbn. right. right. split; [done|]. rewrite Hk in He. simplify_eq/=. unfold set_expiry in Ht.
    destruct (Z.leb_spec ttl 0); [lia|]. injection Ht as <-. lia.
Qed.

(** A published update reaches the channel at least once when [Publish]
    succeeds. *)
Lemma request_publish ch m r :
  ∃ n, redis_log (request (cmd_PUBLISH ch m) r).2 = redis_log r ++ replicate n (ch, m) ∧
    ((request (cmd_PUBLISH ch m) r).1 = Ok () → (0 < n)%nat).
Proof.
  assert (∀ n r, redis_log (lost_runs n (cmd_PUBLISH ch m) r) = redis_log r ++ replicate n (ch, m)) as Hl.
  { induction n as [|n IH]; intros r0; simpl; [by rewrite app_nil_r|].
    destruct (PUBLISH_law ch m r0) as (r' & E & _ & _ & Hlog). rewrite E, IH. simpl.
    pose proof (pause_law "" r') as [_ ->]. by rewrite Hlog, <-app_assoc. }
  unfold request. pose proof (next_law "" r) as [_ Hn]. destruct (conn_next r) as [d r1]. simpl in Hn.
  destruct (d_error d) as [e|]; simpl.
  - exists (d_lost d). rewrite Hl, Hn. done.
  - set (r2 := lost_runs _ _ _). destruct (PUBLISH_law ch m r2) as (r' & E & _ & _ & Hlog).
    exists (S (d_lost d)). rewrite E. simpl. rewrite Hlog. unfold r2. rewrite Hl, Hn, <-app_assoc.
    split; [|lia]. by rewrite <-replicate_cons_app.
Qed.

Lemma StatusUpdate_roundtrip u :
  valid_utf8 (u_NotificationID u) → valid_utf8 (u_Status u) →
  StatusUpdate_Unmarshal (StatusUpdate_Marshal u) = Ok u.
Proof.
  intros H1 H2. unfold StatusUpdate_Unmarshal, Unmarshal, StatusUpdate_Marshal.
  rewrite parse_Marshal; [| |unfold maxNestingDepth; simpl; lia].
  - by destruct u.
  - apply plain_JObj. rewrite !Forall_cons, Forall_nil.
    split_and!; try done; by apply ascii_literal_valid.
Qed.

(** The status fan-out end to end: what [Publish] puts on the channel -
    nothing else, and at least one copy when it succeeds - every API instance
    turns into a broadcast of exactly that notification and status. *)
Theorem publish_reaches_hub `{!Client C W} (id : NotificationID) (status : Status) r :
  valid_utf8 id → valid_utf8 status → id ≠ "" → status ≠ "" →
  let '(x, r') := Publish id status r in
  ∃ n payload, redis_log r' = redis_log r ++ replicate n (StatusChannel, payload) ∧
    (x = Ok () → (0 < n)%nat) ∧
    Consumer_Run (map snd (replicate n (StatusChannel, payload))) =
      replicate n (IBroadcast (C:=C) id status).
Proof.
  intros Hi Hs Hi0 Hs0. unfold Publish, wrap_err, map_err.
  set (payload := StatusUpdate_Marshal (mkStatusUpdate id status)).
  destruct (request_publish StatusChannel payload r) as (n & Hlog & Hn).
  assert (Consumer_Run (map snd (replicate n (StatusChannel, payload))) =
    replicate n (IBroadcast (C:=C) id status)) as Hc.
  { clear Hlog Hn. unfold Consumer_Run. induction n as [|n IH]; [done|]. simpl. rewrite IH.
    unfold consumer_dispatch, payload. rewrite StatusUpdate_roundtrip by done. simpl.
    by rewrite !bool_decide_false by done. }
  destruct (request _ r) as [[[]|e] r']; exists n, payload; by split_and!; auto.
Qed.
End stores.

(** ** Concrete runs *)
Definition demo_entry : IdempotencyEntry :=
  mkIdempotencyEntry (Some "{id:1}") "application/json" (Some "h").
Definition demo_store : mem := mkMem 5 ∅ [] [mkDelivery 1 None].

Example demo_entry_kept :
  (IdempotencyStore_Get "k" (IdempotencyStore_Set "k" demo_entry Second demo_store).2).1 = Ok (demo_entry, true).
Proof. vm_compute. reflexivity. Qed.
#[local] Existing Instance demo_client.

Lemma publish_reaches_hub_witness :
  redis_log (Publish "n1" "delivered" demo_store).2 =
    replicate 2 (StatusChannel, StatusUpdate_Marshal (mkStatusUpdate "n1" "delivered")) ∧
  ∃ n payload, redis_log (Publish "n1" "delivered" demo_store).2 =
    redis_log demo_store ++ replicate n (StatusChannel, payload).
Proof.
  split; [by vm_compute|].
  pose proof (publish_reaches_hub (C:=string) (W:=unit) "n1" "delivered" demo_store
    (ascii_literal_valid "n1" eq_refl) (ascii_literal_valid "delivered" eq_refl)
    ltac:(discriminate) ltac:(discriminate)) as H.
  destruct (Publish "n1" "delivered" demo_store) as [x r'].
  destruct H as (n & payload & Hlog & _). by exists n, payload.
Defined.
