(* ===== verification/WsClient.v ===== *)
(** The WebSocket client of internal/adapters/http/websocket_handler.go: how
    [connClient] sends an update over its connection, and a status followed
    from the payload on the Redis channel to the frames of the browsers. *)

From S2P Require Import Prelude GoStrings Errors Json Uuid ValueObjects Notification Ports Hub Redis RedisStores.

(** ** The upgrade: taking over the connection behind the wrapped writers

    A response writer: the server's, which may implement [http.Hijacker] and
    [http.Flusher], under any nesting of the middlewares' wrappers. *)
Inductive ResponseWriter :=
| ServerWriter (hijacker flusher : bool)
| statusTracker_ (inner : ResponseWriter)
| capturingWriter_ (inner : ResponseWriter).
Definition Hijacker (w : ResponseWriter) : bool := match w with ServerWriter b _ => b | _ => true end.
Definition Flusher (w : ResponseWriter) : bool := match w with ServerWriter _ b => b | _ => true end.
Definition no_hijack : error := Opaque "response writer does not support hijacking".
(** [statusTracker.Hijack] and [capturingWriter.Hijack] given the wrapped
    writer's. *)
Definition statusTracker_Hijack (ok : bool) (inner : res unit) : res unit := if ok then inner else Err no_hijack.
Definition capturingWriter_Hijack (ok : bool) (inner : res unit) : res unit := if ok then inner else Err no_hijack.
Definition statusTracker_Flush (ok : bool) (inner : nat) : nat := if ok then inner else 0%nat.
Definition capturingWriter_Flush (ok : bool) (inner : nat) : nat := if ok then inner else 0%nat.
Fixpoint Hijack (w : ResponseWriter) : res unit :=
  match w with
  | ServerWriter b _ => if b then Ok tt else Err no_hijack
  | statusTracker_ w => statusTracker_Hijack (Hijacker w) (Hijack w)
  | capturingWriter_ w => capturingWriter_Hijack (Hijacker w) (Hijack w)
  end.
(** The flushes that reach the connection. *)
Fixpoint Flush (w : ResponseWriter) : nat :=
  match w with
  | ServerWriter _ b => if b then 1%nat else 0%nat
  | statusTracker_ w => statusTracker_Flush (Flusher w) (Flush w)
  | capturingWriter_ w => capturingWriter_Flush (Flusher w) (Flush w)
  end.
Fixpoint server_of (w : ResponseWriter) : ResponseWriter :=
  match w with ServerWriter _ _ => w | statusTracker_ w | capturingWriter_ w => server_of w end.
(** However the writers are nested, an upgrade or a flush reaches the server's
    writer exactly when that supports it. *)
Theorem wrappers_forward w : Hijack w = Hijack (server_of w) ∧ Flush w = Flush (server_of w).
Proof.
  assert (∀ w, Hijack w = (if Hijacker w then Hijack w else Err no_hijack) ∧
    Flush w = if Flusher w then Flush w else 0%nat) as Hw by (intros [[] []|?|?]; done).
  induction w as [b f|w [IH1 IH2]|w [IH1 IH2]]; [done|..]; destruct (Hw w) as [E1 E2]; cbn [Hijack Flush server_of];
    rewrite <-IH1, <-IH2; split; done || by symmetry.
Qed.

(** coder/websocket: writing one text frame on a connection [K], within a
    time limit, over the state [N] of the network. *)
Class WSConn (K N : Type) := conn_Write : K → Duration → string → M N unit.

Section client.
Context {K N : Type} `{WSConn K N}.

(** A client: its id, unique in the process, and its connection. *)
Record connClient := mkConnClient { cc_id : string; cc_conn : K }.
(** The network and the [closed] flags, by client. *)
Record sockets := mkSockets { ws_net : N; ws_closed : gset string }.

(** [u] is what [uuid.New] returns. *)
Definition newConnClient (u : uuid) (conn : K) : connClient := mkConnClient ("ws-" +:+ uuid_text u)%string conn.
Definition connClient_ID (c : connClient) : string := cc_id c.
Definition defaultWSWriteTimeout : Duration := 5 * Second.
Definition connClient_Send (c : connClient) (msg : StatusUpdate) (w : sockets) : option error * sockets :=
  if decide (cc_id c ∈ ws_closed w) then (Some (Opaque "websocket client already closed"), w)
  else
    match conn_Write (cc_conn c) defaultWSWriteTimeout (StatusUpdate_Marshal msg) (ws_net w) with
    | (Err e, n) => (Some (Wrapped "ws write" e), mkSockets n ({[cc_id c]} ∪ ws_closed w))
    | (Ok _, n) => (None, mkSockets n (ws_closed w))
    end.
#[export] Instance conn_client : Client connClient sockets := {|
  client_ID := connClient_ID; client_Send := connClient_Send |}.

(** ** One client, many updates *)

(** The frames written on one connection until a write fails. *)
Fixpoint write_until_failure (k : K) (frames : list string) (n : N) : list (res unit) * N :=
  match frames with
  | [] => ([], n)
  | frame :: frames =>
      match conn_Write k defaultWSWriteTimeout frame n with
      | (Err e, n) => ([Err e], n)
      | (Ok _, n) => let '(l, n) := write_until_failure k frames n in (Ok tt :: l, n)
      end
  end.
Fixpoint send_all (c : connClient) (msgs : list StatusUpdate) (w : sockets) : list (option error) * sockets :=
  match msgs with
  | [] => ([], w)
  | msg :: msgs =>
      let '(e, w) := connClient_Send c msg w in let '(l, w) := send_all c msgs w in (e :: l, w)
  end.
Definition told (r : res unit) : option error :=
  match r with Ok _ => None | Err e => Some (Wrapped "ws write" e) end.

Lemma closed_sends_nothing c msgs w : cc_id c ∈ ws_closed w →
  send_all c msgs w = (replicate (length msgs) (Some (Opaque "websocket client already closed")), w).
Proof.
  intros Hc. induction msgs as [|msg msgs IH]; [done|]. simpl. unfold connClient_Send at 1.
  rewrite decide_True by done. by rewrite IH.
Qed.
(** A client writes the JSON of each update until a write fails; after that it
    reports every update as failed and never touches the connection again. *)
Theorem sends_stop_at_a_failure c msgs w : cc_id c ∉ ws_closed w →
  let '(answers, n) := write_until_failure (cc_conn c) (StatusUpdate_Marshal <$> msgs) (ws_net w) in
  let '(errs, w') := send_all c msgs w in
  ws_net w' = n ∧
  errs = (told <$> answers) ++
    replicate (length msgs - length answers) (Some (Opaque "websocket client already closed")).
Proof.
  revert w. induction msgs as [|msg msgs IH]; intros w Hc; [done|]. simpl.
  unfold connClient_Send at 1. rewrite decide_False by done.
  destruct (conn_Write (cc_conn c) _ (StatusUpdate_Marshal msg) (ws_net w)) as [[[]|e] n].
  - specialize (IH (mkSockets n (ws_closed w)) Hc). cbn [ws_net] in IH.
    destruct (write_until_failure _ _ n) as [answers n']. destruct (send_all _ _ _) as [errs w'].
    destruct IH as [-> ->]. done.
  - rewrite closed_sends_nothing by (cbn; set_solver). cbn. by rewrite Nat.sub_0_r.
Qed.

(** ** One update, many clients *)

(** One frame on each connection in turn. *)
Fixpoint write_each (cs : list connClient) (frame : string) (n : N) : list (connClient * res unit) * N :=
  match cs with
  | [] => ([], n)
  | c :: cs =>
      let '(r, n) := conn_Write (cc_conn c) defaultWSWriteTimeout frame n in
      let '(l, n) := write_each cs frame n in ((c, r) :: l, n)
  end.
(** The clients whose write failed. *)
Definition broken (l : list (connClient * res unit)) : list string :=
  map (λ x, cc_id x.1) (List.filter (λ x, match x.2 with Err _ => true | Ok _ => false end) l).
Definition open_in (w : sockets) (cs : list connClient) : list connClient :=
  filter (λ c, cc_id c ∉ ws_closed w) cs.

Lemma open_in_ext w w' cs : (∀ c, c ∈ cs → cc_id c ∈ ws_closed w ↔ cc_id c ∈ ws_closed w') →
  open_in w cs = open_in w' cs.
Proof.
  unfold open_in. induction cs as [|c cs IH]; intros Hc; [done|]. pose proof (Hc c ltac:(left)) as Hcc.
  rewrite !filter_cons, IH by (intros; apply Hc; by right). repeat case_decide; tauto.
Qed.
Lemma sends_write_each msg cs w : NoDup (cc_id <$> cs) →
  let '(l, n) := write_each (open_in w cs) (StatusUpdate_Marshal msg) (ws_net w) in
  let '(ds, w') := sends msg cs w in
  ws_net w' = n ∧ ws_closed w' = list_to_set (broken l) ∪ ws_closed w ∧
  (∀ id, id ∈ failed ds ↔ id ∈ broken l ∨ id ∈ ws_closed w ∧ id ∈ cc_id <$> cs).
Proof.
  revert w. induction cs as [|c cs IH]; intros w HN.
  { cbn. split_and!; [done|set_solver|]. intros id. split; [by intros ?%elem_of_nil|set_solver]. }
  rewrite fmap_cons in HN |- *. apply NoDup_cons in HN as [Hni HN]. cbn [sends client_Send conn_client]. unfold connClient_Send.
  destruct (decide (cc_id c ∈ ws_closed w)) as [Hc|Hc].
  - unfold open_in. rewrite filter_cons_False by (intros Hn; by apply Hn).
    specialize (IH w HN). unfold open_in in IH. destruct (write_each _ _ _) as [l n].
    destruct (sends msg cs w) as [ds w']. destruct IH as (Hn & Hcl & Hf). split_and!; [done..|].
    intros id. rewrite failed_cons. cbn [app client_ID conn_client connClient_ID]. unfold connClient_ID.
    rewrite !elem_of_cons, Hf. set_solver.
  - unfold open_in. rewrite filter_cons_True by done. cbn [write_each].
    destruct (conn_Write (cc_conn c) _ _ (ws_net w)) as [r n1].
    set (w1 := mkSockets n1 (if r then ws_closed w else {[cc_id c]} ∪ ws_closed w)).
    assert (open_in w cs = open_in w1 cs) as Ho.
    { apply open_in_ext. intros c' Hc'. assert (cc_id c' ≠ cc_id c) by (intros E; apply Hni; rewrite <-E;
        by apply list_elem_of_fmap_2). destruct r; cbn; set_solver. }
    specialize (IH w1 HN). rewrite <-Ho in IH. unfold open_in in IH. cbn [ws_net w1] in IH.
    destruct (write_each _ _ n1) as [l n]. 
    destruct r as [[]|e]; cbn [ws_closed w1] in IH; fold w1; destruct (sends msg cs w1) as [ds w'];
      destruct IH as (Hn & Hcl & Hf); (split; [done|]).
    + change (broken ((c, Ok ()) :: l)) with (broken l). split; [done|].
      intros id. rewrite failed_cons. cbn [app]. rewrite Hf, elem_of_cons. set_solver.
    + change (broken ((c, Err e) :: l)) with (cc_id c :: broken l). split; [set_solver|].
      intros id. rewrite failed_cons. cbn [app client_ID conn_client connClient_ID]. unfold connClient_ID.
      rewrite !elem_of_cons, Hf. set_solver.
Qed.


(** A broadcast, as the connections see it. *)
Lemma broadcast_frames ω id status s : lockstep (s_hub s) →
  let s' := exec ω (IBroadcast id status) s in
  ∃ cs, cs ≡ₚ (map_to_list (default ∅ (subscribers (s_hub s) !! id))).*2 ∧
  let '(l, n) := write_each (open_in (s_conns s) cs) (StatusUpdate_Marshal (mkStatusUpdate id status))
                   (ws_net (s_conns s)) in
  ws_net (s_conns s') = n ∧
  ws_closed (s_conns s') = list_to_set (broken l) ∪ ws_closed (s_conns s) ∧
  ∀ m i, subscribed (s_hub s') m i =
    if decide (i ∈ broken l ∨ i ∈ ws_closed (s_conns s) ∧ i ∈ cc_id <$> cs) then None
    else subscribed (s_hub s) m i.
Proof.
  intros L. exists (recipients ω id (s_hub s)). split; [apply clients_of_all|].
  rewrite exec_unfold. cbn [run_instr]. set (cs := recipients ω id (s_hub s)).
  assert (NoDup (client_ID <$> cs)) as HN by by apply recipients_keyed.
  pose proof (sends_write_each (mkStatusUpdate id status) cs (s_conns s) HN) as Hw.
  assert (∀ c, c ∈ cs → ∃ n, is_Some (subscribed (s_hub s) n (client_ID c))) as Hsub.
  { intros c Hc. exists id. rewrite (recipients_subscribed ω id) by done. by eexists. }
  pose proof (exec_sends ω (mkStatusUpdate id status) cs s L HN Hsub) as Hx.
  destruct (write_each _ _ _) as [l n]. destruct (sends _ cs (s_conns s)) as [ds w'].
  destruct Hw as (Hn & Hcl & Hf), Hx as (_ & Hc & _ & (_ & _ & Hs) & _).
  rewrite Hc. split_and!; [done..|]. intros m i. rewrite Hs. by apply decide_ext.
Qed.
End client.

(** ** From the worker to the browser *)
Section delivery.
Context {K N R : Type} `{WSConn K N, RedisLaws R}.

(** C27. A status the worker publishes reaches the browsers: when [Publish]
    succeeds the channel carried its payload at least once, and each time an
    API instance receives that payload, it writes it byte for byte as one frame
    on the open connection of every client subscribed to the notification, each
    once, and on no other connection.  Afterwards exactly the clients it found
    closed or whose write failed are subscribed to nothing, and the latter are
    closed. *)
Theorem status_reaches_browsers (ω : range_order (connClient (K := K))) id (status : Status) (r : R) s :
  valid_utf8 id → valid_utf8 status → id ≠ "" → status ≠ "" →
  lockstep (s_hub s) →
  let '(x, r') := Publish id status r in
  ∃ new, redis_log r' = redis_log r ++ new ∧ (x = Ok () → new ≠ []) ∧
  ∀ channel payload, (channel, payload) ∈ new →
    channel = StatusChannel ∧
    let s' := foldl (λ s i, exec ω i s) s (consumer_dispatch payload) in
    ∃ cs, cs ≡ₚ (map_to_list (default ∅ (subscribers (s_hub s) !! id))).*2 ∧
    let '(l, n) := write_each (open_in (s_conns s) cs) payload (ws_net (s_conns s)) in
    ws_net (s_conns s') = n ∧
    ws_closed (s_conns s') = list_to_set (broken l) ∪ ws_closed (s_conns s) ∧
    ∀ m i, subscribed (s_hub s') m i =
      if decide (i ∈ broken l ∨ i ∈ ws_closed (s_conns s) ∧ i ∈ cc_id <$> cs) then None
      else subscribed (s_hub s) m i.
Proof.
  intros Hi Hs Hi0 Hs0 L. unfold Publish, wrap_err, map_err.
  set (payload := StatusUpdate_Marshal (mkStatusUpdate id status)).
  destruct (request_publish StatusChannel payload r) as (n & Hlog & Hn).
  assert (consumer_dispatch (C := connClient (K := K)) payload = [IBroadcast id status]) as Hd.
  { unfold consumer_dispatch, payload. rewrite StatusUpdate_roundtrip by done. cbn.
    by rewrite !bool_decide_false by done. }
  assert (n ≠ 0%nat → replicate n (StatusChannel, payload) ≠ []) as Hne by by destruct n.
  destruct (request _ r) as [[[]|e] r']; exists (replicate n (StatusChannel, payload)); cbn [fst snd] in *;
    (split; [done|]); (split; [intros Hx; try done; apply Hne; specialize (Hn eq_refl); lia|]);
    intros channel p [[= -> ->] _]%elem_of_replicate; (split; [done|]); rewrite Hd; by apply broadcast_frames.
Qed.
End delivery.

(** ** Concrete run: three connections, one of them reset, one known to be dead. *)
#[local] Instance demo_ws : WSConn string (list (string * string)) := λ k _ frame n,
  (if bool_decide (k = "reset") then Err (Opaque "connection reset") else Ok tt, n ++ [(k, frame)]).
Definition demo_clients : list connClient :=
  [mkConnClient "ws-1" "tab"; mkConnClient "ws-2" "reset"; mkConnClient "ws-3" "dead"].
Definition demo_sockets : @site (connClient (K := string)) (sockets (N := list (string * string))) :=
  mkSite (foldl (λ h c, subscribe_locked c "n1" h) (NewHubWithMetrics true) demo_clients) (Some 3%nat)
    (mkSockets [] {["ws-3"]}) [].

Lemma status_reaches_browsers_witness :
  lockstep (s_hub demo_sockets) ∧
  (let s' := foldl (λ s i, exec (map_order _) i s) demo_sockets
               (consumer_dispatch (StatusUpdate_Marshal (mkStatusUpdate "n1" "delivered"))) in
   ws_net (s_conns s') = [("tab", StatusUpdate_Marshal (mkStatusUpdate "n1" "delivered"));
                          ("reset", StatusUpdate_Marshal (mkStatusUpdate "n1" "delivered"))] ∧
   SubscriberCount (s_hub s') "n1" = 1%nat) ∧
  ∃ new, redis_log (Publish "n1" "delivered" demo_store).2 = redis_log demo_store ++ new ∧ new ≠ [].
Proof.
  assert (lockstep (s_hub demo_sockets)) as L by (do 3 apply lockstep_subscribe; apply lockstep_new).
  split; [exact L|]. split; [by vm_compute|].
  pose proof (status_reaches_browsers (map_order _) "n1" "delivered" demo_store demo_sockets
    (ascii_literal_valid "n1" eq_refl) (ascii_literal_valid "delivered" eq_refl)
    ltac:(discriminate) ltac:(discriminate) L) as H.
  assert ((Publish "n1" "delivered" demo_store).1 = Ok ()) as Hok by by vm_compute.
  destruct (Publish "n1" "delivered" demo_store) as [x r']. destruct H as (new & Hlog & Hne & _).
  exists new. split; [exact Hlog|]. by apply Hne.
Defined.
