(* ===== verification/Asynq.v ===== *)
(** The queue adapter of internal/adapters/asynq: tasks.go, queue.go and
    processor.go.

    The asynq client and inspector are an interface with their documented
    behaviour; [MemAsynq] is a concrete instance.  The adapter's own spans are
    left out of the producer side. *)

From S2P Require Import Prelude GoStrings Errors ValueObjects Notification Json Ports.
From S2P Require Import ProcessNotification RedisStores.

(** ** asynq *)
Record Task := NewTask { task_Type : string; task_Payload : string }.
#[export] Instance task_eq_dec : EqDecision Task.
Proof. solve_decision. Defined.
Inductive Option_ :=
| OptQueue (name : string)
| OptMaxRetry (n : Z)
| OptTaskID (id : string)
| OptUnique (ttl : Duration)
| OptProcessAt (at_ : Time).
Inductive task_state := TPending | TScheduled (at_ : Time) | TActive | TRetry | TArchived.
#[export] Instance task_state_eq_dec : EqDecision task_state.
Proof. solve_decision. Defined.
Record task_info := mkTaskInfo {
  ti_task : Task; ti_state : task_state; ti_max_retry : Z; ti_unique : option Duration }.

(** The options of a call: a later one overrides an earlier one. *)
Record options := mkOptions {
  o_queue : string; o_id : option string; o_max : Z; o_unique : option Duration; o_at : option Time }.
Definition default_options : options := mkOptions "default" None 25 None None.
Definition apply_option (o : options) (x : Option_) : options :=
  match x with
  | OptQueue n => mkOptions n (o_id o) (o_max o) (o_unique o) (o_at o)
  | OptMaxRetry n => mkOptions (o_queue o) (o_id o) n (o_unique o) (o_at o)
  | OptTaskID i => mkOptions (o_queue o) (Some i) (o_max o) (o_unique o) (o_at o)
  | OptUnique d => mkOptions (o_queue o) (o_id o) (o_max o) (Some d) (o_at o)
  | OptProcessAt t => mkOptions (o_queue o) (o_id o) (o_max o) (o_unique o) (Some t)
  end.
Definition composeOptions (opts : list Option_) : options := foldl apply_option default_options opts.

Class Asynq (Q : Type) := {
  asynq_now : Q → Time;
  asynq_task : string → string → Q → option task_info;
  EnqueueContext : Task → list Option_ → M Q unit;
  DeleteTask : string → string → M Q unit;
  Queues : M Q (list string);
  GetQueueInfo : string → M Q Z;
  (** [errors.Is] on the sentinels *)
  ErrTaskNotFound : error → bool;
  ErrQueueNotFound : error → bool;
}.

Section effects.
Context {Q : Type} `{Asynq Q}.
Definition same_tasks (q q' : Q) : Prop := ∀ n i, asynq_task n i q' = asynq_task n i q.
Definition task_set (n i : string) (x : option task_info) (q q' : Q) : Prop :=
  asynq_task n i q' = x ∧ ∀ n' i', (n', i') ≠ (n, i) → asynq_task n' i' q' = asynq_task n' i' q.
(** A task whose time has come is pending at once. *)
Definition new_info (t : Task) (o : options) (q : Q) : task_info :=
  mkTaskInfo t
    (match o_at o with Some at_ => if time_After at_ (asynq_now q) then TScheduled at_ else TPending
     | None => TPending end) (o_max o) (o_unique o).
(** The pending tasks of a queue. *)
Definition depth_of (n : string) (q : Q) (d : Z) : Prop :=
  ∃ ids : gset string, d = Z.of_nat (size ids) ∧
    ∀ i, i ∈ ids ↔ ti_state <$> asynq_task n i q = Some TPending.
End effects.

Class AsynqLaws Q `{Asynq Q} : Prop := {
  (** an id is taken once per queue; a failed call may still have enqueued *)
  EnqueueContext_law t opts i q : o_id (composeOptions opts) = Some i →
    let '(x, q') := EnqueueContext t opts q in
    let o := composeOptions opts in
    (∀ u, x = Ok u → asynq_task (o_queue o) i q = None ∧
                     task_set (o_queue o) i (Some (new_info t o q)) q q') ∧
    (∀ e, x = Err e → same_tasks q q' ∨
        asynq_task (o_queue o) i q = None ∧ task_set (o_queue o) i (Some (new_info t o q)) q q');
  (** an active task cannot be deleted *)
  DeleteTask_law n i q :
    let '(x, q') := DeleteTask n i q in
    (∀ u, x = Ok u → (ti_state <$> asynq_task n i q) ≠ Some TActive ∧ task_set n i None q q') ∧
    (∀ e, x = Err e →
       (same_tasks q q' ∨ (ti_state <$> asynq_task n i q) ≠ Some TActive ∧ task_set n i None q q') ∧
       (ErrTaskNotFound e = true ∨ ErrQueueNotFound e = true →
          asynq_task n i q = None ∧ same_tasks q q'));
  Queues_law q :
    let '(x, q') := Queues q in
    same_tasks q q' ∧ ∀ l, x = Ok l → ∀ n i, is_Some (asynq_task n i q) → n ∈ l;
  GetQueueInfo_law n q :
    let '(x, q') := GetQueueInfo n q in same_tasks q q' ∧ ∀ d, x = Ok d → depth_of n q d;
}.

(** ** tasks.go *)
Definition TypeProcessNotification : string := "notification:process".
Definition maxRetryAttempts : Z := 5.
Definition idempotencyWindow24h : Duration := 24 * Hour.

(** [ProcessNotificationPayload], its JSON and its decoding. *)
Record ProcessNotificationPayload := mkPayload { p_NotificationID : string }.
Definition Payload_Marshal (p : ProcessNotificationPayload) : string :=
  Marshal (JObj [("notification_id", JStr (p_NotificationID p))]).
Definition Payload_Unmarshal (data : string) : res ProcessNotificationPayload :=
  Unmarshal ["notification_id"]
    (λ _ v p, let '(e, s) := decode_string v (p_NotificationID p) in (e, mkPayload s))
    data (mkPayload "").

Definition TaskIDFor (notificationID : NotificationID) (idempotencyKey : string) : string :=
  if bool_decide (idempotencyKey ≠ "") then idempotencyKey else ("notif:" +:+ notificationID)%string.

Definition NewProcessNotificationTask (notificationID : NotificationID) (priority : Priority)
    (idempotencyKey : string) : Task * list Option_ :=
  let opts := [OptQueue priority; OptMaxRetry maxRetryAttempts;
               OptTaskID (TaskIDFor notificationID idempotencyKey)] in
  let opts := if bool_decide (idempotencyKey ≠ "") then opts ++ [OptUnique idempotencyWindow24h]
              else opts in
  (NewTask TypeProcessNotification (Payload_Marshal (mkPayload notificationID)), opts).

Definition queueNames : list string := [PriorityHigh; PriorityNormal; PriorityLow].

(** ** queue.go *)
Section queue.
Context {Q : Type} `{Asynq Q}.

Definition Enqueue (notificationID : NotificationID) (priority : Priority) (idempotencyKey : string)
    : M Q unit :=
  let '(task, opts) := NewProcessNotificationTask notificationID priority idempotencyKey in
  wrap_err "enqueue notification" (EnqueueContext task opts).

Definition EnqueueScheduled (notificationID : NotificationID) (priority : Priority) (at_ : Time)
    : M Q unit :=
  let '(task, opts) := NewProcessNotificationTask notificationID priority "" in
  wrap_err "enqueue scheduled notification" (EnqueueContext task (opts ++ [OptProcessAt at_])).

(** One queue of the scan; "not found" counts as done. *)
Definition cancel_in (taskID name : string) : M Q unit :=
  let* err := attempt (DeleteTask name taskID) in
  match err with
  | Ok _ => ret ()
  | Err e => if ErrTaskNotFound e || ErrQueueNotFound e then ret ()
             else throw (Wrapped "cancel notification" e)
  end.
Definition Cancel (notificationID : NotificationID) : M Q unit :=
  let taskID := TaskIDFor notificationID "" in
  for_each (cancel_in taskID) queueNames.

(** A queue asynq has never seen has no backlog. *)
Definition depth_in (existing : list string) (name : string) : M Q (string * Z) :=
  if bool_decide (name ∈ existing) then
    let* pending := wrap_err "queue info" (GetQueueInfo name) in ret (name, pending)
  else ret (name, 0).
Definition QueueDepths : M Q (list (string * Z)) :=
  let* existing := wrap_err "list queues" Queues in
  map_each (depth_in existing) queueNames.

(** One tick of [sampleQueueDepth] (cmd/worker/main.go): the gauges it sets. *)
Definition sample_tick (q : Q) : list (string * Z) * Q :=
  match QueueDepths q with
  | (Ok depths, q') => (depths, q')
  | (Err _, q') => ([], q')
  end.

(** The adapter behind its port. *)
Definition asynq_queue : Queue Q := {|
  Queue_Enqueue := Enqueue;
  Queue_EnqueueScheduled := EnqueueScheduled;
  Queue_Cancel := Cancel;
|}.
End queue.

(** ** processor.go *)
Definition HandleProcessNotification (process : context → NotificationID → proc unit)
    (ctx : context) (t : Task) : proc unit :=
  span ← call (tracer_StartSpan "queue.dequeue");
  deferred (call (observe (SpanEnd span)))
    (match Payload_Unmarshal (task_Payload t) with
     | Err err =>
         call (observe (SpanError span err));;
         raise (Wrapped "unmarshal process notification payload" err)
     | Ok payload =>
         if bool_decide (p_NotificationID payload = "") then
           let err := Opaque "process notification: empty notification id in payload" in
           call (observe (SpanError span err));;
           raise err
         else
           call (observe (SpanAttr span "notification.id" (AttrString (p_NotificationID payload))));;
           on_returned_error (λ err, call (observe (SpanError span err)))
             (process ctx (p_NotificationID payload))
     end).

(** ** Facts *)
Lemma Payload_roundtrip p :
  valid_utf8 (p_NotificationID p) → Payload_Unmarshal (Payload_Marshal p) = Ok p.
Proof.
  intros Hv. unfold Payload_Unmarshal, Unmarshal, Payload_Marshal.
  rewrite parse_Marshal; [by destruct p| |unfold maxNestingDepth; simpl; lia].
  apply plain_JObj. rewrite Forall_cons, Forall_nil. split_and!; try done.
  by apply ascii_literal_valid.
Qed.

(** The processor turns a task of the adapter into a run for its id. *)
Definition task_run (process : context → NotificationID → proc unit) (ctx : context)
    (n : NotificationID) : proc unit :=
  span ← call (tracer_StartSpan "queue.dequeue");
  deferred (call (observe (SpanEnd span)))
    (call (observe (SpanAttr span "notification.id" (AttrString n)));;
     on_returned_error (λ err, call (observe (SpanError span err))) (process ctx n)).
Lemma own_task_runs n p key process ctx : valid_utf8 n → n ≠ "" →
  HandleProcessNotification process ctx (NewProcessNotificationTask n p key).1 =
  task_run process ctx n.
Proof.
  intros Hv Hn. unfold HandleProcessNotification. cbn [fst task_Payload NewProcessNotificationTask].
  rewrite Payload_roundtrip by done. cbn [p_NotificationID]. by rewrite bool_decide_false by done.
Qed.

(** The options the adapter resolves to. *)
Definition adapter_options (n : NotificationID) (p : Priority) (key : string) (at_ : option Time) : options :=
  mkOptions p (Some (TaskIDFor n key)) maxRetryAttempts
    (if bool_decide (key ≠ "") then Some idempotencyWindow24h else None) at_.
Lemma NewProcessNotificationTask_options n p key :
  composeOptions (NewProcessNotificationTask n p key).2 = adapter_options n p key None.
Proof. unfold NewProcessNotificationTask, adapter_options. by case_bool_decide. Qed.
Lemma scheduled_options n p at_ :
  composeOptions ((NewProcessNotificationTask n p "").2 ++ [OptProcessAt at_]) =
  adapter_options n p "" (Some at_).
Proof. done. Qed.

Lemma app_string_inj_l (s t u : string) : (s +:+ t)%string = (s +:+ u)%string → t = u.
Proof. induction s as [|a s IH]; simpl; [done|]. intros [= E]. by apply IH. Qed.
Lemma TaskIDFor_inj n m : TaskIDFor n "" = TaskIDFor m "" → n = m.
Proof. unfold TaskIDFor. simpl. apply (app_string_inj_l "notif:"). Qed.

Section facts.
Context {Q : Type} `{AsynqLaws Q}.

Lemma task_set_other n i x q q' n' i' :
  task_set n i x q q' → (n', i') ≠ (n, i) → asynq_task n' i' q' = asynq_task n' i' q.
Proof. intros [_ Ho]. apply Ho. Qed.

(** What the scan of some queues for one id leaves behind. *)
Definition scanned (i : string) (names : list string) (q q' : Q) : Prop :=
  (∀ n, n ∈ names → asynq_task n i q' = asynq_task n i q ∨ asynq_task n i q' = None) ∧
  (∀ n' i', i' ≠ i ∨ n' ∉ names → asynq_task n' i' q' = asynq_task n' i' q) ∧
  (∀ n, ti_state <$> asynq_task n i q = Some TActive → asynq_task n i q' = asynq_task n i q).

Lemma scanned_refl i names (q q' : Q) : same_tasks q q' → scanned i names q q'.
Proof. intros Hs. split_and!; intros; rewrite Hs; auto. Qed.
Lemma scanned_cons i n names (q1 q2 q3 : Q) :
  scanned i [n] q1 q2 → scanned i names q2 q3 → scanned i (n :: names) q1 q3.
Proof.
  intros (A1 & B1 & C1) (A2 & B2 & C2). split_and!.
  - intros m Hm. destruct (decide (m ∈ names)) as [Hin|Hout].
    + destruct (A2 m Hin) as [->|]; [|by right].
      destruct (decide (m = n)) as [->|Hne]; [apply A1; set_solver|left; apply B1; set_solver].
    + rewrite B2 by by right. apply A1. set_solver.
  - intros n' i' Hx. rewrite B2, B1; [done|set_solver..].
  - intros m Hm. rewrite C2; [by apply C1|]. by rewrite C1.
Qed.

Lemma cancel_in_spec i n q :
  let '(x, q') := cancel_in i n q in
  scanned i [n] q q' ∧ (∀ u, x = Ok u → asynq_task n i q' = None).
Proof.
  unfold cancel_in, attempt, bind. pose proof (DeleteTask_law n i q) as HD.
  destruct (DeleteTask n i q) as [[u|e] q'].
  - destruct HD as [HD _]. destruct (HD u eq_refl) as [Ha [Hn Ho]]. cbn. split; [|done].
    split_and!.
    + intros m ->%list_elem_of_singleton. by right.
    + intros n' i' Hx. apply Ho. set_solver.
    + intros m Hm. apply Ho. intros [= ->]. done.
  - destruct HD as [_ HD]. destruct (HD e eq_refl) as [Hs Hnf]. cbn.
    assert (scanned i [n] q q') as Hsc.
    { destruct Hs as [Hs|[Ha [Hn Ho]]]; [by apply scanned_refl|]. split_and!.
      - intros m ->%list_elem_of_singleton. by right.
      - intros n' i' Hx. apply Ho. set_solver.
      - intros m Hm. apply Ho. intros [= ->]. done. }
    destruct (ErrTaskNotFound e || ErrQueueNotFound e) eqn:Enf; cbn; [|done].
    split; [done|]. intros _ _. apply orb_true_iff in Enf. destruct (Hnf Enf) as [Hnone Hsame].
    by rewrite Hsame.
Qed.

Lemma cancel_scan i names q :
  NoDup names →
  let '(x, q') := for_each (cancel_in i) names q in
  scanned i names q q' ∧ (∀ u, x = Ok u → ∀ n, n ∈ names → asynq_task n i q' = None).
Proof.
  revert q. induction names as [|n names IH]; intros q Hd; cbn [for_each].
  { cbn. split; [by apply scanned_refl|]. set_solver. }
  apply NoDup_cons in Hd as [Hn Hd]. unfold bind.
  pose proof (cancel_in_spec i n q) as H1. destruct (cancel_in i n q) as [[u|e] q1].
  - destruct H1 as [S1 O1]. specialize (IH q1 Hd). destruct (for_each (cancel_in i) names q1) as [x q2].
    destruct IH as [S2 O2]. split; [by eapply scanned_cons|]. intros u' Hx m Hm.
    apply elem_of_cons in Hm as [->|Hm]; [|by eapply O2].
    destruct S2 as (_ & B2 & _). rewrite B2 by by right. by eapply O1.
  - split; [|done]. destruct H1 as [S1 _]. eapply scanned_cons; [exact S1|]. by apply scanned_refl.
Qed.

(** ** Properties *)

(** C30. [Enqueue] and [EnqueueScheduled] add exactly one task - to the queue
    of the priority, under the deterministic id, pending or scheduled, with
    five retries and the 24-hour uniqueness window only for keyed calls - or
    fail, having added nothing or (an answer lost) that same task; and the task
    is one the processor turns into a run of the use case for that
    notification. *)
Theorem enqueued_task_runs_use_case n p key q :
  valid_utf8 n → n ≠ "" →
  let t := (NewProcessNotificationTask n p key).1 in
  let added at_ key q q' := asynq_task p (TaskIDFor n key) q = None ∧
    task_set p (TaskIDFor n key) (Some (new_info t (adapter_options n p key at_) q)) q q' in
  (let '(x, q') := Enqueue n p key q in
   (x = Ok () ∧ added None key q q') ∨
   (∃ e, x = Err (Wrapped "enqueue notification" e)) ∧ (same_tasks q q' ∨ added None key q q')) ∧
  (∀ at_, let '(x, q') := EnqueueScheduled n p at_ q in
   (x = Ok () ∧ added (Some at_) "" q q') ∨
   (∃ e, x = Err (Wrapped "enqueue scheduled notification" e)) ∧
     (same_tasks q q' ∨ added (Some at_) "" q q')) ∧
  (∀ process ctx, HandleProcessNotification process ctx t =
     (span ← call (tracer_StartSpan "queue.dequeue");
      deferred (call (observe (SpanEnd span)))
        (call (observe (SpanAttr span "notification.id" (AttrString n)));;
         on_returned_error (λ err, call (observe (SpanError span err))) (process ctx n)))).
Proof.
  intros Hv Hn t added. split_and!.
  - unfold Enqueue, wrap_err, map_err.
    rewrite (surjective_pairing (NewProcessNotificationTask n p key)).
    pose proof (EnqueueContext_law t (NewProcessNotificationTask n p key).2 (TaskIDFor n key) q) as HE.
    rewrite NewProcessNotificationTask_options in HE. specialize (HE eq_refl). fold t.
    destruct (EnqueueContext t _ q) as [[[]|e] q']; destruct HE as [HO HX].
    + left. split; [done|]. by apply (HO ()).
    + right. split; [by eexists|]. by apply (HX e).
  - intros at_. unfold EnqueueScheduled, wrap_err, map_err.
    rewrite (surjective_pairing (NewProcessNotificationTask n p "")).
    pose proof (EnqueueContext_law t ((NewProcessNotificationTask n p "").2 ++ [OptProcessAt at_])
      (TaskIDFor n "") q) as HE.
    rewrite scheduled_options in HE. specialize (HE eq_refl).
    change (NewProcessNotificationTask n p "").1 with t.
    destruct (EnqueueContext t _ q) as [[[]|e] q']; destruct HE as [HO HX].
    + left. split; [done|]. by apply (HO ()).
    + right. split; [by eexists|]. by apply (HX e).
  - intros process ctx. by apply own_task_runs.
Qed.

(** C31. [Cancel] only ever removes tasks named after the notification, never
    one a worker is running; when it succeeds no such task is left in any
    priority queue. *)
Theorem Cancel_removes n q :
  let '(x, q') := Cancel n q in
  scanned (TaskIDFor n "") queueNames q q' ∧
  (x = Ok () → ∀ p, Priority_IsValid p = true → asynq_task p (TaskIDFor n "") q' = None).
Proof.
  unfold Cancel. pose proof (cancel_scan (TaskIDFor n "") queueNames q) as HC.
  destruct (for_each _ _ _) as [x q']. destruct HC as [HS HO].
  { unfold queueNames. repeat constructor; set_solver. }
  split; [done|]. intros -> p Hp. apply (HO () eq_refl).
  unfold Priority_IsValid in Hp. unfold queueNames.
  repeat (apply orb_true_iff in Hp as [Hp|Hp]); apply bool_decide_eq_true in Hp; set_solver.
Qed.

(** The task of a notification enqueued with an idempotency key is not one
    [Cancel] looks for: it stays in its queue. *)
Lemma Cancel_misses_keyed_tasks n p key q :
  key ≠ "" → key ≠ TaskIDFor n "" →
  let '(_, q') := Cancel n q in
  asynq_task p (TaskIDFor n key) q' = asynq_task p (TaskIDFor n key) q.
Proof.
  intros Hk Hne. unfold Cancel.
  pose proof (cancel_scan (TaskIDFor n "") queueNames q) as HC.
  destruct (for_each _ _ _) as [x q']. destruct HC as [(_ & HB & _) _].
  { unfold queueNames. repeat constructor; set_solver. }
  apply HB. left. unfold TaskIDFor at 1. by rewrite bool_decide_true.
Qed.
End facts.

(** [QueueDepths] reports each priority once, with its pending backlog. *)
Lemma QueueDepths_correct `{AsynqLaws Q} q :
  let '(x, q') := QueueDepths q in
  same_tasks q q' ∧
  ∀ ds, x = Ok ds → ds.*1 = queueNames ∧ ∀ n d, (n, d) ∈ ds → depth_of n q d.
Proof.
  unfold QueueDepths, wrap_err, map_err, bind. pose proof (Queues_law q) as HQ.
  destruct (Queues q) as [[existing|e] q1]; [|by destruct HQ].
  destruct HQ as [HS HE]. specialize (HE existing eq_refl).
  assert (∀ names q2, same_tasks q q2 →
    let '(x, q') := map_each (depth_in existing) names q2 in
    same_tasks q q' ∧ ∀ ds, x = Ok ds → ds.*1 = names ∧ ∀ n d, (n, d) ∈ ds → depth_of n q d) as Hm.
  { induction names as [|n names IH]; intros q2 H2; cbn [map_each].
    - cbn. split; [done|]. intros ds [= <-]. split; [done|]. set_solver.
    - unfold bind at 1. assert (let '(x, q') := depth_in existing n q2 in
        same_tasks q q' ∧ ∀ y, x = Ok y → y.1 = n ∧ depth_of n q y.2) as Hd.
      { unfold depth_in. case_bool_decide as Hin.
        - unfold wrap_err, map_err, bind. pose proof (GetQueueInfo_law n q2) as HG.
          destruct (GetQueueInfo n q2) as [[d|e] q3]; cbn.
          + destruct HG as [HG1 HG2]. split; [intros a b; by rewrite HG1, H2|].
            intros y [= <-]. split; [done|]. destruct (HG2 d eq_refl) as (ids & -> & Hids).
            exists ids. split; [done|]. intros i. by rewrite Hids, H2.
          + split; [|done]. intros a b. by rewrite (proj1 HG), H2.
        - cbn. split; [done|]. intros y [= <-]. split; [done|]. exists ∅. split; [done|].
          intros i. split; [set_solver|]. intros Hi.
          destruct (asynq_task n i q) as [ti|] eqn:E; [|done].
          exfalso. apply Hin. apply (HE n i). by rewrite E. }
      destruct (depth_in existing n q2) as [[y|e] q3]; [|by destruct Hd].
      destruct Hd as [Hd1 Hd2]. destruct (Hd2 y eq_refl) as [Hy1 Hy2].
      unfold bind. specialize (IH q3 Hd1).
      destruct (map_each (depth_in existing) names q3) as [[ys|e] q4]; cbn; [|by destruct IH].
      destruct IH as [IH1 IH2]. split; [done|]. intros ds [= <-].
      destruct (IH2 ys eq_refl) as [Hys1 Hys2]. split; [by rewrite fmap_cons, Hys1, Hy1|].
      intros m d [Heq|Hd]%elem_of_cons; [|by apply Hys2]. destruct y; by simplify_eq/=. }
  exact (Hm queueNames q1 HS).
Qed.

(** ** A concrete queue *)
Record mem_queue := mkMemQueue {
  mq_now : Time; mq_tasks : gmap (string * string) task_info; mq_faults : list (option bool) }.
(** The scripted fault of a call: [Some true] loses the answer, [Some false] the request. *)
Definition mq_fault (q : mem_queue) : option bool * mem_queue :=
  match mq_faults q with
  | [] => (None, q)
  | f :: fs => (f, mkMemQueue (mq_now q) (mq_tasks q) fs)
  end.
Definition mq_with (q : mem_queue) (m : gmap (string * string) task_info) : mem_queue :=
  mkMemQueue (mq_now q) m (mq_faults q).
Definition mq_lookup (n i : string) (q : mem_queue) : option task_info := mq_tasks q !! (n, i).
Definition net_error : error := Opaque "dial tcp: connection refused".
Definition not_found_error : error := Opaque "asynq: task not found".
Definition mq_info (t : Task) (o : options) (q : mem_queue) : task_info :=
  mkTaskInfo t
    (match o_at o with Some at_ => if time_After at_ (mq_now q) then TScheduled at_ else TPending
     | None => TPending end) (o_max o) (o_unique o).
Definition mq_Enqueue (t : Task) (opts : list Option_) : M mem_queue unit := λ q,
  let o := composeOptions opts in
  let i := default "" (o_id o) in
  let '(f, q) := mq_fault q in
  match f, mq_lookup (o_queue o) i q with
  | Some false, _ => (Err net_error, q)
  | _, Some _ => (Err (Opaque "asynq: task ID conflicts with another task"), q)
  | Some true, None => (Err net_error, mq_with q (<[(o_queue o, i) := mq_info t o q]> (mq_tasks q)))
  | None, None => (Ok (), mq_with q (<[(o_queue o, i) := mq_info t o q]> (mq_tasks q)))
  end.
Definition mq_Delete (n i : string) : M mem_queue unit := λ q,
  let '(f, q) := mq_fault q in
  match f, mq_lookup n i q with
  | Some false, _ => (Err net_error, q)
  | _, None => (Err not_found_error, q)
  | _, Some ti =>
      if bool_decide (ti_state ti = TActive) then (Err (Opaque "asynq: task is in active state"), q)
      else (match f with Some _ => Err net_error | None => Ok () end,
            mq_with q (delete (n, i) (mq_tasks q)))
  end.
Definition mq_Queues : M mem_queue (list string) := λ q,
  (Ok ((map_to_list (mq_tasks q)).*1.*1), q).
Definition mq_pending (n : string) (q : mem_queue) : list string :=
  (filter (λ x, x.1.1 = n ∧ ti_state x.2 = TPending) (map_to_list (mq_tasks q))).*1.*2.
Definition mq_Info (n : string) : M mem_queue Z := λ q,
  (Ok (Z.of_nat (size (list_to_set (mq_pending n q) : gset string))), q).

#[export] Instance MemAsynq : Asynq mem_queue := {
  asynq_now := mq_now; asynq_task := mq_lookup; EnqueueContext := mq_Enqueue;
  DeleteTask := mq_Delete; Queues := mq_Queues; GetQueueInfo := mq_Info;
  ErrTaskNotFound e :=
    match e with Opaque msg => bool_decide (msg = "asynq: task not found") | _ => false end; ErrQueueNotFound _ := false;
}.

Lemma mq_fault_same q : mq_tasks (mq_fault q).2 = mq_tasks q ∧ mq_now (mq_fault q).2 = mq_now q.
Proof. unfold mq_fault. by destruct (mq_faults q). Qed.

Lemma Mem_EnqueueContext_law t opts i (q : mem_queue) : o_id (composeOptions opts) = Some i →
    let '(x, q') := EnqueueContext t opts q in
    let o := composeOptions opts in
    (∀ u, x = Ok u → asynq_task (o_queue o) i q = None ∧
                     task_set (o_queue o) i (Some (new_info t o q)) q q') ∧
    (∀ e, x = Err e → same_tasks q q' ∨
        asynq_task (o_queue o) i q = None ∧ task_set (o_queue o) i (Some (new_info t o q)) q q').
Proof.
  intros Hi. cbn. unfold mq_Enqueue. rewrite Hi. simpl.
  pose proof (mq_fault_same q) as [Hf Hnow]. destruct (mq_fault q) as [f q1]. simpl in Hf, Hnow.
  assert (same_tasks q q1) as Hs by (intros n' i'; unfold asynq_task; simpl; unfold mq_lookup; by rewrite Hf).
  assert (mq_lookup (o_queue (composeOptions opts)) i q1 = None →
    mq_lookup (o_queue (composeOptions opts)) i q = None ∧
    task_set (o_queue (composeOptions opts)) i (Some (new_info t (composeOptions opts) q)) q
      (mq_with q1 (<[(o_queue (composeOptions opts), i) := mq_info t (composeOptions opts) q1]> (mq_tasks q1)))) as Hadd.
  { intros Hn. split; [unfold mq_lookup in *; by rewrite <-Hf|]. split; simpl; unfold mq_lookup; simpl.
    - rewrite lookup_insert_eq. unfold new_info, mq_info. simpl. by rewrite Hnow.
    - intros n' i' Hne. by rewrite lookup_insert_ne, Hf by congruence. }
  destruct f as [[]|]; destruct (mq_lookup _ i q1) eqn:E; split; try done; intros ? ?; auto.
Qed.
Lemma Mem_DeleteTask_law n i (q : mem_queue) :
    let '(x, q') := DeleteTask n i q in
    (∀ u, x = Ok u → (ti_state <$> asynq_task n i q) ≠ Some TActive ∧ task_set n i None q q') ∧
    (∀ e, x = Err e →
       (same_tasks q q' ∨ (ti_state <$> asynq_task n i q) ≠ Some TActive ∧ task_set n i None q q') ∧
       (ErrTaskNotFound e = true ∨ ErrQueueNotFound e = true →
          asynq_task n i q = None ∧ same_tasks q q')).
Proof.
  cbn. unfold mq_Delete. pose proof (mq_fault_same q) as [Hf _].
  destruct (mq_fault q) as [f q1]. simpl in Hf.
  assert (∀ n' i', mq_lookup n' i' q1 = mq_lookup n' i' q) as Hs
    by (intros n' i'; unfold mq_lookup; by rewrite Hf).
  assert (task_set n i None q (mq_with q1 (delete (n, i) (mq_tasks q1)))) as Hdel.
  { split; simpl; unfold mq_lookup; simpl; [apply lookup_delete_eq|].
    intros n' i' Hne. by rewrite lookup_delete_ne, Hf by congruence. }
  assert (∀ e : error, same_tasks q q1 ∨ (ti_state <$> mq_lookup n i q) ≠ Some TActive ∧
    task_set n i None q q1) as Hsame by (left; exact Hs).
  assert (∀ ti : task_info, mq_lookup n i q1 = Some ti → ti_state ti ≠ TActive →
    (ti_state <$> mq_lookup n i q) ≠ Some TActive) as Hna.
  { intros ti E Ha. rewrite <-Hs, E. simpl. congruence. }
  destruct (mq_lookup n i q1) as [ti|] eqn:E.
  + destruct (decide (ti_state ti = TActive)) as [Ha|Ha].
    * rewrite bool_decide_true by done.
      destruct f as [[]|]; (split; [done|]); intros e [= <-]; (split; [exact (Hsame net_error)|]);
        by intros [|].
    * rewrite bool_decide_false by done. specialize (Hna ti eq_refl Ha).
      destruct f as [[]|]; (split; [try done|]).
      -- intros e [= <-]. split; [right; exact (conj Hna Hdel)|]. by intros [|].
      -- intros e [= <-]. split; [exact (Hsame net_error)|]. by intros [|].
      -- done.
  + destruct f as [[]|]; (split; [done|]); intros e [= <-]; (split; [exact (Hsame net_error)|]);
      intros Hx; try (by destruct Hx); (split; [exact (eq_trans (eq_sym (Hs n i)) E)|exact Hs]).
Qed.
Lemma Mem_Queues_law q :
    let '(x, q') := Queues q in
    same_tasks q q' ∧ ∀ l, x = Ok l → ∀ n i, is_Some (asynq_task n i q) → n ∈ l.
Proof.
  cbn. split; [done|]. intros l [= <-] n i [ti Hti].
  apply list_elem_of_fmap. exists (n, i). split; [done|]. apply list_elem_of_fmap.
  exists ((n, i), ti). split; [done|]. by apply elem_of_map_to_list.
Qed.
Lemma Mem_GetQueueInfo_law n (q : mem_queue) :
    let '(x, q') := GetQueueInfo n q in same_tasks q q' ∧ ∀ d, x = Ok d → depth_of n q d.
Proof.
  cbn. split; [done|]. intros d [= <-].
  exists (list_to_set (mq_pending n q)). split; [done|]. intros i.
  rewrite elem_of_list_to_set. unfold mq_pending. rewrite <-list_fmap_compose, list_elem_of_fmap. split.
  + intros ([[n' i'] ti] & -> & Hx). apply list_elem_of_filter in Hx as [[Hn Hti] Hx].
    apply elem_of_map_to_list in Hx. simpl in *. subst n'. unfold mq_lookup. by rewrite Hx; simpl; rewrite Hti.
  + unfold asynq_task; simpl. unfold mq_lookup. destruct (mq_tasks q !! (n, i)) as [ti|] eqn:E; [|done].
    intros [= Hti]. exists ((n, i), ti). split; [done|]. apply list_elem_of_filter.
    split; [done|]. by apply elem_of_map_to_list.
Qed.
#[export] Instance MemAsynq_laws : AsynqLaws mem_queue.
Proof.
  split; [exact Mem_EnqueueContext_law|exact Mem_DeleteTask_law|exact Mem_Queues_law|exact Mem_GetQueueInfo_law].
Qed.

Definition demo_queue : mem_queue := mkMemQueue 1000 ∅ [None; None; Some true].
Lemma enqueued_task_runs_use_case_witness :
  let q1 := (Enqueue "n1" "high" "" demo_queue).2 in
  (Enqueue "n1" "high" "" demo_queue).1 = Ok () ∧
  ti_state <$> asynq_task "high" "notif:n1" q1 = Some TPending ∧
  HandleProcessNotification (λ _ _, raise (Opaque "seen")) Background
    (NewProcessNotificationTask "n1" "high" "").1 =
  (span ← call (tracer_StartSpan "queue.dequeue");
   deferred (call (observe (SpanEnd span)))
     (call (observe (SpanAttr span "notification.id" (AttrString "n1")));;
      on_returned_error (λ err, call (observe (SpanError span err))) (raise (Opaque "seen")))).
Proof.
  split; [by vm_compute|]. split; [by vm_compute|].
  apply (enqueued_task_runs_use_case "n1" "high" "" demo_queue).
  - by apply ascii_literal_valid.
  - discriminate.
Defined.

Lemma Cancel_removes_witness :
  let q1 := (Enqueue "n1" "high" "" demo_queue).2 in
  let q2 := (Enqueue "n2" "low" "key" q1).2 in
  let q3 := mkMemQueue (mq_now q2) (mq_tasks q2) [] in
  (Cancel "n1" q3).1 = Ok () ∧ asynq_task "high" "notif:n1" (Cancel "n1" q3).2 = None ∧
  is_Some (asynq_task "low" "key" (Cancel "n2" q3).2).
Proof.
  intros q1 q2 q3. assert ((Cancel "n1" q3).1 = Ok ()) as HC by by vm_compute.
  split; [exact HC|]. split.
  - pose proof (Cancel_removes "n1" q3) as H. destruct (Cancel "n1" q3) as [x q'].
    destruct H as [_ H]. by apply (H HC "high").
  - vm_compute. by eexists.
Defined.
