(* ===== verification/Providers.v ===== *)
(** The delivery side of the worker: internal/adapters/provider (webhook.go,
    mock.go, registry.go), the circuit breaker of internal/infrastructure/circuit
    and its settings in cmd/worker/main.go.

    The HTTP client, the clock and the gobreaker library are interfaces. *)

From S2P Require Import Prelude GoStrings Strconv Errors ValueObjects Notification Json Ports.
From S2P Require Import RedisStores Numbers.

(** ** webhook.go *)
Record webhookRequest := mkWebhookRequest { wr_To : string; wr_Channel : string; wr_Content : string }.
Definition webhookRequest_Marshal (r : webhookRequest) : string :=
  Marshal (JObj [("to", JStr (wr_To r)); ("channel", JStr (wr_Channel r)); ("content", JStr (wr_Content r))]).

Record webhookResponse := mkWebhookResponse {
  wp_MessageID : string; wp_Status : string; wp_Timestamp : string }.
Definition webhookResponse_set (field : string) (v : json) (r : webhookResponse) :
    option error * webhookResponse :=
  if bool_decide (field = "messageId") then
    let '(e, s) := decode_string v (wp_MessageID r) in
    (e, mkWebhookResponse s (wp_Status r) (wp_Timestamp r))
  else if bool_decide (field = "status") then
    let '(e, s) := decode_string v (wp_Status r) in
    (e, mkWebhookResponse (wp_MessageID r) s (wp_Timestamp r))
  else
    let '(e, s) := decode_string v (wp_Timestamp r) in
    (e, mkWebhookResponse (wp_MessageID r) (wp_Status r) s).

Record http_request := mkHttpRequest {
  hr_method : string; hr_url : string; hr_headers : list (string * string); hr_body : string }.
(** A response: the body is what can be read of it, then an error or the end. *)
Record http_response := mkHttpResponse {
  StatusCode : Z; resp_Status : string; body_data : string; body_error : option string }.

(** [json.NewDecoder(body).Decode(&v)] with its error ignored: the fields of
    the first value, if it is a complete object, as far as they decode. *)
Definition decode_first {S} (names : list string) (set : string → json → S → option error * S)
    (data : string) (s : S) : S :=
  match json_value (Datatypes.S (2 * String.length data)) maxNestingDepth (bytes data) with
  | Some (JObj ms, _) => (foldl (decode_member names set) (None, s) ms).2
  | _ => s
  end.

Definition maxReason : nat := 256.
Definition readBodyForReason (resp : http_response) : string :=
  let b := of_bytes (take maxReason (bytes (body_data resp))) in
  match body_error resp with
  | Some _ => if bool_decide (String.length (body_data resp) < maxReason)%nat
              then resp_Status resp else b
  | None => b
  end.

(** [classify]; [latency] is [time.Since(start)]. *)
Definition classify (resp : http_response) (latency : Duration) : DeliveryResult :=
  if (200 <=? StatusCode resp) && (StatusCode resp <? 300) then
    let parsed := decode_first ["messageId"; "status"; "timestamp"] webhookResponse_set
                    (body_data resp) (mkWebhookResponse "" "" "") in
    DeliveredResult (wp_MessageID parsed) latency
  else if (400 <=? StatusCode resp) && (StatusCode resp <? 500) then
    PermanentFailureResult ("webhook 4xx: " +:+ readBodyForReason resp)%string (StatusCode resp) latency
  else
    TransientFailureResult
      ("webhook " +:+ FormatInt (StatusCode resp) +:+ ": " +:+ readBodyForReason resp)%string
      (StatusCode resp) latency.

(** The HTTP client: whether a request can be built for the URL, the exchange
    itself, and the time it took. *)
Class HTTPClient (W : Type) := {
  NewRequest_error : string → option string;
  client_Do : http_request → W → (string + http_response) * W;
  time_Since : W → Duration * W;
}.

Record WebhookProvider := NewWebhookProvider { wh_url : string; wh_timeout : Duration }.

Definition webhook_request (p : WebhookProvider) (channel : Channel) (recipient content : string) :
    http_request :=
  mkHttpRequest "POST" (wh_url p)
    [("Content-Type", "application/json"); ("Accept", "application/json")]
    (webhookRequest_Marshal (mkWebhookRequest recipient channel content)).

Definition WebhookProvider_Send `{HTTPClient W} (p : WebhookProvider) : Provider W :=
  λ ctx channel recipient content w,
    match NewRequest_error (wh_url p) with
    | Some e =>
        let '(d, w) := time_Since w in
        (TransientFailureResult ("webhook: build request: " +:+ e)%string 0 d, w)
    | None =>
        match client_Do (webhook_request p channel recipient content) w with
        | (inl e, w) =>
            let '(d, w) := time_Since w in (TransientFailureResult ("webhook: " +:+ e)%string 0 d, w)
        | (inr resp, w) => let '(d, w) := time_Since w in (classify resp d, w)
        end
    end.

(** ** mock.go *)
Inductive FailureMode := FailureTransient | FailurePermanent.
#[export] Instance failure_mode_eq_dec : EqDecision FailureMode.
Proof. solve_decision. Defined.
Record MockCall := mkCall { call_Channel : Channel; call_Recipient : string; call_Content : string }.

Record MockProvider := mkMockProvider {
  successRate : spec_float;
  failureMode : FailureMode;
  latency : Duration;
  calls : list MockCall;
  counter : Z;
  (** the calls to come: the cancellation that cuts the wait short, if any,
      and the time the call takes *)
  waits : list (option string * Duration);
}.
Inductive MockProviderOption :=
| WithSuccessRate (rate : spec_float) | WithFailureMode (mode : FailureMode) | WithLatency (d : Duration).
Definition clamp_rate (rate : spec_float) : spec_float :=
  if float_le rate (float_of_Z 0) then float_of_Z 0
  else if float_le (float_of_Z 1) rate then float_of_Z 1 else rate.
Definition apply_mock_option (p : MockProvider) (o : MockProviderOption) : MockProvider :=
  match o with
  | WithSuccessRate r => mkMockProvider (clamp_rate r) (failureMode p) (latency p) (calls p) (counter p) (waits p)
  | WithFailureMode m => mkMockProvider (successRate p) m (latency p) (calls p) (counter p) (waits p)
  | WithLatency d => mkMockProvider (successRate p) (failureMode p) d (calls p) (counter p) (waits p)
  end.
Definition Configure (p : MockProvider) (opts : list MockProviderOption) : MockProvider :=
  foldl apply_mock_option p opts.
Definition NewMockProvider (opts : list MockProviderOption) (ws : list (option string * Duration)) :
    MockProvider := Configure (mkMockProvider (float_of_Z 1) FailureTransient 0 [] 0 ws) opts.
Definition Calls (p : MockProvider) : list MockCall := calls p.
Definition Reset (p : MockProvider) : MockProvider :=
  mkMockProvider (successRate p) (failureMode p) (latency p) [] 0 (waits p).

Definition set_counter (c : Z) (p : MockProvider) : MockProvider :=
  mkMockProvider (successRate p) (failureMode p) (latency p) (calls p) c (waits p).
Definition shouldSucceed (p : MockProvider) : bool * MockProvider :=
  if float_le (float_of_Z 1) (successRate p) then (true, p)
  else if float_le (successRate p) (float_of_Z 0) then (false, p)
  else let tick := counter p in
       (tick mod 100 <? uint64_of_float (float_mul (successRate p) (float_of_Z 100)),
        set_counter ((tick + 1) mod 2 ^ 64) p).

Definition record_call (c : MockCall) (p : MockProvider) : (option string * Duration) * MockProvider :=
  (default (None, 0) (head (waits p)),
   mkMockProvider (successRate p) (failureMode p) (latency p) (calls p ++ [c]) (counter p) (tail (waits p))).
Definition MockProvider_Send : Provider MockProvider := λ ctx channel recipient content p,
  let '((cancelled, elapsed), p) := record_call (mkCall channel recipient content) p in
  match (if 0 <? latency p then cancelled else None) with
  | Some e => (TransientFailureResult ("mock provider: context cancelled: " +:+ e)%string 0 elapsed, p)
  | None =>
      let '(ok, p) := shouldSucceed p in
      if ok then (DeliveredResult ("mock-msg-" +:+ channel)%string elapsed, p)
      else if bool_decide (failureMode p = FailurePermanent)
      then (PermanentFailureResult "mock provider: permanent failure" 400 elapsed, p)
      else (TransientFailureResult "mock provider: transient failure" 503 elapsed, p)
  end.

(** ** registry.go *)
Record Registry (P : Type) := mkRegistry { providers : gmap string P }.
Arguments mkRegistry {P}.
Arguments providers {P}.
Definition NewRegistry {P} : Registry P := mkRegistry ∅.
Definition Register {P} (channel : Channel) (p : P) (r : Registry P) : Registry P :=
  mkRegistry (<[channel := p]> (providers r)).
(** [send] is the dynamic dispatch to the registered provider. *)
Definition Registry_Send {P W} (send : P → Provider W) (r : Registry P) : Provider W :=
  λ ctx channel recipient content w,
    match providers r !! channel with
    | None => (PermanentFailureResult
                 ("provider registry: no provider registered for channel " +:+ quoted channel)%string 0 0, w)
    | Some p => send p ctx channel recipient content w
    end.

(** ** The circuit breaker *)
Inductive breaker_state := StateClosed | StateHalfOpen | StateOpen.
#[export] Instance breaker_state_eq_dec : EqDecision breaker_state.
Proof. solve_decision. Defined.
Inductive CircuitBreakerState := CircuitClosed | CircuitOpen | CircuitHalfOpen.
(** gobreaker's [Counts], all of type uint32. *)
Definition uint32 (z : Z) : Z := z mod 2 ^ 32.
Record Counts := mkCounts {
  Requests : Z; TotalSuccesses : Z; TotalFailures : Z;
  ConsecutiveSuccesses : Z; ConsecutiveFailures : Z }.
Record Settings := mkSettings {
  Name : string; MaxRequests : Z; Interval : Duration; Timeout : Duration;
  ReadyToTrip : Counts → bool;
  (** what a transition to a state sets the gauge of [Name] to *)
  OnStateChange : breaker_state → option CircuitBreakerState }.

(** gobreaker: [Execute] is [before], which admits the call with the number of
    the current generation of counts or rejects it, then the call, then
    [after] with that number and whether the call succeeded.  [current] is what
    has become of the breaker by now: a closed one starts a new generation when
    its counting window is over. *)
Class Gobreaker (B : Type) := {
  gb_now : B → Time;
  gb_state : B → breaker_state;
  gb_counts : B → Counts;
  gb_generation : B → Z;
  gb_opened : B → Time;
  gb_settings : B → Settings;
  gb_elapse : Duration → B → B;
  gb_current : B → B;
  gb_before : B → option Z * B;
  gb_after : Z → bool → B → B;
}.
(** Documented: the results of a past generation are dropped; in the closed
    state a failure is counted, and one that makes the counts ready to trip
    opens the circuit; an open circuit rejects until the timeout. *)
Class GobreakerLaws B `{Gobreaker B} : Prop := {
  elapse_law d b : 0 ≤ d → gb_now (gb_elapse d b) = gb_now b + d ∧
    gb_state (gb_elapse d b) = gb_state b ∧ gb_opened (gb_elapse d b) = gb_opened b ∧
    gb_settings (gb_elapse d b) = gb_settings b;
  before_law b : gb_now (gb_before b).2 = gb_now b ∧ gb_settings (gb_before b).2 = gb_settings b;
  after_law gen ok b : gb_now (gb_after gen ok b) = gb_now b ∧ gb_settings (gb_after gen ok b) = gb_settings b;
  stale_law gen ok b : gb_generation (gb_current b) ≠ gen → gb_after gen ok b = gb_current b;
  success_law gen b : gb_generation (gb_current b) = gen → gb_state (gb_current b) = StateClosed →
    gb_state (gb_after gen true b) = StateClosed ∧
    TotalFailures (gb_counts (gb_after gen true b)) = TotalFailures (gb_counts (gb_current b));
  failure_law gen b : gb_generation (gb_current b) = gen → gb_state (gb_current b) = StateClosed → ∃ c,
    TotalFailures c = uint32 (TotalFailures (gb_counts (gb_current b)) + 1) ∧
    if ReadyToTrip (gb_settings b) c
    then gb_state (gb_after gen false b) = StateOpen ∧ gb_opened (gb_after gen false b) = gb_now b
    else gb_state (gb_after gen false b) = StateClosed ∧ gb_counts (gb_after gen false b) = c;
  open_law b : gb_state b = StateOpen → gb_now b < gb_opened b + Timeout (gb_settings b) →
    gb_before b = (None, b) ∧ ∀ gen ok, gb_after gen ok b = b;
}.

(** [Execute] as [Send] uses it, on the breaker and the provider's state.
    [g_elapsed]: the values of [time.Since(start)]; [g_meanwhile]: for each call
    to come, what time and the other goroutines do to the breaker while it is
    under way. *)
Record guarded (B W : Type) := mkGuarded {
  g_breaker : B; g_inner : W; g_elapsed : list Duration; g_meanwhile : list (B → B) }.
Arguments mkGuarded {B W}.
Arguments g_breaker {B W}.
Arguments g_inner {B W}.
Arguments g_elapsed {B W}.
Arguments g_meanwhile {B W}.
(** The breaker, admitted as [b], when the next call returns. *)
Definition returned_to {B W} (g : guarded B W) (b : B) : B := default id (head (g_meanwhile g)) b.

(** What the breaker counts as a failure. *)
Definition trips (r : DeliveryResult) : bool := negb (Success r) && Retryable r.
Definition Breaker_Send `{Gobreaker B} {W} (inner : Provider W) : Provider (guarded B W) :=
  λ ctx channel recipient content g,
    match gb_before (g_breaker g) with
    | (None, b) =>
        (TransientFailureResult ("circuit open for " +:+ quoted channel)%string 0
           (default 0 (head (g_elapsed g))),
         mkGuarded b (g_inner g) (tail (g_elapsed g)) (g_meanwhile g))
    | (Some generation, b) =>
        let '(r, w) := inner ctx channel recipient content (g_inner g) in
        (r, mkGuarded (gb_after generation (negb (trips r)) (returned_to g b)) w (g_elapsed g)
              (tail (g_meanwhile g)))
    end.

(** ** cmd/worker/main.go *)
Definition breakerStateToMetric (s : breaker_state) : CircuitBreakerState :=
  match s with StateOpen => CircuitOpen | StateHalfOpen => CircuitHalfOpen | _ => CircuitClosed end.
(** [m] tells whether there is a metrics recorder. *)
Definition breakerSettings (name : string) (maxFailures : Z) (window openTimeout : Duration)
    (m : bool) : Settings :=
  mkSettings name 1 window openTimeout
    (λ c, maxFailures <=? TotalFailures c)
    (λ to, if m then Some (breakerStateToMetric to) else None).
Definition mockFailureMode (mode : string) : FailureMode :=
  if bool_decide (mode = "permanent") then FailurePermanent else FailureTransient.
(** [buildProvider]: a webhook when a URL is configured, else the mock. *)
Definition buildProvider (webhookURL : string) (rate : spec_float) (mode : string)
    (ws : list (option string * Duration)) : WebhookProvider + MockProvider :=
  if bool_decide (webhookURL ≠ "") then inl (NewWebhookProvider webhookURL (5 * Second))
  else inr (NewMockProvider [WithSuccessRate rate; WithFailureMode (mockFailureMode mode)] ws).

Lemma append_assoc (s t u : string) : (s +:+ (t +:+ u))%string = ((s +:+ t) +:+ u)%string.
Proof. induction s as [|a s IH]; [done|]. exact (f_equal (String a) IH). Qed.

(** ** The webhook *)
Lemma webhookRequest_parses r :
  valid_utf8 (wr_To r) → valid_utf8 (wr_Channel r) → valid_utf8 (wr_Content r) →
  parse (webhookRequest_Marshal r) =
    Some (JObj [("to", JStr (wr_To r)); ("channel", JStr (wr_Channel r)); ("content", JStr (wr_Content r))]).
Proof.
  intros H1 H2 H3. apply parse_Marshal; [|unfold maxNestingDepth; simpl; lia].
  apply plain_JObj. rewrite !Forall_cons, Forall_nil. split_and!; try done; by apply ascii_literal_valid.
Qed.

Lemma readBody_short resp : body_error resp = None →
  (String.length (readBodyForReason resp) ≤ maxReason)%nat.
Proof.
  intros E. unfold readBodyForReason. rewrite E. rewrite <-length_bytes, bytes_of_bytes, length_take. lia.
Qed.

(** A body of valid text can be cut in the middle of a rune: the reason is then
    not valid UTF-8, which a text column of the database refuses. *)
Lemma utf8_copy l : utf8 l →
  map_runes (λ a, [a]) (λ c, [byte 226; byte 128; c]) rune_error l = l.
Proof.
  induction 1 as [|a l Ha _ IH|a b l Hs _ IH|a b c l Hs _ IH|a b c d l Hs _ IH].
  - done.
  - cbn [map_runes]. by rewrite Ha, IH.
  - destruct (high_byte a) as (_ & _ & _ & E4); [apply seq2_lead in Hs; lia|].
    cbn [map_runes]. by rewrite E4, Hs, IH.
  - pose proof (seq3_lead _ _ _ Hs). destruct (high_byte a) as (_ & _ & _ & E4); [lia|].
    cbn [map_runes]. rewrite E4, not_seq2, Hs, IH by lia. case_match eqn:El; [|done].
    clear IH. apply andb_true_iff in El as [[Ea%N.eqb_eq Eb%N.eqb_eq]%andb_true_iff _].
    assert (a = byte 226) as -> by (by rewrite <-(byte_code a), Ea).
    assert (b = byte 128) as -> by (by rewrite <-(byte_code b), Eb). done.
  - pose proof (seq4_lead _ _ _ _ Hs). destruct (high_byte a) as (_ & _ & _ & E4); [lia|].
    cbn [map_runes]. by rewrite E4, not_seq2, not_seq3, Hs, IH by lia.
Qed.
Definition cut_body : string := of_bytes (repeat "a"%char 255 ++ [byte 195; byte 169]).
Lemma reason_may_be_invalid_utf8 :
  let resp := mkHttpResponse 400 "400 Bad Request" cut_body None in
  valid_utf8 (body_data resp) ∧ ¬ valid_utf8 (readBodyForReason resp).
Proof.
  split.
  - unfold valid_utf8, cut_body. cbn [body_data]. rewrite bytes_of_bytes. cbn [repeat app].
    do 255 (apply utf8_1; [reflexivity|]). apply utf8_2; [reflexivity|constructor].
  - intros H%utf8_copy. apply (f_equal length) in H. vm_compute in H. discriminate H.
Qed.

(** ** The mock *)
Definition quota (p : MockProvider) : Z := uint64_of_float (float_mul (successRate p) (float_of_Z 100)).
Definition partial_rate (p : MockProvider) : Prop :=
  float_le (float_of_Z 1) (successRate p) = false ∧ float_le (successRate p) (float_of_Z 0) = false.
(** [n] calls in a row: how many were delivered. *)
Fixpoint send_many (n : nat) (p : MockProvider) : Z * MockProvider :=
  match n with
  | O => (0, p)
  | S n => let '(r, p) := MockProvider_Send Background "sms" "to" "text" p in
           let '(k, p) := send_many n p in ((if Success r then 1 else 0) + k, p)
  end.
Lemma mock_send_step p :
  partial_rate p → latency p ≤ 0 → 0 ≤ counter p < 2 ^ 64 - 1 →
  let '(r, p') := MockProvider_Send Background "sms" "to" "text" p in
  Success r = (counter p mod 100 <? quota p) ∧ counter p' = counter p + 1 ∧
  successRate p' = successRate p ∧ latency p' = latency p.
Proof.
  intros [H1 H0] Hl Hc. unfold MockProvider_Send, record_call. cbn [latency].
  destruct (Z.ltb_spec 0 (latency p)); [lia|]. unfold shouldSucceed. cbn [successRate counter].
  rewrite H1, H0, (Z.mod_small (counter p + 1)) by lia. unfold quota.
  destruct (default (None, 0) (head (waits p))) as [cancelled elapsed].
  destruct (_ <? _); [done|]. cbn [failureMode set_counter]. by case_bool_decide.
Qed.
(** The ticks of a window of [n] calls from [c] that fall below [q]. *)
Fixpoint below (n : nat) (c q : Z) : Z :=
  match n with O => 0 | S n => (if c mod 100 <? q then 1 else 0) + below n (c + 1) q end.
Lemma send_many_below n p :
  partial_rate p → latency p ≤ 0 → 0 ≤ counter p → counter p + Z.of_nat n < 2 ^ 64 →
  (send_many n p).1 = below n (counter p) (quota p).
Proof.
  revert p. induction n as [|n IH]; intros p Hp Hl H0 Hc; [done|]. cbn [send_many below].
  pose proof (mock_send_step p Hp Hl ltac:(lia)) as Hs.
  destruct (MockProvider_Send _ _ _ _ p) as [r p']. destruct Hs as (Hr & Hc' & Hrate & Hlat).
  specialize (IH p'). unfold partial_rate, quota in *. rewrite Hrate, Hlat, Hc' in IH.
  destruct (send_many n p') as [k p'']. simpl in *. rewrite Hr, IH by (done || lia). done.
Qed.
Lemma below_split n m c q : below (n + m) c q = below n c q + below m (c + Z.of_nat n) q.
Proof.
  revert c. induction n as [|n IH]; intros c; [simpl; by rewrite Z.add_0_r|].
  cbn [Nat.add below]. rewrite IH. replace (c + 1 + Z.of_nat n) with (c + Z.of_nat (S n)) by lia. lia.
Qed.
Lemma below_linear n c q : 0 ≤ c → c + Z.of_nat n ≤ 100 →
  below n c q = Z.max 0 (Z.min (c + Z.of_nat n) q - c).
Proof.
  revert c. induction n as [|n IH]; intros c Hc Hn; [simpl; lia|]. cbn [below].
  rewrite IH by lia. rewrite Z.mod_small by lia. destruct (Z.ltb_spec c q); lia.
Qed.
Lemma below_shift n c q k : below n (c + 100 * k) q = below n c q.
Proof.
  revert c. induction n as [|n IH]; intros c; [done|]. cbn [below].
  replace (c + 100 * k + 1) with (c + 1 + 100 * k) by lia. rewrite IH. do 2 f_equal.
  by rewrite (Z.mul_comm 100), Z_mod_plus_full.
Qed.
Lemma below_100 c q : 0 ≤ c → 0 ≤ q → below 100 c q = Z.min 100 q.
Proof.
  intros Hc Hq. rewrite (Z.div_mod c 100) by lia. rewrite Z.add_comm, below_shift.
  set (r := c mod 100). assert (0 ≤ r < 100) as Hr by (unfold r; apply Z.mod_pos_bound; lia).
  change 100%nat with (Z.to_nat 100). replace (Z.to_nat 100) with (Z.to_nat (100 - r) + Z.to_nat r)%nat by lia.
  rewrite below_split, below_linear by lia.
  replace (r + Z.of_nat (Z.to_nat (100 - r))) with (0 + 100 * 1) by lia.
  rewrite below_shift, below_linear by lia. lia.
Qed.

(** ** Properties *)

(** C39. The webhook provider posts one JSON document that reads back as
    recipient, channel and content, and classifies the answer: a 2xx status is a
    delivery, a 4xx one a permanent failure, any other status, a network error
    or an unusable URL a retryable failure; a failure quotes at most 256 bytes
    of the body. *)
Theorem webhook_contract `{HTTPClient W} (p : WebhookProvider) ctx channel recipient content w :
  valid_utf8 recipient → valid_utf8 channel → valid_utf8 content →
  let req := webhook_request p channel recipient content in
  parse (hr_body req) =
    Some (JObj [("to", JStr recipient); ("channel", JStr channel); ("content", JStr content)]) ∧
  let '(r, _) := WebhookProvider_Send p ctx channel recipient content w in
  coherent r ∧
  match NewRequest_error (wh_url p), client_Do req w with
  | None, (inr resp, _) =>
      (Success r = true ↔ 200 ≤ StatusCode resp < 300) ∧
      (Success r = false ∧ Retryable r = false ↔ 400 ≤ StatusCode resp < 500) ∧
      (Success r = false → ProviderCode r = StatusCode resp ∧
         ∃ pre, Reason r = (pre +:+ readBodyForReason resp)%string ∧
           (body_error resp = None → (String.length (readBodyForReason resp) ≤ 256)%nat))
  | _, _ => Success r = false ∧ Retryable r = true ∧ ProviderCode r = 0
  end.
Proof.
  intros Hr Hc Ht req. split; [by apply (webhookRequest_parses (mkWebhookRequest recipient channel content))|].
  unfold WebhookProvider_Send. destruct (NewRequest_error (wh_url p)) as [e|].
  { destruct (time_Since w) as [d w1]. by split. }
  fold req. destruct (client_Do req w) as [[e|resp] w1].
  { destruct (time_Since w1) as [d w2]. by split. }
  destruct (time_Since w1) as [d w2]. unfold classify.
  assert (∀ lo hi, (lo <=? StatusCode resp) && (StatusCode resp <? hi) =
    bool_decide (lo ≤ StatusCode resp < hi)) as Hrange.
  { intros lo hi. apply eq_true_iff_eq. rewrite andb_true_iff, Z.leb_le, Z.ltb_lt. by rewrite bool_decide_eq_true. }
  rewrite !Hrange. case_bool_decide as H2; [|case_bool_decide as H4]; cbn.
  - split; [done|]. split_and!; [tauto|split; [by intros []|lia]|done].
  - split; [done|]. split_and!; [split; [done|lia]|done|]. intros _. split; [done|].
    exists "webhook 4xx: ". split; [done|apply readBody_short].
  - split; [done|]. split_and!; [split; [done|lia]|split; [by intros []|lia]|]. intros _. split; [done|].
    exists ("webhook " +:+ FormatInt (StatusCode resp) +:+ ": ")%string.
    split; [|apply readBody_short]. cbn. by rewrite !append_assoc.
Qed.

(** Time passes, other calls begin and end. *)
Inductive gb_step `{Gobreaker B} : B → B → Prop :=
| step_elapse d b : 0 ≤ d → gb_step b (gb_elapse d b)
| step_before b : gb_step b (gb_before b).2
| step_after gen ok b : gb_step b (gb_after gen ok b).
Definition gb_later `{Gobreaker B} : B → B → Prop := rtc gb_step.

Section breaker.
Context `{GobreakerLaws B}.

Lemma gb_step_now (b b' : B) : gb_step b b' → gb_now b ≤ gb_now b'.
Proof.
  intros [d c Hd|c|gen ok c].
  - destruct (elapse_law d c Hd) as [-> _]. lia.
  - destruct (before_law c) as [-> _]. lia.
  - destruct (after_law gen ok c) as [-> _]. lia.
Qed.
Lemma gb_later_now (b b' : B) : gb_later b b' → gb_now b ≤ gb_now b'.
Proof. induction 1 as [|b1 b2 b3 H12 _ IH]; [lia|]. apply gb_step_now in H12. lia. Qed.
(** An open circuit stays open until its timeout, whatever else happens. *)
Lemma stays_open (b b' : B) : gb_later b b' → gb_state b = StateOpen →
  gb_now b' < gb_opened b + Timeout (gb_settings b) →
  gb_state b' = StateOpen ∧ gb_opened b' = gb_opened b ∧ gb_settings b' = gb_settings b.
Proof.
  induction 1 as [b|b1 b2 b3 H12 H23 IH]; intros Ho Hnow; [done|].
  assert (gb_state b2 = StateOpen ∧ gb_opened b2 = gb_opened b1 ∧ gb_settings b2 = gb_settings b1)
    as (Ho2 & Hop & Hs).
  { pose proof (gb_later_now _ _ H23). pose proof (gb_step_now _ _ H12).
    destruct H12 as [d c Hd|c|gen ok c].
    - destruct (elapse_law d c Hd) as (_ & -> & -> & ->). done.
    - destruct (open_law c Ho) as [-> _]; [lia|done].
    - destruct (open_law c Ho) as [_ ->]; [lia|done]. }
  rewrite <-Hop, <-Hs. apply IH; [done|]. by rewrite Hop, Hs.
Qed.

(** An open circuit rejects, and the provider is not reached. *)
Lemma open_rejects {W} (inner : Provider W) ctx channel recipient content (g : guarded B W) :
  gb_state (g_breaker g) = StateOpen →
  gb_now (g_breaker g) < gb_opened (g_breaker g) + Timeout (gb_settings (g_breaker g)) →
  let '(r, g') := Breaker_Send inner ctx channel recipient content g in
  Success r = false ∧ Retryable r = true ∧ g_inner g' = g_inner g.
Proof. intros Ho Hnow. unfold Breaker_Send. by destruct (open_law _ Ho Hnow) as [-> _]. Qed.
End breaker.

(** What a result does to a breaker [b1] that is closed and still in the
    generation the call was admitted in: [fails] counts, as a uint32, and the
    failure that makes the count reach the maximum opens the circuit. *)
Definition reported `{Gobreaker B} (maxFailures : Z) (fails : bool) (b1 b2 : B) : Prop :=
  let n := TotalFailures (gb_counts (gb_current b1)) in
  if fails then
    if maxFailures <=? uint32 (n + 1) then gb_state b2 = StateOpen ∧ gb_opened b2 = gb_now b1
    else gb_state b2 = StateClosed ∧ TotalFailures (gb_counts b2) = uint32 (n + 1)
  else gb_state b2 = StateClosed ∧ TotalFailures (gb_counts b2) = n.
Lemma after_reported `{GobreakerLaws B} gen fails (b1 : B) name maxF window openT m :
  gb_generation (gb_current b1) = gen → gb_state (gb_current b1) = StateClosed →
  gb_settings b1 = breakerSettings name maxF window openT m →
  reported maxF fails b1 (gb_after gen (negb fails) b1).
Proof.
  intros Hg Hc Hs. unfold reported. destruct fails; cbn [negb].
  - destruct (failure_law gen b1 Hg Hc) as (c & Hn & Ht). rewrite Hs in Ht. cbn in Ht. rewrite Hn in Ht.
    destruct (_ <=? _); [done|]. destruct Ht as [-> ->]. done.
  - by destruct (success_law gen b1 Hg Hc) as [-> ->].
Qed.

(** C38. The breaker returns the provider's own result, of exactly one call -
    made to the provider registered for the channel - or, when the circuit
    rejects, a retryable failure without any call.  Whatever time and other
    goroutines did to the breaker meanwhile: a result whose generation is over
    is dropped; otherwise, in the closed state, exactly the transient failures
    are counted, and the one that reaches the configured maximum opens the
    circuit, after which - again whatever else happens - the provider is not
    called before the open timeout has passed. *)
Theorem sick_provider_fails_fast `{GobreakerLaws B} {P W} (send : P → Provider W) (reg : Registry P)
    ctx channel recipient content (g : guarded B W) :
  let Send := Breaker_Send (Registry_Send send reg) ctx channel recipient content in
  let '(r, g') := Send g in
  match gb_before (g_breaker g) with
  | (None, b) => Success r = false ∧ Retryable r = true ∧ g_inner g' = g_inner g ∧ g_breaker g' = b
  | (Some generation, b) =>
      let b1 := returned_to g b in
      let fails := negb (Success r) && Retryable r in
      match providers reg !! channel with
      | Some p => (r, g_inner g') = send p ctx channel recipient content (g_inner g)
      | None => Success r = false ∧ Retryable r = false ∧ g_inner g' = g_inner g
      end ∧
      (gb_generation (gb_current b1) ≠ generation → g_breaker g' = gb_current b1) ∧
      (gb_generation (gb_current b1) = generation → gb_state (gb_current b1) = StateClosed →
       ∀ name maxFailures window openTimeout m,
       gb_settings b1 = breakerSettings name maxFailures window openTimeout m →
       reported maxFailures fails b1 (g_breaker g') ∧
       (fails = true → maxFailures ≤ uint32 (TotalFailures (gb_counts (gb_current b1)) + 1) →
        ∀ g2, gb_later (g_breaker g') (g_breaker g2) → gb_now (g_breaker g2) < gb_now b1 + openTimeout →
        let '(r2, g3) := Send g2 in
        Success r2 = false ∧ Retryable r2 = true ∧ g_inner g3 = g_inner g2))
  end.
Proof.
  intros Send. unfold Send at 1, Breaker_Send at 1. destruct (gb_before (g_breaker g)) as [[gen|] b]; [|done].
  cbv zeta. set (b1 := returned_to g b).
  assert (∃ r w, Registry_Send send reg ctx channel recipient content (g_inner g) = (r, w) ∧
    match providers reg !! channel with
    | Some p => (r, w) = send p ctx channel recipient content (g_inner g)
    | None => Success r = false ∧ Retryable r = false ∧ w = g_inner g
    end) as (r & w & -> & Hr).
  { unfold Registry_Send. destruct (providers reg !! channel) as [p|]; [|by do 2 eexists].
    destruct (send p _ _ _ _ _) as [r w]. by exists r, w. }
  cbn [g_breaker g_inner]. fold (trips r). split; [exact Hr|]. split; [intros Hst; by apply stale_law|].
  intros Hg Hc name maxF window openT m Hs. pose proof (after_reported gen (trips r) b1 _ _ _ _ _ Hg Hc Hs) as Hrep.
  split; [exact Hrep|]. intros Hf Hmax g2 Hlater Hnow. unfold reported in Hrep. rewrite Hf in Hrep, Hlater.
  rewrite (proj2 (Z.leb_le _ _) Hmax) in Hrep. destruct Hrep as [Ho Hop].
  destruct (after_law gen (negb true) b1) as [_ Hset].
  destruct (stays_open _ _ Hlater Ho) as (O1 & O2 & O3); [by rewrite Hop, Hset, Hs|].
  apply open_rejects; [done|]. by rewrite O2, O3, Hop, Hset, Hs.
Qed.

(** [TotalFailures] is a uint32: a larger maximum is never reached. *)
Lemma breaker_can_trip name maxF window openT m :
  (∃ c, 0 ≤ TotalFailures c < 2 ^ 32 ∧ ReadyToTrip (breakerSettings name maxF window openT m) c = true) ↔
  maxF < 2 ^ 32.
Proof.
  cbn. split.
  - intros (c & Hc & Ht%Z.leb_le). lia.
  - intros Hm. exists (mkCounts 0 0 (2 ^ 32 - 1) 0 0). cbn. split; [lia|]. apply Z.leb_le. lia.
Qed.

(** The mock provider is deterministic: of any hundred calls in a row
    without cancellation, exactly the whole part of [successRate * 100] (as a
    float64 product) are delivered. *)
Theorem mock_quota p :
  partial_rate p → latency p ≤ 0 → 0 ≤ counter p → counter p + 100 < 2 ^ 64 → 0 ≤ quota p →
  (send_many 100 p).1 = Z.min 100 (quota p).
Proof.
  intros Hp Hl H0 Hc Hq. rewrite send_many_below by (done || lia). by apply below_100.
Qed.

(** A rate of 0.29 delivers 28 calls of 100: the product is just below 29. *)
Definition rate_029 : spec_float := S754_finite false 5224175567749775 (-54).
Lemma mock_rate_029 : (send_many 100 (NewMockProvider [WithSuccessRate rate_029] [])).1 = 28.
Proof. by vm_compute. Qed.

(** ** Concrete instances *)
#[local] Instance demo_http : HTTPClient (list http_response) := {
  NewRequest_error url := if bool_decide (url = "") then Some "empty url" else None;
  client_Do _ w := match w with
                   | [] => (inl "dial tcp: i/o timeout", [])
                   | resp :: w => (inr resp, w)
                   end;
  time_Since w := (3 * Millisecond, w);
}.
Definition demo_webhook : WebhookProvider := NewWebhookProvider "https://hook.example" (5 * Second).
Lemma webhook_contract_witness :
  let w := [mkHttpResponse 429 "429 Too Many Requests" "slow down" None] in
  Reason (WebhookProvider_Send demo_webhook Background "sms" "+15550001" "hi" w).1 =
    "webhook 4xx: slow down" ∧
  parse (hr_body (webhook_request demo_webhook "sms" "+15550001" "hi")) =
    Some (JObj [("to", JStr "+15550001"); ("channel", JStr "sms"); ("content", JStr "hi")]).
Proof.
  split; [by vm_compute|].
  apply (webhook_contract demo_webhook Background "sms" "+15550001" "hi"
    [mkHttpResponse 429 "429 Too Many Requests" "slow down" None]);
    by apply ascii_literal_valid.
Defined.

(** A circuit breaker in the manner of gobreaker 1.0: lazily updated state, a
    generation per counting window and per transition. *)
Record demo_breaker := mkDemoBreaker {
  db_now : Time; db_state : breaker_state; db_counts : Counts; db_generation : Z;
  (** when the window of a closed breaker ends *)
  db_expiry : Time; db_opened : Time; db_settings : Settings }.
Definition no_counts : Counts := mkCounts 0 0 0 0 0.
Definition on_failure (c : Counts) : Counts :=
  mkCounts (Requests c) (TotalSuccesses c) (uint32 (TotalFailures c + 1)) 0
    (uint32 (ConsecutiveFailures c + 1)).
Definition on_success (c : Counts) : Counts :=
  mkCounts (Requests c) (uint32 (TotalSuccesses c + 1)) (TotalFailures c)
    (uint32 (ConsecutiveSuccesses c + 1)) 0.
Definition set_state (st : breaker_state) (b : demo_breaker) : demo_breaker :=
  mkDemoBreaker (db_now b) st no_counts (db_generation b + 1) (db_now b + Interval (db_settings b))
    (if bool_decide (st = StateOpen) then db_now b else db_opened b) (db_settings b).
Definition set_counts (c : Counts) (b : demo_breaker) : demo_breaker :=
  mkDemoBreaker (db_now b) (db_state b) c (db_generation b) (db_expiry b) (db_opened b) (db_settings b).
Definition demo_current (b : demo_breaker) : demo_breaker :=
  match db_state b with
  | StateClosed => if db_expiry b <? db_now b then set_state StateClosed b else b
  | StateOpen => if db_opened b + Timeout (db_settings b) <? db_now b then set_state StateHalfOpen b else b
  | StateHalfOpen => b
  end.
Definition count_request (c : Counts) : Counts :=
  mkCounts (uint32 (Requests c + 1)) (TotalSuccesses c) (TotalFailures c) (ConsecutiveSuccesses c)
    (ConsecutiveFailures c).
Definition demo_before (b : demo_breaker) : option Z * demo_breaker :=
  let b := demo_current b in
  if bool_decide (db_state b = StateOpen) ||
     bool_decide (db_state b = StateHalfOpen) && (MaxRequests (db_settings b) <=? Requests (db_counts b))
  then (None, b)
  else (Some (db_generation b), set_counts (count_request (db_counts b)) b).
Definition demo_after (gen : Z) (ok : bool) (b : demo_breaker) : demo_breaker :=
  let b := demo_current b in
  if negb (db_generation b =? gen) then b else
  match db_state b with
  | StateOpen => b
  | StateClosed =>
      if ok then set_counts (on_success (db_counts b)) b
      else let c := on_failure (db_counts b) in
           if ReadyToTrip (db_settings b) c then set_state StateOpen b else set_counts c b
  | StateHalfOpen =>
      if ok then
        let c := on_success (db_counts b) in
        if MaxRequests (db_settings b) <=? ConsecutiveSuccesses c then set_state StateClosed b
        else set_counts c b
      else set_state StateOpen b
  end.
#[local] Instance demo_gobreaker : Gobreaker demo_breaker := {|
  gb_now := db_now; gb_state := db_state; gb_counts := db_counts; gb_generation := db_generation;
  gb_opened := db_opened; gb_settings := db_settings;
  gb_elapse := λ d b, mkDemoBreaker (db_now b + d) (db_state b) (db_counts b) (db_generation b)
                        (db_expiry b) (db_opened b) (db_settings b);
  gb_current := demo_current; gb_before := demo_before; gb_after := demo_after |}.
Lemma demo_current_keeps b : db_now (demo_current b) = db_now b ∧ db_settings (demo_current b) = db_settings b.
Proof. unfold demo_current. by repeat case_match. Qed.
#[local] Instance demo_gobreaker_laws : GobreakerLaws demo_breaker.
Proof.
  split; cbn [gb_now gb_state gb_counts gb_generation gb_opened gb_settings gb_elapse gb_current gb_before
    gb_after demo_gobreaker].
  - done.
  - intros b. unfold demo_before. destruct (demo_current_keeps b). by destruct (_ || _).
  - intros gen ok b. unfold demo_after. cbv zeta. destruct (demo_current_keeps b). by repeat case_match.
  - intros gen ok b Hg. unfold demo_after. cbv zeta. by rewrite (proj2 (Z.eqb_neq _ _) Hg).
  - intros gen b Hg Hc. unfold demo_after. cbv zeta. rewrite (proj2 (Z.eqb_eq _ _) Hg), Hc. by split.
  - intros gen b Hg Hc. exists (on_failure (db_counts (demo_current b))). split; [done|].
    destruct (demo_current_keeps b) as [Hn Hs].
    unfold demo_after. cbv zeta. rewrite (proj2 (Z.eqb_eq _ _) Hg), Hc, Hs. cbn [negb].
    destruct (ReadyToTrip _ _); cbn; by rewrite ?Hn.
  - intros b Ho Hnow. assert (demo_current b = b) as Hcur.
    { unfold demo_current. rewrite Ho. destruct (Z.ltb_spec (db_opened b + Timeout (db_settings b)) (db_now b)); [lia|done]. }
    unfold demo_before, demo_after. cbv zeta. rewrite Hcur, Ho. split; [done|].
    intros gen ok. by destruct (negb _).
Qed.
Definition demo_registry : Registry WebhookProvider := Register "sms" demo_webhook NewRegistry.
Definition demo_settings : Settings := breakerSettings "registry" 5 (10 * Second) (30 * Second) true.
(** Closed, four failures counted in the window that ends at 10s. *)
Definition demo_closed : demo_breaker :=
  mkDemoBreaker 100 StateClosed (mkCounts 4 0 4 0 4) 1 (10 * Second) 0 demo_settings.
Definition demo_send := Breaker_Send (Registry_Send WebhookProvider_Send demo_registry) Background "sms" "to" "hi".
Definition demo_guarded (b : demo_breaker) (w : list http_response) (meanwhile : list (demo_breaker → demo_breaker)) :
    guarded demo_breaker (list http_response) := mkGuarded b w [1; 2] meanwhile.

(** The fifth call fails after two seconds: ten seconds later nothing is sent. *)
Lemma sick_provider_fails_fast_witness :
  let g1 := (demo_send (demo_guarded demo_closed [] [gb_elapse (2 * Second)])).2 in
  let g2 := demo_guarded (gb_elapse (10 * Second) (g_breaker g1)) [mkHttpResponse 200 "200 OK" "{}" None] [] in
  db_state (g_breaker g1) = StateOpen ∧
  let '(r2, g3) := demo_send g2 in Success r2 = false ∧ Retryable r2 = true ∧ g_inner g3 = g_inner g2.
Proof.
  intros g1 g2. split; [by vm_compute|].
  pose proof (sick_provider_fails_fast WebhookProvider_Send demo_registry Background "sms" "to" "hi"
    (demo_guarded demo_closed [] [gb_elapse (2 * Second)])) as H. cbv zeta in H. fold demo_send in H.
  rewrite (surjective_pairing (demo_send (demo_guarded demo_closed [] [gb_elapse (2 * Second)]))) in H.
  assert (gb_before (g_breaker (demo_guarded demo_closed [] [gb_elapse (2 * Second)])) =
    (Some 1, set_counts (mkCounts 5 0 4 0 4) demo_closed)) as Eb by by vm_compute.
  rewrite Eb in H. destruct H as (_ & _ & H).
  specialize (H eq_refl eq_refl "registry" 5 (10 * Second) (30 * Second) true eq_refl).
  destruct H as [_ H]. apply H; [by vm_compute|by vm_compute| |by vm_compute].
  apply rtc_once. exact (step_elapse (10 * Second) (g_breaker g1) ltac:(done)).
Defined.
(** The same failure, reported when the window is over, is not counted: it is
    the result of a past generation. *)
Lemma stale_failure_not_counted :
  let g1 := (demo_send (demo_guarded demo_closed [] [gb_elapse (11 * Second)])).2 in
  db_state (g_breaker g1) = StateClosed ∧ TotalFailures (db_counts (g_breaker g1)) = 0.
Proof. by vm_compute. Qed.

Lemma mock_quota_witness :
  let p := NewMockProvider [WithSuccessRate (float_mul (float_of_Z 3) (S754_finite false 4503599627370496 (-54)))] [] in
  partial_rate p ∧ quota p = 75 ∧ (send_many 100 p).1 = 75.
Proof.
  intros p. assert (partial_rate p) as Hp by by vm_compute.
  assert (quota p = 75) as Hq by by vm_compute.
  split; [exact Hp|]. split; [exact Hq|].
  rewrite (mock_quota p Hp); [by rewrite Hq|by vm_compute..|by rewrite Hq].
Defined.
