(* ===== verification/Config.v ===== *)
(** Settings from the environment (internal/infrastructure/config/config.go):
    every variable with its default, parsed and validated in the order [Load]
    reads them; the first offending one is reported by name.

    [LookupEnv] is [os.LookupEnv].  [loadMockProvider] and [loadCircuitBreaker]
    return the fields they set through the pointer. *)

From S2P Require Import Prelude GoStrings Strconv Numbers Errors Providers.

Record Config := mkConfig {
  Env : string; LogLevel : string; DatabaseURL : string; RedisAddr : string;
  HTTPAddr : string; InboundRateLimit : Z; InboundRateWindow : Duration;
  IdempotencyTTL : Duration; WebhookProviderURL : string; WebhookProviderToken : string;
  WorkerConcurrency : Z; OutboundRateLimit : Z; OutboundRateWindow : Duration;
  MockProviderSuccessRate : spec_float; MockProviderFailureMode : string;
  CircuitMaxFailures : Z; CircuitWindow : Duration; CircuitOpenTimeout : Duration;
  ReconcilerInterval : Duration; OTLPEndpoint : string; MetricsAddr : string }.

(** The error of a parser, whose text is not modelled. *)
Definition parse_failure : error := Opaque "invalid syntax or value out of range".
Definition float_value (s : string) : option spec_float :=
  match ParseFloat s with inr x => Some x | inl _ => None end.

Section load.
Variable LookupEnv : string → option string.

Definition Getenv (key : string) : string := default "" (LookupEnv key).
Definition getString (key fallback : string) : string :=
  match LookupEnv key with
  | Some v => if bool_decide (TrimSpace v ≠ "") then v else fallback
  | None => fallback
  end.
(** [getInt], [getFloat] and [getDuration] differ in the parser and the text. *)
Definition getParsed {A} (parse : string → option A) (label key : string) (fallback : A) : res A :=
  match LookupEnv key with
  | None => Ok fallback
  | Some raw =>
      if bool_decide (TrimSpace raw = "") then Ok fallback
      else match parse raw with
           | Some v => Ok v
           | None => Err (Wrapped (label +:+ key)%string parse_failure)
           end
  end.
Definition getInt : string → Z → res Z := getParsed Atoi "invalid integer for ".
Definition getFloat : string → spec_float → res spec_float := getParsed float_value "invalid float for ".
Definition getDuration : string → Duration → res Duration := getParsed ParseDuration "invalid duration for ".

Definition loadMockProvider : res (spec_float * string) :=
  rate ← getFloat "MOCK_PROVIDER_SUCCESS_RATE" (float_of_Z 1);
  if float_lt rate (float_of_Z 0) || float_lt (float_of_Z 1) rate
  then Err (Opaque "MOCK_PROVIDER_SUCCESS_RATE must be in [0, 1]")
  else
    let mode := getString "MOCK_PROVIDER_FAILURE_MODE" "transient" in
    if bool_decide (mode ≠ "transient") && bool_decide (mode ≠ "permanent")
    then Err (Opaque "MOCK_PROVIDER_FAILURE_MODE must be one of: transient, permanent")
    else Ok (rate, mode).

Definition loadCircuitBreaker : res (Z * Duration * Duration) :=
  maxFailures ← getInt "CIRCUIT_MAX_FAILURES" 5;
  if maxFailures <=? 0 then Err (Opaque "CIRCUIT_MAX_FAILURES must be a positive integer") else
  window ← getDuration "CIRCUIT_WINDOW" (10 * Second);
  if window <=? 0 then Err (Opaque "CIRCUIT_WINDOW must be a positive duration") else
  openTimeout ← getDuration "CIRCUIT_OPEN_TIMEOUT" (30 * Second);
  if openTimeout <=? 0 then Err (Opaque "CIRCUIT_OPEN_TIMEOUT must be a positive duration") else
  Ok (maxFailures, window, openTimeout).

Definition Load : res Config :=
  let env := getString "APP_ENV" "dev" in
  let logLevel := getString "LOG_LEVEL" "info" in
  let databaseURL := Getenv "DATABASE_URL" in
  let redisAddr := getString "REDIS_ADDR" "localhost:6379" in
  let httpAddr := getString "HTTP_ADDR" ":8080" in
  let webhookURL := getString "WEBHOOK_PROVIDER_URL" "" in
  let webhookToken := getString "WEBHOOK_PROVIDER_TOKEN" "" in
  let otlp := getString "OTEL_EXPORTER_OTLP_ENDPOINT" "" in
  let metricsAddr := getString "METRICS_ADDR" ":9090" in
  inboundLimit ← getInt "INBOUND_RATE_LIMIT" 60;
  inboundWindow ← getDuration "INBOUND_RATE_WINDOW" Minute;
  idempotencyTTL ← getDuration "IDEMPOTENCY_TTL" (24 * Hour);
  concurrency ← getInt "WORKER_CONCURRENCY" 25;
  outboundLimit ← getInt "OUTBOUND_RATE_LIMIT" 100;
  outboundWindow ← getDuration "OUTBOUND_RATE_WINDOW" Second;
  interval ← getDuration "RECONCILER_INTERVAL" Minute;
  mock ← loadMockProvider;
  breaker ← loadCircuitBreaker;
  if bool_decide (databaseURL = "") then Err (Opaque "DATABASE_URL is required") else
  if bool_decide (redisAddr = "") then Err (Opaque "REDIS_ADDR is required") else
  Ok (mkConfig env logLevel databaseURL redisAddr httpAddr inboundLimit inboundWindow idempotencyTTL
        webhookURL webhookToken concurrency outboundLimit outboundWindow mock.1 mock.2
        breaker.1.1 breaker.1.2 breaker.2 interval otlp metricsAddr).

(** ** Specification

    The value a variable stands for: its text, or the default when it is
    unset or blank. *)
Definition setting {A} (parse : string → option A) (key : string) (fallback : A) : option A :=
  match LookupEnv key with
  | Some raw => if bool_decide (TrimSpace raw = "") then Some fallback else parse raw
  | None => Some fallback
  end.
Definition text (key fallback : string) : string := default fallback (setting Some key fallback).
Definition unit_rate (r : spec_float) : bool :=
  float_le (float_of_Z 0) r && float_le r (float_of_Z 1).
(** What the check refuses is [r < 0 || r > 1]: a NaN passes. *)
Definition rate_passes (r : spec_float) : bool := is_nan r || unit_rate r.
Definition satisfies {A} (p : A → bool) (x : option A) : bool :=
  match x with Some a => p a | None => false end.
(** The checks, in the order [Load] makes them. *)
Definition checks : list (string * bool) :=
  let any {A} (_ : A) := true in
  [("INBOUND_RATE_LIMIT", satisfies any (setting Atoi "INBOUND_RATE_LIMIT" 60));
   ("INBOUND_RATE_WINDOW", satisfies any (setting ParseDuration "INBOUND_RATE_WINDOW" Minute));
   ("IDEMPOTENCY_TTL", satisfies any (setting ParseDuration "IDEMPOTENCY_TTL" (24 * Hour)));
   ("WORKER_CONCURRENCY", satisfies any (setting Atoi "WORKER_CONCURRENCY" 25));
   ("OUTBOUND_RATE_LIMIT", satisfies any (setting Atoi "OUTBOUND_RATE_LIMIT" 100));
   ("OUTBOUND_RATE_WINDOW", satisfies any (setting ParseDuration "OUTBOUND_RATE_WINDOW" Second));
   ("RECONCILER_INTERVAL", satisfies any (setting ParseDuration "RECONCILER_INTERVAL" Minute));
   ("MOCK_PROVIDER_SUCCESS_RATE", satisfies rate_passes (setting float_value "MOCK_PROVIDER_SUCCESS_RATE" (float_of_Z 1)));
   ("MOCK_PROVIDER_FAILURE_MODE", bool_decide (text "MOCK_PROVIDER_FAILURE_MODE" "transient" ∈ ["transient"; "permanent"]));
   ("CIRCUIT_MAX_FAILURES", satisfies (Z.ltb 0) (setting Atoi "CIRCUIT_MAX_FAILURES" 5));
   ("CIRCUIT_WINDOW", satisfies (Z.ltb 0) (setting ParseDuration "CIRCUIT_WINDOW" (10 * Second)));
   ("CIRCUIT_OPEN_TIMEOUT", satisfies (Z.ltb 0) (setting ParseDuration "CIRCUIT_OPEN_TIMEOUT" (30 * Second)));
   ("DATABASE_URL", bool_decide (Getenv "DATABASE_URL" ≠ ""))].
Fixpoint first_offence (l : list (string * bool)) : option string :=
  match l with
  | [] => None
  | (key, ok) :: l => if ok : bool then first_offence l else Some key
  end.
End load.

(** The text of an error the loader makes, and that it names a variable. *)
Definition message (e : error) : string :=
  match e with Wrapped ctx _ => ctx | Opaque msg => msg | _ => "" end.
Definition mentions (key : string) (e : error) : Prop := ∃ u v, message e = (u +:+ key +:+ v)%string.

(** Every field is the variable it is documented to be. *)
Definition reflects (LookupEnv : string → option string) (cfg : Config) : Prop :=
  let text := text LookupEnv in
  let int := setting LookupEnv Atoi in
  let dur := setting LookupEnv ParseDuration in
  (Env cfg = text "APP_ENV" "dev" ∧ LogLevel cfg = text "LOG_LEVEL" "info" ∧
   DatabaseURL cfg = Getenv LookupEnv "DATABASE_URL" ∧ RedisAddr cfg = text "REDIS_ADDR" "localhost:6379" ∧
   HTTPAddr cfg = text "HTTP_ADDR" ":8080" ∧ MetricsAddr cfg = text "METRICS_ADDR" ":9090" ∧
   WebhookProviderURL cfg = text "WEBHOOK_PROVIDER_URL" "" ∧
   WebhookProviderToken cfg = text "WEBHOOK_PROVIDER_TOKEN" "" ∧
   OTLPEndpoint cfg = text "OTEL_EXPORTER_OTLP_ENDPOINT" "" ∧
   MockProviderFailureMode cfg = text "MOCK_PROVIDER_FAILURE_MODE" "transient") ∧
  (int "INBOUND_RATE_LIMIT" 60 = Some (InboundRateLimit cfg) ∧
   int "WORKER_CONCURRENCY" 25 = Some (WorkerConcurrency cfg) ∧
   int "OUTBOUND_RATE_LIMIT" 100 = Some (OutboundRateLimit cfg) ∧
   int "CIRCUIT_MAX_FAILURES" 5 = Some (CircuitMaxFailures cfg)) ∧
  (dur "INBOUND_RATE_WINDOW" Minute = Some (InboundRateWindow cfg) ∧
   dur "IDEMPOTENCY_TTL" (24 * Hour) = Some (IdempotencyTTL cfg) ∧
   dur "OUTBOUND_RATE_WINDOW" Second = Some (OutboundRateWindow cfg) ∧
   dur "RECONCILER_INTERVAL" Minute = Some (ReconcilerInterval cfg) ∧
   dur "CIRCUIT_WINDOW" (10 * Second) = Some (CircuitWindow cfg) ∧
   dur "CIRCUIT_OPEN_TIMEOUT" (30 * Second) = Some (CircuitOpenTimeout cfg)) ∧
  setting LookupEnv float_value "MOCK_PROVIDER_SUCCESS_RATE" (float_of_Z 1) = Some (MockProviderSuccessRate cfg).
(** What the rest of the program may rely on. *)
Definition well_formed (cfg : Config) : Prop :=
  DatabaseURL cfg ≠ "" ∧ RedisAddr cfg ≠ "" ∧
  0 < CircuitMaxFailures cfg ∧ 0 < CircuitWindow cfg ∧ 0 < CircuitOpenTimeout cfg ∧
  (unit_rate (MockProviderSuccessRate cfg) = true ∨ is_nan (MockProviderSuccessRate cfg) = true) ∧
  MockProviderFailureMode cfg ∈ ["transient"; "permanent"].

Lemma SFcompare_antisym x y : SFcompare y x = CompOpp <$> SFcompare x y.
Proof.
  destruct x as [s|s| |s m e], y as [s'|s'| |s' m' e']; try done; try (by destruct s); try (by destruct s, s');
    try (by destruct s').
  cbn [SFcompare]. rewrite (Z.compare_antisym e e').
  assert (Pos.compare_cont Eq m' m = CompOpp (Pos.compare_cont Eq m m')) as ->
    by exact (Pos.compare_antisym m m').
  by destruct s, s', (e ?= e'), (Pos.compare_cont Eq m m').
Qed.
Lemma SFcompare_nan x y : SFcompare x y = None → is_nan x = true ∨ is_nan y = true.
Proof. destruct x, y; try done; by auto. Qed.
Lemma rate_passes_spec r :
  float_lt r (float_of_Z 0) || float_lt (float_of_Z 1) r = negb (rate_passes r).
Proof.
  unfold rate_passes, unit_rate, float_lt, float_le, SFltb, SFleb.
  rewrite (SFcompare_antisym (float_of_Z 0) r), (SFcompare_antisym r (float_of_Z 1)).
  destruct (is_nan r) eqn:En; [by destruct r|].
  destruct (SFcompare (float_of_Z 0) r) as [[]|] eqn:E0; destruct (SFcompare r (float_of_Z 1)) as [[]|] eqn:E1;
    try done; try (apply SFcompare_nan in E0 as [?|?]; congruence || done);
    apply SFcompare_nan in E1 as [?|?]; congruence || done.
Qed.

Lemma string_app_empty_r s : (s +:+ "")%string = s.
Proof. induction s as [|a s IH]; [done|]. exact (f_equal (String a) IH). Qed.

Section load_spec.
Variable LookupEnv : string → option string.

Lemma getParsed_spec {A} (parse : string → option A) label key fallback :
  match getParsed LookupEnv parse label key fallback with
  | Ok v => setting LookupEnv parse key fallback = Some v
  | Err e => setting LookupEnv parse key fallback = None ∧ mentions key e
  end.
Proof.
  unfold getParsed, setting. destruct (LookupEnv key) as [raw|]; [|done]. case_bool_decide; [done|].
  destruct (parse raw); [done|]. split; [done|]. exists label, "". simpl.
  by rewrite string_app_empty_r.
Qed.
Lemma getString_text key fallback : getString LookupEnv key fallback = text LookupEnv key fallback.
Proof.
  unfold getString, text, setting. destruct (LookupEnv key) as [raw|]; [|done]. by repeat case_bool_decide.
Qed.
Lemma text_nonempty key fallback : fallback ≠ "" → text LookupEnv key fallback ≠ "".
Proof.
  intros Hf. unfold text, setting. destruct (LookupEnv key) as [raw|]; [|done].
  case_bool_decide as H; [done|]. simpl. by intros ->.
Qed.

Lemma loadMockProvider_spec :
  let rate := setting LookupEnv float_value "MOCK_PROVIDER_SUCCESS_RATE" (float_of_Z 1) in
  let mode := text LookupEnv "MOCK_PROVIDER_FAILURE_MODE" "transient" in
  match loadMockProvider LookupEnv with
  | Ok (r, m) => rate = Some r ∧ rate_passes r = true ∧ m = mode ∧ mode ∈ ["transient"; "permanent"]
  | Err e => satisfies rate_passes rate = false ∧ mentions "MOCK_PROVIDER_SUCCESS_RATE" e ∨
      satisfies rate_passes rate = true ∧ mode ∉ ["transient"; "permanent"] ∧
      mentions "MOCK_PROVIDER_FAILURE_MODE" e
  end.
Proof.
  intros rate mode. unfold loadMockProvider, getFloat.
  pose proof (getParsed_spec float_value "invalid float for " "MOCK_PROVIDER_SUCCESS_RATE" (float_of_Z 1)) as Hr.
  fold rate in Hr. destruct (getParsed _ _ _ _ _) as [r|e]; cbn [mbind result_mbind]; [|left; by destruct Hr as [-> ?]].
  rewrite rate_passes_spec, getString_text. fold mode. rewrite Hr. cbn [satisfies].
  destruct (rate_passes r) eqn:Eu; cbn [negb]; [|left; split; [done|]; by exists "", " must be in [0, 1]"].
  clearbody mode. case_bool_decide as Ht; [|split_and!; [done..|set_solver]].
  case_bool_decide as Hp; [|split_and!; [done..|set_solver]]. right.
  split_and!; [done|set_solver|by exists "", " must be one of: transient, permanent"].
Qed.

Lemma getPositive_spec (parse : string → option Z) label key fallback what {A} (k : Z → res A)
    (P : res A → Prop) :
  (∀ v, setting LookupEnv parse key fallback = Some v → 0 < v → P (k v)) →
  (∀ e, satisfies (Z.ltb 0) (setting LookupEnv parse key fallback) = false → mentions key e → P (Err e)) →
  P (v ← getParsed LookupEnv parse label key fallback;
     if v <=? 0 then Err (Opaque (key +:+ what)%string) else k v).
Proof.
  intros Hok Herr. pose proof (getParsed_spec parse label key fallback) as Hv.
  destruct (getParsed _ _ _ _ _) as [v|e]; cbn [mbind result_mbind].
  - destruct (Z.leb_spec v 0); [|by apply Hok]. apply Herr; [rewrite Hv; simpl; lia|]. by exists "", what.
  - destruct Hv as [Hv Hm]. apply Herr; [by rewrite Hv|done].
Qed.
Lemma loadCircuitBreaker_spec :
  let max := setting LookupEnv Atoi "CIRCUIT_MAX_FAILURES" 5 in
  let window := setting LookupEnv ParseDuration "CIRCUIT_WINDOW" (10 * Second) in
  let timeout := setting LookupEnv ParseDuration "CIRCUIT_OPEN_TIMEOUT" (30 * Second) in
  match loadCircuitBreaker LookupEnv with
  | Ok (m, w, t) => (max = Some m ∧ 0 < m) ∧ (window = Some w ∧ 0 < w) ∧ timeout = Some t ∧ 0 < t
  | Err e => ∃ key, mentions key e ∧ first_offence
      [("CIRCUIT_MAX_FAILURES", satisfies (Z.ltb 0) max); ("CIRCUIT_WINDOW", satisfies (Z.ltb 0) window);
       ("CIRCUIT_OPEN_TIMEOUT", satisfies (Z.ltb 0) timeout)] = Some key
  end.
Proof.
  cbv zeta. unfold loadCircuitBreaker, getInt, getDuration.
  assert (∀ x v, x = Some v → 0 < v → satisfies (Z.ltb 0) x = true) as Hsat
    by (intros x v -> Hv; by apply Z.ltb_lt).
  apply (getPositive_spec Atoi _ "CIRCUIT_MAX_FAILURES" 5 " must be a positive integer").
  2:{ intros e Hs Hm. eexists. split; [exact Hm|]. cbn [first_offence]. by rewrite Hs. }
  intros m Em Hm. pose proof (Hsat _ _ Em Hm) as Sm.
  apply (getPositive_spec ParseDuration _ "CIRCUIT_WINDOW" (10 * Second) " must be a positive duration").
  2:{ intros e Hs He. eexists. split; [exact He|]. cbn [first_offence]. by rewrite Sm, Hs. }
  intros w Ew Hw. pose proof (Hsat _ _ Ew Hw) as Sw.
  apply (getPositive_spec ParseDuration _ "CIRCUIT_OPEN_TIMEOUT" (30 * Second) " must be a positive duration").
  2:{ intros e Hs He. eexists. split; [exact He|]. cbn [first_offence]. by rewrite Sm, Sw, Hs. }
  intros t Et Ht. by split_and!.
Qed.

(** One variable after the other: the checks are made in order. *)
Lemma getParsed_step {A B} (parse : string → option A) label key fallback (k : A → res B)
    (P : list (string * bool) → res B → Prop) l :
  (∀ v, setting LookupEnv parse key fallback = Some v → P l (k v)) →
  (∀ e, mentions key e → P ((key, false) :: l) (Err e)) →
  (∀ v, P l (k v) → P ((key, true) :: l) (k v)) →
  P ((key, satisfies (λ _, true) (setting LookupEnv parse key fallback)) :: l)
    (v ← getParsed LookupEnv parse label key fallback; k v).
Proof.
  intros Hok Herr Hcons. pose proof (getParsed_spec parse label key fallback) as Hv.
  destruct (getParsed _ _ _ _ _) as [v|e]; cbn [mbind result_mbind].
  - rewrite Hv. apply Hcons. by apply Hok.
  - destruct Hv as [-> Hm]. by apply Herr.
Qed.
Definition loaded (l : list (string * bool)) (r : res Config) : Prop :=
  match r with
  | Ok cfg => first_offence l = None ∧ well_formed cfg ∧ reflects LookupEnv cfg
  | Err e => ∃ key, first_offence l = Some key ∧ mentions key e
  end.
Lemma loaded_true key l r : loaded l r → loaded ((key, true) :: l) r.
Proof. done. Qed.
Lemma loaded_false key l e : mentions key e → loaded ((key, false) :: l) (Err e).
Proof. intros Hm. by exists key. Qed.

Lemma Load_loaded : loaded (checks LookupEnv) (Load LookupEnv).
Proof.
  unfold Load, checks, getInt, getDuration. cbv zeta. rewrite !getString_text.
  do 7 (apply getParsed_step; [|by intros; apply loaded_false|by intros; apply loaded_true]; intros ? ?).
  pose proof loadMockProvider_spec as Hmock. cbv zeta in Hmock.
  destruct (loadMockProvider LookupEnv) as [[rate mode]|e]; cbn [mbind result_mbind].
  2:{ destruct Hmock as [[-> Hm]|(-> & Hmode & Hm)]; [by apply loaded_false|].
      apply loaded_true. rewrite bool_decide_false by done. by apply loaded_false. }
  destruct Hmock as (Hrate & Hunit & -> & Hmode). rewrite Hrate. cbn [satisfies]. rewrite Hunit.
  apply orb_true_iff, or_comm in Hunit.
  rewrite (bool_decide_true (_ ∈ _)) by done. do 2 apply loaded_true.
  pose proof loadCircuitBreaker_spec as Hb. cbv zeta in Hb.
  destruct (loadCircuitBreaker LookupEnv) as [[[m w] t]|e]; cbn [mbind result_mbind].
  2:{ destruct Hb as (key & Hm & Hf). exists key. split; [|done]. simpl in Hf |- *. by repeat case_match. }
  destruct Hb as ([Em Hm] & [Ew Hw] & Et & Ht). rewrite Em, Ew, Et. cbn [satisfies].
  rewrite !(proj2 (Z.ltb_lt _ _)) by done. do 3 apply loaded_true.
  set (url := Getenv LookupEnv "DATABASE_URL"). destruct (decide (url = "")) as [Hdb|Hdb].
  { rewrite (bool_decide_true (url = "")), (bool_decide_false (url ≠ "")) by (done || by intros []).
    apply loaded_false. by exists "", " is required". }
  rewrite (bool_decide_false (url = "")), (bool_decide_true (url ≠ "")) by done. apply loaded_true.
  rewrite bool_decide_false by by apply text_nonempty. cbn [fst snd].
  unfold loaded, well_formed, reflects. cbn. split_and!; try done. by apply text_nonempty.
Qed.
End load_spec.

(** ** What validation lets through *)
Definition env_of (l : list (string * string)) (key : string) : option string :=
  snd <$> find (λ x, bool_decide (x.1 = key)) l.
Definition minimal_env := env_of [("DATABASE_URL", "postgres://db/app")].
Example defaults : Load minimal_env = Ok {|
  Env := "dev"; LogLevel := "info"; DatabaseURL := "postgres://db/app"; RedisAddr := "localhost:6379";
  HTTPAddr := ":8080"; InboundRateLimit := 60; InboundRateWindow := Minute; IdempotencyTTL := 24 * Hour;
  WebhookProviderURL := ""; WebhookProviderToken := ""; WorkerConcurrency := 25; OutboundRateLimit := 100;
  OutboundRateWindow := Second; MockProviderSuccessRate := float_of_Z 1;
  MockProviderFailureMode := "transient"; CircuitMaxFailures := 5; CircuitWindow := 10 * Second;
  CircuitOpenTimeout := 30 * Second; ReconcilerInterval := Minute; OTLPEndpoint := ""; MetricsAddr := ":9090" |}.
Proof. vm_compute. reflexivity. Qed.

Definition loads_with (l : list (string * string)) : option Config :=
  match Load (env_of (("DATABASE_URL", "postgres://db/app") :: l)) with Ok cfg => Some cfg | Err _ => None end.
(** A rate of NaN is neither below zero nor above one. *)
Lemma nan_rate_accepted :
  MockProviderSuccessRate <$> loads_with [("MOCK_PROVIDER_SUCCESS_RATE", "nan")] = Some S754_nan.
Proof. vm_compute. reflexivity. Qed.
(** The reconciler's ticker panics on an interval that is not positive. *)
Lemma zero_interval_accepted :
  ReconcilerInterval <$> loads_with [("RECONCILER_INTERVAL", "0s")] = Some 0 ∧
  ReconcilerInterval <$> loads_with [("RECONCILER_INTERVAL", "-5m")] = Some (- (5 * Minute)).
Proof. split; vm_compute; reflexivity. Qed.

(** A maximum above what the breaker's uint32 can count passes the check. *)
Lemma unreachable_maximum_accepted :
  CircuitMaxFailures <$> loads_with [("CIRCUIT_MAX_FAILURES", "4294967296")] = Some (2 ^ 32) ∧
  ∀ name window openT m c, 0 ≤ TotalFailures c < 2 ^ 32 →
    ReadyToTrip (breakerSettings name (2 ^ 32) window openT m) c = false.
Proof.
  split; [vm_compute; reflexivity|]. intros name window openT m c Hc. cbn. apply Z.leb_gt. lia.
Qed.

(** C40. Starting up: [Load] reports the first variable that is wrong, in the
    order it reads them and by name; otherwise every field of the
    configuration is its variable, or the default of an unset or blank one, and
    the configuration is well formed: addresses present, a rate of the mock
    provider in [0, 1] - or NaN, which the check lets through -, a known
    failure mode, and a circuit breaker that does not trip without a failure
    and trips from the configured number of them on, which its uint32 count
    can reach exactly when that number is below 2^32. *)
Theorem Load_validates LookupEnv :
  match Load LookupEnv with
  | Ok cfg =>
      first_offence (checks LookupEnv) = None ∧ reflects LookupEnv cfg ∧ well_formed cfg ∧
      let trip := ReadyToTrip (breakerSettings "provider-registry" (CircuitMaxFailures cfg)
                    (CircuitWindow cfg) (CircuitOpenTimeout cfg) true) in
      (∀ c, TotalFailures c = 0 → trip c = false) ∧
      (∀ c, trip c = true ↔ CircuitMaxFailures cfg ≤ TotalFailures c) ∧
      ((∃ c, 0 ≤ TotalFailures c < 2 ^ 32 ∧ trip c = true) ↔ CircuitMaxFailures cfg < 2 ^ 32)
  | Err e => ∃ key, first_offence (checks LookupEnv) = Some key ∧ mentions key e
  end.
Proof.
  pose proof (Load_loaded LookupEnv) as Hl. unfold loaded in Hl.
  destruct (Load LookupEnv) as [cfg|e]; [|done]. destruct Hl as (Hf & Hw & Hr).
  pose proof Hw as (_ & _ & Hmax & _). do 3 (split; [done|]). split_and!.
  - intros c Hc. cbn. rewrite Hc. apply Z.leb_gt. lia.
  - intros c. cbn. apply Z.leb_le.
  - apply breaker_can_trip.
Qed.
