(* ===== verification/WorkerProcess.v ===== *)
(** The worker process (cmd/worker/main.go): the providers it registers, the
    circuit breaker around them, the Redis limiter and broadcaster, and the
    handler asynq calls - and what a run of that handler does to the outside
    world. *)

From S2P Require Import Prelude GoStrings Uuid Json Errors ValueObjects Notification Ports RetryPolicy.
From S2P Require Import RepoSpec ProcessNotification Redis RateLimiter RedisStores Asynq Numbers.
From S2P Require Import Providers Config.

(** ** Providers

    One provider per channel.  [inr ch] points to the mock of channel [ch],
    which keeps its own counter; the webhooks share the network [N]. *)
Definition provider_ref : Type := WebhookProvider + Channel.
Record outside (N : Type) := mkOutside { network : N; mocks : gmap Channel MockProvider }.
Arguments mkOutside {N}.
Arguments network {N}.
Arguments mocks {N}.

Definition send_ref {N} `{HTTPClient N} (p : provider_ref) : Provider (outside N) :=
  λ ctx channel recipient content o,
    match p with
    | inl webhook =>
        let '(r, net) := WebhookProvider_Send webhook ctx channel recipient content (network o) in
        (r, mkOutside net (mocks o))
    | inr ch =>
        let '(r, mock) := MockProvider_Send ctx channel recipient content
                            (default (NewMockProvider [] []) (mocks o !! ch)) in
        (r, mkOutside (network o) (<[ch := mock]> (mocks o)))
    end.

(** The registration loop; [ws ch] is how the waits of that mock will end. *)
Definition register_channel (cfg : Config) (ws : Channel → list (option string * Duration))
    (acc : Registry provider_ref * gmap Channel MockProvider) (ch : Channel) :=
  match buildProvider (WebhookProviderURL cfg) (MockProviderSuccessRate cfg)
          (MockProviderFailureMode cfg) (ws ch) with
  | inl webhook => (Register ch (inl webhook) acc.1, acc.2)
  | inr mock => (Register ch (inr ch) acc.1, <[ch := mock]> acc.2)
  end.
Definition registered_channels : list Channel := [ChannelSMS; ChannelEmail; ChannelPush].
Definition worker_registry (cfg : Config) (ws : Channel → list (option string * Duration)) :
    Registry provider_ref * gmap Channel MockProvider :=
  foldl (register_channel cfg ws) (NewRegistry, ∅) registered_channels.
Definition worker_breaker (cfg : Config) : Settings :=
  breakerSettings "provider-registry" (CircuitMaxFailures cfg) (CircuitWindow cfg)
    (CircuitOpenTimeout cfg) true.

Section worker.
Context {DB Q R BC N B : Type}.
Context `{StoreLaws DB, Queue Q, Redis R, StatusBroadcaster BC, HTTPClient N, Gobreaker B,
  Clock, IDGenerator}.
Variables (cfg : Config) (ws : Channel → list (option string * Duration)).

(** [guardedProvider] and [outboundLimiter]. *)
Definition guardedProvider : Provider (guarded B (outside N)) :=
  Breaker_Send (Registry_Send send_ref (worker_registry cfg ws).1).
Definition outboundLimiter : RateLimiter R :=
  Allow (NewOutboundRateLimiter (OutboundRateLimit cfg) (OutboundRateWindow cfg)).
#[local] Existing Instance guardedProvider.
#[local] Existing Instance outboundLimiter.
Local Abbreviation W := (World DB Q (guarded B (outside N)) R BC).

(** [asynqadapter.NewProcessor(processUC.Execute)], with metrics and tracer. *)
Definition worker_handler (ctx : context) (t : Task) : proc unit :=
  HandleProcessNotification (ProcessNotification_Execute (mkProcessNotification true true)) ctx t.

(** One task, on the adapters of the process. *)
Definition worker_run (ctx : context) (t : Task) : M W unit := run (worker_handler ctx t).

Lemma registry_webhook ch : WebhookProviderURL cfg ≠ "" →
  providers (worker_registry cfg ws).1 !! ch =
    if bool_decide (ch ∈ registered_channels)
    then Some (inl (NewWebhookProvider (WebhookProviderURL cfg) (5 * Second))) else None.
Proof.
  intros Hurl. unfold worker_registry, register_channel, buildProvider. cbn [foldl registered_channels].
  rewrite !bool_decide_true by done. cbn [Register NewRegistry providers fst].
  unfold registered_channels. case_bool_decide as Hc.
  - by repeat (apply elem_of_cons in Hc as [->|Hc]; [by simplify_map_eq|]); apply elem_of_nil in Hc.
  - rewrite !lookup_insert_ne by set_solver. apply lookup_empty.
Qed.

(** What one exchange with the webhook does to the network. *)
Definition posted (n : Notification) (a b : N) : Prop :=
  let webhook := NewWebhookProvider (WebhookProviderURL cfg) (5 * Second) in
  match NewRequest_error (WebhookProviderURL cfg) with
  | None => b = (time_Since (client_Do (webhook_request webhook (NChannel n) (Recipient n) (Content n)) a).2).2
  | Some _ => b = (time_Since a).2
  end.
Definition net (w : W) : N := network (g_inner (w_provider w)).

(** The row a run of the use case on task [id] hands to the webhook: the claim
    succeeds, the processing event is recorded and broadcast, the limiter
    allows it, the breaker admits it, and the channel has a provider. *)
Definition processing_recorded (n : Notification) (db : DB) (w : W) : bool :=
  match NewNotificationLog (Gen_LogID (w_fresh w)) (ID n) (CorrelationID n) LogEventProcessing None
          (Clock_reading (S (w_ticks w))) with
  | Ok entry => is_Ok (LogRepo_Append entry db).1 && is_Ok (Bcast_Publish (ID n) (NStatus n) (w_bcast w)).1
  | Err _ => false
  end.
Definition limiter_allows (n : Notification) (w : W) : bool :=
  match (Limiter_Allow ("channel:" +:+ NChannel n) (w_limiter w)).1 with Ok (b, _) => b | Err _ => false end.
Definition to_post (id : NotificationID) (w : W) : option Notification :=
  match Repo_ClaimForProcessing id (Clock_reading (w_ticks w)) (w_db w) with
  | (Ok n, db) =>
      if processing_recorded n db w && limiter_allows n w &&
         bool_decide (is_Some (gb_before (g_breaker (w_provider w))).1) &&
         bool_decide (NChannel n ∈ registered_channels)
      then Some n else None
  | (Err _, _) => None
  end.

Lemma guardedProvider_posts n ctx g : WebhookProviderURL cfg ≠ "" →
  let g' := (guardedProvider ctx (NChannel n) (Recipient n) (Content n) g).2 in
  mocks (g_inner g') = mocks (g_inner g) ∧
  if bool_decide (is_Some (gb_before (g_breaker g)).1) && bool_decide (NChannel n ∈ registered_channels)
  then posted n (network (g_inner g)) (network (g_inner g'))
  else network (g_inner g') = network (g_inner g).
Proof.
  intros Hurl. unfold guardedProvider, Breaker_Send, Registry_Send. rewrite registry_webhook by done.
  destruct (gb_before (g_breaker g)) as [[gen|] b]; cbn [fst];
    [rewrite (bool_decide_true (is_Some (Some gen))) by by eexists|
     by rewrite (bool_decide_false (is_Some None)) by by intros [? ?]].
  case_bool_decide as Hc; cbn [andb]; [rewrite (bool_decide_true _ Hc)|rewrite (bool_decide_false _ Hc); by split].
  unfold send_ref, WebhookProvider_Send, posted. cbn [wh_url].
  destruct (NewRequest_error _) as [e|].
  - by destruct (time_Since _) as [d o].
  - by destruct (client_Do _ _) as [[e|resp] o]; cbn [snd]; destruct (time_Since o) as [d o'].
Qed.

(** A run of the use case reaches the network through exactly that one [Send]. *)
Definition posts_row (id : NotificationID) (w w' : W) : Prop :=
  mocks (g_inner (w_provider w')) = mocks (g_inner (w_provider w)) ∧
  match to_post id w with
  | Some n =>
      (∃ k n0, key id = Some k ∧ rows (w_db w) !! k = Some n0 ∧ claimable n0 ∧
         n = claimed (stamp (Clock_reading (w_ticks w))) n0) ∧
      posted n (net w) (net w')
  | None => net w' = net w
  end.

(** Once the row is claimed: [w] is the world before the run. *)
Definition posts_claimed (n : Notification) (db : DB) (w w' : W) : Prop :=
  mocks (g_inner (w_provider w')) = mocks (g_inner (w_provider w)) ∧
  if processing_recorded n db w && limiter_allows n w &&
     bool_decide (is_Some (gb_before (g_breaker (w_provider w))).1) &&
     bool_decide (NChannel n ∈ registered_channels)
  then posted n (net w) (net w') else net w' = net w.
Lemma posts_nothing n db w w' : w_provider w' = w_provider w →
  processing_recorded n db w && limiter_allows n w = false → posts_claimed n db w w'.
Proof. intros Hp Hf. unfold posts_claimed, net. rewrite Hf, Hp. by split. Qed.

(** The processing event, the provider untouched. *)
Lemma recordEvent_recorded n k w1 w : key (ID n) = Some k → w_fresh w1 = w_fresh w → w_bcast w1 = w_bcast w →
  w_ticks w1 = S (w_ticks w) →
  wp (run (recordEvent n LogEventProcessing)) (λ r w2,
    is_Ok r = processing_recorded n (w_db w1) w ∧ rows (w_db w2) = rows (w_db w1) ∧
    w_provider w2 = w_provider w1 ∧ w_limiter w2 = w_limiter w1) w1.
Proof.
  intros Hk Hf Hb Ht. unfold recordEvent, processing_recorded. uc_steps. world_simpl. rewrite Hf, Ht.
  destruct (NewNotificationLog _ _ _ _ _ _) as [entry|e]; [|by split_and!]. uc_steps.
  pose proof (append_law entry (w_db w1)) as Hl. apply wp_intro. intros r db E. world_simpl.
  apply (wp_run _ _ _ _ _ Hl) in E as Hr. rewrite E. cbn [fst]. destruct Hr as [Hrows _]. world_simpl.
  destruct r as [[]|e]; [|by split_and!]. uc_steps. apply wp_intro. intros r bc Eb. world_simpl.
  rewrite Hb in Eb. rewrite Eb. world_simpl. cbn [fst]. destruct r as [[]|e]; by split_and!.
Qed.

Lemma deliver_posts uc ctx k n start db w w1 : WebhookProviderURL cfg ≠ "" →
  key (ID n) = Some k → rows (w_db w1) !! k = Some n → NStatus n = StatusProcessing → w_db w1 = db →
  w_fresh w1 = w_fresh w → w_bcast w1 = w_bcast w → w_ticks w1 = S (w_ticks w) →
  w_provider w1 = w_provider w → w_limiter w1 = w_limiter w →
  wp (run (deliver uc ctx n start)) (λ _ w', posts_claimed n db w w') w1.
Proof.
  intros Hurl Hk Hrow Hst <- Hf Hb Ht Hp Hl. unfold deliver. uc_step.
  wp_use (recordEvent_recorded n k w1 w Hk Hf Hb Ht). intros r w2 (Hr & Hrows & Hp2 & Hl2).
  destruct r as [[]|e]; [|apply posts_nothing; [congruence|by rewrite <-Hr]].
  uc_steps. apply wp_intro. intros r lim Ea. rewrite Hl2, Hl in Ea.
  assert (limiter_allows n w = match r with Ok (b, _) => b | Err _ => false end) as Hallow.
  { unfold limiter_allows. by rewrite Ea. }
  destruct r as [[[] retryAfter]|e]; cbn [negb fst] in *;
    [|wp_use (rescheduleForRateLimit_spec uc (reseed ctx n) k n (set_limiter lim w2)); try done|].
  - uc_step. wp_use (send_spec uc (reseed ctx n) n (set_limiter lim w2)).
    intros r w3 (result & -> & Hdb & _ & _ & _ & Hsend). world_simpl. rewrite Hp2, Hp in Hsend.
    pose proof (guardedProvider_posts n (reseed ctx n) (w_provider w) Hurl) as Hg. cbv zeta in Hg.
    change (@Provider_Send _ guardedProvider) with guardedProvider in Hsend. rewrite Hsend in Hg. cbn [snd] in Hg.
    assert (∀ w4 : W, w_provider w4 = w_provider w3 → posts_claimed n (w_db w1) w w4) as Hpost.
    { intros w4 E4. unfold posts_claimed, net. rewrite E4, <-Hr, Hallow. exact Hg. }
    assert (∀ w4 : W, w_db w4 = w_db w3 → w_provider w4 = w_provider w3 →
      wp (run (applyResult uc (reseed ctx n) n result start)) (λ _ w', posts_claimed n (w_db w1) w w') w4) as Hap.
    { intros w4 Ed Ep. wp_use (applyResult_spec uc (reseed ctx n) k n w4 result start); [done|congruence|done|].
      intros r w' ((_ & Epr & _) & _). apply Hpost. congruence. }
    uc_step. by apply wp_emit; apply Hap.
  - world_simpl. by rewrite Hrows.
  - intros r w' ((_ & Epr & _) & _). apply posts_nothing; [world_simpl; congruence|by rewrite Hallow, andb_false_r].
  - apply posts_nothing; [world_simpl; congruence|by rewrite Hallow, andb_false_r].
Qed.

Lemma Execute_posts uc ctx id (w : W) : WebhookProviderURL cfg ≠ "" →
  wp (run (ProcessNotification_Execute uc ctx id)) (λ _ w', posts_row id w w') w.
Proof.
  intros Hurl. unfold ProcessNotification_Execute. uc_steps. world_simpl.
  pose proof (claim_law id (Clock_reading (w_ticks w)) (w_db w)) as Hc. apply wp_intro. intros r db E.
  apply (wp_run _ _ _ _ _ Hc) in E as Hr. unfold posts_row, to_post. rewrite E. destruct Hr as [_ Hr].
  destruct r as [n|e]; [|by destruct (errors_Is _ _); uc_steps].
  destruct Hr as (k & n0 & Hk & Hn0 & Hcl & _ & Hn & Hrows).
  assert (key (ID n) = Some k) as Hk'.
  { rewrite Hn. exact (rows_keyed (w_db w) k n0 Hn0). }
  wp_use (deliver_posts uc ctx k n (Clock_reading (w_ticks w)) db w); try done.
  - world_simpl. by rewrite Hrows, lookup_insert_eq.
  - by rewrite Hn.
  - intros r w' [Hm Hp]. split; [done|]. destruct (_ && _) in Hp |- *; [|done]. split; [|done].
    by exists k, n0.
Qed.
End worker.

(** C33. The worker, end to end: asynq hands the process a task the API
    enqueued, and the run makes exactly one request to the configured webhook -
    with the stored channel, recipient and content of the row of that id - when
    the row could be claimed, its processing event was recorded and broadcast,
    the Redis limiter allowed it, the circuit breaker admitted it and its
    channel is registered; in every other case, and when the configured URL
    does not parse, it makes none. *)
Theorem worker_posts_stored_row {DB Q R BC N B : Type} `{StoreLaws DB, Queue Q, Redis R,
    StatusBroadcaster BC, HTTPClient N, Gobreaker B, Clock, IDGenerator}
    cfg ws ctx nid p key (w : World DB Q (guarded B (outside N)) R BC) :
  WebhookProviderURL cfg ≠ "" → valid_utf8 nid → nid ≠ "" →
  wp (worker_run cfg ws ctx (NewProcessNotificationTask nid p key).1)
    (λ _ w', posts_row cfg nid w w') w.
Proof.
  intros Hurl Hv Hn. unfold worker_run, worker_handler. rewrite own_task_runs by done. unfold task_run.
  uc_steps. set (w1 := set_obs _ _). change (posts_row cfg nid w) with (posts_row cfg nid w1).
  wp_use (Execute_posts cfg ws (mkProcessNotification true true) ctx nid w1 Hurl).
  intros [[]|e] w' Hw'; uc_steps; [exact Hw'|]. by destruct (panicking e); uc_steps.
Qed.
