(* ===== verification/Spans.v ===== *)
(** The spans of a worker run: every span it starts is ended, innermost first,
    and an attribute or a status is only set on a span that is open - unless
    the provider panics, which leaves the span around its call open. *)

From S2P Require Import Prelude GoStrings Uuid Errors ValueObjects Notification Ports RetryPolicy RepoSpec.
From S2P Require Import ProcessNotification Accounting Asynq Reports Telemetry.

(** ** Executions

    What a program may emit and return: the tracer names a span by the position
    of its start, the recorder, the logger, the clock and the generators do not
    fail, the provider answers or panics, and the other ports answer anything. *)
Definition may_answer {B} (pos : nat) (o : op B) : res B → Prop :=
  match o in op B return res B → Prop with
  | observe _ => λ r, r = Ok tt
  | tracer_StartSpan _ => λ r, r = Ok pos
  | provider_Send _ _ _ _ => λ r, (∃ result, r = Ok result) ∨ ∃ v, r = Err (Panicked v)
  | clock_Now | gen_NewNotificationID | gen_NewBatchID | gen_NewTemplateID | gen_NewLogID
  | gen_NewCorrelationID => λ r, ∃ a, r = Ok a
  | _ => λ _, True
  end.
(** [c], started when [pos] observations have been made, may emit [l] and
    return [x]. *)
Fixpoint plays {A} (pos : nat) (c : proc A) (l : list observation) (x : res A) : Prop :=
  match c with
  | Done r => l = [] ∧ x = r
  | Call o k => ∃ r l', may_answer pos o r ∧ l = observed o ++ l' ∧
      plays (pos + length (observed o)) (k r) l' x
  end.

(** ** The open spans of an execution *)
Abbreviation started := (nat * string)%type.
(** [End] of span [h]; [None] when it is not open or, for [innermost], not the
    last one started. *)
Fixpoint end_span (innermost : bool) (h : nat) (open : list started) : option (list started) :=
  match open with
  | [] => None
  | x :: open =>
      if decide (h = x.1) then Some open
      else if innermost then None else (x ::.) <$> end_span false h open
  end.
(** The spans, with their names, that the observations [l] leave open; [None]
    when one concerns a span that is not open. *)
Definition spans_next (innermost : bool) (pos : nat) (o : observation) (open : list started)
    : option (list started) :=
  match o with
  | SpanStart name => Some ((pos, name) :: open)
  | SpanAttr _ _ (AttrInt _) => None
  | SpanAttr h _ _ | SpanError h _ => if decide (h ∈ open.*1) then Some open else None
  | SpanEnd h => end_span innermost h open
  | _ => Some open
  end.
Fixpoint spans_left (innermost : bool) (pos : nat) (l : list observation) (open : list started)
    : option (list started) :=
  match l with
  | [] => Some open
  | o :: l => spans_next innermost pos o open ≫= spans_left innermost (S pos) l
  end.

Lemma end_span_relax b h open open' : end_span b h open = Some open' → end_span false h open = Some open'.
Proof.
  destruct b; [|done]. destruct open as [|x open]; [done|]. cbn [end_span]. by case_decide.
Qed.
Lemma spans_next_relax b pos o open open' :
  spans_next b pos o open = Some open' → spans_next false pos o open = Some open'.
Proof. destruct o; try done. apply end_span_relax. Qed.

(** On a back end of the API: what the observations leave open there. *)
Section backend.
Context {G Sp : Type} `{OTelTrace G Sp}.
Implicit Types (kept outer : list (nat * Sp)).

Lemma find_span_kept h kept outer : h ∈ kept.*1 → ∃ s, find_span h (kept ++ outer) = Some s.
Proof.
  induction kept as [|[h' s] kept IH]; [by intros ?%elem_of_nil|]. cbn. rewrite elem_of_cons.
  intros [->|Hin]; [rewrite decide_True by done; eauto|]. case_decide; eauto.
Qed.
Lemma end_span_kept h (open open' : list started) kept outer :
  kept.*1 = open.*1 → end_span false h open = Some open' →
  h ∈ kept.*1 ∧ ∃ kept', drop_span h (kept ++ outer) = kept' ++ outer ∧ kept'.*1 = open'.*1.
Proof.
  revert kept open'. induction open as [|[h1 name] open IH]; intros kept open' Hk; [done|].
  destruct kept as [|[h2 s] kept]; [done|]. cbn in Hk. injection Hk as -> Hk. cbn [end_span fst].
  case_decide as Hh; cbn [app drop_span].
  - intros [= <-]. subst h1. rewrite decide_True by done. split; [left|]. by exists kept.
  - rewrite decide_False by done. intros (open1 & E & ->)%fmap_Some.
    destruct (IH kept open1 Hk E) as (Hin & kept' & -> & Hk'). split; [by right|].
    exists ((h1, s) :: kept'). split; [done|]. cbn. by rewrite Hk'.
Qed.
Lemma trace_left ts pos l (open left_ : list started) kept outer (g : G) :
  kept.*1 = open.*1 → spans_left false pos l open = Some left_ →
  ∃ kept' g', trace_all ts pos l (kept ++ outer, g) = Some (kept' ++ outer, g') ∧ kept'.*1 = left_.*1.
Proof.
  revert pos open kept g. induction l as [|o l IH]; intros pos open kept g Hk; cbn [spans_left trace_all].
  { intros [= <-]. by exists kept, g. }
  intros (open1 & E & Hl)%bind_Some.
  assert (∃ kept1 g1, trace_observation ts pos o (kept ++ outer, g) = Some (kept1 ++ outer, g1) ∧
    kept1.*1 = open1.*1) as (kept1 & g1 & -> & Hk1); [|by eapply IH].
  destruct o as [| | | | | | |name|h key v|h e|h]; cbn [spans_next trace_observation] in *;
    try (injection E as <-; by exists kept, g).
  - destruct (Tracer_StartSpan _ _ _) as [s g1]. injection E as <-. exists ((pos, s) :: kept), g1.
    cbn. by rewrite Hk.
  - destruct v as [v|v|v]; [|done|]; case_decide as Hin; try done; injection E as <-; rewrite <-Hk in Hin;
      destruct (find_span_kept h kept outer Hin) as [s ->]; cbn; eauto.
  - case_decide as Hin; [|done]. injection E as <-. rewrite <-Hk in Hin.
    destruct (find_span_kept h kept outer Hin) as [s ->]. cbn. eauto.
  - destruct (end_span_kept h open open1 kept outer Hk E) as (Hin & kept1 & Hd & Hk1).
    destruct (find_span_kept h kept outer Hin) as [s ->]. cbn. rewrite Hd. eauto.
Qed.
End backend.

(** ** The account of a run: position, open spans, whether the provider
    panicked. *)
Record tracing := mkTracing { tr_pos : nat; tr_open : list started; tr_panicked : bool }.
Definition may_trace {B} (o : op B) (s : tracing) : Prop :=
  match o with
  | observe x => is_Some (spans_next (negb (tr_panicked s)) (tr_pos s) x (tr_open s))
  | _ => True
  end.
Definition traced {B} (o : op B) (s : tracing) (r : res B) : tracing :=
  mkTracing (tr_pos s + length (observed o))
    (match observed o with
     | [x] => default [] (spans_next (negb (tr_panicked s)) (tr_pos s) x (tr_open s))
     | _ => tr_open s
     end)
    (tr_panicked s || match r with Err e => panicking e | Ok _ => false end && 
       match o with provider_Send _ _ _ _ => true | _ => false end).
Definition spans : account tracing :=
  mkAccount (@may_trace) (@traced) (λ B o s, may_answer (tr_pos s) o).

(** An execution of a program that keeps the account leaves open what the
    account says, and ends innermost first when nothing panicked. *)
Lemma spends_plays {A} (c : proc A) s (Q : tracing → res A → Prop) l x :
  spends spans c s Q → plays (tr_pos s) c l x → ∃ s', Q s' x ∧
    spans_left false (tr_pos s) l (tr_open s) = Some (tr_open s') ∧
    (tr_panicked s' = false → tr_panicked s = false ∧
       spans_left true (tr_pos s) l (tr_open s) = Some (tr_open s')).
Proof.
  revert s l. induction c as [r|B o k IH]; intros s l.
  { intros HQ [-> ->]. by exists s. }
  intros [Hm Hk] (r & l' & Ha & -> & Hp). specialize (Hk r Ha).
  destruct (IH r (traced o s r) l' Hk Hp) as (s' & HQ & Hl & Hstrict). exists s'. split; [done|].
  assert (observed o = [] ∨ ∃ x, observed o = [x] ∧
    is_Some (spans_next (negb (tr_panicked s)) (tr_pos s) x (tr_open s))) as [Ho|(x1 & Ho & [open1 Hx])].
  { destruct o; try (by left); right; eexists; (split; [done|]); [exact Hm|by eexists]. }
  - unfold traced in Hl, Hstrict. cbn [tr_pos tr_open tr_panicked] in Hl, Hstrict. rewrite Ho in *.
    cbn [length app] in *. rewrite Nat.add_0_r in *. split; [done|]. intros Hf.
    destruct (Hstrict Hf) as [[Hp0 _]%orb_false_iff Hs]. done.
  - unfold traced in Hl, Hstrict. cbn [tr_pos tr_open tr_panicked] in Hl, Hstrict. rewrite Ho, Hx in *.
    cbn [length app default from_option spans_left] in *. rewrite Nat.add_1_r in *.
    rewrite (spans_next_relax _ _ _ _ _ Hx). split; [exact Hl|]. intros Hf.
    destruct (Hstrict Hf) as [[Hp0 _]%orb_false_iff Hs]. split; [done|]. rewrite Hp0 in Hx. cbn in Hx.
    by rewrite Hx.
Qed.

(** ** Programs that leave the open spans as they found them *)
Definition stays (s s' : tracing) : Prop :=
  tr_open s' = tr_open s ∧ tr_panicked s' = false ∧ (tr_pos s ≤ tr_pos s')%nat.
Definition calm {A} (r : res A) : Prop := ∀ e, r = Err e → panicking e = false.
Definition tidy {A} (c : proc A) : Prop :=
  ∀ s, tr_panicked s = false → spends spans c s (λ s' _, stays s s').
(** ... and do not end in a panic. *)
Definition neat {A} (c : proc A) : Prop :=
  ∀ s, tr_panicked s = false → spends spans c s (λ s' r, stays s s' ∧ calm r).

Lemma stays_refl s : tr_panicked s = false → stays s s.
Proof. unfold stays. auto. Qed.
Lemma stays_trans s1 s2 s3 : stays s1 s2 → stays s2 s3 → stays s1 s3.
Proof. intros (E1 & _ & L1) (E2 & P2 & L2). split_and!; [congruence|done|lia]. Qed.
Lemma neat_tidy {A} (c : proc A) : neat c → tidy c.
Proof. intros Hc s Hs. eapply spends_mono; [by apply Hc|]. by intros s' r [? _]. Qed.
Lemma neat_done {A} (r : res A) : calm r → neat (Done r).
Proof. intros Hr s Hs. split; [by apply stays_refl|done]. Qed.
Lemma calm_ok {A} (a : A) : calm (Ok a).
Proof. by intros e. Qed.
Lemma neat_mret {A} (a : A) : neat (mret a).
Proof. apply neat_done, calm_ok. Qed.
Lemma neat_raise {A} e : panicking e = false → neat (raise e : proc A).
Proof. intros He. apply neat_done. intros e' Ee. by inversion Ee; subst. Qed.
Lemma neat_then {A B} (k : res A → proc B) (c : proc A) : tidy c → (∀ r, neat (k r)) → neat (proc_then k c).
Proof.
  intros Hc Hk s Hs. apply spends_then. eapply spends_mono; [by apply Hc|]. intros s1 r H1.
  eapply spends_mono; [apply Hk; apply H1|]. intros s2 r2 [H2 ?]. split; [exact (stays_trans _ _ _ H1 H2)|done].
Qed.
Lemma neat_bind {A B} (k : A → proc B) (c : proc A) : neat c → (∀ a, neat (k a)) → neat (c ≫= k).
Proof.
  intros Hc Hk s Hs. apply spends_bind. eapply spends_mono; [by apply Hc|]. intros s1 [a|e] [H1 Hr].
  - eapply spends_mono; [apply Hk; apply H1|]. intros s2 r2 [H2 ?]. split; [exact (stays_trans _ _ _ H1 H2)|done].
  - split; [done|]. intros e' [= <-]. by apply Hr.
Qed.
Lemma neat_wrapped {A} ctx (c : proc A) : tidy c → neat (wrapped ctx c).
Proof. intros Hc. apply neat_then; [done|]. intros [a|e]; apply neat_done; [apply calm_ok|intros e' Ee; by inversion Ee]. Qed.
Lemma neat_outcome {A} (c : proc A) : tidy c → neat (outcome c).
Proof. intros Hc. apply neat_then; [done|]. intros r. apply neat_done, calm_ok. Qed.
Lemma neat_deferred {A} (d : proc unit) (c : proc A) : neat d → neat c → neat (deferred d c).
Proof.
  intros Hd Hc s Hs. apply spends_deferred. eapply spends_mono; [by apply Hc|]. intros s1 r [H1 Hr].
  eapply spends_mono; [apply Hd; apply H1|]. intros s2 r2 [H2 _]. split; [exact (stays_trans _ _ _ H1 H2)|done].
Qed.
Lemma neat_when b c : neat c → neat (when b c).
Proof. destruct b; [done|]. intros _. apply neat_mret. Qed.
(** A call that is not about spans. *)
Definition spanless {B} (o : op B) : bool :=
  match o with
  | observe (SpanStart _ | SpanAttr _ _ _ | SpanError _ _ | SpanEnd _) | tracer_StartSpan _
  | provider_Send _ _ _ _ => false
  | _ => true
  end.
Definition unfailing {B} (o : op B) : bool :=
  match o with
  | observe _ | clock_Now | gen_NewNotificationID | gen_NewBatchID | gen_NewTemplateID | gen_NewLogID
  | gen_NewCorrelationID => true
  | _ => false
  end.
Lemma traced_spanless {B} (o : op B) s r : spanless o = true → tr_panicked s = false → stays s (traced o s r).
Proof.
  intros Ho Hs. unfold stays, traced. cbn [tr_open tr_panicked tr_pos]. rewrite Hs. split_and!; [|..|lia].
  - destruct o; try done. by destruct o.
  - destruct o; try done; by rewrite andb_false_r.
Qed.
Lemma tidy_call {B} (o : op B) : spanless o = true → tidy (call o).
Proof.
  intros Ho s Hs. apply (spends_call spans); [|intros r _; by apply traced_spanless].
  destruct o; try done. cbn. destruct o; try done; by eexists.
Qed.
Lemma neat_call {B} (o : op B) : spanless o = true → unfailing o = true → neat (call o).
Proof.
  intros Ho Hu s Hs. apply (spends_call spans).
  - destruct o; try done. cbn. destruct o; try done; by eexists.
  - intros r Hr. split; [by apply traced_spanless|]. destruct o; try done; cbn in Hr;
      first [subst r; apply calm_ok|destruct Hr as [? ->]; apply calm_ok].
Qed.
(** The guarded mutations of an entity fail with an error value. *)
Lemma neat_transition n target now side : neat (entity n (transition target now side)).
Proof.
  apply neat_done. unfold transition. destruct (negb _); [by intros e [= <-]|apply calm_ok].
Qed.
Lemma tidy_lift {A} (r : res A) : tidy (lift r).
Proof. intros s Hs. by apply stays_refl. Qed.
#[local] Hint Resolve neat_mret neat_transition tidy_lift : neat.
Ltac neat_step :=
  first [ by auto with neat | apply neat_bind; [|intros ?] | apply neat_wrapped | apply neat_outcome
        | apply neat_deferred | apply neat_when | by apply neat_call | by apply tidy_call
        | by apply neat_raise ].
Ltac neat_all := repeat (cbn zeta; neat_step).

Lemma neat_recordEvent n ev : neat (recordEvent n ev).
Proof. unfold recordEvent. neat_all. Qed.
Lemma neat_log ctx n out d reason : neat (logProcessingOutcome ctx n out d reason).
Proof. unfold logProcessingOutcome. neat_all. Qed.
#[local] Hint Resolve neat_recordEvent neat_log : neat.
Lemma neat_reschedule uc ctx n start : neat (rescheduleForRateLimit uc ctx n start).
Proof. unfold rescheduleForRateLimit, MarkRetrying, emit. neat_all. Qed.
Lemma neat_applyResult uc ctx n result start : neat (applyResult uc ctx n result start).
Proof.
  unfold applyResult, markDelivered, markFailed, markRetrying, MarkDelivered, MarkFailed, MarkRetrying, emit.
  neat_step; [neat_all|]. cbn zeta. apply neat_deferred; [neat_all|].
  destruct (Success _); [neat_all|]. destruct (_ || _); neat_all.
Qed.

(** ** The two spans of a run: around the provider call and around the task *)
Lemma spans_observe x p open b open' (Q : tracing → res unit → Prop) :
  spans_next (negb b) p x open = Some open' → Q (mkTracing (p + 1) open' b) (Ok tt) →
  spends spans (call (observe x)) (mkTracing p open b) Q.
Proof.
  intros Hx HQ. apply (spends_call spans); [cbn; by rewrite Hx|]. intros r ->.
  cbn [next spans]. unfold traced. cbn. by rewrite Hx, orb_false_r.
Qed.
Lemma spans_start name p open b (Q : tracing → res nat → Prop) :
  Q (mkTracing (p + 1) ((p, name) :: open) b) (Ok p) →
  spends spans (call (tracer_StartSpan name)) (mkTracing p open b) Q.
Proof.
  intros HQ. apply (spends_call spans); [done|]. intros r ->. cbn [next spans]. unfold traced. cbn.
  by rewrite orb_false_r.
Qed.
Lemma attr_open b p h name k v open : match v with AttrInt _ => False | _ => True end →
  spans_next b p (SpanAttr h k v) ((h, name) :: open) = Some ((h, name) :: open).
Proof. intros Hv. cbn. rewrite decide_True by by left. by destruct v. Qed.
Lemma error_open b p h e name open :
  spans_next b p (SpanError h e) ((h, name) :: open) = Some ((h, name) :: open).
Proof. cbn. by rewrite decide_True by by left. Qed.
Lemma end_open b p h name open : spans_next b p (SpanEnd h) ((h, name) :: open) = Some open.
Proof. cbn. by rewrite decide_True. Qed.

(** A run that starts in [s]: it leaves the spans as they were, or the provider
    panicked inside the span around it. *)
Definition ends_run {A} (uc : ProcessNotification) (s s' : tracing) (r : res A) : Prop :=
  stays s s' ∧ calm r ∨
  ∃ v h, r = Err (Panicked v) ∧ tr_panicked s' = true ∧ (tr_pos s ≤ h)%nat ∧
    tr_open s' = (if pn_tracer uc then [(h, "provider.send")] else []) ++ tr_open s.
Lemma neat_ends_run {A} uc s (c : proc A) : tr_panicked s = false → neat c → spends spans c s (ends_run uc s).
Proof. intros Hs Hc. eapply spends_mono; [by apply Hc|]. intros s' r Hr. by left. Qed.
(** The same from a later state. *)
Lemma ends_run_later {A} uc s s1 s' (r : res A) : stays s s1 → ends_run uc s1 s' r → ends_run uc s s' r.
Proof.
  intros H1 [[H2 Hr]|(v & h & -> & Hp & Hh & Ho)]; [left; split; [exact (stays_trans _ _ _ H1 H2)|done]|].
  destruct H1 as (Ho1 & _ & Hl). right. exists v, h. split_and!; [done|done|lia|by rewrite <-Ho1].
Qed.
Lemma ends_run_bind {A B} uc s (c : proc A) (k : A → proc B) : tr_panicked s = false → neat c →
  (∀ a s1, stays s s1 → spends spans (k a) s1 (ends_run uc s1)) → spends spans (c ≫= k) s (ends_run uc s).
Proof.
  intros Hs Hc Hk. apply spends_bind. eapply spends_mono; [by apply Hc|]. intros s1 [a|e] [H1 Hr].
  - eapply spends_mono; [by apply Hk|]. intros s' r. by apply ends_run_later.
  - left. split; [done|]. intros e' Ee. inversion Ee; subst. by apply Hr.
Qed.

Lemma spans_send uc ctx n s : tr_panicked s = false → spends spans (send uc ctx n) s (ends_run uc s).
Proof.
  destruct s as [p open b]. cbn [tr_panicked]. intros ->. unfold send, StartSpan, span, ends_run, stays.
  destruct (pn_tracer uc); cbn [when tr_open tr_pos tr_panicked].
  - apply spends_bind, spans_start. do 2 (apply spends_bind; eapply spans_observe; [by apply attr_open|]).
    apply spends_bind, (spends_call spans); [done|]. intros r [[result ->]|[v ->]].
    + do 2 (apply spends_bind; eapply spans_observe; [by apply attr_open|]).
      apply spends_bind. eapply spans_observe; [apply end_open|]. left. cbn.
      split; [split_and!; [done|done|lia]|apply calm_ok].
    + right. exists v, p. by split_and!.
  - cbn. split; [done|]. intros r Hr. destruct Hr as [[result ->]|[v ->]]; cbn; rewrite ?Nat.add_0_r.
    + left. split; [done|apply calm_ok].
    + right. exists v, p. by split_and!.
Qed.
Lemma spans_ProcessNotification uc ctx nid s : tr_panicked s = false →
  spends spans (ProcessNotification_Execute uc ctx nid) s (ends_run uc s).
Proof.
  intros Hs. unfold ProcessNotification_Execute. apply ends_run_bind; [done|neat_all|]. intros start s1 H1.
  apply ends_run_bind; [apply H1|neat_all|]. intros [n|e] s2 H2; [|apply neat_ends_run; [apply H2|];
    destruct (errors_Is _ _); neat_all].
  unfold deliver. cbn zeta. apply ends_run_bind; [apply H2|neat_all|]. intros _ s3 H3.
  apply ends_run_bind; [apply H3|neat_all|]. intros [allowed after] s4 H4.
  destruct (negb _); [apply neat_ends_run; [apply H4|apply neat_reschedule]|].
  apply spends_bind. eapply spends_mono; [apply spans_send, H4|].
  intros s5 [result|e] [[H5 Hr]|(v & h & Er & Hp & Hh & Ho)]; try done.
  - eapply spends_mono; [apply ends_run_bind with (uc := uc); [apply H5|unfold emit; neat_all|]|
      intros s' r; by apply ends_run_later].
    intros _ s6 H6. apply neat_ends_run; [apply H6|apply neat_applyResult].
  - left. split; [done|]. intros e' Ee. inversion Ee; subst. by apply Hr.
  - right. exists v, h. injection Er as ->. by split_and!.
Qed.

(** The deferred end of the task's span, whatever the run left inside it. *)
Lemma end_task uc p open s' h (r : res unit) : (h < p)%nat →
  ends_run uc (mkTracing p ((h, "queue.dequeue") :: open) false) s' r →
  spends spans (call (observe (SpanEnd h))) s' (λ s'' _, ends_run uc (mkTracing h open false) s'' r).
Proof.
  intros Hp. destruct s' as [p' open' b']. unfold ends_run, stays. cbn [tr_open tr_pos tr_panicked].
  intros [[(-> & -> & Hl) Hr]|(v & h1 & -> & -> & Hh & ->)].
  - eapply spans_observe; [apply end_open|]. left. cbn. split; [split_and!; [done|done|lia]|done].
  - eapply (spans_observe _ _ _ _ ((if pn_tracer uc then [(h1, "provider.send")] else []) ++ open)).
    + destruct (pn_tracer uc); cbn; [|by rewrite decide_True].
      rewrite decide_False by lia. by rewrite decide_True.
    + right. exists v, h1. cbn. split_and!; [done|done|lia|done].
Qed.
Lemma spans_worker uc ctx t p open :
  spends spans (HandleProcessNotification (ProcessNotification_Execute uc) ctx t) (mkTracing p open false)
    (ends_run uc (mkTracing p open false)).
Proof.
  unfold HandleProcessNotification. apply spends_bind, spans_start, spends_deferred. cbn beta iota zeta.
  set (s1 := mkTracing (p + 1) ((p, "queue.dequeue") :: open) false).
  eapply spends_mono with (Q := ends_run uc s1); [|intros s' r Hr; apply (end_task uc (p + 1)); [lia|exact Hr]].
  assert (∀ err e, panicking e = false → spends spans
    (call (observe (SpanError p err));; raise e : proc unit) s1 (ends_run uc s1)) as Hfail.
  { intros err e He. apply spends_bind. eapply spans_observe; [apply error_open|]. left. cbn.
    split; [split_and!; [done|done|cbn; lia]|]. intros e' Ee. inversion Ee; by subst. }
  destruct (Payload_Unmarshal _) as [payload|err]; [|by apply Hfail]. case_bool_decide; [by apply Hfail|].
  apply spends_bind. eapply spans_observe; [by apply attr_open|]. cbn beta iota.
  apply spends_then. eapply spends_mono; [by apply spans_ProcessNotification|].
  intros [p2 open2 b2] r Hr. destruct r as [[]|e].
  { cbn. eapply ends_run_later; [|exact Hr]. split_and!; [done|done|cbn; lia]. }
  destruct Hr as [[(Ho & Hb & Hl) Hcalm]|(v & h & Er & Hb & Hh & Ho)]; cbn in Ho, Hb, Hl || cbn in Ho, Hb, Hh.
  - rewrite (Hcalm e eq_refl). subst. apply spends_then. eapply spans_observe; [apply error_open|]. left. cbn.
    split; [split_and!; [done|done|cbn; lia]|exact Hcalm].
  - injection Er as ->. cbn [panicking]. right. exists v, h. cbn. subst. split_and!; [done|done|cbn in Hh; lia|done].
Qed.

(** ** Runs are executions *)
Section runs.
Context {DB Q PR RL BC : Type}.
Context `{NotificationRepository DB, BatchRepository DB, TemplateRepository DB, NotificationLogRepository DB,
  Queue Q, Provider PR, RateLimiter RL, StatusBroadcaster BC, Clock, IDGenerator}.
Local Abbreviation W := (World DB Q PR RL BC).

Lemma handle_answers {B} (o : op B) (w : W) : may_answer (length (w_obs w)) o (handle o w).1.
Proof.
  destruct o; unfold handle; try done; try (by eexists).
  left. destruct (Provider_Send _ _ _ _ _). by eexists.
Qed.
Lemma run_plays {A} (c : proc A) (w : W) :
  wp (run c) (λ r w', ∃ l, w_obs w' = w_obs w ++ l ∧ plays (length (w_obs w)) c l r) w.
Proof.
  revert w. induction c as [r|B o k IH]; intros w.
  { apply wp_Done. exists []. by rewrite app_nil_r. }
  apply wp_Call, wp_intro. intros r w1 E.
  pose proof (wp_run _ _ _ _ _ (handle_quiet o w) E) as [Ho _].
  pose proof (handle_answers o w) as Ha. rewrite E in Ha. cbn beta in Ho. cbn [fst] in Ha.
  wp_use (IH r w1). intros x w' (l & Hl & Hp). exists (observed o ++ l). split; [by rewrite Hl, Ho, app_assoc|].
  exists r, l. split_and!; [done|done|]. by rewrite Ho, length_app in Hp.
Qed.
End runs.

(** C19. Spans are closed.  A worker task, run in any world, is an execution;
    and whatever a task holds and its ports answer, an execution only sets
    attributes and statuses of spans that are open, and ends the spans it
    started, each once and innermost first - except that a panic of the
    provider leaves exactly the span around its call open, the task's own span
    being ended all the same.  Any OpenTelemetry back end records that. *)
Theorem worker_spans_close {DB Q PR RL BC : Type} `{NotificationRepository DB, BatchRepository DB,
    TemplateRepository DB, NotificationLogRepository DB, Queue Q, Provider PR, RateLimiter RL,
    StatusBroadcaster BC, Clock, IDGenerator} uc ctx t (w : World DB Q PR RL BC) :
  let task := HandleProcessNotification (ProcessNotification_Execute uc) ctx t in
  wp (run task) (λ r w', ∃ l, w_obs w' = w_obs w ++ l ∧ plays (length (w_obs w)) task l r) w ∧
  ∀ pos l r, plays pos task l r → ∃ left_,
    spans_left false pos l [] = Some left_ ∧
    match r with
    | Err (Panicked _) => ∃ h, left_ = if pn_tracer uc then [(h, "provider.send")] else []
    | _ => left_ = [] ∧ spans_left true pos l [] = Some []
    end ∧
    ∀ (G Sp : Type) (api : OTelTrace G Sp) ts (outer : list (nat * Sp)) (g : G), ∃ kept g',
      trace_all ts pos l (outer, g) = Some (kept ++ outer, g') ∧ kept.*1 = left_.*1.
Proof.
  intros task. split; [apply run_plays|]. intros pos l r Hp.
  destruct (spends_plays task (mkTracing pos [] false) _ l r (spans_worker uc ctx t pos []) Hp)
    as (s' & Hr & Hl & Hstrict). cbn [tr_open tr_pos] in Hl, Hstrict.
  exists (tr_open s'). split; [exact Hl|]. split.
  - destruct Hr as [[(Ho & Hb & _) Hc]|(v & h & -> & _ & Hh & ->)].
    + destruct (Hstrict Hb) as [_ Hs]. cbn in Ho. rewrite Ho in *.
      destruct r as [[]|[]]; try done. by specialize (Hc _ eq_refl).
    + exists h. by rewrite app_nil_r.
  - intros G Sp api ts outer g. by apply (trace_left ts pos l [] (tr_open s') [] outer g).
Qed.

(** The panic is possible as far as the code goes: the span around the call is
    started, given two attributes, and never ended. *)
Lemma panic_leaves_span_open metrics ctx n pos v :
  plays pos (send (mkProcessNotification metrics true) ctx n)
    [SpanStart "provider.send"; SpanAttr pos "notification.id" (AttrString (ID n));
     SpanAttr pos "notification.channel" (AttrString (NChannel n))] (Err (Panicked v)).
Proof.
  unfold send, StartSpan, span. cbn.
  exists (Ok pos). eexists. split; [done|]. split; [reflexivity|].
  do 2 (exists (Ok tt); eexists; split; [done|]; split; [reflexivity|]).
  exists (Err (Panicked v)), []. split; [right; by exists v|]. by split.
Qed.
