(* ===== verification/Sha256.v ===== *)
(** [sha256.Sum256] of Go's crypto/sha256 (FIPS 180-4), which fingerprints
    request bodies.  The round constants and the initial state are computed
    from the primes they are defined by, and the whole is checked against
    published digests. *)

From S2P Require Import Prelude GoStrings.

Definition add32 (x y : Z) : Z := (x + y) mod 2 ^ 32.
Definition rotr (n x : Z) : Z := Z.lor (Z.shiftr x n) (Z.shiftl x (32 - n) mod 2 ^ 32).
Definition xor3 (x y z : Z) : Z := Z.lxor x (Z.lxor y z).
Definition big_sigma0 (x : Z) : Z := xor3 (rotr 2 x) (rotr 13 x) (rotr 22 x).
Definition big_sigma1 (x : Z) : Z := xor3 (rotr 6 x) (rotr 11 x) (rotr 25 x).
Definition small_sigma0 (x : Z) : Z := xor3 (rotr 7 x) (rotr 18 x) (Z.shiftr x 3).
Definition small_sigma1 (x : Z) : Z := xor3 (rotr 17 x) (rotr 19 x) (Z.shiftr x 10).
Definition choose (x y z : Z) : Z := Z.lxor (Z.land x y) (Z.land (2 ^ 32 - 1 - x) z).
Definition majority (x y z : Z) : Z := xor3 (Z.land x y) (Z.land x z) (Z.land y z).

(** ** Constants: fractional parts of roots of the first primes *)
Definition is_prime (n : nat) : bool :=
  forallb (λ d, negb (n mod d =? 0)%nat) (seq 2 (n - 2)).
Definition primes (below : nat) : list Z :=
  Z.of_nat <$> List.filter is_prime (seq 2 (below - 2)).
(** The largest [r < 2 ^ bits] extending [acc] with [r ^ 3 ≤ n]. *)
Fixpoint cube_root (bits : nat) (acc n : Z) : Z :=
  match bits with
  | O => acc
  | S b => let r := acc + 2 ^ Z.of_nat b in
           cube_root b (if r ^ 3 <=? n then r else acc) n
  end.
Definition K : list Z :=
  Eval vm_compute in map (λ p, cube_root 35 0 (p * 2 ^ 96) mod 2 ^ 32) (primes 312).
Definition H0 : list Z :=
  Eval vm_compute in map (λ p, Z.sqrt (p * 2 ^ 64) mod 2 ^ 32) (primes 20).

(** ** Padding and blocks *)
Definition be_bytes (n : nat) (z : Z) : list ascii :=
  map (λ i, byte (Z.to_N (Z.shiftr z (8 * Z.of_nat (n - 1 - i)) mod 256))) (seq 0 n).
Definition pad (l : list ascii) : list ascii :=
  let n := Z.of_nat (length l) in
  l ++ byte 128 :: repeat (byte 0) (Z.to_nat ((55 - n) mod 64)) ++ be_bytes 8 (8 * n).
Definition z_of (a : ascii) : Z := Z.of_N (code a).
Fixpoint words (l : list ascii) : list Z :=
  match l with
  | a :: b :: c :: d :: l =>
      (z_of a * 2 ^ 24 + z_of b * 2 ^ 16 + z_of c * 2 ^ 8 + z_of d) :: words l
  | _ => []
  end.

(** ** Compression *)
Definition round (k w : Z) (h : list Z) : list Z :=
  match h with
  | [a; b; c; d; e; f; g; hh] =>
      let t1 := add32 hh (add32 (big_sigma1 e) (add32 (choose e f g) (add32 k w))) in
      let t2 := add32 (big_sigma0 a) (majority a b c) in
      [add32 t1 t2; a; b; c; add32 d t1; e; f; g]
  | _ => h
  end.
(** The message schedule keeps the next sixteen words. *)
Definition extend (win : list Z) : list Z :=
  tail win ++ [add32 (small_sigma1 (nth 14 win 0)) (add32 (nth 9 win 0)
                 (add32 (small_sigma0 (nth 1 win 0)) (nth 0 win 0)))].
Definition compress (h win : list Z) : list Z :=
  zip_with add32 h
    (foldl (λ '(h, win) k, (round k (nth 0 win 0) h, extend win)) (h, win) K).1.
Fixpoint hash_blocks (n : nat) (h ws : list Z) : list Z :=
  match n with
  | O => h
  | S n => hash_blocks n (compress h (take 16 ws)) (drop 16 ws)
  end.
Definition Sum256 (s : string) : string :=
  let ws := words (pad (bytes s)) in
  of_bytes (flat_map (be_bytes 4) (hash_blocks (length ws / 16) H0 ws)).

(** ** Facts *)
Lemma length_be_bytes n z : length (be_bytes n z) = n.
Proof. unfold be_bytes. by rewrite length_map, length_seq. Qed.
(** The padding fills whole blocks. *)
Lemma pad_blocks l : (length (pad l) mod 64 = 0)%nat.
Proof.
  unfold pad. rewrite length_app. cbn [length]. rewrite length_app, repeat_length, length_be_bytes.
  set (z := (55 - Z.of_nat (length l)) mod 64). assert (0 ≤ z < 64) by (apply Z.mod_pos_bound; lia).
  apply Nat2Z.inj. rewrite Nat2Z.inj_mod, !Nat2Z.inj_add, Nat2Z.inj_succ, Nat2Z.inj_add, Z2Nat.id by lia.
  subst z. Z.div_mod_to_equations. lia.
Qed.
Lemma length_round k w h : length (round k w h) = length h.
Proof. by do 9 (destruct h as [|? h]; [done|]). Qed.
Lemma length_compress h win : length (compress h win) = length h.
Proof.
  unfold compress. rewrite length_zip_with.
  assert (∀ ks h win, length
    (foldl (λ '(h, win) k, (round k (nth 0 win 0) h, extend win)) (h, win) ks).1 = length h) as ->; [|lia].
  clear. intros ks. induction ks as [|k ks IH]; intros h win; [done|]. simpl. by rewrite IH, length_round.
Qed.
Lemma length_hash_blocks n h ws : length (hash_blocks n h ws) = length h.
Proof. revert h ws. induction n as [|n IH]; intros h ws; [done|]. simpl. by rewrite IH, length_compress. Qed.
Lemma Sum256_length s : String.length (Sum256 s) = 32%nat.
Proof.
  unfold Sum256. rewrite <- length_bytes, bytes_of_bytes.
  assert (∀ l, length (flat_map (be_bytes 4) l) = (4 * length l)%nat) as ->.
  { intros l. induction l as [|x l IH]; [done|]. cbn [flat_map length].
    rewrite length_app, length_be_bytes, IH. lia. }
  by rewrite length_hash_blocks.
Qed.
(** A fingerprint is never empty. *)
Lemma Sum256_nonempty s : Sum256 s ≠ "".
Proof. intros H. pose proof (Sum256_length s). by rewrite H in *. Qed.

(** ** Published digests *)
Definition hex (s : string) : string :=
  of_bytes (flat_map (λ a, [hex_digit (code a / 16); hex_digit (code a mod 16)]) (bytes s)).
Example Sum256_empty : hex (Sum256 "") =
  "e3b0c44298fc1c149afbf4c8996fb92427ae41e4649b934ca495991b7852b855".
Proof. vm_compute. reflexivity. Qed.
Example Sum256_abc : hex (Sum256 "abc") =
  "ba7816bf8f01cfea414140de5dae2223b00361a396177a9cb410ff61f20015ad".
Proof. vm_compute. reflexivity. Qed.
Example Sum256_two_blocks :
  hex (Sum256 "abcdbcdecdefdefgefghfghighijhijkijkljklmklmnlmnomnopnopq") =
  "248d6a61d20638b8e5c026930c3e6039a33ce45964ff2167f6ecedd419db06c1".
Proof. vm_compute. reflexivity. Qed.
