(* ===== verification/Http.v ===== *)
(** HTTP messages as the adapter of internal/adapters/http sees them, and its
    error responses (problem.go, error_handler.go): the problem document, the
    catalogue of sentinels and the two error handlers.

    A handler's effects on its [ResponseWriter] and on the telemetry are a list
    of [event]s; [respond] is what net/http makes of them.  Wrappers of the
    writer transform the list. *)

From S2P Require Import Prelude GoStrings Strconv Errors ValueObjects Json Ports.

(** ** Headers *)

(** [textproto.CanonicalMIMEHeaderKey]: unchanged unless every byte may occur
    in a header name. *)
Definition token_byte (a : ascii) : bool :=
  in_range 48 57 a || in_range 65 90 a || in_range 97 122 a ||
  existsb (λ b, bool_decide (a = b)) (bytes "!#$%&'*+-.^_`|~").
Fixpoint canonical_bytes (upper : bool) (l : list ascii) : list ascii :=
  match l with
  | [] => []
  | a :: l =>
      (if upper && in_range 97 122 a then byte (code a - 32)
       else if negb upper && in_range 65 90 a then byte (code a + 32) else a)
      :: canonical_bytes (bool_decide (a = "-"%char)) l
  end.
Definition CanonicalHeaderKey (s : string) : string :=
  if forallb token_byte (bytes s) then of_bytes (canonical_bytes true (bytes s)) else s.

Abbreviation header := (gmap string (list string)).
Definition header_values (h : header) (name : string) : list string :=
  default [] (h !! CanonicalHeaderKey name).
Definition header_Get (h : header) (name : string) : string := default "" (head (header_values h name)).
Definition header_Set (name value : string) (h : header) : header :=
  <[CanonicalHeaderKey name := [value]]> h.

Example canonical_key : CanonicalHeaderKey "x-correlation-ID" = "X-Correlation-Id".
Proof. vm_compute. reflexivity. Qed.

Lemma header_Get_Set n v h : header_Get (header_Set n v h) n = v.
Proof. unfold header_Get, header_values, header_Set. by rewrite lookup_insert_eq. Qed.
Lemma header_Get_Set_ne n n' v h : CanonicalHeaderKey n ≠ CanonicalHeaderKey n' →
  header_Get (header_Set n v h) n' = header_Get h n'.
Proof. intros. unfold header_Get, header_values, header_Set. by rewrite lookup_insert_ne. Qed.

(** ** Requests and responses *)

(** A body: what can be read of it, then an error or its end. *)
Record Request := mkRequest {
  Method : string; URL_Path : string; Header : header; RemoteAddr : string;
  ReqBody : option (string * option error); Context_of : context }.
Definition WithContext_of (r : Request) (ctx : context) : Request :=
  mkRequest (Method r) (URL_Path r) (Header r) (RemoteAddr r) (ReqBody r) ctx.
Definition with_body (r : Request) (b : string) : Request :=
  mkRequest (Method r) (URL_Path r) (Header r) (RemoteAddr r) (Some (b, None)) (Context_of r).

Inductive event :=
| Header_Set (name value : string)
| WriteHeader (status : Z)
| Write (p : string)
| SlogWarn (msg : string)
| SlogError (msg : string)
| InboundRateLimitHit (endpoint : string)
| HTTPRequest (method pattern status : string)
| ObserveHTTPRequest (method pattern : string) (d : Duration).

(** A handler: its request, the header map of its writer, the state of what it
    calls. *)
Definition Handler (W : Type) : Type := Request → header → W → list event * W.

(** net/http: the first [WriteHeader] of a final status, or the first [Write]
    with status 200, sends the headers; later ones are ignored.  A 1xx status
    other than 101 is an informational response of its own and commits
    nothing, so the final [WriteHeader] may still follow it. *)
Definition informational (status : Z) : bool := (100 <=? status) && (status <=? 199) && negb (status =? 101).
Record writer := mkWriter {
  w_header : header; w_sent : option (Z * header); w_body : string }.
Definition send_header (status : Z) (w : writer) : writer :=
  match w_sent w with
  | Some _ => w
  | None => if informational status then w
            else mkWriter (w_header w) (Some (status, w_header w)) (w_body w)
  end.
Definition write_event (w : writer) (e : event) : writer :=
  match e with
  | Header_Set n v => mkWriter (header_Set n v (w_header w)) (w_sent w) (w_body w)
  | WriteHeader s => send_header s w
  | Write p => let w := send_header 200 w in
               mkWriter (w_header w) (w_sent w) (w_body w +:+ p)%string
  | _ => w
  end.
(** The final response. *)
Record Response := mkResponse { rs_status : Z; rs_header : header; rs_body : string }.
Definition finish (w : writer) : Response :=
  match w_sent w with
  | Some (s, h) => mkResponse s h (w_body w)
  | None => mkResponse 200 (w_header w) (w_body w)
  end.
Definition new_writer (h : header) : writer := mkWriter h None "".
Definition respond (h : header) (es : list event) : Response :=
  finish (foldl write_event (new_writer h) es).
(** The header map after [es]. *)
Definition header_after (h : header) (es : list event) : header :=
  w_header (foldl write_event (new_writer h) es).

Lemma w_header_indep w1 w2 es : w_header w1 = w_header w2 →
  w_header (foldl write_event w1 es) = w_header (foldl write_event w2 es).
Proof.
  revert w1 w2. induction es as [|e es IH]; intros w1 w2 E; [done|]. simpl. apply IH.
  destruct e; simpl; unfold send_header; repeat case_match; simpl; by rewrite ?E.
Qed.
Example early_hints_do_not_commit :
  rs_status (finish (foldl write_event (new_writer ∅) [WriteHeader 103; WriteHeader 202; WriteHeader 500])) = 202.
Proof. vm_compute. reflexivity. Qed.
Lemma header_after_app h es es' : header_after h (es ++ es') = header_after (header_after h es) es'.
Proof. unfold header_after. rewrite foldl_app. by apply w_header_indep. Qed.

(** Headers, a final status, a body. *)
Definition sets_header (e : event) : Prop := match e with Header_Set _ _ => True | _ => False end.
Lemma respond_whole h hs s b : Forall sets_header hs → informational s = false →
  respond h (hs ++ [WriteHeader s; Write b]) = mkResponse s (header_after h hs) b.
Proof.
  intros Hhs Hs. unfold respond, header_after. rewrite foldl_app.
  assert (∀ w, w_sent w = None → w_sent (foldl write_event w hs) = None ∧
    w_body (foldl write_event w hs) = w_body w) as Hk.
  { clear -Hhs. induction Hhs as [|e hs He _ IH]; intros w Hw; [done|]. destruct e as [n v| | | | | | | ]; try done. exact (IH (write_event w (Header_Set n v)) Hw). }
  destruct (Hk (new_writer h) eq_refl) as [E Eb]. generalize dependent (foldl write_event (new_writer h) hs).
  intros w E Eb. cbn [foldl write_event].
  assert (send_header s w = mkWriter (w_header w) (Some (s, w_header w)) (w_body w)) as ->
    by (unfold send_header; by rewrite E, Hs).
  unfold send_header. cbn [w_sent w_header w_body finish]. by rewrite Eb.
Qed.

(** [http.Error] *)
Definition http_Error (msg : string) (code : Z) : list event :=
  [Header_Set "Content-Type" "text/plain; charset=utf-8";
   Header_Set "X-Content-Type-Options" "nosniff";
   WriteHeader code; Write (msg +:+ of_bytes [byte 10])%string].

(** ** problem.go *)
Definition problemContentType : string := "application/problem+json".
Record Problem := mkProblem {
  Type_ : string; Title : string; Status_ : Z; Detail : string; Instance_ : string; Correlation_ : string }.
Definition omitempty (name v : string) : list (string * json) :=
  if bool_decide (v = "") then [] else [(name, JStr v)].
Definition Problem_json (p : Problem) : json :=
  JObj ([("type", JStr (Type_ p)); ("title", JStr (Title p)); ("status", JNum (FormatInt (Status_ p)))]
        ++ omitempty "detail" (Detail p) ++ omitempty "instance" (Instance_ p)
        ++ omitempty "correlation_id" (Correlation_ p)).
Definition or_default (s d : string) : string := if bool_decide (s = "") then d else s.
Definition complete (r : Request) (p : Problem) : Problem :=
  mkProblem (or_default (Type_ p) "about:blank") (Title p) (Status_ p) (Detail p)
    (or_default (Instance_ p) (URL_Path r)) (or_default (Correlation_ p) (FromContext (Context_of r))).
(** [json.Marshal] of a [Problem] cannot fail, so the [http.Error] branch of
    the source is never taken. *)
Definition WriteProblem (r : Request) (p : Problem) : list event :=
  let p := complete r p in
  [Header_Set "Content-Type" problemContentType; WriteHeader (Status_ p); Write (Marshal (Problem_json p))].

Record errorMapping := mkMapping {
  em_sentinel : sentinel; em_status : Z; em_type : string; em_title : string; em_detail : string }.
Definition errorMappings : list errorMapping := [
  mkMapping ErrNotFound 404 "/probs/not-found" "Not Found" "The requested resource does not exist.";
  mkMapping ErrAlreadyClaimed 409 "/probs/already-claimed" "Already Claimed"
    "The notification is being processed by another worker.";
  mkMapping ErrConcurrentUpdate 409 "/probs/concurrent-update" "Concurrent Update"
    "The resource was updated by another request; retry with the latest version.";
  mkMapping ErrInvalidChannel 400 "/probs/invalid-channel" "Invalid Channel"
    "Channel must be one of: sms, email, push.";
  mkMapping ErrInvalidPriority 400 "/probs/invalid-priority" "Invalid Priority"
    "Priority must be one of: low, normal, high.";
  mkMapping ErrInvalidStatus 400 "/probs/invalid-status" "Invalid Status"
    "Status is not a known notification state.";
  mkMapping ErrInvalidLogEvent 400 "/probs/invalid-log-event" "Invalid Log Event"
    "Log event is not a known transition event.";
  mkMapping ErrInvalidNotificationID 400 "/probs/invalid-notification-id" "Invalid Notification ID"
    "Notification id must be a valid UUID.";
  mkMapping ErrInvalidCorrelationID 400 "/probs/invalid-correlation-id" "Invalid Correlation ID"
    "Correlation id is not in the expected ULID or UUID shape.";
  mkMapping ErrInvalidBatchID 400 "/probs/invalid-batch-id" "Invalid Batch ID" "Batch id must be a valid UUID.";
  mkMapping ErrInvalidTemplateID 400 "/probs/invalid-template-id" "Invalid Template ID"
    "Template id must be a valid UUID.";
  mkMapping ErrInvalidLogID 400 "/probs/invalid-log-id" "Invalid Log ID" "Log id must be a valid UUID.";
  mkMapping ErrInvalidRecipient 400 "/probs/invalid-recipient" "Invalid Recipient"
    "Recipient address is missing or malformed.";
  mkMapping ErrInvalidContent 400 "/probs/invalid-content" "Invalid Content"
    "Notification content is missing or exceeds the channel limit.";
  mkMapping ErrInvalidTransition 409 "/probs/invalid-transition" "Invalid Transition"
    "The requested status transition is not allowed from the current state.";
  mkMapping ErrInvalidBatchSize 400 "/probs/invalid-batch-size" "Invalid Batch Size"
    "Batch size is outside the allowed range.";
  mkMapping ErrBatchInconsistentCorrelation 400 "/probs/batch-inconsistent-correlation"
    "Batch Inconsistent Correlation" "All notifications in a batch must share the same correlation id.";
  mkMapping ErrInvalidTemplateName 400 "/probs/invalid-template-name" "Invalid Template Name"
    "Template name is missing or malformed.";
  mkMapping ErrInvalidTemplateBody 400 "/probs/invalid-template-body" "Invalid Template Body"
    "Template body is missing or malformed.";
  mkMapping ErrTemplateRenderFailed 400 "/probs/template-render-failed" "Template Render Failed"
    "Rendering the template against the provided variables failed."].

Definition transition_detail (e : error) (m : errorMapping) : string :=
  match errors_As_Transition e with
  | Some (from, to) => ("Cannot move from " +:+ quoted from +:+ " to " +:+ quoted to +:+ ".")%string
  | None => em_detail m
  end.
Definition errorDetail (e : error) (m : errorMapping) : string :=
  match errors_As_Validation e with
  | Some (field, reason) =>
      if bool_decide (field ≠ "" ∧ reason ≠ "")
      then ("Field " +:+ quoted field +:+ ": " +:+ reason +:+ ".")%string
      else if bool_decide (reason ≠ "") then reason
      else if bool_decide (field ≠ "") then ("Field " +:+ quoted field +:+ " is invalid.")%string
      else transition_detail e m
  | None => transition_detail e m
  end.
Definition internal_problem : Problem :=
  mkProblem "/probs/internal" "Internal Server Error" 500
    "An unexpected error occurred. The incident has been logged." "" "".
(** The first mapping whose sentinel the error matches. *)
Definition find_mapping (e : error) : option errorMapping :=
  List.find (λ m, errors_Is e (em_sentinel m)) errorMappings.
Definition WriteError (r : Request) (err : option error) : list event :=
  match err with
  | None => []
  | Some e =>
      match find_mapping e with
      | Some m => WriteProblem r (mkProblem (em_type m) (em_title m) (em_status m) (errorDetail e m) "" "")
      | None => SlogError "unmapped error reached http translator" :: WriteProblem r internal_problem
      end
  end.

(** ** error_handler.go *)
Fixpoint errors_As_JSON (e : error) : bool :=
  match e with
  | JSONSyntaxError | JSONUnmarshalTypeError => true
  | Wrapped _ e | ValidationError _ _ (Some e) => errors_As_JSON e
  | _ => false
  end.
Definition isJSONDecodeError (e : error) : bool := errors_As_JSON e || errors_Is e LibErrUnexpectedEOF.
Definition not_implemented_problem : Problem :=
  mkProblem "/probs/not-implemented" "Not Implemented" 501
    "This operation has not been wired to an executor yet." "" "".
Definition malformed_body_problem : Problem :=
  mkProblem "/probs/malformed-body" "Malformed Request Body" 400
    "Request body could not be parsed as JSON. Check syntax and content-type." "" "".
Definition RespondWithError (r : Request) (e : error) : list event :=
  if errors_Is e ErrNotImplemented then WriteProblem r not_implemented_problem
  else if isJSONDecodeError e then WriteProblem r malformed_body_problem
  else WriteError r (Some e).

(** ** What a client reads *)
Definition problem_text (p : Problem) : Prop :=
  valid_utf8 (Type_ p) ∧ valid_utf8 (Title p) ∧ valid_utf8 (Detail p) ∧
  valid_utf8 (Instance_ p) ∧ valid_utf8 (Correlation_ p) ∧ in_int64 (Status_ p).
Definition plain_member (m : string * json) : Prop := valid_utf8 m.1 ∧ plain m.2.
Lemma plain_str name v : valid_utf8 name → valid_utf8 v → plain_member (name, JStr v).
Proof. by split. Qed.
Lemma plain_omitempty name v : valid_utf8 name → valid_utf8 v → Forall plain_member (omitempty name v).
Proof. intros. unfold omitempty. case_bool_decide; repeat constructor; done. Qed.
Lemma Problem_parses p : problem_text p → parse (Marshal (Problem_json p)) = Some (Problem_json p).
Proof.
  intros (Ht & Htl & Hd & Hi & Hc & Hs). apply parse_Marshal.
  - apply plain_JObj. rewrite !Forall_app. split_and!; [|apply plain_omitempty; [literal|done]..].
    do 2 (apply Forall_cons_2; [apply plain_str; [literal|done]|]).
    apply Forall_cons_2; [|constructor]. split; [literal|by exists (Status_ p)].
  - assert (height (Problem_json p) = 1%nat) as ->; [|unfold maxNestingDepth; lia].
    unfold Problem_json, omitempty. by repeat case_bool_decide.
Qed.

(** The status each sentinel of the service stands for. *)
Definition http_status (s : sentinel) : option Z :=
  if decide (s = ErrNotFound) then Some 404
  else if decide (s ∈ [ErrAlreadyClaimed; ErrConcurrentUpdate; ErrInvalidTransition]) then Some 409
  else if decide (s ∈ domain_sentinels) then Some 400 else None.

Lemma find_mapping_of e s : s ∈ domain_sentinels ++ port_sentinels → errors_Is e s = true →
  ∃ m, find_mapping e = Some m ∧ http_status s = Some (em_status m).
Proof.
  intros Hs He. unfold find_mapping.
  assert (existsb (λ m, bool_decide (em_sentinel m = s)) errorMappings = true) as Hx.
  { clear -Hs. revert s Hs. apply Forall_forall. by repeat (constructor; [by vm_compute|]). }
  apply existsb_exists in Hx as (m & Hm & Hms%bool_decide_eq_true).
  destruct (List.find _ errorMappings) as [m'|] eqn:E.
  - apply find_some in E as [Hin He']. exists m'. split; [done|].
    rewrite (errors_Is_functional e s _ He He'). clear -Hin. revert m' Hin.
    apply List.Forall_forall. by repeat (constructor; [by vm_compute|]).
  - pose proof (find_none _ _ E m Hm) as Hn. simpl in Hn. by rewrite Hms, He in Hn.
Qed.
Lemma find_mapping_sound e m : find_mapping e = Some m →
  em_sentinel m ∈ domain_sentinels ++ port_sentinels ∧ errors_Is e (em_sentinel m) = true ∧
  in_int64 (em_status m) ∧ valid_utf8 (em_type m) ∧ valid_utf8 (em_title m) ∧
  informational (em_status m) = false.
Proof.
  intros [Hin He]%find_some. split_and!; [|done|..]; clear -Hin; revert m Hin;
    apply List.Forall_forall.
  - by repeat (constructor; [by apply (bool_decide_unpack _); vm_compute|]).
  - by repeat (constructor; [by split; vm_compute|]).
  - repeat (constructor; [literal|]). constructor.
  - repeat (constructor; [literal|]). constructor.
  - by repeat (constructor; [by vm_compute|]).
Qed.

Lemma errors_As_JSON_exclusive e s : errors_As_JSON e = true → errors_Is e s = false.
Proof.
  revert e. fix IH 1. intros [s'|ctx e|f r [e|]|f t| | |m|v]; simpl; try done; apply IH.
Qed.

Lemma respond_problem h r p : informational (Status_ p) = false →
  respond h (WriteProblem r p) =
  mkResponse (Status_ p) (header_Set "Content-Type" problemContentType h)
    (Marshal (Problem_json (complete r p))).
Proof.
  intros Hi. refine (respond_whole h [Header_Set _ _] (Status_ p) _ _ Hi). by repeat constructor.
Qed.
Lemma complete_text r p :
  valid_utf8 (URL_Path r) → valid_utf8 (FromContext (Context_of r)) →
  valid_utf8 (Type_ p) → valid_utf8 (Title p) → valid_utf8 (Detail p) → valid_utf8 (Instance_ p) →
  valid_utf8 (Correlation_ p) → in_int64 (Status_ p) → problem_text (complete r p).
Proof.
  intros. unfold problem_text, complete, or_default. simpl.
  split_and!; try done; case_bool_decide; try done; literal.
Qed.

(** The document a client reads: what of the problem, and about which request. *)
Definition answers (r : Request) (resp : Response) (p : Problem) : Prop :=
  header_Get (rs_header resp) "Content-Type" = problemContentType ∧
  parse (rs_body resp) = Some (Problem_json p) ∧ Status_ p = rs_status resp ∧
  Instance_ p = URL_Path r ∧ Correlation_ p = FromContext (Context_of r).
Lemma problem_answers h r p :
  valid_utf8 (URL_Path r) → valid_utf8 (FromContext (Context_of r)) →
  valid_utf8 (Type_ p) → valid_utf8 (Title p) → valid_utf8 (Detail p) → in_int64 (Status_ p) →
  Instance_ p = "" → Correlation_ p = "" → informational (Status_ p) = false →
  answers r (respond h (WriteProblem r p)) (complete r p).
Proof.
  intros ?????? Hi Hc Hf. rewrite respond_problem by done. unfold answers. cbn [rs_header rs_body rs_status].
  split_and!; [by rewrite header_Get_Set| |done|by cbn; rewrite Hi|by cbn; rewrite Hc].
  apply Problem_parses, complete_text; rewrite ?Hi, ?Hc; try done; literal.
Qed.

(** C36. Every error of a handler becomes one problem document about the
    request: the status of the domain or port sentinel it wraps, however
    deeply; 501 for an operation that is not wired; 400 for a body that is not
    JSON; and for anything else a 500 whose text does not depend on the
    error. *)
Theorem every_error_has_its_problem r h e :
  valid_utf8 (URL_Path r) → valid_utf8 (FromContext (Context_of r)) →
  (∀ m, find_mapping e = Some m → valid_utf8 (errorDetail e m)) →
  let resp := respond h (RespondWithError r e) in
  ∃ p, answers r resp p ∧
    (∀ s, s ∈ domain_sentinels ++ port_sentinels → errors_Is e s = true →
       http_status s = Some (rs_status resp)) ∧
    (errors_Is e ErrNotImplemented = true → rs_status resp = 501) ∧
    (isJSONDecodeError e = true → rs_status resp = 400) ∧
    (find_mapping e = None → errors_Is e ErrNotImplemented = false → isJSONDecodeError e = false →
       rs_status resp = 500 ∧ p = complete r internal_problem).
Proof.
  intros Hp Hc Hd. unfold RespondWithError, isJSONDecodeError.
  destruct (errors_Is e ErrNotImplemented) eqn:Eni.
  { exists (complete r not_implemented_problem).
    split; [apply problem_answers; try done; try literal; by split|]. split_and!; [|done|..|done].
    - intros s Hs He. rewrite (errors_Is_functional _ _ _ He Eni) in Hs. by vm_compute in Hs; set_solver.
    - intros [He|He]%orb_true_iff; [by rewrite (errors_As_JSON_exclusive _ _ He) in Eni|].
      by pose proof (errors_Is_functional _ _ _ He Eni). }
  destruct (errors_As_JSON e || errors_Is e LibErrUnexpectedEOF) eqn:Ej.
  { exists (complete r malformed_body_problem).
    split; [apply problem_answers; try done; try literal; by split|]. split_and!; [|done..].
    intros s Hs He. apply orb_true_iff in Ej as [Ej|Ej].
    - by rewrite (errors_As_JSON_exclusive _ _ Ej) in He.
    - rewrite (errors_Is_functional _ _ _ He Ej) in Hs. by vm_compute in Hs; set_solver. }
  cbn [WriteError]. destruct (find_mapping e) as [m|] eqn:Em.
  - destruct (find_mapping_sound e m Em) as (Hin & Hem & Hst & Hty & Hti & Hfin).
    eexists. split; [apply problem_answers; try done; by apply Hd|]. split_and!; [|done..].
    intros s Hs He. destruct (find_mapping_of e s Hs He) as (m' & Em' & Hs').
    rewrite Em in Em'. injection Em' as <-. by rewrite respond_problem.
  - exists (complete r internal_problem).
    split; [apply (problem_answers h r internal_problem); try done; try literal; by split|].
    split_and!; [|done..].
    intros s Hs He. by destruct (find_mapping_of e s Hs He) as (m' & Em' & Hs'); rewrite Em in Em'.
Qed.

Definition demo_request : Request :=
  mkRequest "PATCH" "/api/v1/notifications/7/cancel" ∅ "10.0.0.7:5555" (Some ("", None)) (mkContext "corr-1").
Lemma every_error_has_its_problem_witness :
  let e := Wrapped "cancel" (Wrapped "delivered" (Sentinel ErrInvalidTransition)) in
  let resp := respond ∅ (RespondWithError demo_request e) in
  rs_status resp = 409 ∧ ∃ p, answers demo_request resp p.
Proof.
  intros e resp. split; [by vm_compute|].
  destruct (every_error_has_its_problem demo_request ∅ e) as (p & Hp & _); [literal|literal| |by exists p].
  intros m Hm. vm_compute in Hm. injection Hm as <-. literal.
Defined.
