(* ===== verification/Metrics.v ===== *)
(** The Prometheus collectors (internal/infrastructure/metrics/metrics.go):
    the families, the verb methods of the recorder, and what the registry
    shows after a run of the service. *)

From S2P Require Import Prelude GoStrings Json Numbers Errors Notification Ports Http Providers.

(** ** The Prometheus client *)

(** [NewCounterVec], [NewGaugeVec], [NewGauge], [NewHistogramVec] with their
    options and label names. *)
Inductive collector_kind := CounterVec | GaugeVec | Gauge | HistogramVec (buckets : list spec_float).
Record collector := mkCollector {
  c_kind : collector_kind; c_Name : string; c_Help : string; c_labels : list string }.
Inductive update := Inc | SetTo (v : spec_float) | Observe (v : spec_float).
(** What is shown of one series: for a histogram the cumulative counts of its
    buckets and the number of observations. *)
Inductive sample := CounterIs (n : Z) | GaugeIs (v : spec_float) | HistogramIs (buckets : list Z) (count : Z).

(** What the client documents.  A plain gauge is shown from its registration
    on, a series of a vector from its first update. *)
Definition initial_sample (k : collector_kind) : option sample :=
  match k with Gauge => Some (GaugeIs (float_of_Z 0)) | _ => None end.
Definition updated_sample (k : collector_kind) (u : update) (x : option sample) : option sample :=
  match k, u with
  | CounterVec, Inc => Some (CounterIs (1 + match x with Some (CounterIs n) => n | _ => 0 end))
  | (GaugeVec | Gauge), SetTo v => Some (GaugeIs v)
  | HistogramVec bounds, Observe v =>
      let '(counts, n) := match x with
                          | Some (HistogramIs counts n) => (counts, n)
                          | _ => ((λ _, 0) <$> bounds, 0)
                          end in
      Some (HistogramIs (zip_with (λ b c, if float_le v b then c + 1 else c) bounds counts) (n + 1))
  | _, _ => x
  end.
Definition admits (k : collector_kind) (u : update) : bool :=
  match k, u with
  | CounterVec, Inc | (GaugeVec | Gauge), SetTo _ | HistogramVec _, Observe _ => true
  | _, _ => false
  end.
(** [WithLabelValues] panics on a wrong number of values and on one that is
    not UTF-8. *)
Definition good_labels (c : collector) (values : list string) : Prop :=
  length values = length (c_labels c) ∧ Forall valid_utf8 values.

(** [None] is a panic. *)
Class Prometheus (S : Type) := {
  registered : S → list collector;
  Gather : string → list string → S → option sample;
  MustRegister : list collector → S → option S;
  WithLabelValues : collector → list string → update → S → option S;
}.
Class PrometheusLaws S `{Prometheus S} : Prop := {
  gather_law n vs s : n ∉ c_Name <$> registered s → Gather n vs s = None;
  register_law cs s : NoDup (c_Name <$> cs ++ registered s) → ∃ s',
    MustRegister cs s = Some s' ∧ registered s' = cs ++ registered s ∧
    (∀ n vs, n ∉ c_Name <$> cs → Gather n vs s' = Gather n vs s) ∧
    ∀ c vs, c ∈ cs → Gather (c_Name c) vs s' = if bool_decide (vs = []) then initial_sample (c_kind c) else None;
  update_law c values u s : c ∈ registered s → good_labels c values → admits (c_kind c) u = true → ∃ s',
    WithLabelValues c values u s = Some s' ∧ registered s' = registered s ∧
    ∀ n vs, Gather n vs s' = if bool_decide (n = c_Name c ∧ vs = values)
                             then updated_sample (c_kind c) u (Gather n vs s) else Gather n vs s;
  panic_law c values u s : ¬ good_labels c values → WithLabelValues c values u s = None;
}.

(** ** The collectors *)
Definition decimal (num den : Z) : spec_float := float_div (float_of_Z num) (float_of_Z den).
Definition processingBuckets : list spec_float :=
  [decimal 1 100; decimal 5 100; decimal 1 10; decimal 5 10; float_of_Z 1; float_of_Z 5; float_of_Z 10; float_of_Z 30].
Definition httpBuckets : list spec_float :=
  [decimal 5 1000; decimal 1 100; decimal 5 100; decimal 1 10; decimal 5 10; float_of_Z 1; float_of_Z 5].

Record Metrics := mkMetrics {
  notificationsCreatedTotal : collector;
  notificationsDeliveredTot : collector;
  notificationsFailedTotal : collector;
  notificationsAttemptsTot : collector;
  httpRequestsTotal : collector;
  inboundRateLimitHitsTotal : collector;
  outboundRateLimitHitsTot : collector;
  notificationsQueueDepth : collector;
  circuitBreakerState : collector;
  notificationsWSClients : collector;
  notificationsProcessing : collector;
  httpRequestDuration : collector;
}.
Definition collectors : Metrics := {|
  notificationsCreatedTotal := mkCollector CounterVec "notifications_created_total"
    "Total notifications accepted by the API, by channel and priority." ["channel"; "priority"];
  notificationsDeliveredTot := mkCollector CounterVec "notifications_delivered_total"
    "Total notifications successfully delivered by the worker, by channel." ["channel"];
  notificationsFailedTotal := mkCollector CounterVec "notifications_failed_total"
    "Total notifications that reached the failed terminal state." ["channel"; "reason"];
  notificationsAttemptsTot := mkCollector CounterVec "notifications_attempts_total"
    "Total provider call attempts by channel and outcome (success/transient/permanent)." ["channel"; "outcome"];
  httpRequestsTotal := mkCollector CounterVec "http_requests_total"
    "Total HTTP requests by method, path, and status code." ["method"; "path"; "status"];
  inboundRateLimitHitsTotal := mkCollector CounterVec "inbound_rate_limit_hits_total"
    "Total inbound requests rejected by the per-IP rate limiter." ["endpoint"];
  outboundRateLimitHitsTot := mkCollector CounterVec "outbound_rate_limit_hits_total"
    "Total worker attempts deferred by the per-channel outbound rate limiter." ["channel"];
  notificationsQueueDepth := mkCollector GaugeVec "notifications_queue_depth"
    "Current depth of each asynq priority queue, sampled periodically." ["queue"];
  circuitBreakerState := mkCollector GaugeVec "notifications_circuit_breaker_state"
    "Current state of each provider circuit breaker (0=closed, 1=open, 2=half-open)." ["provider"];
  notificationsWSClients := mkCollector Gauge "notifications_websocket_clients"
    "Number of clients currently connected to the WebSocket fan-out hub." [];
  notificationsProcessing := mkCollector (HistogramVec processingBuckets) "notifications_processing_duration_seconds"
    "Wall time spent processing a notification, from atomic claim to terminal status." ["channel"];
  httpRequestDuration := mkCollector (HistogramVec httpBuckets) "http_request_duration_seconds"
    "Wall time spent serving an HTTP request, by method and path." ["method"; "path"];
|}.
Definition collector_list (m : Metrics) : list collector :=
  [notificationsCreatedTotal m; notificationsDeliveredTot m; notificationsFailedTotal m;
   notificationsAttemptsTot m; httpRequestsTotal m; inboundRateLimitHitsTotal m; outboundRateLimitHitsTot m;
   notificationsQueueDepth m; circuitBreakerState m; notificationsWSClients m; notificationsProcessing m;
   httpRequestDuration m].

Section verbs.
Context {S : Type} `{Prometheus S}.

Definition New (reg : S) : option (Metrics * S) :=
  match MustRegister (collector_list collectors) reg with
  | Some reg => Some (collectors, reg)
  | None => None
  end.

Variable m : Metrics.
(** [d.Seconds()] *)
Definition Seconds (d : Duration) : spec_float :=
  SFadd prec emax (float_of_Z (Z.quot d Second)) (float_div (float_of_Z (Z.rem d Second)) (float_of_Z 1000000000)).
Definition state_value (s : CircuitBreakerState) : Z :=
  match s with CircuitClosed => 0 | CircuitOpen => 1 | CircuitHalfOpen => 2 end.

Definition Metrics_NotificationCreated (channel priority : string) : S → option S :=
  WithLabelValues (notificationsCreatedTotal m) [channel; priority] Inc.
Definition Metrics_NotificationDelivered (channel : string) : S → option S :=
  WithLabelValues (notificationsDeliveredTot m) [channel] Inc.
Definition Metrics_NotificationFailed (channel reason : string) : S → option S :=
  WithLabelValues (notificationsFailedTotal m) [channel; reason] Inc.
Definition Metrics_NotificationAttempt (channel outcome : string) : S → option S :=
  WithLabelValues (notificationsAttemptsTot m) [channel; outcome] Inc.
Definition Metrics_HTTPRequest (method path status : string) : S → option S :=
  WithLabelValues (httpRequestsTotal m) [method; path; status] Inc.
Definition Metrics_InboundRateLimitHit (endpoint : string) : S → option S :=
  WithLabelValues (inboundRateLimitHitsTotal m) [endpoint] Inc.
Definition Metrics_OutboundRateLimitHit (channel : string) : S → option S :=
  WithLabelValues (outboundRateLimitHitsTot m) [channel] Inc.
Definition Metrics_SetQueueDepth (queue : string) (depth : Z) : S → option S :=
  WithLabelValues (notificationsQueueDepth m) [queue] (SetTo (float_of_Z depth)).
Definition Metrics_SetCircuitBreakerState (provider : string) (state : CircuitBreakerState) : S → option S :=
  WithLabelValues (circuitBreakerState m) [provider] (SetTo (float_of_Z (state_value state))).
Definition Metrics_SetWebSocketClients (count : Z) : S → option S :=
  WithLabelValues (notificationsWSClients m) [] (SetTo (float_of_Z count)).
Definition Metrics_ObserveProcessing (channel : string) (d : Duration) : S → option S :=
  WithLabelValues (notificationsProcessing m) [channel] (Observe (Seconds d)).
Definition Metrics_ObserveHTTPRequest (method path : string) (d : Duration) : S → option S :=
  WithLabelValues (httpRequestDuration m) [method; path] (Observe (Seconds d)).
End verbs.

(** ** What the processes report

    The recorder is called by the use cases and the HTTP middlewares, by the
    sampler of the queue depths, by the circuit breaker and by the hub. *)
#[export] Instance error_eq_dec : EqDecision error.
Proof.
  unfold EqDecision. fix IH 1. intros x y.
  destruct x as [s|c e|f r o|f t| | |m|v]; destruct y as [s'|c' e'|f' r' o'|f' t'| | |m'|v'];
    try (right; discriminate); try (by left).
  - destruct (decide (s = s')); [left|right]; congruence.
  - destruct (decide (c = c')), (IH e e'); [left|right..]; congruence.
  - destruct (decide (f = f')), (decide (r = r')), o as [u|], o' as [u'|]; try (right; congruence);
      [destruct (IH u u'); [left|right]; congruence|left; congruence].
  - destruct (decide (f = f')), (decide (t = t')); [left|right..]; congruence.
  - destruct (decide (m = m')); [left|right]; congruence.
  - destruct (decide (v = v')); [left|right]; congruence.
Defined.
#[export] Instance observation_eq_dec : EqDecision observation.
Proof. solve_decision. Defined.
#[export] Instance http_event_eq_dec : EqDecision event.
Proof. solve_decision. Defined.
#[export] Instance circuit_state_eq_dec : EqDecision CircuitBreakerState.
Proof. solve_decision. Defined.
Inductive signal :=
| App (o : observation)
| Web (e : event)
| QueueDepth (queue : string) (depth : Z)
| Breaker (provider : string) (state : CircuitBreakerState)
| Clients (count : Z).
#[export] Instance signal_eq_dec : EqDecision signal.
Proof. solve_decision. Defined.

Definition record {S} `{Prometheus S} (m : Metrics) (x : signal) : S → option S :=
  match x with
  | App (NotificationCreated channel priority) => Metrics_NotificationCreated m channel priority
  | App (NotificationDelivered channel) => Metrics_NotificationDelivered m channel
  | App (NotificationFailed channel reason) => Metrics_NotificationFailed m channel reason
  | App (NotificationAttempt channel outcome) => Metrics_NotificationAttempt m channel outcome
  | App (ObserveProcessing channel d) => Metrics_ObserveProcessing m channel d
  | App (OutboundRateLimitHit channel) => Metrics_OutboundRateLimitHit m channel
  | Web (InboundRateLimitHit endpoint) => Metrics_InboundRateLimitHit m endpoint
  | Web (HTTPRequest method pattern status) => Metrics_HTTPRequest m method pattern status
  | Web (ObserveHTTPRequest method pattern d) => Metrics_ObserveHTTPRequest m method pattern d
  | QueueDepth queue depth => Metrics_SetQueueDepth m queue depth
  | Breaker provider state => Metrics_SetCircuitBreakerState m provider state
  | Clients count => Metrics_SetWebSocketClients m count
  | App _ | Web _ => Some
  end.
Definition record_all {S} `{Prometheus S} (m : Metrics) (l : list signal) (s : S) : option S :=
  foldl (λ x e, x ≫= record m e) (Some s) l.

(** The series a signal updates, and how. *)
Definition effect (m : Metrics) (x : signal) : option (collector * list string * update) :=
  match x with
  | App (NotificationCreated channel priority) => Some (notificationsCreatedTotal m, [channel; priority], Inc)
  | App (NotificationDelivered channel) => Some (notificationsDeliveredTot m, [channel], Inc)
  | App (NotificationFailed channel reason) => Some (notificationsFailedTotal m, [channel; reason], Inc)
  | App (NotificationAttempt channel outcome) => Some (notificationsAttemptsTot m, [channel; outcome], Inc)
  | App (ObserveProcessing channel d) => Some (notificationsProcessing m, [channel], Observe (Seconds d))
  | App (OutboundRateLimitHit channel) => Some (outboundRateLimitHitsTot m, [channel], Inc)
  | Web (InboundRateLimitHit endpoint) => Some (inboundRateLimitHitsTotal m, [endpoint], Inc)
  | Web (HTTPRequest method pattern status) => Some (httpRequestsTotal m, [method; pattern; status], Inc)
  | Web (ObserveHTTPRequest method pattern d) => Some (httpRequestDuration m, [method; pattern], Observe (Seconds d))
  | QueueDepth queue depth => Some (notificationsQueueDepth m, [queue], SetTo (float_of_Z depth))
  | Breaker provider state => Some (circuitBreakerState m, [provider], SetTo (float_of_Z (state_value state)))
  | Clients count => Some (notificationsWSClients m, [], SetTo (float_of_Z count))
  | App _ | Web _ => None
  end.
Lemma record_effect {S} `{Prometheus S} m x (s : S) :
  record m x s = match effect m x with Some (c, vs, u) => WithLabelValues c vs u s | None => Some s end.
Proof. by destruct x as [[]|[]| | |]. Qed.

Ltac in_list := unfold collector_list; repeat first [apply list_elem_of_here | apply list_elem_of_further].
(** Every verb method passes as many values as its family has labels, of the
    right kind, to a family [New] registers. *)
Lemma effect_typed x c vs u : effect collectors x = Some (c, vs, u) →
  c ∈ collector_list collectors ∧ length vs = length (c_labels c) ∧ admits (c_kind c) u = true.
Proof.
  destruct x as [[]|[]| | |]; intros [= <- <- <-]; (split; [in_list|done]).
Qed.
Lemma names_distinct : NoDup (c_Name <$> collector_list collectors).
Proof. apply (bool_decide_unpack _). by vm_compute. Qed.

Lemma same_name c c' : c ∈ collector_list collectors → c' ∈ collector_list collectors →
  c_Name c = c_Name c' → c = c'.
Proof.
  intros [i Hi]%list_elem_of_lookup [j Hj]%list_elem_of_lookup En.
  assert (i = j) as <-; [|congruence].
  eapply (NoDup_lookup _ _ _ (c_Name c) names_distinct); rewrite list_lookup_fmap.
  - by rewrite Hi.
  - by rewrite Hj, En.
Qed.

Definition plain_labels (x : signal) : Prop :=
  ∀ c vs u, effect collectors x = Some (c, vs, u) → Forall valid_utf8 vs.
(** The updates of one series, in order. *)
Definition updates_of (c : collector) (vs : list string) (l : list signal) : list update :=
  omap (λ x, match effect collectors x with
             | Some (c', vs', u) => if bool_decide (c_Name c' = c_Name c ∧ vs' = vs) then Some u else None
             | None => None
             end) l.
Definition replayed (c : collector) (vs : list string) (l : list signal) : option sample :=
  foldl (λ x u, updated_sample (c_kind c) u x)
    (if bool_decide (vs = []) then initial_sample (c_kind c) else None) (updates_of c vs l).

(** ** The registry after a run *)
Section scrape.
Context {S : Type} `{PrometheusLaws S}.
Implicit Types s reg : S.

Lemma New_registers reg : NoDup (c_Name <$> collector_list collectors ++ registered reg) →
  ∃ s, New reg = Some (collectors, s) ∧ registered s = collector_list collectors ++ registered reg ∧
    ∀ c vs, c ∈ collector_list collectors → Gather (c_Name c) vs s = replayed c vs [].
Proof.
  intros (s & Hs & Hr & _ & Hg)%register_law. exists s. unfold New. by rewrite Hs.
Qed.

(** One signal: its own series moves by one update, every other stays. *)
Lemma record_one x s l : (∀ c, c ∈ collector_list collectors → c ∈ registered s) →
  (∀ c vs, c ∈ collector_list collectors → Gather (c_Name c) vs s = replayed c vs l) →
  plain_labels x → ∃ s', record collectors x s = Some s' ∧ registered s' = registered s ∧
    ∀ c vs, c ∈ collector_list collectors → Gather (c_Name c) vs s' = replayed c vs (l ++ [x]).
Proof.
  intros Hreg Hl Hx. rewrite record_effect. unfold plain_labels in Hx.
  assert (∀ c vs, replayed c vs (l ++ [x]) = foldl (λ x u, updated_sample (c_kind c) u x) (replayed c vs l)
    (updates_of c vs [x])) as Hsnoc.
  { intros c vs. unfold replayed, updates_of. by rewrite omap_app, foldl_app. }
  setoid_rewrite Hsnoc. unfold updates_of. cbn [omap list_omap].
  destruct (effect collectors x) as [[[c0 vs0] u]|] eqn:E; [|by exists s].
  destruct (effect_typed _ _ _ _ E) as (Hc0 & Hlen & Hu).
  destruct (update_law c0 vs0 u s) as (s' & Hs' & Hr' & Hg'); [by apply Hreg| |done|].
  { split; [done|]. by apply (Hx c0 vs0 u). }
  exists s'. split_and!; [done..|]. intros c vs Hc. rewrite Hg', <-(Hl c vs Hc).
  destruct (decide (c_Name c0 = c_Name c ∧ vs0 = vs)) as [[En ->]|Hne].
  - rewrite !bool_decide_true by by split. simpl. by rewrite (same_name c0 c).
  - rewrite !bool_decide_false by naive_solver. done.
Qed.
Lemma record_all_replayed reg l : NoDup (c_Name <$> collector_list collectors ++ registered reg) →
  Forall plain_labels l → ∃ s0 s, New reg = Some (collectors, s0) ∧ record_all collectors l s0 = Some s ∧
    (∀ c, c ∈ collector_list collectors → c ∈ registered s) ∧
    ∀ c vs, c ∈ collector_list collectors → Gather (c_Name c) vs s = replayed c vs l.
Proof.
  intros Hn Hl. destruct (New_registers reg Hn) as (s0 & Hs & Hr & Hg). exists s0.
  cut (∃ s, record_all collectors l s0 = Some s ∧ (∀ c, c ∈ collector_list collectors → c ∈ registered s) ∧
    ∀ c vs, c ∈ collector_list collectors → Gather (c_Name c) vs s = replayed c vs l); [naive_solver|].
  induction l as [|x l IH] using rev_ind; [exists s0|].
  { split; [done|]. split; [|done]. intros c Hc. rewrite Hr. apply elem_of_app. by left. }
  apply Forall_app in Hl as [Hl Hx]. inversion_clear Hx as [|? ? Hx1 _]. destruct (IH Hl) as (s & Hrec & Hreg & Hall).
  destruct (record_one x s l Hreg Hall Hx1) as (s' & Hx' & Hr' & Hg'). exists s'.
  unfold record_all in *. rewrite foldl_app, Hrec. simpl. split; [done|].
  split; [|done]. intros c Hc. rewrite Hr'. by apply Hreg.
Qed.

End scrape.

(** ** Reading a replay *)
Definition occurrences (x : signal) (l : list signal) : Z :=
  Z.of_nat (length (filter (λ y, y = x) l)).
(** The only signal that updates a series. *)
Definition updates_only (x : signal) (c : collector) (vs : list string) : Prop := ∀ y,
  match effect collectors y with
  | Some (c', vs', u) => (c_Name c' = c_Name c ∧ vs' = vs) ↔ y = x
  | None => y ≠ x
  end.
Definition counter_value (x : option sample) : Z := match x with Some (CounterIs n) => n | _ => 0 end.

Lemma updates_of_app c vs l l' : updates_of c vs (l ++ l') = updates_of c vs l ++ updates_of c vs l'.
Proof. apply omap_app. Qed.
Lemma replayed_snoc c vs l x : replayed c vs (l ++ [x]) =
  foldl (λ x u, updated_sample (c_kind c) u x) (replayed c vs l) (updates_of c vs [x]).
Proof. unfold replayed. by rewrite updates_of_app, foldl_app. Qed.
Lemma counter_counts x c vs l : c_kind c = CounterVec → updates_only x c vs →
  effect collectors x = Some (c, vs, Inc) →
  counter_value (replayed c vs l) = occurrences x l.
Proof.
  intros Hk Hx Hx0. unfold occurrences. induction l as [|y l IH] using rev_ind.
  { unfold replayed. simpl. rewrite Hk. by destruct (bool_decide _). }
  rewrite replayed_snoc, filter_app, length_app, Nat2Z.inj_add, <-IH.
  unfold updates_of. cbn [omap list_omap]. rewrite filter_cons, filter_nil. specialize (Hx y).
  destruct (decide (y = x)) as [->|Hne].
  - rewrite Hx0, bool_decide_true by done. cbn [foldl]. rewrite Hk. simpl. unfold counter_value. lia.
  - destruct (effect collectors y) as [[[c' vs'] u]|]; [rewrite bool_decide_false by naive_solver|];
      simpl; lia.
Qed.
(** The series of collector [c] shows how often [x] was reported. *)
Lemma shows_count {S : Type} `{Prometheus S} s l x c vs :
  Gather (c_Name c) vs s = replayed c vs l → c_kind c = CounterVec → updates_only x c vs →
  effect collectors x = Some (c, vs, Inc) →
  counter_value (Gather (c_Name c) vs s) = occurrences x l.
Proof. intros ->. apply counter_counts. Qed.
Ltac only_update := intros [[]|[]| | |]; cbn [effect]; try done;
  (split; [intros [Hname Hv]; first [discriminate Hname | by injection Hv as -> | by injection Hv as -> -> | by injection Hv as -> -> ->]
          | intros Hy; first [discriminate Hy | by injection Hy as -> | by injection Hy as -> -> | by injection Hy as -> -> ->]]).

(** C17. The registry tells what happened: when no other collector has one of
    their names, [New] registers the twelve families, no report whose labels
    are UTF-8 panics, and after any sequence of reports every counter shows
    exactly the number of times its event was reported with its labels, and
    every gauge and histogram the replay of its own series. *)
Theorem registry_counts_reports {S : Type} `{PrometheusLaws S} (reg : S) l :
  NoDup (c_Name <$> collector_list collectors ++ registered reg) → Forall plain_labels l →
  ∃ s0 s, New reg = Some (collectors, s0) ∧ record_all collectors l s0 = Some s ∧
    (let shows n vs x := counter_value (Gather n vs s) = occurrences x l in
     (∀ ch pr, shows "notifications_created_total" [ch; pr] (App (NotificationCreated ch pr))) ∧
     (∀ ch, shows "notifications_delivered_total" [ch] (App (NotificationDelivered ch))) ∧
     (∀ ch reason, shows "notifications_failed_total" [ch; reason] (App (NotificationFailed ch reason))) ∧
     (∀ ch out, shows "notifications_attempts_total" [ch; out] (App (NotificationAttempt ch out))) ∧
     (∀ ch, shows "outbound_rate_limit_hits_total" [ch] (App (OutboundRateLimitHit ch))) ∧
     (∀ path, shows "inbound_rate_limit_hits_total" [path] (Web (InboundRateLimitHit path))) ∧
     (∀ m p st, shows "http_requests_total" [m; p; st] (Web (HTTPRequest m p st)))) ∧
    ∀ c vs, c ∈ collector_list collectors → Gather (c_Name c) vs s = replayed c vs l.
Proof.
  intros Hn Hl. destruct (record_all_replayed reg l Hn Hl) as (s0 & s & Hs0 & Hs & _ & Hg).
  exists s0, s. split; [done|]. split; [done|]. split; [|done]. split_and!; intros.
  - apply (shows_count _ _ _ (notificationsCreatedTotal collectors)); [apply Hg; in_list|done|only_update|done].
  - apply (shows_count _ _ _ (notificationsDeliveredTot collectors)); [apply Hg; in_list|done|only_update|done].
  - apply (shows_count _ _ _ (notificationsFailedTotal collectors)); [apply Hg; in_list|done|only_update|done].
  - apply (shows_count _ _ _ (notificationsAttemptsTot collectors)); [apply Hg; in_list|done|only_update|done].
  - apply (shows_count _ _ _ (outboundRateLimitHitsTot collectors)); [apply Hg; in_list|done|only_update|done].
  - apply (shows_count _ _ _ (inboundRateLimitHitsTotal collectors)); [apply Hg; in_list|done|only_update|done].
  - apply (shows_count _ _ _ (httpRequestsTotal collectors)); [apply Hg; in_list|done|only_update|done].
Qed.

(** The inbound limiter labels its hits with the path of the request, which
    may decode to bytes that are not UTF-8: the recorder then panics. *)
Lemma unreadable_path_panics {S : Type} `{PrometheusLaws S} (s : S) :
  Metrics_InboundRateLimitHit collectors (of_bytes ["/"%char; byte 255]) s = None.
Proof.
  apply panic_law. intros [_ Hv%Forall_singleton]. revert Hv. apply (bool_decide_unpack _). by vm_compute.
Qed.
