(* ===== verification/ApiTypes.v ===== *)
(** The wire types of internal/adapters/http/api/api.gen.go (generated from
    openapi.yaml) with their JSON forms: request bodies are decoded, responses
    encoded as encoding/json does for the generated structs.

    A time is an instant, so its text is given in UTC; a JSON number held in an
    [any] is kept as its literal. *)

From S2P Require Import Prelude GoStrings Strconv RFC3339 Uuid Errors ValueObjects Notification Json.
From S2P Require Import Template Ports Http.

(** [uuid.Parse] of github.com/google/uuid; [UUID.String] is the canonical text. *)
Class GoogleUUID := uuid_Parse : string → res uuid.
Class GoogleUUIDLaws `{GoogleUUID} : Prop := {
  uuid_Parse_String : ∀ u, uuid_Parse (uuid_text u) = Ok u;
  uuid_Parse_foreign : ∀ s e, uuid_Parse s = Err e → foreign e;
}.
(** [time.Parse] on what the direct RFC 3339 path does not accept. *)
Class TimeParse := time_Parse : string → res Time.

(** ** Encoding *)
Definition json_field (name : string) (v : res json) : res (list (string * json)) :=
  v ← v; Ok [(name, v)].
Definition json_string (name s : string) : res (list (string * json)) := Ok [(name, JStr s)].
Definition json_int (name : string) (z : Z) : res (list (string * json)) := Ok [(name, JNum (FormatInt z))].
(** [omitempty] of a pointer. *)
Definition json_opt {A} (f : string → A → res (list (string * json))) (name : string) (o : option A) :
    res (list (string * json)) :=
  match o with Some a => f name a | None => Ok [] end.
Definition json_object (fields : list (res (list (string * json)))) : res json :=
  ms ← mapM id fields; Ok (JObj (concat ms)).

(** [Time.MarshalJSON] *)
Definition time_json (t : Time) : res json :=
  if bool_decide (0 ≤ year_of_day (t / Second / 86400 + epoch_day) ≤ 9999)
  then Ok (JStr (FormatRFC3339Nano t))
  else Err (Opaque "Time.MarshalJSON: year outside of range [0,9999]").
Definition json_time (name : string) (t : Time) : res (list (string * json)) := json_field name (time_json t).
Definition json_uuid (name : string) (u : uuid) : res (list (string * json)) := json_string name (uuid_text u).

(** Maps are written in the order of their keys. *)
Definition key_le {A} (x y : string * A) : Prop := String.leb x.1 y.1 = true.
#[export] Instance key_le_dec {A} (x y : string * A) : Decision (key_le x y).
Proof. unfold key_le. apply _. Defined.
Definition sort_members {A} (l : list (string * A)) : list (string * A) := merge_sort key_le l.
Fixpoint any_json (v : any) : json :=
  match v with
  | ANil => JNull
  | ABool b => JBool b
  | ANumber lit => JNum lit
  | AString s => JStr s
  | AList l => JArr (map any_json l)
  | AMap l => JObj (sort_members (map (λ '(k, v), (k, any_json v)) l))
  end.
Definition json_map (name : string) (m : gmap string any) : res (list (string * json)) :=
  Ok [(name, JObj (sort_members (map (λ '(k, v), (k, any_json v)) (map_to_list m))))].

(** ** Response types *)
Record ANotification := mkANotification {
  an_Attempts : Z; an_BatchId : option uuid; an_CancelledAt : option Time; an_Channel : string;
  an_Content : string; an_CorrelationId : option string; an_CreatedAt : Time;
  an_DeliveredAt : option Time; an_FailedAt : option Time; an_FailureReason : option string;
  an_Id : uuid; an_IdempotencyKey : option string; an_LastAttemptedAt : option Time;
  an_MaxAttempts : Z; an_Metadata : option (gmap string any); an_NextRetryAt : option Time;
  an_Priority : string; an_Recipient : string; an_ScheduledAt : option Time; an_Status : string;
  an_TemplateId : option uuid; an_UpdatedAt : Time }.
Definition ANotification_json (n : ANotification) : res json := json_object [
  json_int "attempts" (an_Attempts n); json_opt json_uuid "batch_id" (an_BatchId n);
  json_opt json_time "cancelled_at" (an_CancelledAt n); json_string "channel" (an_Channel n);
  json_string "content" (an_Content n); json_opt json_string "correlation_id" (an_CorrelationId n);
  json_time "created_at" (an_CreatedAt n); json_opt json_time "delivered_at" (an_DeliveredAt n);
  json_opt json_time "failed_at" (an_FailedAt n); json_opt json_string "failure_reason" (an_FailureReason n);
  json_uuid "id" (an_Id n); json_opt json_string "idempotency_key" (an_IdempotencyKey n);
  json_opt json_time "last_attempted_at" (an_LastAttemptedAt n); json_int "max_attempts" (an_MaxAttempts n);
  json_opt json_map "metadata" (an_Metadata n); json_opt json_time "next_retry_at" (an_NextRetryAt n);
  json_string "priority" (an_Priority n); json_string "recipient" (an_Recipient n);
  json_opt json_time "scheduled_at" (an_ScheduledAt n); json_string "status" (an_Status n);
  json_opt json_uuid "template_id" (an_TemplateId n); json_time "updated_at" (an_UpdatedAt n)].
Definition json_list {A} (f : A → res json) (name : string) (l : list A) : res (list (string * json)) :=
  vs ← mapM f l; Ok [(name, JArr vs)].

Record ABatch := mkABatch {
  ab_CorrelationId : option string; ab_CreatedAt : Time; ab_Id : uuid; ab_Metadata : option (gmap string any);
  ab_Notifications : option (list ANotification); ab_Size : Z }.
Definition ABatch_json (b : ABatch) : res json := json_object [
  json_opt json_string "correlation_id" (ab_CorrelationId b); json_time "created_at" (ab_CreatedAt b);
  json_uuid "id" (ab_Id b); json_opt json_map "metadata" (ab_Metadata b);
  json_opt (json_list ANotification_json) "notifications" (ab_Notifications b);
  json_int "size" (ab_Size b)].

Record APage (A : Type) := mkAPage { ap_Items : list A; ap_NextCursor : option string; ap_PrevCursor : option string }.
Arguments mkAPage {A}.
Arguments ap_Items {A}.
Arguments ap_NextCursor {A}.
Arguments ap_PrevCursor {A}.
Definition APage_json {A} (f : A → res json) (p : APage A) : res json := json_object [
  json_list f "items" (ap_Items p); json_opt json_string "next_cursor" (ap_NextCursor p);
  json_opt json_string "prev_cursor" (ap_PrevCursor p)].

Record ATraceEntry := mkATraceEntry {
  ae_CorrelationId : option string; ae_CreatedAt : Time; ae_Details : option (gmap string any);
  ae_Event : string; ae_Id : uuid }.
Definition ATraceEntry_json (e : ATraceEntry) : res json := json_object [
  json_opt json_string "correlation_id" (ae_CorrelationId e); json_time "created_at" (ae_CreatedAt e);
  json_opt json_map "details" (ae_Details e); json_string "event" (ae_Event e); json_uuid "id" (ae_Id e)].
Record ATrace := mkATrace { at_Entries : list ATraceEntry; at_NotificationId : uuid }.
Definition ATrace_json (t : ATrace) : res json := json_object [
  json_list ATraceEntry_json "entries" (at_Entries t); json_uuid "notification_id" (at_NotificationId t)].

Record ATemplate := mkATemplate {
  atm_Body : string; atm_Channel : string; atm_CreatedAt : Time; atm_Id : uuid; atm_Name : string;
  atm_UpdatedAt : Time; atm_Variables : option (list string) }.
Definition ATemplate_json (t : ATemplate) : res json := json_object [
  json_string "body" (atm_Body t); json_string "channel" (atm_Channel t); json_time "created_at" (atm_CreatedAt t);
  json_uuid "id" (atm_Id t); json_string "name" (atm_Name t); json_time "updated_at" (atm_UpdatedAt t);
  json_opt (json_list (λ s, Ok (JStr s))) "variables" (atm_Variables t)].

Record AProblem := mkAProblem {
  apb_CorrelationId : option string; apb_Detail : option string; apb_Instance : option string;
  apb_Status : Z; apb_Title : string; apb_Type : option string }.
Definition AProblem_json (p : AProblem) : res json := json_object [
  json_opt json_string "correlation_id" (apb_CorrelationId p); json_opt json_string "detail" (apb_Detail p);
  json_opt json_string "instance" (apb_Instance p); json_int "status" (apb_Status p);
  json_string "title" (apb_Title p); json_opt json_string "type" (apb_Type p)].

(** ** Decoding

    A decoded value with the first type error saved ([d.saveError]), or the
    error of a field's own unmarshaler, which ends the decoding. *)
Inductive decoded (A : Type) := Stored (saved : option error) (a : A) | Aborted (e : error).
Arguments Stored {A}.
Arguments Aborted {A}.
Definition store {A B} (f : A → B) (d : decoded A) : decoded B :=
  match d with Stored e a => Stored e (f a) | Aborted e => Aborted e end.
Definition plain_store {A} (p : option error * A) : decoded A := Stored p.1 p.2.
Definition type_error {A} (a : A) : decoded A := Stored (Some JSONUnmarshalTypeError) a.

Fixpoint decode_members {S} (names : list string) (set : string → json → S → decoded S)
    (ms : list (string * json)) (s : S) : decoded S :=
  match ms with
  | [] => Stored None s
  | (k, v) :: ms =>
      match lookup_field names k with
      | None => decode_members names set ms s
      | Some n =>
          match set n v s with
          | Aborted e => Aborted e
          | Stored e s =>
              match decode_members names set ms s with
              | Aborted e => Aborted e
              | Stored e' s => Stored (save e e') s
              end
          end
      end
  end.
Definition decode_struct {S} (names : list string) (set : string → json → S → decoded S) (v : json) (s : S) :
    decoded S :=
  match v with
  | JNull => Stored None s
  | JObj ms => decode_members names set ms s
  | _ => type_error s
  end.

(** Pointer fields: [null] makes them nil. *)
Definition decode_opt {A} (f : json → decoded A) (v : json) : decoded (option A) :=
  match v with JNull => Stored None None | _ => store Some (f v) end.
Definition decode_str (v : json) : decoded string :=
  match v with JStr s => Stored None s | _ => type_error "" end.
Definition decode_int (v : json) : decoded Z :=
  match v with
  | JNum lit => match Atoi lit with Some z => Stored None z | None => type_error 0 end
  | _ => type_error 0
  end.
(** [Time.UnmarshalJSON] of a string without escapes. *)
Definition decode_time `{TimeParse} (v : json) : decoded Time :=
  match v with
  | JStr s => match parseRFC3339 (bytes s) with
              | Some t => Stored None t
              | None => match time_Parse s with Ok t => Stored None t | Err e => Aborted e end
              end
  | _ => Aborted (Opaque "Time.UnmarshalJSON: input is not a JSON string")
  end.
(** [UUID.UnmarshalText] *)
Definition decode_uuid `{GoogleUUID} (v : json) : decoded uuid :=
  match v with
  | JStr s => match uuid_Parse s with Ok u => Stored None u | Err e => Aborted e end
  | _ => type_error (uuid_of_N 0)
  end.
Fixpoint any_of_json (v : json) : any :=
  match v with
  | JNull => ANil
  | JBool b => ABool b
  | JNum lit => ANumber lit
  | JStr s => AString s
  | JArr l => AList (map any_of_json l)
  | JObj ms => AMap (map_to_list (list_to_map (M := gmap string any)
                       (reverse (map (λ '(k, v), (k, any_of_json v)) ms))))
  end.
(** A map is filled on top of what it holds. *)
Definition decode_map (old : option (gmap string any)) (v : json) : decoded (option (gmap string any)) :=
  match v with
  | JNull => Stored None None
  | JObj ms => Stored None (Some (foldl (λ m '(k, v), <[k := any_of_json v]> m) (default ∅ old) ms))
  | _ => type_error (Some (default ∅ old))
  end.

(** ** Request bodies *)
Record CreateNotificationRequest := mkCreateNotificationRequest {
  cr_Channel : string; cr_Content : string; cr_MaxAttempts : option Z;
  cr_Metadata : option (gmap string any); cr_Priority : option string; cr_Recipient : string;
  cr_ScheduledAt : option Time; cr_TemplateId : option uuid;
  cr_TemplateVariables : option (gmap string any) }.
Definition zero_create : CreateNotificationRequest :=
  mkCreateNotificationRequest "" "" None None None "" None None None.
Definition create_fields : list string :=
  ["channel"; "content"; "max_attempts"; "metadata"; "priority"; "recipient"; "scheduled_at";
   "template_id"; "template_variables"].
Definition create_set `{GoogleUUID, TimeParse} (n : string) (v : json) (r : CreateNotificationRequest) :
    decoded CreateNotificationRequest :=
  let '(mkCreateNotificationRequest ch ct ma md pr rc sc ti tv) := r in
  if decide (n = "channel") then
    store (λ x, mkCreateNotificationRequest x ct ma md pr rc sc ti tv) (plain_store (decode_string v ch))
  else if decide (n = "content") then
    store (λ x, mkCreateNotificationRequest ch x ma md pr rc sc ti tv) (plain_store (decode_string v ct))
  else if decide (n = "max_attempts") then
    store (λ x, mkCreateNotificationRequest ch ct x md pr rc sc ti tv) (decode_opt decode_int v)
  else if decide (n = "metadata") then
    store (λ x, mkCreateNotificationRequest ch ct ma x pr rc sc ti tv) (decode_map md v)
  else if decide (n = "priority") then
    store (λ x, mkCreateNotificationRequest ch ct ma md x rc sc ti tv) (decode_opt decode_str v)
  else if decide (n = "recipient") then
    store (λ x, mkCreateNotificationRequest ch ct ma md pr x sc ti tv) (plain_store (decode_string v rc))
  else if decide (n = "scheduled_at") then
    store (λ x, mkCreateNotificationRequest ch ct ma md pr rc x ti tv) (decode_opt decode_time v)
  else if decide (n = "template_id") then
    store (λ x, mkCreateNotificationRequest ch ct ma md pr rc sc x tv) (decode_opt decode_uuid v)
  else
    store (λ x, mkCreateNotificationRequest ch ct ma md pr rc sc ti x) (decode_map tv v).
Definition decode_create `{GoogleUUID, TimeParse} : json → CreateNotificationRequest → decoded CreateNotificationRequest :=
  decode_struct create_fields create_set.

(** [cbr_Notifications] is the slice, [cbr_spare] what its array holds beyond:
    decoding a second array into the slice starts from the elements there. *)
Record CreateBatchRequest := mkCreateBatchRequest {
  cbr_Metadata : option (gmap string any);
  cbr_Notifications : list CreateNotificationRequest; cbr_spare : list CreateNotificationRequest }.
Fixpoint decode_items `{GoogleUUID, TimeParse} (vs : list json) (old : list CreateNotificationRequest) :
    decoded (list CreateNotificationRequest * list CreateNotificationRequest) :=
  match vs with
  | [] => Stored None ([], old)
  | v :: vs =>
      match decode_create v (default zero_create (head old)) with
      | Aborted e => Aborted e
      | Stored e x => match decode_items vs (tail old) with
                      | Aborted e => Aborted e
                      | Stored e' (xs, rest) => Stored (save e e') (x :: xs, rest)
                      end
      end
  end.
Definition batch_set `{GoogleUUID, TimeParse} (n : string) (v : json) (r : CreateBatchRequest) :
    decoded CreateBatchRequest :=
  let '(mkCreateBatchRequest md ns sp) := r in
  if decide (n = "metadata") then store (λ x, mkCreateBatchRequest x ns sp) (decode_map md v)
  else match v with
       | JNull | JArr [] => Stored None (mkCreateBatchRequest md [] [])
       | JArr vs => store (λ p, mkCreateBatchRequest md p.1 p.2) (decode_items vs (ns ++ sp))
       | _ => type_error r
       end.
Definition decode_batch `{GoogleUUID, TimeParse} : json → CreateBatchRequest → decoded CreateBatchRequest :=
  decode_struct ["metadata"; "notifications"] batch_set.

Record CreateTemplateRequest := mkCreateTemplateRequest {
  ctr_Body : string; ctr_Channel : string; ctr_Name : string; ctr_Variables : option (list string) }.
(** A [null] element leaves the string of a fresh array empty; the variables
    are not read by any handler, so a second array is decoded like a first. *)
Fixpoint decode_strs (vs : list json) : decoded (list string) :=
  match vs with
  | [] => Stored None []
  | v :: vs => let '(e, s) := decode_string v "" in
               match decode_strs vs with
               | Stored e' ss => Stored (save e e') (s :: ss)
               | Aborted e => Aborted e
               end
  end.
Definition decode_variables (v : json) : decoded (list string) :=
  match v with JArr vs => decode_strs vs | _ => type_error [] end.
Definition template_set (n : string) (v : json) (r : CreateTemplateRequest) : decoded CreateTemplateRequest :=
  let '(mkCreateTemplateRequest b c nm vs) := r in
  if decide (n = "body") then
    store (λ x, mkCreateTemplateRequest x c nm vs) (plain_store (decode_string v b))
  else if decide (n = "channel") then
    store (λ x, mkCreateTemplateRequest b x nm vs) (plain_store (decode_string v c))
  else if decide (n = "name") then
    store (λ x, mkCreateTemplateRequest b c x vs) (plain_store (decode_string v nm))
  else store (λ x, mkCreateTemplateRequest b c nm x) (decode_opt decode_variables v).
Definition decode_template : json → CreateTemplateRequest → decoded CreateTemplateRequest :=
  decode_struct ["body"; "channel"; "name"; "variables"] template_set.

(** [json.NewDecoder(r.Body).Decode(&body)]: the first value of the body.  A
    truncated document is reported as a syntax error (the source treats both
    alike), an empty one as [io.EOF]. *)
Definition Decode {S} (decode : json → S → decoded S) (zero : S) (body : option (string * option error)) : res S :=
  let '(data, err) := default ("", None) body in
  match json_value (Datatypes.S (2 * String.length data)) maxNestingDepth (bytes data) with
  | Some (v, _) =>
      match decode v zero with
      | Stored None s => Ok s
      | Stored (Some e) _ | Aborted e => Err e
      end
  | None =>
      match err with
      | Some e => Err e
      | None => if bool_decide (skip_space (bytes data) = []) then Err (Opaque "EOF") else Err JSONSyntaxError
      end
  end.

(** ** Encoded objects *)
Definition encodes (f : res (list (string * json))) : Prop := ∃ l, f = Ok l.
Lemma mapM_encodes fields : Forall encodes fields →
  ∃ ls, mapM id fields = Ok ls ∧ Forall2 (λ f l, f = Ok l) fields ls.
Proof.
  induction 1 as [|f fields [l ->] _ (ls & IH & Hall)]; [by exists []|].
  exists (l :: ls). split; [|by constructor]. cbn. by rewrite IH.
Qed.
(** An object is encoded when its fields are; their members are its members. *)
Lemma json_object_encodes fields : Forall encodes fields →
  ∃ ms, json_object fields = Ok (JObj ms) ∧ ∀ f m, f ∈ fields → f = Ok [m] → m ∈ ms.
Proof.
  intros (ls & Hm & Hall)%mapM_encodes. exists (concat ls). unfold json_object. rewrite Hm.
  split; [done|]. intros f m Hin Hf. clear Hm.
  induction Hall as [|f' l fields ls Hl Hall IH]; [by apply elem_of_nil in Hin|]. cbn [concat].
  rewrite elem_of_app. apply elem_of_cons in Hin as [->|Hin]; [left|right; by apply IH].
  rewrite Hl in Hf. injection Hf as ->. set_solver.
Qed.
Lemma json_opt_encodes {A} (f : string → A → res (list (string * json))) name o :
  (∀ a, o = Some a → encodes (f name a)) → encodes (json_opt f name o).
Proof. intros H. destruct o as [a|]; [by apply H|by eexists]. Qed.
Lemma json_time_encodes name t : representable t → encodes (json_time name t).
Proof. intros H. unfold json_time, json_field, time_json. rewrite bool_decide_true by done. by eexists. Qed.

(** Find the element in a literal list. *)
Ltac pick_elem :=
  lazymatch goal with
  | |- ?x ∈ ?x :: _ => apply list_elem_of_here
  | |- _ ∈ _ :: _ => apply list_elem_of_further; pick_elem
  | |- _ ∈ ?l => unfold l; pick_elem
  end.

(** The times of a notification can be written. *)
Definition writable (n : ANotification) : Prop :=
  representable (an_CreatedAt n) ∧ representable (an_UpdatedAt n) ∧
  ∀ t, Some t ∈ [an_CancelledAt n; an_DeliveredAt n; an_FailedAt n; an_LastAttemptedAt n;
                 an_NextRetryAt n; an_ScheduledAt n] → representable t.
Lemma ANotification_encodes n : writable n →
  ∃ ms, ANotification_json n = Ok (JObj ms) ∧ ("id", JStr (uuid_text (an_Id n))) ∈ ms ∧
    ("status", JStr (an_Status n)) ∈ ms ∧ ("channel", JStr (an_Channel n)) ∈ ms ∧
    ("recipient", JStr (an_Recipient n)) ∈ ms ∧ ("content", JStr (an_Content n)) ∈ ms.
Proof.
  intros (Hc & Hu & Ho). unfold ANotification_json.
  set (fields := [_; _; _; _; _; _; _; _; _; _; _; _; _; _; _; _; _; _; _; _; _; _]).
  destruct (json_object_encodes fields) as (ms & Hms & Hin).
  - unfold fields. repeat (apply Forall_cons_2; [|]); try apply Forall_nil_2;
      try (by eexists); try (by apply json_time_encodes);
      apply json_opt_encodes; intros a Ha; try (by eexists);
      apply json_time_encodes, Ho; rewrite <-Ha; pick_elem.
  - exists ms. split; [exact Hms|].
    split_and!.
    + apply (Hin (json_uuid "id" (an_Id n))); [pick_elem|done].
    + apply (Hin (json_string "status" (an_Status n))); [pick_elem|done].
    + apply (Hin (json_string "channel" (an_Channel n))); [pick_elem|done].
    + apply (Hin (json_string "recipient" (an_Recipient n))); [pick_elem|done].
    + apply (Hin (json_string "content" (an_Content n))); [pick_elem|done].
Qed.
