(* ===== verification/Handlers.v ===== *)
(** The operations of the HTTP API: mapping between domain and wire types
    (mapping.go and the handlers' own mappers) and the handler methods of
    [Server] (server.go, *_handler.go, *_handlers.go), each over the executor it
    dispatches to. *)

From S2P Require Import Prelude GoStrings Strconv Uuid Errors ValueObjects Notification Batch Template.
From S2P Require Import Json Ports CreateNotification CancelNotification CreateBatch Queries.
From S2P Require Import TemplateUseCases Http ApiTypes.

(** ** mapping.go *)
Definition mapping_defaultMaxAttempts : Z := 5.

(** A pointer to [s] unless it is empty. *)
Definition nonempty (s : string) : option string := if bool_decide (s = "") then None else Some s.

Section mapping.
Context `{GoogleUUID}.

Definition parse_uuid (what s : string) : res uuid :=
  on_error (Wrapped (what +:+ " is not a uuid")%string) (uuid_Parse s).
Definition parse_opt_uuid (what : string) (o : option string) : res (option uuid) :=
  match o with Some s => u ← parse_uuid what s; Ok (Some u) | None => Ok None end.

Definition toAPINotification (n : Notification) : res ANotification :=
  nid ← parse_uuid "notification id" (ID n);
  bid ← parse_opt_uuid "batch id" (NBatchID n);
  tid ← parse_opt_uuid "template id" (NTemplateID n);
  Ok {| an_Id := nid; an_Channel := NChannel n; an_Priority := NPriority n; an_Status := NStatus n;
        an_Recipient := Recipient n; an_Content := Content n; an_Attempts := Attempts n;
        an_MaxAttempts := mapping_defaultMaxAttempts; an_CreatedAt := CreatedAt n; an_UpdatedAt := UpdatedAt n;
        an_CorrelationId := nonempty (CorrelationID n); an_BatchId := bid; an_TemplateId := tid;
        an_IdempotencyKey := nonempty (IdempotencyKey n); an_ScheduledAt := ScheduledAt n;
        an_NextRetryAt := NextRetryAt n; an_FailureReason := nonempty (LastError n);
        an_CancelledAt := None; an_DeliveredAt := None; an_FailedAt := None;
        an_LastAttemptedAt := None; an_Metadata := None |}.

Definition toAPIBatch (b : Batch) (withNotifications : bool) : res ABatch :=
  bid ← parse_uuid "batch id" (batch_ID b);
  items ← (if withNotifications && negb (bool_decide (batch_Notifications b = [])) then
             items ← on_error (Wrapped "map batch member") (mapM toAPINotification (batch_Notifications b));
             Ok (Some items)
           else Ok None);
  Ok {| ab_Id := bid; ab_Size := Z.of_nat (length (batch_Notifications b)); ab_CreatedAt := batch_CreatedAt b;
        ab_CorrelationId := nonempty (batch_CorrelationID b); ab_Notifications := items; ab_Metadata := None |}.

(** The header parameters of the write operations, and of the others. *)
Record WriteParams := mkWriteParams { wp_IdempotencyKey : option string; wp_XCorrelationID : option string }.
Record ReadParams := mkReadParams { rp_XCorrelationID : option string }.

Definition fromAPICreateBatchRequest (body : CreateBatchRequest) (params : WriteParams) : CreateBatchInput :=
  mkCreateBatchInput (default "" (wp_XCorrelationID params))
    (map (λ item, mkCreateBatchItem (cr_Channel item) (default PriorityNormal (cr_Priority item))
            (cr_Recipient item) (cr_Content item) "" (uuid_text <$> cr_TemplateId item))
       (cbr_Notifications body)).
Definition fromAPICreateNotificationRequest (body : CreateNotificationRequest) (params : WriteParams) :
    CreateNotificationInput := {|
  cn_Channel := cr_Channel body; cn_Recipient := cr_Recipient body; cn_Content := cr_Content body;
  cn_Priority := default PriorityNormal (cr_Priority body); cn_ScheduledAt := cr_ScheduledAt body;
  cn_TemplateID := uuid_text <$> cr_TemplateId body; cn_TemplateVariables := cr_TemplateVariables body;
  cn_IdempotencyKey := default "" (wp_IdempotencyKey params);
  cn_CorrelationID := default "" (wp_XCorrelationID params) |}.

(** *** list_notifications_handler.go *)
Record ListNotificationsParams := mkListNotificationsParams {
  lp_Status : option string; lp_Channel : option string; lp_BatchId : option uuid;
  lp_CreatedAfter : option Time; lp_CreatedBefore : option Time; lp_Cursor : option string;
  lp_Limit : option Z; lp_XCorrelationID : option string }.
Definition fromAPIListNotificationsParams (p : ListNotificationsParams) : ListNotificationsInput := {|
  li_Status := default "" (lp_Status p); li_Channel := default "" (lp_Channel p);
  li_BatchID := uuid_text <$> lp_BatchId p; li_CreatedAfter := lp_CreatedAfter p;
  li_CreatedBefore := lp_CreatedBefore p; li_Cursor := default "" (lp_Cursor p);
  li_Limit := default 0 (lp_Limit p) |}.
Definition toAPINotificationPage (out : list Notification * string) : res (APage ANotification) :=
  items ← on_error (Wrapped "map notification") (mapM toAPINotification out.1);
  Ok (mkAPage items (nonempty out.2) None).

(** *** get_notification_trace_handler.go *)
Definition toAPINotificationTraceEntry (log : NotificationLog) : res ATraceEntry :=
  lid ← parse_uuid "log id" (log_ID log);
  Ok (mkATraceEntry (nonempty (log_CorrelationID log)) (log_CreatedAt log)
        (match log_Details log with
         | Some m => if bool_decide (m = ∅) then None else Some m
         | None => None
         end) (log_Event log) lid).
Definition toAPINotificationTrace (notifID : NotificationID) (entries : list NotificationLog) : res ATrace :=
  nid ← parse_uuid "notification id" notifID;
  items ← on_error (Wrapped "map trace entry") (mapM toAPINotificationTraceEntry entries);
  Ok (mkATrace items nid).

(** *** template_handlers.go *)
Definition wrapMapTemplate {A} (r : res A) : res A := on_error (Wrapped "map template") r.
Definition toAPITemplate (t : Template) : res ATemplate :=
  tid ← parse_uuid "template id" (tpl_ID t);
  Ok (mkATemplate (tpl_Body t) (tpl_Channel t) (tpl_CreatedAt t) tid (tpl_Name t) (tpl_UpdatedAt t) None).
Definition toAPITemplatePage (out : list Template * string) : res (APage ATemplate) :=
  items ← wrapMapTemplate (mapM toAPITemplate out.1);
  Ok (mkAPage items (nonempty out.2) None).
Record ListTemplatesParams := mkListTemplatesParams {
  lt_param_Channel : option string; lt_param_Cursor : option string; lt_param_Limit : option Z;
  lt_param_XCorrelationID : option string }.
Definition fromAPIListTemplatesParams (p : ListTemplatesParams) : ListTemplatesInput :=
  mkListTemplatesInput (default "" (lt_param_Channel p)) (default "" (lt_param_Cursor p))
    (default 0 (lt_param_Limit p)).

(** ** server.go

    [JSONMetricsSnapshot] holds its success rate as a JSON literal; a family of
    the Prometheus registry is its name and what the library encodes it to. *)
Record metric_family := mkMetricFamily { mf_Name : string; mf_Encode : res string }.
Record JSONMetricsSnapshot := mkSnapshot {
  CreatedPerMinute : Z; DeliveredPerMinute : Z; FailedPerMinute : Z; QueueDepth : Z;
  SuccessRate : option string }.
Record http_Server (W : Type) := mkServer {
  createNotification : option (CreateNotificationInput → M W Notification);
  createBatch : option (CreateBatchInput → M W Batch);
  getNotification : option (NotificationID → M W Notification);
  listNotifications : option (ListNotificationsInput → M W (list Notification * string));
  cancelNotification : option (NotificationID → M W Notification);
  getNotificationTrace : option (NotificationID → M W (list NotificationLog));
  getBatch : option (BatchID → M W Batch);
  createTemplate : option (CreateTemplateInput → M W Template);
  getTemplate : option (TemplateID → M W Template);
  listTemplates : option (ListTemplatesInput → M W (list Template * string));
  replaceTemplate : option (ReplaceTemplateInput → M W Template);
  deleteTemplate : option (TemplateID → M W unit);
  readinessChecks : list (M W unit);
  prometheusGatherer : option (M W (list metric_family));
  jsonMetrics : option (M W JSONMetricsSnapshot) }.
(** What a wiring hands over; an operation left out stays unwired. *)
Record ServerOptions (W : Type) := mkServerOptions {
  opt_CreateNotification : option (CreateNotificationInput → M W Notification);
  opt_CreateBatch : option (CreateBatchInput → M W Batch);
  opt_GetNotification : option (NotificationID → M W Notification);
  opt_ListNotifications : option (ListNotificationsInput → M W (list Notification * string));
  opt_CancelNotification : option (NotificationID → M W Notification);
  opt_GetNotificationTrace : option (NotificationID → M W (list NotificationLog));
  opt_GetBatch : option (BatchID → M W Batch);
  opt_CreateTemplate : option (CreateTemplateInput → M W Template);
  opt_GetTemplate : option (TemplateID → M W Template);
  opt_ListTemplates : option (ListTemplatesInput → M W (list Template * string));
  opt_ReplaceTemplate : option (ReplaceTemplateInput → M W Template);
  opt_DeleteTemplate : option (TemplateID → M W unit);
  opt_ReadinessChecks : list (M W unit);
  opt_PrometheusGatherer : option (M W (list metric_family));
  opt_JsonMetrics : option (M W JSONMetricsSnapshot) }.
End mapping.
Arguments mkServer {W}.
Arguments createNotification {W}.
Arguments createBatch {W}.
Arguments getNotification {W}.
Arguments listNotifications {W}.
Arguments cancelNotification {W}.
Arguments getNotificationTrace {W}.
Arguments getBatch {W}.
Arguments createTemplate {W}.
Arguments getTemplate {W}.
Arguments listTemplates {W}.
Arguments replaceTemplate {W}.
Arguments deleteTemplate {W}.
Arguments readinessChecks {W}.
Arguments prometheusGatherer {W}.
Arguments jsonMetrics {W}.
Arguments mkServerOptions {W}.
Arguments opt_CreateNotification {W}.
Arguments opt_CreateBatch {W}.
Arguments opt_GetNotification {W}.
Arguments opt_ListNotifications {W}.
Arguments opt_CancelNotification {W}.
Arguments opt_GetNotificationTrace {W}.
Arguments opt_GetBatch {W}.
Arguments opt_CreateTemplate {W}.
Arguments opt_GetTemplate {W}.
Arguments opt_ListTemplates {W}.
Arguments opt_ReplaceTemplate {W}.
Arguments opt_DeleteTemplate {W}.
Arguments opt_ReadinessChecks {W}.
Arguments opt_PrometheusGatherer {W}.
Arguments opt_JsonMetrics {W}.

Definition NewServer {W} (opts : ServerOptions W) : http_Server W := {|
  createNotification := opt_CreateNotification opts;
  createBatch := opt_CreateBatch opts;
  getNotification := opt_GetNotification opts;
  listNotifications := opt_ListNotifications opts;
  cancelNotification := opt_CancelNotification opts;
  getNotificationTrace := opt_GetNotificationTrace opts;
  getBatch := opt_GetBatch opts;
  createTemplate := opt_CreateTemplate opts;
  getTemplate := opt_GetTemplate opts;
  listTemplates := opt_ListTemplates opts;
  replaceTemplate := opt_ReplaceTemplate opts;
  deleteTemplate := opt_DeleteTemplate opts;
  readinessChecks := opt_ReadinessChecks opts;
  prometheusGatherer := opt_PrometheusGatherer opts;
  jsonMetrics := opt_JsonMetrics opts |}.

(** ** Handlers

    A response: its body and the optional headers of the operation. *)
Record api_response (A : Type) := mkResp { rp_Body : A; rp_Location : option string; rp_Correlation : option string }.
Arguments mkResp {A}.
Arguments rp_Body {A}.
Arguments rp_Location {A}.
Arguments rp_Correlation {A}.

(** An executor that is not wired answers 501. *)
Definition wired {W X A} (e : option X) (k : X → M W A) : M W A :=
  match e with Some x => k x | None => fail ErrNotImplemented end.
(** [req.Body == nil] *)
Definition required_body {W B A} (body : option B) (k : B → M W A) : M W A :=
  match body with Some b => k b | None => throw (ValidationError "body" "request body is required" None) end.

Section handlers.
Context {W : Type} `{GoogleUUID} (s : http_Server W).

Definition map_notification (n : Notification) : M W ANotification :=
  wrap_err "map domain notification" (of_result (toAPINotification n)).

Definition Server_CreateNotification (params : WriteParams) (body : option CreateNotificationRequest) :
    M W (api_response ANotification) :=
  wired (createNotification s) (λ exec, required_body body (λ b,
    let* n := exec (fromAPICreateNotificationRequest b params) in
    let* out := map_notification n in
    ret (mkResp out (Some ("/api/v1/notifications/" +:+ ID n)%string) (Some (CorrelationID n))))).
Definition Server_CreateBatch (params : WriteParams) (body : option CreateBatchRequest) :
    M W (api_response ABatch) :=
  wired (createBatch s) (λ exec, required_body body (λ b,
    let* b := exec (fromAPICreateBatchRequest b params) in
    let* out := wrap_err "map domain batch" (of_result (toAPIBatch b false)) in
    ret (mkResp out (Some ("/api/v1/notifications/batch/" +:+ batch_ID b)%string)
           (Some (batch_CorrelationID b))))).
Definition Server_CancelNotification (nid : uuid) : M W (api_response ANotification) :=
  wired (cancelNotification s) (λ exec,
    let* n := exec (uuid_text nid) in
    let* out := map_notification n in
    ret (mkResp out None (Some (CorrelationID n)))).
Definition Server_GetNotification (nid : uuid) : M W (api_response ANotification) :=
  wired (getNotification s) (λ exec,
    let* n := exec (uuid_text nid) in
    let* out := map_notification n in
    ret (mkResp out None (Some (CorrelationID n)))).
Definition Server_GetBatch (bid : uuid) : M W (api_response ABatch) :=
  wired (getBatch s) (λ exec,
    let* b := exec (uuid_text bid) in
    let* out := wrap_err "map domain batch" (of_result (toAPIBatch b true)) in
    ret (mkResp out None (Some (batch_CorrelationID b)))).
Definition Server_ListNotifications (params : ListNotificationsParams) :
    M W (api_response (APage ANotification)) :=
  wired (listNotifications s) (λ exec,
    let* out := exec (fromAPIListNotificationsParams params) in
    let* page := wrap_err "map notification page" (of_result (toAPINotificationPage out)) in
    ret (mkResp page None None)).
Definition Server_GetNotificationTrace (nid : uuid) : M W (api_response ATrace) :=
  wired (getNotificationTrace s) (λ exec,
    let* entries := exec (uuid_text nid) in
    let* out := wrap_err "map notification trace" (of_result (toAPINotificationTrace (uuid_text nid) entries)) in
    ret (mkResp out None None)).

Definition Server_CreateTemplate (body : option CreateTemplateRequest) : M W (api_response ATemplate) :=
  wired (createTemplate s) (λ exec, required_body body (λ b,
    let* tpl := exec (mkCreateTemplateInput (ctr_Name b) (ctr_Channel b) (ctr_Body b)) in
    let* out := of_result (wrapMapTemplate (toAPITemplate tpl)) in
    ret (mkResp out (Some ("/api/v1/templates/" +:+ tpl_ID tpl)%string) None))).
Definition Server_ListTemplates (params : ListTemplatesParams) : M W (api_response (APage ATemplate)) :=
  wired (listTemplates s) (λ exec,
    let* out := exec (fromAPIListTemplatesParams params) in
    let* page := wrap_err "map template page" (of_result (toAPITemplatePage out)) in
    ret (mkResp page None None)).
Definition Server_GetTemplate (tid : uuid) : M W (api_response ATemplate) :=
  wired (getTemplate s) (λ exec,
    let* tpl := exec (uuid_text tid) in
    let* out := of_result (wrapMapTemplate (toAPITemplate tpl)) in
    ret (mkResp out None None)).
Definition Server_ReplaceTemplate (tid : uuid) (body : option CreateTemplateRequest) :
    M W (api_response ATemplate) :=
  wired (replaceTemplate s) (λ exec, required_body body (λ b,
    let* tpl := exec (mkReplaceTemplateInput (uuid_text tid) (ctr_Name b) (ctr_Channel b) (ctr_Body b)) in
    let* out := of_result (wrapMapTemplate (toAPITemplate tpl)) in
    ret (mkResp out None None))).
Definition Server_DeleteTemplate (tid : uuid) : M W (api_response unit) :=
  wired (deleteTemplate s) (λ exec, exec (uuid_text tid) ;;; ret (mkResp tt None None)).

(** *** health_handlers.go and the metrics handlers *)
Inductive health := Ready | NotReady.
Definition Server_GetHealthzLive : M W health := ret Ready.
Fixpoint run_checks (checks : list (M W unit)) : M W health :=
  match checks with
  | [] => ret Ready
  | check :: checks =>
      let* r := attempt check in
      match r with Err _ => ret NotReady | Ok _ => run_checks checks end
  end.
Definition Server_GetHealthzReady : M W health := run_checks (readinessChecks s).
Definition Server_GetJSONMetrics : M W JSONMetricsSnapshot :=
  wired (jsonMetrics s) (λ exec, exec).
(** Encode the families one after the other; the first that fails ends it. *)
Fixpoint encode_families (mfs : list metric_family) : res string :=
  match mfs with
  | [] => Ok ""
  | mf :: mfs =>
      text ← on_error (Wrapped ("prometheus encode " +:+ mf_Name mf)%string) (mf_Encode mf);
      rest ← encode_families mfs;
      Ok (text +:+ rest)%string
  end.
Definition Server_GetPrometheusMetrics : M W string :=
  wired (prometheusGatherer s) (λ Gather,
    let* mfs := wrap_err "prometheus gather" Gather in
    of_result (encode_families mfs)).
End handlers.
