(* ===== verification/Middleware.v ===== *)
(** The middlewares of internal/adapters/http: correlation.go,
    inbound_rate_limit.go, metrics_middleware.go, idempotency.go, and the chain
    router.go composes them into. *)

From S2P Require Import Prelude GoStrings Strconv Errors ValueObjects Json Ports.
From S2P Require Import Redis RateLimiter RedisStores Numbers Sha256 Http.

(** Emit [es], then go on with the header map they leave. *)
Definition after {W} (es : list event) (h : header) (k : header → list event * W) : list event * W :=
  let '(es', w) := k (header_after h es) in (es ++ es', w).

(** ** correlation.go *)
Definition correlationIDHeader : string := "X-Correlation-ID".
Definition CorrelationIDMiddleware {W} (gen : W → string * W) (next : Handler W) : Handler W :=
  λ r h w,
    let '(id, w) :=
      let id := header_Get (Header r) correlationIDHeader in
      if bool_decide (id = "") then gen w else (id, w) in
    after [Header_Set correlationIDHeader id] h
      (λ h, next (WithContext_of r (WithContext (Context_of r) id)) h w).

(** ** inbound_rate_limit.go *)
Definition index_byte (c : ascii) (l : list ascii) : option nat := fst <$> list_find (λ a, a = c) l.
Definition last_index_byte (c : ascii) (l : list ascii) : option nat :=
  (λ i, length l - 1 - i)%nat <$> index_byte c (reverse l).
(** [net.SplitHostPort], of which only the host is used. *)
Definition SplitHostPort_host (hostport : string) : option string :=
  let l := bytes hostport in
  let has c l := bool_decide (c ∈ l) in
  i ← last_index_byte ":"%char l;
  if bool_decide (head l = Some "["%char) then
    e ← index_byte "]"%char l;
    if bool_decide (S e = i) && negb (has "["%char (drop 1 l)) && negb (has "]"%char (drop (S e) l))
    then Some (of_bytes (take (e - 1) (drop 1 l))) else None
  else
    let host := take i l in
    if has ":"%char host || has "["%char l || has "]"%char l then None else Some (of_bytes host).
Definition clientIP (r : Request) : string :=
  let xff := header_Get (Header r) "X-Forwarded-For" in
  let xri := header_Get (Header r) "X-Real-IP" in
  if bool_decide (xff ≠ "") then
    match cut ","%char xff with Some (first, _) => TrimSpace first | None => TrimSpace xff end
  else if bool_decide (xri ≠ "") then TrimSpace xri
  else default (RemoteAddr r) (SplitHostPort_host (RemoteAddr r)).

(** [d.Seconds()], [math.Ceil] and the conversion to int64, in float64. *)
Definition Seconds (d : Duration) : spec_float :=
  SFadd prec emax (float_of_Z (Z.quot d Second))
    (SFdiv prec emax (float_of_Z (Z.rem d Second)) (float_of_Z Second)).
Definition ceil_int64 (x : spec_float) : Z :=
  match x with
  | S754_finite s m e =>
      let n := if s then Zneg m else Zpos m in
      if 0 <=? e then n * 2 ^ e else - ((- n) / 2 ^ (- e))
  | _ => 0
  end.
Definition retryAfterSeconds (d : Duration) : Z :=
  let secs := ceil_int64 (Seconds d) in if secs <? 1 then 1 else secs.

Definition rate_limited_problem : Problem :=
  mkProblem "/probs/rate-limited" "Too Many Requests" 429
    "Inbound request rate limit exceeded for this client. Wait the number of seconds in Retry-After before retrying."
    "" "".
(** [metrics] tells whether there is a recorder. *)
Definition respondWithRateLimited (r : Request) (retryAfter : Duration) (metrics : bool) : list event :=
  Header_Set "Retry-After" (FormatInt (retryAfterSeconds retryAfter))
  :: WriteProblem r rate_limited_problem
  ++ if metrics then [InboundRateLimitHit (URL_Path r)] else [].
Definition InboundRateLimitMiddleware {W} (Allow : string → M W (bool * Duration)) (metrics : bool)
    (next : Handler W) : Handler W := λ r h w,
  let bucket := ("ip:" +:+ clientIP r)%string in
  match Allow bucket w with
  | (Err _, w) =>
      after [SlogWarn "inbound rate limiter unavailable, allowing request"] h (λ h, next r h w)
  | (Ok (false, retryAfter), w) => (respondWithRateLimited r retryAfter metrics, w)
  | (Ok (true, _), w) => next r h w
  end.

(** ** Wrapped response writers *)
Fixpoint through {T} (method : event → T → T * list event) (t : T) (es : list event) : T * list event :=
  match es with
  | [] => (t, [])
  | e :: es =>
      let '(t, out) := method e t in
      let '(t, out') := through method t es in (t, out ++ out')
  end.

(** *** metrics_middleware.go *)
Record statusTracker := mkTracker { st_status : Z; st_wroteHeader : bool }.
Definition statusTracker_method (e : event) (t : statusTracker) : statusTracker * list event :=
  match e with
  | WriteHeader s => if st_wroteHeader t then (t, []) else (mkTracker s true, [e])
  | Write _ => (mkTracker (st_status t) true, [e])
  | _ => (t, [e])
  end.
(** [RoutePattern] is what chi's route context holds once the request has been
    routed; [since] the time the request took. *)
Definition MetricsMiddleware {W} (RoutePattern : Request → string) (since : W → Duration * W)
    (next : Handler W) : Handler W := λ r h w,
  let '(es, w) := next r h w in
  let '(tracker, out) := through statusTracker_method (mkTracker 200 false) es in
  let pattern := or_default (RoutePattern r) "unknown" in
  let '(d, w) := since w in
  (out ++ [HTTPRequest (Method r) pattern (FormatInt (st_status tracker));
           ObserveHTTPRequest (Method r) pattern d], w).

(** ** idempotency.go *)
Class IdempotencyStore (S : Type) := {
  Idem_Get : string → M S (IdempotencyEntry * bool);
  Idem_Set : string → IdempotencyEntry → Duration → M S unit;
}.

Record capturingWriter := mkCapturing { cw_status : Z; cw_wroteHeader : bool; cw_body : string }.
Definition capturingWriter_method (e : event) (c : capturingWriter) : capturingWriter * list event :=
  match e with
  | WriteHeader s => if cw_wroteHeader c then (c, []) else (mkCapturing s true (cw_body c), [e])
  | Write p => (mkCapturing (cw_status c) true (cw_body c +:+ p)%string, [e])
  | _ => (c, [e])
  end.

Definition idempotencyHeader : string := "Idempotency-Key".
Definition idempotencyTTL : Duration := 24 * Hour.
Definition maxIdempotencyBodyBytes : Z := 2 ^ 20.

Definition readAndBufferRequestBody (r : Request) : res (gobytes * Request) :=
  match ReqBody r with
  | None => Ok (None, r)
  | Some (data, err) =>
      if maxIdempotencyBodyBytes <? len data then Err (Sentinel ErrIdempotencyBodyTooLarge)
      else match err with
           | Some e => Err (Wrapped "read request body" e)
           | None => Ok (Some data, with_body r data)
           end
  end.
Definition hashRequestBody (body : gobytes) : gobytes := Some (Sum256 (default "" body)).

Definition too_large_problem : Problem :=
  mkProblem "/probs/payload-too-large" "Payload Too Large" 413
    ("Request body exceeds the " +:+ FormatInt maxIdempotencyBodyBytes +:+ "-byte idempotency cache limit.")%string
    "" "".
Definition bad_request_problem : Problem :=
  mkProblem "/probs/bad-request" "Bad Request" 400 "Request body could not be read." "" "".
Definition respondToBodyReadError (r : Request) (err : error) : list event :=
  if errors_Is err ErrIdempotencyBodyTooLarge then WriteProblem r too_large_problem
  else SlogWarn "idempotency middleware could not buffer request body" :: WriteProblem r bad_request_problem.
Definition key_mismatch_problem : Problem :=
  mkProblem "/probs/idempotency-key-mismatch" "Idempotency Key Conflict" 409
    "An Idempotency-Key was reused with a different request body. Use a fresh key for the new payload." "" "".
Definition respondWithKeyMismatch (r : Request) : list event := WriteProblem r key_mismatch_problem.

Definition requestHashMismatched (stored current : gobytes) : bool :=
  negb (is_empty stored) && negb (bool_decide (default "" stored = default "" current)).
Definition replayCachedEntry (entry : IdempotencyEntry) : list event :=
  (if bool_decide (ContentType entry ≠ "") then [Header_Set "Content-Type" (ContentType entry)] else [])
  ++ [WriteHeader 200; Write (default "" (Body entry))].
Definition dispatchCacheHit (r : Request) (entry : IdempotencyEntry) (requestHash : gobytes) : list event :=
  if requestHashMismatched (RequestHash entry) requestHash then respondWithKeyMismatch r
  else replayCachedEntry entry.

Section idempotency.
Context {S W : Type} `{IdempotencyStore S}.
Definition on_store {A} (c : M S A) : M (S * W) A := zoom fst (λ s w, (s, w.2)) c.

(** [cw.body.Bytes()] is nil when nothing was written. *)
Definition captured_entry (h : header) (cw : capturingWriter) (out : list event) (requestHash : gobytes) :
    IdempotencyEntry :=
  mkIdempotencyEntry (if bool_decide (cw_body cw = "") then None else Some (cw_body cw))
    (header_Get (header_after h out) "Content-Type") requestHash.
Definition runAndCache (next : Handler (S * W)) (key : string) (requestHash : gobytes) : Handler (S * W) :=
  λ r h w,
    let '(es, w) := next r h w in
    let '(cw, out) := through capturingWriter_method (mkCapturing 200 false "") es in
    if (cw_status cw <? 200) || (300 <=? cw_status cw) then (out, w)
    else match on_store (Idem_Set key (captured_entry h cw out requestHash) idempotencyTTL) w with
         | (Err _, w) => (out ++ [SlogWarn "idempotency cache write failed"], w)
         | (Ok _, w) => (out, w)
         end.

Definition serveIdempotent (next : Handler (S * W)) : Handler (S * W) := λ r h w,
  let key := header_Get (Header r) idempotencyHeader in
  if bool_decide (key = "") then next r h w
  else match readAndBufferRequestBody r with
       | Err e => (respondToBodyReadError r e, w)
       | Ok (body, r) =>
           let requestHash := hashRequestBody body in
           match on_store (Idem_Get key) w with
           | (Err _, w) =>
               after [SlogWarn "idempotency store unavailable, allowing request"] h
                 (λ h, runAndCache next key requestHash r h w)
           | (Ok (entry, true), w) => (dispatchCacheHit r entry requestHash, w)
           | (Ok (_, false), w) => runAndCache next key requestHash r h w
           end
       end.
Definition IdempotencyMiddleware (next : Handler (S * W)) : Handler (S * W) := serveIdempotent next.
End idempotency.

(** ** router.go

    The configured middlewares in order, below chi's Recoverer; nil entries are
    skipped. *)
Record Config (W : Type) := mkConfig { Middlewares : list (option (Handler W → Handler W)) }.
Arguments mkConfig {W}.
Arguments Middlewares {W}.
Definition NewRouter {W} (Recoverer : Handler W → Handler W) (cfg : Config W) (routes : Handler W) : Handler W :=
  Recoverer (foldr (λ mw next, match mw with Some f => f next | None => next end) routes (Middlewares cfg)).

(** ** What the wrappers do to a response

    A wrapper forwards every call up to the first [WriteHeader] or [Write], and
    no [WriteHeader] after it.  net/http ignores those too - unless the first
    one was informational: then it drops the final status. *)

(** The status of the first [WriteHeader], 200 when a [Write] comes first. *)
Fixpoint recorded (es : list event) : Z :=
  match es with
  | WriteHeader s :: _ => s
  | [] | Write _ :: _ => 200
  | _ :: es => recorded es
  end.
Definition not_status (e : event) : Prop := match e with WriteHeader _ => False | _ => True end.
#[export] Instance not_status_dec e : Decision (not_status e).
Proof. destruct e; simpl; apply _. Defined.
Definition no_status (es : list event) : list event := filter not_status es.
(** The calls that decide the client's response. *)
Definition forwarded (es : list event) : list event :=
  if informational (recorded es) then no_status es else es.
(** The first status is a final one. *)
Definition final (es : list event) : Prop := informational (recorded es) = false.

Lemma forwarded_final es : final es → forwarded es = es.
Proof. unfold final, forwarded. by intros ->. Qed.
Lemma no_status_sent es w : w_sent w ≠ None → foldl write_event w (no_status es) = foldl write_event w es.
Proof.
  revert w. induction es as [|e es IH]; intros w Hw; [done|]. unfold no_status. rewrite filter_cons.
  assert (w_sent (write_event w e) ≠ None) as He.
  { destruct e; simpl; unfold send_header; destruct (w_sent w) eqn:E; simpl; congruence. }
  case_decide as Hd; simpl; [by apply IH|]. destruct e; try done. simpl in *. unfold send_header in *.
  destruct (w_sent w) eqn:E; [|done]. apply IH. by rewrite E.
Qed.
Lemma no_status_header es w1 w2 : w_header w1 = w_header w2 →
  w_header (foldl write_event w1 (no_status es)) = w_header (foldl write_event w2 es).
Proof.
  revert w1 w2. induction es as [|e es IH]; intros w1 w2 E; [done|]. unfold no_status. rewrite filter_cons.
  case_decide; cbn [foldl]; apply IH; destruct e; try done; simpl; unfold send_header; repeat case_match; simpl;
    by rewrite ?E.
Qed.
Lemma no_status_200 h es : rs_status (respond h (no_status es)) = 200.
Proof.
  unfold respond. assert (∀ w, (∀ s hd, w_sent w = Some (s, hd) → s = 200) →
    rs_status (finish (foldl write_event w (no_status es))) = 200) as Hw; [|by apply Hw].
  induction es as [|e es IH]; intros w Hw.
  { simpl. unfold finish. destruct (w_sent w) as [[s hd]|] eqn:E; [by eapply Hw|done]. }
  unfold no_status. rewrite filter_cons. case_decide; [|by apply IH]. cbn [foldl]. apply IH.
  destruct e; try done. intros s hd. simpl. unfold send_header. destruct (w_sent w) eqn:E; [rewrite E|]; naive_solver.
Qed.
Lemma forwarded_header h es : header_after h (forwarded es) = header_after h es.
Proof. unfold forwarded, header_after. case_match; [by apply no_status_header|done]. Qed.

Section wrapper.
Context {T : Type} (method : event → T → T * list event) (wrote : T → bool) (status : T → Z).
Hypothesis method_spec : ∀ e t,
  match e with
  | WriteHeader s =>
      if wrote t then method e t = (t, [])
      else (method e t).2 = [e] ∧ wrote (method e t).1 = true ∧ status (method e t).1 = s
  | Write _ => (method e t).2 = [e] ∧ wrote (method e t).1 = true ∧ status (method e t).1 = status t
  | _ => (method e t).2 = [e] ∧ wrote (method e t).1 = wrote t ∧ status (method e t).1 = status t
  end.

Lemma through_wrote es t : wrote t = true →
  (through method t es).2 = no_status es ∧ status (through method t es).1 = status t.
Proof.
  revert t. induction es as [|e es IH]; intros t Hw; [done|]. unfold no_status. rewrite filter_cons.
  pose proof (method_spec e t) as Hm. rewrite Hw in Hm. cbn [through].
  destruct (method e t) as [t1 out1] eqn:Em.
  assert (out1 = (if decide (not_status e) then [e] else []) ∧
          wrote t1 = true ∧ status t1 = status t) as (-> & Hw1 & <-).
  { destruct e; rewrite ?Em in Hm; simpl in Hm; try (destruct Hm as (-> & ? & ?)); try done.
    by injection Hm as -> ->. }
  destruct (IH t1 Hw1) as [Ho Hs]. destruct (through method t1 es) as [t2 out2]. simpl in *. subst out2.
  split; [by case_decide|done].
Qed.
(** The calls that get through, and the status the wrapper remembers. *)
Lemma through_writer es t w : wrote t = false → status t = 200 → w_sent w = None →
  let '(t', out) := through method t es in
  foldl write_event w out = foldl write_event w (forwarded es) ∧ status t' = recorded es.
Proof.
  revert t w. induction es as [|e es IH]; intros t w Hf Hs Hw; [done|].
  pose proof (method_spec e t) as Hm. rewrite Hf, Hs in Hm. cbn [through].
  destruct (method e t) as [t1 out1] eqn:Em.
  assert (match e with Write _ | WriteHeader _ => False | _ => True end →
    let '(t', out) := let '(t2, out2) := through method t1 es in (t2, out1 ++ out2) in
    foldl write_event w out = foldl write_event w (forwarded (e :: es)) ∧ status t' = recorded (e :: es)) as Hplain.
  { intros He.
    assert (out1 = [e] ∧ wrote t1 = false ∧ status t1 = 200 ∧ w_sent (write_event w e) = None ∧
            recorded (e :: es) = recorded es ∧ forwarded (e :: es) = e :: forwarded es)
      as (-> & Hf1 & Hs1 & Hw1 & -> & ->).
    { unfold forwarded, no_status. destruct e; try done; rewrite filter_cons; cbn [recorded];
        simpl in Hm; destruct Hm as (-> & -> & ->); split_and!; try done; by case_match. }
    specialize (IH t1 _ Hf1 Hs1 Hw1). by destruct (through method t1 es). }
  destruct e as [n v|s|p|m|m|p|m p s|m p d]; try (by apply Hplain); clear Hplain; rewrite ?Em in Hm; simpl in Hm;
    destruct Hm as (-> & Hw1 & Hs1); destruct (through_wrote es t1 Hw1) as [Ho Hst];
    destruct (through method t1 es) as [t2 out2]; cbn [fst snd] in Ho, Hst; rewrite Hst, Hs1, Ho;
    (split; [|done]); cbn [app foldl]; unfold forwarded; cbn [recorded].
  - destruct (informational s) eqn:Ei.
    + unfold no_status. rewrite filter_cons, decide_False by (by intros []). cbn [foldl write_event].
      unfold send_header. by rewrite Hw, Ei.
    + cbn [foldl]. apply no_status_sent. simpl. unfold send_header. rewrite Hw, Ei. done.
  - change (informational 200) with false. cbn [foldl]. apply no_status_sent. simpl. unfold send_header. by rewrite Hw.
Qed.
Lemma through_respond h es t : wrote t = false → status t = 200 →
  let '(t', out) := through method t es in
  respond h out = respond h (forwarded es) ∧ header_after h out = header_after h es ∧
  status t' = recorded es.
Proof.
  intros Hf Hs. pose proof (through_writer es t (new_writer h) Hf Hs eq_refl) as Ht.
  rewrite <-forwarded_header. unfold respond, header_after.
  destruct (through method t es) as [t' out]. by destruct Ht as [-> ->].
Qed.
End wrapper.

Lemma statusTracker_respond h es :
  let '(t, out) := through statusTracker_method (mkTracker 200 false) es in
  respond h out = respond h (forwarded es) ∧ header_after h out = header_after h es ∧
  st_status t = recorded es.
Proof.
  apply (through_respond statusTracker_method st_wroteHeader st_status); [|done..].
  intros [] [s []]; by simpl.
Qed.
Lemma capturingWriter_respond h es :
  let '(c, out) := through capturingWriter_method (mkCapturing 200 false "") es in
  respond h out = respond h (forwarded es) ∧ header_after h out = header_after h es ∧
  cw_status c = recorded es.
Proof.
  apply (through_respond capturingWriter_method cw_wroteHeader cw_status); [|done..].
  intros [] [s [] b]; by simpl.
Qed.
(** A first status that is final is the client's. *)
Lemma recorded_final h es : final es → recorded es = rs_status (respond h es).
Proof.
  unfold final, respond. generalize (eq_refl : w_sent (new_writer h) = None). generalize (new_writer h).
  induction es as [|e es IH]; intros w Hw Hf; [unfold finish; simpl; by rewrite Hw|].
  assert (∀ w s hd es, w_sent w = Some (s, hd) → rs_status (finish (foldl write_event w es)) = s) as Hsent.
  { clear. intros w s hd es. revert w. induction es as [|e es IH]; intros w Hw; [unfold finish; simpl; by rewrite Hw|].
    apply IH. destruct e; simpl; unfold send_header; rewrite ?Hw; by simpl. }
  destruct e as [n v|s|p|m|m|p|m p s|m p d]; try (by apply IH); cbn [recorded] in *; cbn [foldl write_event];
    unfold send_header; rewrite Hw; [rewrite Hf|]; symmetry; by eapply Hsent.
Qed.
(** The tracker emits nothing of its own. *)
Lemma statusTracker_only es t : Forall (λ e, e ∈ es) (through statusTracker_method t es).2.
Proof.
  revert t. induction es as [|e es IH]; intros t; [done|]. cbn [through].
  destruct (statusTracker_method e t) as [t1 out1] eqn:E. specialize (IH t1).
  destruct (through _ t1 es) as [t2 out2]. cbn [snd] in *. apply Forall_app. split.
  - destruct e; simpl in E; repeat case_match; simplify_eq; repeat constructor.
  - eapply Forall_impl; [exact IH|]. intros x Hx. by right.
Qed.
(** The captured body is the one the client reads. *)
Lemma capturingWriter_body es c w : cw_body c = w_body w →
  cw_body (through capturingWriter_method c es).1 = w_body (foldl write_event w es).
Proof.
  revert c w. induction es as [|e es IH]; intros c w E; [done|]. cbn [through foldl].
  destruct (capturingWriter_method e c) as [c1 out1] eqn:Ec.
  specialize (IH c1 (write_event w e)). destruct (through _ c1 es). apply IH.
  destruct e; simpl in Ec; repeat case_match; simplify_eq/=; try done;
    unfold send_header; repeat case_match; simpl; by rewrite ?E.
Qed.
Lemma finish_body w : rs_body (finish w) = w_body w.
Proof. unfold finish. by destruct (w_sent w) as [[]|]. Qed.

(** What a client reads of events followed by telemetry. *)
Definition telemetry (e : event) : Prop :=
  match e with Header_Set _ _ | WriteHeader _ | Write _ => False | _ => True end.
Lemma foldl_telemetry w es : Forall telemetry es → foldl write_event w es = w.
Proof. induction 1 as [|e es He _ IH]; [done|]. by destruct e. Qed.
Lemma respond_telemetry h es es' : Forall telemetry es' → respond h (es ++ es') = respond h es.
Proof. intros H. unfold respond. by rewrite foldl_app, (foldl_telemetry _ es' H). Qed.
Lemma respond_telemetry_first h es es' : Forall telemetry es → respond h (es ++ es') = respond h es'.
Proof. intros H. unfold respond. by rewrite foldl_app, (foldl_telemetry _ es H). Qed.

Lemma forwarded_telemetry_first es es' : Forall telemetry es → forwarded (es ++ es') = es ++ forwarded es'.
Proof.
  intros H. assert (recorded (es ++ es') = recorded es' ∧ no_status (es ++ es') = es ++ no_status es') as [Er En].
  { induction H as [|e es He _ [IH1 IH2]]; [done|].
    split; [by destruct e|]. unfold no_status in *. simpl. rewrite filter_cons, IH2. by destruct e. }
  unfold forwarded. rewrite Er, En. by case_match.
Qed.
Lemma final_telemetry_first es es' : Forall telemetry es → final es' → final (es ++ es').
Proof. unfold final. induction 1 as [|e es He _ IH]; [done|]. by destruct e. Qed.

(** The service's own error responses start with a final status. *)
Lemma WriteProblem_final r p : informational (Status_ p) = false → final (WriteProblem r p).
Proof. done. Qed.
Lemma RespondWithError_final r e : final (RespondWithError r e).
Proof.
  unfold RespondWithError. case_match; [done|]. case_match; [done|]. unfold WriteError.
  destruct (find_mapping e) as [m|] eqn:E; [|by apply (final_telemetry_first [_]); [repeat constructor|]].
  apply WriteProblem_final. by apply find_mapping_sound in E as (_ & _ & _ & _ & _ & ?).
Qed.
Lemma no_status_body es w1 w2 : w_body w1 = w_body w2 →
  w_body (foldl write_event w1 (no_status es)) = w_body (foldl write_event w2 es).
Proof.
  revert w1 w2. induction es as [|e es IH]; intros w1 w2 E; [done|]. unfold no_status. rewrite filter_cons.
  case_decide; cbn [foldl]; apply IH; destruct e; try done; simpl; unfold send_header; repeat case_match; simpl;
    by rewrite ?E.
Qed.
Lemma forwarded_body h es : rs_body (respond h (forwarded es)) = rs_body (respond h es).
Proof. unfold forwarded, respond. rewrite !finish_body. case_match; [by apply no_status_body|done]. Qed.

(** What the idempotency store is given for a response. *)
Definition entry_of (h : header) (es : list event) (requestHash : gobytes) : IdempotencyEntry :=
  let body := rs_body (respond h es) in
  mkIdempotencyEntry (if bool_decide (body = "") then None else Some body)
    (header_Get (header_after h es) "Content-Type") requestHash.
Definition is_2xx (status : Z) : bool := (200 <=? status) && (status <? 300).
Definition success (resp : Response) : bool := is_2xx (rs_status resp).

Section properties.
Context {S W : Type} `{IdempotencyStore S}.
Implicit Types next : Handler (S * W).

Lemma runAndCache_spec next key hash r h s :
  let '(es, s1) := next r h s in
  let '(out, s2) := runAndCache next key hash r h s in
  respond h out = respond h (forwarded es) ∧
  s2 = if is_2xx (recorded es) then (on_store (Idem_Set key (entry_of h es hash) idempotencyTTL) s1).2 else s1.
Proof.
  unfold runAndCache. destruct (next r h s) as [es s1].
  pose proof (capturingWriter_respond h es) as Hr.
  pose proof (capturingWriter_body es (mkCapturing 200 false "") (new_writer h) eq_refl) as Hb.
  destruct (through capturingWriter_method _ es) as [cw out]. destruct Hr as (Hr & Hh & Hs).
  simpl in Hb. rewrite <-finish_body in Hb. fold (respond h es) in Hb.
  assert (is_2xx (recorded es) = negb ((cw_status cw <? 200) || (300 <=? cw_status cw))) as ->.
  { unfold is_2xx. rewrite <-Hs. rewrite Z.leb_antisym, (Z.leb_antisym _ 300).
    by destruct (cw_status cw <? 200), (cw_status cw <? 300). }
  destruct (_ || _); [done|]. cbn [negb].
  assert (captured_entry h cw out hash = entry_of h es hash) as ->.
  { unfold captured_entry, entry_of. by rewrite Hb, Hh. }
  destruct (on_store _ s1) as [[[]|e] s2]; split; try done.
  rewrite respond_telemetry; [done|by repeat constructor].
Qed.

(** C35. What the metrics and the idempotency wrapper do to a handler's
    response, for any sequence of calls the handler makes.  The body is always
    the handler's own, and when the first status it writes is final (or it
    writes none) so are the status and the headers, and the status recorded is
    the one sent.  When the first status is informational (1xx) the final
    [WriteHeader] is dropped: the client gets 200, and the 1xx is recorded.
    The metrics wrapper counts exactly the recorded status; the idempotency
    wrapper stores the response - under the request's key, with its body,
    content type and the request's fingerprint - exactly when that status is
    2xx. *)
Theorem wrappers_are_transparent next RoutePattern since r h s :
  let '(es, s1) := next r h s in
  let resp := respond h (forwarded es) in
  (if informational (recorded es)
   then rs_status resp = 200 ∧ rs_body resp = rs_body (respond h es)
   else resp = respond h es ∧ recorded es = rs_status resp) ∧
  (let '(out, s2) := MetricsMiddleware RoutePattern since next r h s in
   respond h out = resp ∧ s2 = (since s1).2 ∧
   ∃ out' p d, out = out' ++ [HTTPRequest (Method r) p (FormatInt (recorded es));
                              ObserveHTTPRequest (Method r) p d] ∧
     Forall (λ e, e ∈ es) out') ∧
  (∀ key hash,
   let '(out, s2) := runAndCache next key hash r h s in
   respond h out = resp ∧
   s2 = if is_2xx (recorded es)
        then (on_store (Idem_Set key (entry_of h es hash) idempotencyTTL) s1).2 else s1).
Proof.
  pose proof (λ key hash, runAndCache_spec next key hash r h s) as Hc.
  unfold MetricsMiddleware. destruct (next r h s) as [es s1]. cbn zeta. split; [|split; [|exact Hc]].
  { destruct (informational (recorded es)) eqn:Ei.
    - split; [|apply forwarded_body]. unfold forwarded. rewrite Ei. apply no_status_200.
    - rewrite (forwarded_final es) by exact Ei. split; [done|by apply recorded_final]. }
  pose proof (statusTracker_respond h es) as Hr. pose proof (statusTracker_only es (mkTracker 200 false)) as Ho.
  destruct (through statusTracker_method _ es) as [t out]. destruct Hr as (Hr & _ & ->).
  destruct (since s1) as [d s2]. split_and!; [|done|eexists _, _, _; by split].
  rewrite respond_telemetry; [done|by repeat constructor].
Qed.

(** A handler that sends early hints before its 202: bare, the client reads 202;
    behind either wrapper it reads 200. *)
Lemma early_hints_drop_the_status :
  let es := [WriteHeader 103; WriteHeader 202; Write "accepted"] in
  rs_status (respond ∅ es) = 202 ∧
  (let '(t, out) := through statusTracker_method (mkTracker 200 false) es in
   rs_status (respond ∅ out) = 200 ∧ st_status t = 103) ∧
  (let '(c, out) := through capturingWriter_method (mkCapturing 200 false "") es in
   rs_status (respond ∅ out) = 200 ∧ cw_status c = 103).
Proof. by vm_compute. Qed.

(** C37. The inbound rate limiter asks once, for the bucket of the client's
    address.  A refused request gets a 429 problem with a Retry-After of at
    least one second and reaches neither the handler nor anything else; one
    that is allowed, or that the limiter could not judge, gets the handler's
    own response. *)
Theorem inbound_rate_limit {X} (Allow : string → M X (bool * Duration)) metrics (next : Handler X) r h w :
  valid_utf8 (URL_Path r) → valid_utf8 (FromContext (Context_of r)) →
  let '(x, w1) := Allow ("ip:" +:+ clientIP r)%string w in
  let '(out, w2) := InboundRateLimitMiddleware Allow metrics next r h w in
  match x with
  | Ok (false, retryAfter) =>
      w2 = w1 ∧ rs_status (respond h out) = 429 ∧
      (∃ n, 1 ≤ n ∧ header_Get (rs_header (respond h out)) "Retry-After" = FormatInt n) ∧
      answers r (respond h out) (complete r rate_limited_problem)
  | _ => respond h out = respond h (next r h w1).1 ∧ w2 = (next r h w1).2
  end.
Proof.
  intros Hp Hc. unfold InboundRateLimitMiddleware.
  destruct (Allow _ w) as [[[[|] d]|e] w1].
  - by destruct (next r h w1).
  - unfold respondWithRateLimited.
    set (n := retryAfterSeconds d). assert (1 ≤ n) as Hn by (unfold n, retryAfterSeconds; case_match; lia).
    set (ra := Header_Set _ _). set (tail := if metrics then _ else _).
    assert (respond h (ra :: WriteProblem r rate_limited_problem ++ tail) =
            respond (header_Set "Retry-After" (FormatInt n) h) (WriteProblem r rate_limited_problem)) as ->.
    { rewrite app_comm_cons, respond_telemetry; [done|]. unfold tail. by destruct metrics; repeat constructor. }
    split; [done|]. split; [done|].
    split; [|apply problem_answers; try done; try literal; by split].
    exists n. split; [done|]. rewrite respond_problem by done. cbn [rs_header].
    rewrite header_Get_Set_ne by by vm_compute. by rewrite header_Get_Set.
  - unfold after, header_after. cbn [foldl write_event w_header].
    destruct (next r _ w1) as [es w2]. simpl.
    change (SlogWarn ?m :: es) with ([SlogWarn m] ++ es).
    rewrite respond_telemetry_first; [done|by repeat constructor].
Qed.
End properties.

(** ** Retries

    What the middleware relies on: an entry that was set is found again until
    it expires, as long as nobody sets the key ([kept]). *)
Class IdempotencyStoreLaws (S : Type) `{IdempotencyStore S} := {
  store_now : S → Z;  (** milliseconds *)
  kept : string → S → S → Prop;
  get_after_set key e ttl s s1 s2 :
    valid_utf8 (ContentType e) → 0 < ttl → Idem_Set key e ttl s = (Ok tt, s1) → kept key s1 s2 →
    let '(x, s3) := Idem_Get key s2 in
    (∃ err, x = Err err) ∨ x = Ok (wire_form e, true) ∨
    x = Ok (no_entry, false) ∧ store_now s1 + Z.max 1 (ttl / Millisecond) ≤ store_now s3;
}.

Section retries.
Context {S W : Type} `{IdempotencyStoreLaws S}.

Definition replay_header (h : header) (contentType : string) : header :=
  if bool_decide (contentType ≠ "") then header_Set "Content-Type" contentType h else h.
Lemma respond_replay h e :
  respond h (replayCachedEntry e) =
  mkResponse 200 (replay_header h (ContentType e)) (default "" (Body e)).
Proof. unfold replayCachedEntry, replay_header. by case_bool_decide. Qed.

(** A hit: the fingerprints decide between the stored response and a conflict. *)
Lemma dispatch_hit r h h1 es b1 b2 :
  let e := wire_form (entry_of h1 es (hashRequestBody (Some b1))) in
  respond h (dispatchCacheHit r e (hashRequestBody (Some b2))) =
  if bool_decide (Sum256 b1 = Sum256 b2)
  then mkResponse 200 (replay_header h (header_Get (header_after h1 es) "Content-Type"))
         (rs_body (respond h1 es))
  else respond h (respondWithKeyMismatch r).
Proof.
  unfold dispatchCacheHit, requestHashMismatched, entry_of, hashRequestBody, wire_form. simpl.
  rewrite bool_decide_false by apply Sum256_nonempty. simpl.
  rewrite bool_decide_false by apply Sum256_nonempty. simpl.
  case_bool_decide; [|done]. simpl. rewrite respond_replay. simpl. f_equal. by case_bool_decide as Hb.
Qed.

(** C34. A retry does not run the handler again.  Once a 2xx response was stored
    under a key, a later request with that key - while the key is not set
    again - gets the stored body and content type with status 200 when its
    body has the same fingerprint, and a 409 otherwise; the rest of the state
    is untouched.  Only a failing store or the end of the 24 hours makes the
    handler run.  (The handler's first status is a final one, see [forwarded].) *)
Theorem retry_is_replayed (next : Handler (S * W)) r1 r2 h1 h2 key b1 b2 s es s1 st s2 :
  next r1 h1 s = (es, s1) → final es → success (respond h1 es) = true →
  valid_utf8 (header_Get (header_after h1 es) "Content-Type") →
  Idem_Set key (entry_of h1 es (hashRequestBody (Some b1))) idempotencyTTL s1.1 = (Ok tt, st) →
  kept key st s2.1 →
  header_Get (Header r2) idempotencyHeader = key → key ≠ "" →
  ReqBody r2 = Some (b2, None) → len b2 ≤ maxIdempotencyBodyBytes →
  (runAndCache next key (hashRequestBody (Some b1)) r1 h1 s).2 = (st, s1.2) ∧
  let '(x, st3) := Idem_Get key s2.1 in
  let '(out, s3) := IdempotencyMiddleware next r2 h2 s2 in
  (∃ err, x = Err err) ∨ store_now st + 24 * 60 * 60 * 1000 ≤ store_now st3 ∨
  s3 = (st3, s2.2) ∧
  if bool_decide (Sum256 b1 = Sum256 b2)
  then respond h2 out =
         mkResponse 200 (replay_header h2 (header_Get (header_after h1 es) "Content-Type"))
           (rs_body (respond h1 es))
  else rs_status (respond h2 out) = 409.
Proof.
  intros Hn Hfin Hok Hct Hset Hkept Hkey Hk Hb Hlen. split.
  { pose proof (runAndCache_spec next key (hashRequestBody (Some b1)) r1 h1 s) as Hr.
    rewrite Hn in Hr. destruct (runAndCache _ _ _ _ _ _) as [out s']. destruct Hr as [_ ->].
    rewrite (recorded_final h1 es Hfin). fold (success (respond h1 es)). rewrite Hok. unfold on_store, zoom. by rewrite Hset. }
  assert (readAndBufferRequestBody r2 = Ok (Some b2, with_body r2 b2)) as Hread.
  { unfold readAndBufferRequestBody. rewrite Hb. by destruct (Z.ltb_spec maxIdempotencyBodyBytes (len b2)); [lia|]. }
  pose proof (get_after_set key (entry_of h1 es (hashRequestBody (Some b1))) idempotencyTTL
    _ _ _ Hct ltac:(done) Hset Hkept) as Hget.
  unfold IdempotencyMiddleware, serveIdempotent. rewrite Hkey, bool_decide_false, Hread by done.
  unfold on_store, zoom. destruct (Idem_Get key s2.1) as [x st3].
  destruct Hget as [[err ->]|[->|[-> Hexp]]].
  - destruct (after _ _ _). left. by exists err.
  - right. right. split; [done|]. rewrite dispatch_hit. by case_bool_decide.
  - destruct (runAndCache _ _ _ _ _ _). right. left. exact Hexp.
Qed.
End retries.

(** ** The stores behind the middlewares *)
#[export] Instance redis_idempotency {R} `{Redis R} : IdempotencyStore R :=
  {| Idem_Get := IdempotencyStore_Get; Idem_Set := IdempotencyStore_Set |}.
#[export] Instance redis_idempotency_laws {R} `{RedisLaws R} : IdempotencyStoreLaws R.
Proof.
  refine {| store_now := redis_now; kept key := later (store_key key) |}. intros key e ttl s s1 s2 Hv Ht Hs Hk. pose proof (Set_then_Get key e ttl s s1 s2 Hv Ht Hs Hk) as Hget.
  cbn [Idem_Get redis_idempotency]. destruct (IdempotencyStore_Get key s2) as [x s3].
  destruct Hget as [[err ->]|?]; [left; by eexists|by right].
Defined.

(** ** A concrete run *)
Definition demo_handler : Handler (mem * nat) := λ _ _ '(s, n),
  ([Header_Set "Content-Type" "application/json"; WriteHeader 202; Write "accepted"], (s, S n)).
Definition demo_write (body : string) : Request :=
  mkRequest "POST" "/api/v1/notifications" (header_Set "idempotency-key" "k1" ∅) "10.0.0.7:5555"
    (Some (body, None)) (mkContext "corr-1").
Definition demo_redis_store : mem := mkMem 5 ∅ [] [].
Example demo_ip : clientIP (demo_write "") = "10.0.0.7".
Proof. vm_compute. reflexivity. Qed.
Example demo_ip6 : SplitHostPort_host "[2001:db8::1]:443" = Some "2001:db8::1".
Proof. vm_compute. reflexivity. Qed.
Example retry_after_rounds_up : map retryAfterSeconds [1; Second; Second + 1; 59 * Second + 500 * Millisecond; -5] =
  [1; 1; 2; 60; 1].
Proof. vm_compute. reflexivity. Qed.

Lemma inbound_rate_limit_witness :
  let Allow : string → M nat (bool * Duration) := λ _ n, (Ok (false, 2 * Second), S n) in
  let out := (InboundRateLimitMiddleware Allow true (λ _ _ n, ([WriteHeader 202], n)) (demo_write "") ∅ 0%nat).1 in
  rs_status (respond ∅ out) = 429 ∧ header_Get (rs_header (respond ∅ out)) "Retry-After" = "2".
Proof.
  intros Allow out. split; [|by vm_compute].
  pose proof (inbound_rate_limit Allow true (λ _ _ n, ([WriteHeader 202], n)) (demo_write "") ∅ 0%nat) as Hl.
  cbn -[respond InboundRateLimitMiddleware] in Hl. apply Hl; literal.
Defined.

(** The first request is accepted with 202, its retry gets 200 and the same
    body while the handler has run once. *)
Lemma retry_is_replayed_witness :
  let s1 := (demo_redis_store, 1%nat) in
  let st := (Idem_Set "k1" (entry_of ∅ (demo_handler (demo_write "a") ∅ (demo_redis_store, 0%nat)).1
               (hashRequestBody (Some "a"))) idempotencyTTL demo_redis_store).2 in
  let '(out, s3) := IdempotencyMiddleware demo_handler (demo_write "a") ∅ (st, 1%nat) in
  respond ∅ out = mkResponse 200 (header_Set "Content-Type" "application/json" ∅) "accepted" ∧ s3.2 = 1%nat.
Proof.
  intros s1 st.
  pose proof (retry_is_replayed demo_handler (demo_write "a") (demo_write "a") ∅ ∅ "k1" "a" "a"
    (demo_redis_store, 0%nat) (demo_handler (demo_write "a") ∅ (demo_redis_store, 0%nat)).1 s1 st (st, 1%nat)) as Hr.
  destruct Hr as [_ Hr]; [done|done|by vm_compute|literal|by vm_compute|apply later_refl|by vm_compute|done|done|done|].
  destruct (Idem_Get "k1" (st, 1%nat).1) as [x st3] eqn:Eg.
  assert ((Idem_Get "k1" (st, 1%nat).1).1 =
    Ok (wire_form (entry_of ∅ (demo_handler (demo_write "a") ∅ (demo_redis_store, 0%nat)).1
      (hashRequestBody (Some "a"))), true)) as Hx by by vm_compute.
  assert (store_now st3 < 24 * 60 * 60 * 1000) as Hnow.
  { change st3 with (x, st3).2. rewrite <-Eg. by vm_compute. }
  rewrite Eg in Hx. simpl in Hx. subst x.
  destruct (IdempotencyMiddleware _ _ _ _) as [out s3].
  destruct Hr as [[err Herr]|[Hexp|[-> Hr]]]; [discriminate Herr| |].
  - assert (0 ≤ store_now st) by by vm_compute. exfalso. lia.
  - split; [|reflexivity]. rewrite bool_decide_true in Hr by done. rewrite Hr. by vm_compute.
Defined.
