(* ===== verification/ApiServer.v ===== *)
(** The generated server of internal/adapters/http/api/api.gen.go: response
    writers, strict handlers, parameter binding and routes.

    Third-party code is behind interfaces: [ParamBinding] (the oapi-codegen
    runtime and chi's URL parameters) and [Chi] (routing).  A failing write to
    the connection is not observable to the handlers' callers and is left out. *)

From S2P Require Import Prelude GoStrings Strconv Uuid Errors ValueObjects Notification Batch Template.
From S2P Require Import Json Ports CreateNotification CancelNotification CreateBatch Queries.
From S2P Require Import TemplateUseCases Http ApiTypes Handlers Middleware.

(** ** Responses *)
Definition newline : string := of_bytes [byte 10].
Definition opt_header (name : string) (v : option string) : list event :=
  match v with Some v => [Header_Set name v] | None => [] end.
(** Encode the body, then the headers, the status and the bytes. *)
Definition visit_json {A} (status : Z) (encode : A → res json) (resp : api_response A) : res (list event) :=
  body ← encode (rp_Body resp);
  Ok ([Header_Set "Content-Type" "application/json"]
      ++ opt_header "Location" (rp_Location resp) ++ opt_header "X-Correlation-ID" (rp_Correlation resp)
      ++ [WriteHeader status; Write (Marshal body +:+ newline)%string]).
Definition Visit_CreateNotification202 := visit_json 202 ANotification_json.
Definition Visit_CreateBatch202 := visit_json 202 ABatch_json.
Definition Visit_GetBatch200 := visit_json 200 ABatch_json.
Definition Visit_GetNotification200 := visit_json 200 ANotification_json.
Definition Visit_CancelNotification200 := visit_json 200 ANotification_json.
Definition Visit_ListNotifications200 := visit_json 200 (APage_json ANotification_json).
Definition Visit_GetNotificationTrace200 := visit_json 200 ATrace_json.
Definition Visit_ListTemplates200 := visit_json 200 (APage_json ATemplate_json).
Definition Visit_CreateTemplate201 := visit_json 201 ATemplate_json.
Definition Visit_GetTemplate200 := visit_json 200 ATemplate_json.
Definition Visit_ReplaceTemplate200 := visit_json 200 ATemplate_json.
Definition Visit_DeleteTemplate204 (resp : api_response unit) : res (list event) :=
  Ok (opt_header "X-Correlation-ID" (rp_Correlation resp) ++ [WriteHeader 204]).
Definition ok_health : res json := json_object [json_string "status" "ok"].
Definition Visit_GetHealthz200 (resp : unit) : res (list event) :=
  visit_json 200 (λ _, ok_health) (mkResp resp None None).
Definition not_ready_problem : AProblem :=
  mkAProblem None (Some "One or more downstream dependencies are not responding. The pod will stop receiving traffic until they recover.")
    None 503 "Dependency Unavailable" (Some "/probs/dependency-unavailable").
Definition Visit_GetHealthzReady503 (p : AProblem) : res (list event) :=
  body ← AProblem_json p;
  Ok [Header_Set "Content-Type" problemContentType; WriteHeader 503; Write (Marshal body +:+ newline)%string].
Definition Visit_GetHealthzReady (h : health) : res (list event) :=
  match h with Ready => Visit_GetHealthz200 tt | NotReady => Visit_GetHealthzReady503 not_ready_problem end.
Definition MetricsSummary_json (m : JSONMetricsSnapshot) : res json := json_object [
  json_int "created_per_minute" (CreatedPerMinute m); json_int "delivered_per_minute" (DeliveredPerMinute m);
  json_int "failed_per_minute" (FailedPerMinute m); json_int "queue_depth" (QueueDepth m);
  json_opt (λ n lit, Ok [(n, JNum lit)]) "success_rate" (SuccessRate m)].
Definition Visit_GetJSONMetrics200 (m : JSONMetricsSnapshot) : res (list event) :=
  visit_json 200 MetricsSummary_json (mkResp m None None).
Definition Visit_GetPrometheusMetrics200 (text : string) : res (list event) :=
  Ok [Header_Set "Content-Type" "text/plain"; WriteHeader 200; Write text].

(** ** The strict server interface

    A request object: the id of the path, the bound parameters, the body. *)
Record RequestObject (I P B : Type) := mkRequestObject { ro_Id : I; ro_Params : P; ro_Body : B }.
Arguments mkRequestObject {I P B}.
Arguments ro_Id {I P B}.
Arguments ro_Params {I P B}.
Arguments ro_Body {I P B}.
Definition GetJSONMetricsRequestObject : Type := RequestObject unit ReadParams unit.
Definition ListNotificationsRequestObject : Type := RequestObject unit ListNotificationsParams unit.
Definition CreateNotificationRequestObject : Type := RequestObject unit WriteParams (option CreateNotificationRequest).
Definition CreateBatchRequestObject : Type := RequestObject unit WriteParams (option CreateBatchRequest).
Definition GetBatchRequestObject : Type := RequestObject uuid ReadParams unit.
Definition GetNotificationRequestObject : Type := RequestObject uuid ReadParams unit.
Definition CancelNotificationRequestObject : Type := RequestObject uuid WriteParams unit.
Definition GetNotificationTraceRequestObject : Type := RequestObject uuid ReadParams unit.
Definition ListTemplatesRequestObject : Type := RequestObject unit ListTemplatesParams unit.
Definition CreateTemplateRequestObject : Type := RequestObject unit WriteParams (option CreateTemplateRequest).
Definition DeleteTemplateRequestObject : Type := RequestObject uuid ReadParams unit.
Definition GetTemplateRequestObject : Type := RequestObject uuid ReadParams unit.
Definition ReplaceTemplateRequestObject : Type := RequestObject uuid WriteParams (option CreateTemplateRequest).
Definition GetHealthzLiveRequestObject : Type := RequestObject unit unit unit.
Definition GetHealthzReadyRequestObject : Type := RequestObject unit unit unit.
Definition GetPrometheusMetricsRequestObject : Type := RequestObject unit unit unit.
(** A response object: what its Visit method writes, or its error. *)
Definition ResponseObject : Type := res (list event).
Record StrictServerInterface (W : Type) := mkStrictServer {
  ssi_GetJSONMetrics : GetJSONMetricsRequestObject → M W ResponseObject;
  ssi_ListNotifications : ListNotificationsRequestObject → M W ResponseObject;
  ssi_CreateNotification : CreateNotificationRequestObject → M W ResponseObject;
  ssi_CreateBatch : CreateBatchRequestObject → M W ResponseObject;
  ssi_GetBatch : GetBatchRequestObject → M W ResponseObject;
  ssi_GetNotification : GetNotificationRequestObject → M W ResponseObject;
  ssi_CancelNotification : CancelNotificationRequestObject → M W ResponseObject;
  ssi_GetNotificationTrace : GetNotificationTraceRequestObject → M W ResponseObject;
  ssi_ListTemplates : ListTemplatesRequestObject → M W ResponseObject;
  ssi_CreateTemplate : CreateTemplateRequestObject → M W ResponseObject;
  ssi_DeleteTemplate : DeleteTemplateRequestObject → M W ResponseObject;
  ssi_GetTemplate : GetTemplateRequestObject → M W ResponseObject;
  ssi_ReplaceTemplate : ReplaceTemplateRequestObject → M W ResponseObject;
  ssi_GetHealthzLive : GetHealthzLiveRequestObject → M W ResponseObject;
  ssi_GetHealthzReady : GetHealthzReadyRequestObject → M W ResponseObject;
  ssi_GetPrometheusMetrics : GetPrometheusMetricsRequestObject → M W ResponseObject }.
Arguments ssi_GetJSONMetrics {W}.
Arguments ssi_ListNotifications {W}.
Arguments ssi_CreateNotification {W}.
Arguments ssi_CreateBatch {W}.
Arguments ssi_GetBatch {W}.
Arguments ssi_GetNotification {W}.
Arguments ssi_CancelNotification {W}.
Arguments ssi_GetNotificationTrace {W}.
Arguments ssi_ListTemplates {W}.
Arguments ssi_CreateTemplate {W}.
Arguments ssi_DeleteTemplate {W}.
Arguments ssi_GetTemplate {W}.
Arguments ssi_ReplaceTemplate {W}.
Arguments ssi_GetHealthzLive {W}.
Arguments ssi_GetHealthzReady {W}.
Arguments ssi_GetPrometheusMetrics {W}.

(** The methods of [Server] and the response types they return. *)
Definition visited {W A} (visit : A → ResponseObject) (c : M W A) : M W ResponseObject :=
  let* a := c in ret (visit a).
Definition strict_server {W} `{GoogleUUID} (s : http_Server W) : StrictServerInterface W := {|
  ssi_GetJSONMetrics := λ _, visited Visit_GetJSONMetrics200 (Server_GetJSONMetrics s);
  ssi_ListNotifications := λ req, visited Visit_ListNotifications200 (Server_ListNotifications s (ro_Params req));
  ssi_CreateNotification := λ req, visited Visit_CreateNotification202 (Server_CreateNotification s (ro_Params req) (ro_Body req));
  ssi_CreateBatch := λ req, visited Visit_CreateBatch202 (Server_CreateBatch s (ro_Params req) (ro_Body req));
  ssi_GetBatch := λ req, visited Visit_GetBatch200 (Server_GetBatch s (ro_Id req));
  ssi_GetNotification := λ req, visited Visit_GetNotification200 (Server_GetNotification s (ro_Id req));
  ssi_CancelNotification := λ req, visited Visit_CancelNotification200 (Server_CancelNotification s (ro_Id req));
  ssi_GetNotificationTrace := λ req, visited Visit_GetNotificationTrace200 (Server_GetNotificationTrace s (ro_Id req));
  ssi_ListTemplates := λ req, visited Visit_ListTemplates200 (Server_ListTemplates s (ro_Params req));
  ssi_CreateTemplate := λ req, visited Visit_CreateTemplate201 (Server_CreateTemplate s (ro_Body req));
  ssi_DeleteTemplate := λ req, visited Visit_DeleteTemplate204 (Server_DeleteTemplate s (ro_Id req));
  ssi_GetTemplate := λ req, visited Visit_GetTemplate200 (Server_GetTemplate s (ro_Id req));
  ssi_ReplaceTemplate := λ req, visited Visit_ReplaceTemplate200 (Server_ReplaceTemplate s (ro_Id req) (ro_Body req));
  ssi_GetHealthzLive := λ _, visited Visit_GetHealthzReady Server_GetHealthzLive;
  ssi_GetHealthzReady := λ _, visited Visit_GetHealthzReady (Server_GetHealthzReady s);
  ssi_GetPrometheusMetrics := λ _, visited Visit_GetPrometheusMetrics200 (Server_GetPrometheusMetrics s) |}.
#[global] Coercion strict_server : http_Server >-> StrictServerInterface.

(** ** Strict handlers *)

(** Decode the request, run the operation, write its response; every error goes
    to the error handler. *)
Definition strict {W Req} (r : Request) (request : res Req) (op : Req → M W ResponseObject) (w : W) :
    list event * W :=
  match request with
  | Err e => (RespondWithError r (Wrapped "can't decode JSON body" e), w)
  | Ok req =>
      match op req w with
      | (Err e, w) => (RespondWithError r e, w)
      | (Ok validResponse, w) =>
          match validResponse with
          | Ok es => (es, w)
          | Err e => (RespondWithError r e, w)
          end
      end
  end.

Definition zero_template : CreateTemplateRequest := mkCreateTemplateRequest "" "" "" None.
Section strict.
Context {W : Type} `{GoogleUUID, TimeParse} (ssi : StrictServerInterface W).
Definition strict_GetJSONMetrics (params : ReadParams) : Handler W := λ r _,
  strict r (Ok (mkRequestObject tt params tt)) (ssi_GetJSONMetrics ssi).
Definition strict_ListNotifications (params : ListNotificationsParams) : Handler W := λ r _,
  strict r (Ok (mkRequestObject tt params tt)) (ssi_ListNotifications ssi).
Definition strict_CreateNotification (params : WriteParams) : Handler W := λ r _,
  strict r (Decode decode_create zero_create (ReqBody r))
    (λ body, ssi_CreateNotification ssi (mkRequestObject tt params (Some body))).
Definition strict_CreateBatch (params : WriteParams) : Handler W := λ r _,
  strict r (Decode decode_batch (mkCreateBatchRequest None [] []) (ReqBody r))
    (λ body, ssi_CreateBatch ssi (mkRequestObject tt params (Some body))).
Definition strict_GetBatch (bid : uuid) (params : ReadParams) : Handler W := λ r _,
  strict r (Ok (mkRequestObject bid params tt)) (ssi_GetBatch ssi).
Definition strict_GetNotification (nid : uuid) (params : ReadParams) : Handler W := λ r _,
  strict r (Ok (mkRequestObject nid params tt)) (ssi_GetNotification ssi).
Definition strict_CancelNotification (nid : uuid) (params : WriteParams) : Handler W := λ r _,
  strict r (Ok (mkRequestObject nid params tt)) (ssi_CancelNotification ssi).
Definition strict_GetNotificationTrace (nid : uuid) (params : ReadParams) : Handler W := λ r _,
  strict r (Ok (mkRequestObject nid params tt)) (ssi_GetNotificationTrace ssi).
Definition strict_ListTemplates (params : ListTemplatesParams) : Handler W := λ r _,
  strict r (Ok (mkRequestObject tt params tt)) (ssi_ListTemplates ssi).
Definition strict_CreateTemplate (params : WriteParams) : Handler W := λ r _,
  strict r (Decode decode_template zero_template (ReqBody r))
    (λ body, ssi_CreateTemplate ssi (mkRequestObject tt params (Some body))).
Definition strict_DeleteTemplate (tid : uuid) (params : ReadParams) : Handler W := λ r _,
  strict r (Ok (mkRequestObject tid params tt)) (ssi_DeleteTemplate ssi).
Definition strict_GetTemplate (tid : uuid) (params : ReadParams) : Handler W := λ r _,
  strict r (Ok (mkRequestObject tid params tt)) (ssi_GetTemplate ssi).
Definition strict_ReplaceTemplate (tid : uuid) (params : WriteParams) : Handler W := λ r _,
  strict r (Decode decode_template zero_template (ReqBody r))
    (λ body, ssi_ReplaceTemplate ssi (mkRequestObject tid params (Some body))).
Definition strict_GetHealthzLive : Handler W := λ r _,
  strict r (Ok (mkRequestObject tt tt tt)) (ssi_GetHealthzLive ssi).
Definition strict_GetHealthzReady : Handler W := λ r _,
  strict r (Ok (mkRequestObject tt tt tt)) (ssi_GetHealthzReady ssi).
Definition strict_GetPrometheusMetrics : Handler W := λ r _,
  strict r (Ok (mkRequestObject tt tt tt)) (ssi_GetPrometheusMetrics ssi).
End strict.

(** ** The generated server interface

    One method per operation, given the bound parameters. *)
Record ServerInterface (W : Type) := mkServerInterface {
  si_GetJSONMetrics : ReadParams → Handler W;
  si_ListNotifications : ListNotificationsParams → Handler W;
  si_CreateNotification : WriteParams → Handler W;
  si_CreateBatch : WriteParams → Handler W;
  si_GetBatch : uuid → ReadParams → Handler W;
  si_GetNotification : uuid → ReadParams → Handler W;
  si_CancelNotification : uuid → WriteParams → Handler W;
  si_GetNotificationTrace : uuid → ReadParams → Handler W;
  si_ListTemplates : ListTemplatesParams → Handler W;
  si_CreateTemplate : WriteParams → Handler W;
  si_DeleteTemplate : uuid → ReadParams → Handler W;
  si_GetTemplate : uuid → ReadParams → Handler W;
  si_ReplaceTemplate : uuid → WriteParams → Handler W;
  si_GetHealthzLive : Handler W;
  si_GetHealthzReady : Handler W;
  si_GetPrometheusMetrics : Handler W }.
Arguments si_GetJSONMetrics {W}.
Arguments si_ListNotifications {W}.
Arguments si_CreateNotification {W}.
Arguments si_CreateBatch {W}.
Arguments si_GetBatch {W}.
Arguments si_GetNotification {W}.
Arguments si_CancelNotification {W}.
Arguments si_GetNotificationTrace {W}.
Arguments si_ListTemplates {W}.
Arguments si_CreateTemplate {W}.
Arguments si_DeleteTemplate {W}.
Arguments si_GetTemplate {W}.
Arguments si_ReplaceTemplate {W}.
Arguments si_GetHealthzLive {W}.
Arguments si_GetHealthzReady {W}.
Arguments si_GetPrometheusMetrics {W}.

(** The generated default: every method answers 501. *)
Definition not_implemented {W} : Handler W := λ _ _ w, ([WriteHeader 501], w).
Definition Unimplemented_GetJSONMetrics {W} (_ : ReadParams) : Handler W := not_implemented.
Definition Unimplemented_ListNotifications {W} (_ : ListNotificationsParams) : Handler W := not_implemented.
Definition Unimplemented_CreateNotification {W} (_ : WriteParams) : Handler W := not_implemented.
Definition Unimplemented_CreateBatch {W} (_ : WriteParams) : Handler W := not_implemented.
Definition Unimplemented_GetBatch {W} (_ : uuid) (_ : ReadParams) : Handler W := not_implemented.
Definition Unimplemented_GetNotification {W} (_ : uuid) (_ : ReadParams) : Handler W := not_implemented.
Definition Unimplemented_CancelNotification {W} (_ : uuid) (_ : WriteParams) : Handler W := not_implemented.
Definition Unimplemented_GetNotificationTrace {W} (_ : uuid) (_ : ReadParams) : Handler W := not_implemented.
Definition Unimplemented_ListTemplates {W} (_ : ListTemplatesParams) : Handler W := not_implemented.
Definition Unimplemented_CreateTemplate {W} (_ : WriteParams) : Handler W := not_implemented.
Definition Unimplemented_DeleteTemplate {W} (_ : uuid) (_ : ReadParams) : Handler W := not_implemented.
Definition Unimplemented_GetTemplate {W} (_ : uuid) (_ : ReadParams) : Handler W := not_implemented.
Definition Unimplemented_ReplaceTemplate {W} (_ : uuid) (_ : WriteParams) : Handler W := not_implemented.
Definition Unimplemented_GetHealthzLive {W} : Handler W := not_implemented.
Definition Unimplemented_GetHealthzReady {W} : Handler W := not_implemented.
Definition Unimplemented_GetPrometheusMetrics {W} : Handler W := not_implemented.
Definition Unimplemented {W} : ServerInterface W := {|
  si_GetJSONMetrics := Unimplemented_GetJSONMetrics;
  si_ListNotifications := Unimplemented_ListNotifications;
  si_CreateNotification := Unimplemented_CreateNotification;
  si_CreateBatch := Unimplemented_CreateBatch;
  si_GetBatch := Unimplemented_GetBatch;
  si_GetNotification := Unimplemented_GetNotification;
  si_CancelNotification := Unimplemented_CancelNotification;
  si_GetNotificationTrace := Unimplemented_GetNotificationTrace;
  si_ListTemplates := Unimplemented_ListTemplates;
  si_CreateTemplate := Unimplemented_CreateTemplate;
  si_DeleteTemplate := Unimplemented_DeleteTemplate;
  si_GetTemplate := Unimplemented_GetTemplate;
  si_ReplaceTemplate := Unimplemented_ReplaceTemplate;
  si_GetHealthzLive := Unimplemented_GetHealthzLive;
  si_GetHealthzReady := Unimplemented_GetHealthzReady;
  si_GetPrometheusMetrics := Unimplemented_GetPrometheusMetrics |}.

(** [NewStrictHandlerWithOptions] with [RespondWithError] as both error handlers. *)
Definition NewStrictHandler {W} `{GoogleUUID, TimeParse} (ssi : StrictServerInterface W) : ServerInterface W := {|
  si_GetJSONMetrics := strict_GetJSONMetrics ssi;
  si_ListNotifications := strict_ListNotifications ssi;
  si_CreateNotification := strict_CreateNotification ssi;
  si_CreateBatch := strict_CreateBatch ssi;
  si_GetBatch := strict_GetBatch ssi;
  si_GetNotification := strict_GetNotification ssi;
  si_CancelNotification := strict_CancelNotification ssi;
  si_GetNotificationTrace := strict_GetNotificationTrace ssi;
  si_ListTemplates := strict_ListTemplates ssi;
  si_CreateTemplate := strict_CreateTemplate ssi;
  si_DeleteTemplate := strict_DeleteTemplate ssi;
  si_GetTemplate := strict_GetTemplate ssi;
  si_ReplaceTemplate := strict_ReplaceTemplate ssi;
  si_GetHealthzLive := strict_GetHealthzLive ssi;
  si_GetHealthzReady := strict_GetHealthzReady ssi;
  si_GetPrometheusMetrics := strict_GetPrometheusMetrics ssi |}.

(** ** Parameter binding *)

(** Why a query parameter does not bind. *)
Inductive bind_error := Required | Invalid (text : string).
Class ParamBinding := {
  bind_header : string → string → string + string;  (** name, value: the value or why not *)
  bind_path_uuid : string → Request → string + uuid;
  bind_query_string : string → Request → bind_error + option string;
  bind_query_uuid : string → Request → bind_error + option uuid;
  bind_query_time : string → Request → bind_error + option Time;
  bind_query_int : string → Request → bind_error + option Z;
}.
(** A bound parameter, or what the default [ErrorHandlerFunc] answers. *)
Abbreviation bound := (result (list event)).
Definition ErrorHandlerFunc (text : string) : list event := http_Error text 400.
Definition invalid_format (name text : string) : list event :=
  ErrorHandlerFunc ("Invalid format for parameter " +:+ name +:+ ": " +:+ text)%string.
Definition too_many_values (name : string) (count : nat) : list event :=
  ErrorHandlerFunc ("Expected one value for " +:+ name +:+ ", got " +:+ FormatInt (Z.of_nat count))%string.

Section binding.
Context `{ParamBinding}.
Definition header_param (name : string) (r : Request) : bound (option string) :=
  match Header r !! CanonicalHeaderKey name with
  | None => Ok None
  | Some [v] => match bind_header name v with
                | inr v => Ok (Some v)
                | inl text => Err (invalid_format name text)
                end
  | Some vs => Err (too_many_values name (length vs))
  end.
Definition path_id (r : Request) : bound uuid :=
  match bind_path_uuid "id" r with inr u => Ok u | inl text => Err (invalid_format "id" text) end.
Definition query_param {A} (b : string → Request → bind_error + option A) (name : string) (r : Request) :
    bound (option A) :=
  match b name r with
  | inr v => Ok v
  | inl Required => Err (ErrorHandlerFunc ("Query argument " +:+ name +:+ " is required, but not found")%string)
  | inl (Invalid text) => Err (invalid_format name text)
  end.
Definition write_params (r : Request) : bound WriteParams :=
  key ← header_param "Idempotency-Key" r;
  cid ← header_param "X-Correlation-ID" r;
  Ok (mkWriteParams key cid).
Definition read_params (r : Request) : bound ReadParams :=
  cid ← header_param "X-Correlation-ID" r;
  Ok (mkReadParams cid).
(** The wrapper of an operation: bind its parameters, then serve it. *)
Definition wrapper {W P} (params : Request → bound P) (serve : P → Handler W) : Handler W := λ r h w,
  match params r with
  | Ok p => serve p r h w
  | Err es => (es, w)
  end.

Context {W : Type} (si : ServerInterface W).
Definition siw_GetJSONMetrics : Handler W := wrapper read_params (si_GetJSONMetrics si).
Definition list_params (r : Request) : bound ListNotificationsParams :=
  status ← query_param bind_query_string "status" r;
  channel ← query_param bind_query_string "channel" r;
  bid ← query_param bind_query_uuid "batch_id" r;
  after ← query_param bind_query_time "created_after" r;
  before ← query_param bind_query_time "created_before" r;
  cursor ← query_param bind_query_string "cursor" r;
  limit ← query_param bind_query_int "limit" r;
  cid ← header_param "X-Correlation-ID" r;
  Ok (mkListNotificationsParams status channel bid after before cursor limit cid).
Definition siw_ListNotifications : Handler W := wrapper list_params (si_ListNotifications si).
Definition siw_CreateNotification : Handler W := wrapper write_params (si_CreateNotification si).
Definition siw_CreateBatch : Handler W := wrapper write_params (si_CreateBatch si).
(** The id of the path, then the header parameters. *)
Definition id_and {P} (params : Request → bound P) (r : Request) : bound (uuid * P) :=
  u ← path_id r; p ← params r; Ok (u, p).
Definition siw_GetBatch : Handler W := wrapper (id_and read_params) (uncurry (si_GetBatch si)).
Definition siw_GetNotification : Handler W := wrapper (id_and read_params) (uncurry (si_GetNotification si)).
Definition siw_CancelNotification : Handler W := wrapper (id_and write_params) (uncurry (si_CancelNotification si)).
Definition siw_GetNotificationTrace : Handler W := wrapper (id_and read_params) (uncurry (si_GetNotificationTrace si)).
Definition list_templates_params (r : Request) : bound ListTemplatesParams :=
  channel ← query_param bind_query_string "channel" r;
  cursor ← query_param bind_query_string "cursor" r;
  limit ← query_param bind_query_int "limit" r;
  cid ← header_param "X-Correlation-ID" r;
  Ok (mkListTemplatesParams channel cursor limit cid).
Definition siw_ListTemplates : Handler W := wrapper list_templates_params (si_ListTemplates si).
Definition siw_CreateTemplate : Handler W := wrapper write_params (si_CreateTemplate si).
Definition siw_DeleteTemplate : Handler W := wrapper (id_and read_params) (uncurry (si_DeleteTemplate si)).
Definition siw_GetTemplate : Handler W := wrapper (id_and read_params) (uncurry (si_GetTemplate si)).
Definition siw_ReplaceTemplate : Handler W := wrapper (id_and write_params) (uncurry (si_ReplaceTemplate si)).
Definition siw_GetHealthzLive : Handler W := si_GetHealthzLive si.
Definition siw_GetHealthzReady : Handler W := si_GetHealthzReady si.
Definition siw_GetPrometheusMetrics : Handler W := si_GetPrometheusMetrics si.

(** ** Routes *)
Definition routes : list (string * string * Handler W) := [
  ("GET", "/api/v1/metrics", siw_GetJSONMetrics);
  ("GET", "/api/v1/notifications", siw_ListNotifications);
  ("POST", "/api/v1/notifications", siw_CreateNotification);
  ("POST", "/api/v1/notifications/batch", siw_CreateBatch);
  ("GET", "/api/v1/notifications/batch/{id}", siw_GetBatch);
  ("GET", "/api/v1/notifications/{id}", siw_GetNotification);
  ("PATCH", "/api/v1/notifications/{id}/cancel", siw_CancelNotification);
  ("GET", "/api/v1/notifications/{id}/trace", siw_GetNotificationTrace);
  ("GET", "/api/v1/templates", siw_ListTemplates);
  ("POST", "/api/v1/templates", siw_CreateTemplate);
  ("DELETE", "/api/v1/templates/{id}", siw_DeleteTemplate);
  ("GET", "/api/v1/templates/{id}", siw_GetTemplate);
  ("PUT", "/api/v1/templates/{id}", siw_ReplaceTemplate);
  ("GET", "/healthz/live", siw_GetHealthzLive);
  ("GET", "/healthz/ready", siw_GetHealthzReady);
  ("GET", "/metrics", siw_GetPrometheusMetrics)].
End binding.

(** chi: which registered method and pattern a request matches, and what an
    unmatched request is answered. *)
Class Chi := {
  chi_match : list (string * string) → Request → option (string * string);
  chi_unmatched : Request → list event;
}.
(** A match is one of the registered routes; a path without parameters that is
    registered literally matches itself. *)
Class ChiLaws `{Chi} : Prop := {
  chi_match_registered rs r rt : chi_match rs r = Some rt → rt ∈ rs;
  chi_match_literal rs r : (Method r, URL_Path r) ∈ rs → contains "{"%char (URL_Path r) = false →
    chi_match rs r = Some (Method r, URL_Path r);
}.
Section mux.
Context `{Chi} {W : Type}.
Definition patterns (rs : list (string * string * Handler W)) : list (string * string) := rs.*1.
Definition mux (rs : list (string * string * Handler W)) : Handler W := λ r h w,
  match chi_match (patterns rs) r with
  | None => (chi_unmatched r, w)
  | Some rt =>
      match List.find (λ x, bool_decide (x.1 = rt)) rs with
      | Some (_, handler) => handler r h w
      | None => (chi_unmatched r, w)
      end
  end.
Definition RoutePattern (rs : list (string * string * Handler W)) (r : Request) : string :=
  match chi_match (patterns rs) r with Some (_, pattern) => pattern | None => "" end.
End mux.

(** ** Edges of the API *)

(** An empty body is answered as an internal error, not as a client error. *)
Lemma empty_body_is_500 `{GoogleUUID, TimeParse} {W} (s : http_Server W) params r h hd w :
  ReqBody r = Some ("", None) →
  rs_status (respond hd (strict_CreateNotification s params r h w).1) = 500.
Proof. intros Hb. unfold strict_CreateNotification, strict. by rewrite Hb. Qed.
(** So is a schedule that is not a time. *)
Lemma bad_schedule_is_500 `{GoogleUUID} {W} (s : http_Server W) params r h hd w :
  let parse : TimeParse := λ _, Err (Opaque "parsing time") in
  ReqBody r = Some (Marshal (JObj [("scheduled_at", JStr "soon")]), None) →
  rs_status (respond hd (strict_CreateNotification s params r h w).1) = 500.
Proof. intros parse Hb. unfold strict_CreateNotification, strict. by rewrite Hb. Qed.
(** A malformed id in the path is answered with plain text. *)
Lemma invalid_id_is_plain_text `{ParamBinding, GoogleUUID, TimeParse} {W} (s : http_Server W) r h hd w text :
  bind_path_uuid "id" r = inl text →
  let resp := respond hd (siw_GetNotification (NewStrictHandler s) r h w).1 in
  rs_status resp = 400 ∧ header_Get (rs_header resp) "Content-Type" = "text/plain; charset=utf-8".
Proof.
  intros Hb. unfold siw_GetNotification, wrapper, id_and, path_id. rewrite Hb. simpl.
  split; [done|]. unfold respond, finish. cbn -[header_Get header_Set].
  rewrite header_Get_Set_ne by (by vm_compute). by rewrite header_Get_Set.
Qed.
