(* ===== verification/Docs.v ===== *)
(** The documentation routes (internal/adapters/http/docs_handler.go). *)

From S2P Require Import Prelude GoStrings Http ApiServer.

(** Every single quote of a text as a double quote. *)
Fixpoint quoted (s : string) : string :=
  match s with
  | EmptyString => EmptyString
  | String c s => String (if bool_decide (c = "'"%char) then byte 34 else c) (quoted s)
  end.
(** The page, whose attributes are quoted below with single quotes. *)
Definition swaggerUIPage : string := quoted
"<!doctype html>
<html lang='en'>
<head>
<meta charset='utf-8'>
<meta name='viewport' content='width=device-width, initial-scale=1'>
<title>Notification System API · Swagger UI</title>
<link rel='stylesheet' href='https://unpkg.com/swagger-ui-dist@5.17.14/swagger-ui.css'>
</head>
<body>
<div id='swagger-ui'></div>
<script src='https://unpkg.com/swagger-ui-dist@5.17.14/swagger-ui-bundle.js' crossorigin></script>
<script>
window.addEventListener('load', function () {
  window.ui = SwaggerUIBundle({
    url: '/docs/openapi.yaml',
    dom_id: '#swagger-ui',
    deepLinking: true,
  });
});
</script>
</body>
</html>
".

Section docs.
Context {W : Type}.
Implicit Type w : W.
Definition serveSwaggerUI : Handler W := λ _ _ w,
  ([Header_Set "Content-Type" "text/html; charset=utf-8"; WriteHeader 200; Write swaggerUIPage], w).
(** [openapiSpecYAML] is embedded when the program is built. *)
Definition serveSpecYAML (openapiSpecYAML : string) : Handler W := λ _ _ w,
  ([Header_Set "Content-Type" "application/yaml"; WriteHeader 200; Write openapiSpecYAML], w).
Definition MountDocs (openapiSpecYAML : string) : list (string * string * Handler W) := [
  ("GET", "/docs", serveSwaggerUI);
  ("GET", "/docs/", serveSwaggerUI);
  ("GET", "/docs/openapi.yaml", serveSpecYAML openapiSpecYAML)].
End docs.
