(* ===== verification/ApiFailures.v ===== *)
(** The failure responses the generated API declares (api.gen.go): one type per
    operation and status, each written as a problem document.  The handlers
    return errors instead, which the error handler renders, so only their own
    writers are modelled here. *)

From S2P Require Import Prelude GoStrings Strconv Errors Notification.
From S2P Require Import Json Http ApiTypes Handlers ApiServer.

(** The writer they share; a 429 may carry a Retry-After. *)
Definition visit_problem (status : Z) (retryAfter : option Z) (p : AProblem) : res (list event) :=
  body ← AProblem_json p;
  Ok ([Header_Set "Content-Type" problemContentType] ++ opt_header "Retry-After" (FormatInt <$> retryAfter)
      ++ [WriteHeader status; Write (Marshal body +:+ newline)%string]).

Definition Visit_ListNotifications400 := visit_problem 400 None.
Definition Visit_ListNotifications429 (RetryAfter : option Z) := visit_problem 429 RetryAfter.
Definition Visit_ListNotifications500 := visit_problem 500 None.
Definition Visit_CreateNotification400 := visit_problem 400 None.
Definition Visit_CreateNotification409 := visit_problem 409 None.
Definition Visit_CreateNotification413 := visit_problem 413 None.
Definition Visit_CreateNotification422 := visit_problem 422 None.
Definition Visit_CreateNotification429 (RetryAfter : option Z) := visit_problem 429 RetryAfter.
Definition Visit_CreateNotification500 := visit_problem 500 None.
Definition Visit_CreateBatch400 := visit_problem 400 None.
Definition Visit_CreateBatch422 := visit_problem 422 None.
Definition Visit_CreateBatch429 (RetryAfter : option Z) := visit_problem 429 RetryAfter.
Definition Visit_CreateBatch500 := visit_problem 500 None.
Definition Visit_GetBatch404 := visit_problem 404 None.
Definition Visit_GetBatch500 := visit_problem 500 None.
Definition Visit_GetNotification404 := visit_problem 404 None.
Definition Visit_GetNotification500 := visit_problem 500 None.
Definition Visit_CancelNotification404 := visit_problem 404 None.
Definition Visit_CancelNotification409 := visit_problem 409 None.
Definition Visit_CancelNotification500 := visit_problem 500 None.
Definition Visit_GetNotificationTrace404 := visit_problem 404 None.
Definition Visit_GetNotificationTrace500 := visit_problem 500 None.
Definition Visit_ListTemplates500 := visit_problem 500 None.
Definition Visit_CreateTemplate400 := visit_problem 400 None.
Definition Visit_CreateTemplate409 := visit_problem 409 None.
Definition Visit_CreateTemplate500 := visit_problem 500 None.
Definition Visit_DeleteTemplate404 := visit_problem 404 None.
Definition Visit_DeleteTemplate409 := visit_problem 409 None.
Definition Visit_GetTemplate404 := visit_problem 404 None.
Definition Visit_ReplaceTemplate400 := visit_problem 400 None.
Definition Visit_ReplaceTemplate404 := visit_problem 404 None.

(** Every declared failure: its operation, status and writer, given a hint for
    the client's retry. *)
Definition failures (hint : option Z) : list (string * Z * (AProblem → res (list event))) := [
  ("ListNotifications", 400, Visit_ListNotifications400);
  ("ListNotifications", 429, Visit_ListNotifications429 hint);
  ("ListNotifications", 500, Visit_ListNotifications500);
  ("CreateNotification", 400, Visit_CreateNotification400);
  ("CreateNotification", 409, Visit_CreateNotification409);
  ("CreateNotification", 413, Visit_CreateNotification413);
  ("CreateNotification", 422, Visit_CreateNotification422);
  ("CreateNotification", 429, Visit_CreateNotification429 hint);
  ("CreateNotification", 500, Visit_CreateNotification500);
  ("CreateBatch", 400, Visit_CreateBatch400);
  ("CreateBatch", 422, Visit_CreateBatch422);
  ("CreateBatch", 429, Visit_CreateBatch429 hint);
  ("CreateBatch", 500, Visit_CreateBatch500);
  ("GetBatch", 404, Visit_GetBatch404);
  ("GetBatch", 500, Visit_GetBatch500);
  ("GetNotification", 404, Visit_GetNotification404);
  ("GetNotification", 500, Visit_GetNotification500);
  ("CancelNotification", 404, Visit_CancelNotification404);
  ("CancelNotification", 409, Visit_CancelNotification409);
  ("CancelNotification", 500, Visit_CancelNotification500);
  ("GetNotificationTrace", 404, Visit_GetNotificationTrace404);
  ("GetNotificationTrace", 500, Visit_GetNotificationTrace500);
  ("ListTemplates", 500, Visit_ListTemplates500);
  ("CreateTemplate", 400, Visit_CreateTemplate400);
  ("CreateTemplate", 409, Visit_CreateTemplate409);
  ("CreateTemplate", 500, Visit_CreateTemplate500);
  ("DeleteTemplate", 404, Visit_DeleteTemplate404);
  ("DeleteTemplate", 409, Visit_DeleteTemplate409);
  ("GetTemplate", 404, Visit_GetTemplate404);
  ("ReplaceTemplate", 400, Visit_ReplaceTemplate400);
  ("ReplaceTemplate", 404, Visit_ReplaceTemplate404)].

Lemma visit_problem_response st ra p j h : AProblem_json p = Ok j → informational st = false →
  ∃ es, visit_problem st ra p = Ok es ∧
    let resp := respond h es in
    rs_status resp = st ∧ rs_body resp = (Marshal j +:+ newline)%string ∧
    header_Get (rs_header resp) "Content-Type" = problemContentType ∧
    (∀ n, ra = Some n → header_Get (rs_header resp) "Retry-After" = FormatInt n).
Proof.
  intros Hj Hst. unfold visit_problem. rewrite Hj. eexists. split; [done|].
  rewrite app_assoc, respond_whole by first [exact Hst|by destruct ra; repeat constructor].
  cbn [rs_status rs_header rs_body]. destruct ra as [n|]; cbn [opt_header fmap option_fmap option_map].
  - split_and!; [done|done| |intros ? [= <-]; exact (header_Get_Set _ _ _)].
    refine (eq_trans (header_Get_Set_ne _ _ _ _ _) (header_Get_Set _ _ _)). by vm_compute.
  - split_and!; [done|done|exact (header_Get_Set _ _ _)|done].
Qed.
(** Every failure the API declares is a problem document with the status of
    its name, and a 429 tells the client when to retry. *)
Theorem failures_are_problems hint op st visit p j h :
  (op, st, visit) ∈ failures hint → AProblem_json p = Ok j →
  ∃ es, visit p = Ok es ∧
    let resp := respond h es in
    rs_status resp = st ∧ rs_body resp = (Marshal j +:+ newline)%string ∧
    header_Get (rs_header resp) "Content-Type" = problemContentType ∧
    (st = 429 → ∀ n, hint = Some n → header_Get (rs_header resp) "Retry-After" = FormatInt n).
Proof.
  intros Hin Hj. assert (∃ ra, visit = visit_problem st ra ∧ (st = 429 → ra = hint) ∧ informational st = false) as (ra & -> & Hra & Hst).
  { unfold failures in Hin. repeat (apply elem_of_cons in Hin as [[= -> -> ->]|Hin]; [by eexists|]).
    by apply elem_of_nil in Hin. }
  destruct (visit_problem_response st ra p j h Hj Hst) as (es & He & Hs & Hb & Hc & Hr).
  exists es. split; [done|]. cbv zeta. split_and!; [done..|]. intros H429 n Hn. apply Hr. by rewrite Hra.
Qed.

(** ** Operations nobody implements *)
Section defaults.
Context `{ParamBinding, GoogleUUID, TimeParse} {W : Type}.
Implicit Types (w : W) (r : Request).

(** What a route answers instead of its operation, and the state it keeps. *)
Definition answered_501 (handler : Handler W) : Prop := ∀ r h w,
  (handler r h w).2 = w ∧
  (rs_status (respond h (handler r h w).1) = 501 ∨ ∃ text, (handler r h w).1 = ErrorHandlerFunc text).
Definition refuses {A} (b : bound A) : Prop := ∀ es, b = Err es → ∃ text, es = ErrorHandlerFunc text.

Lemma refuses_bind {A B} (k : A → bound B) (b : bound A) : refuses b → (∀ a, refuses (k a)) → refuses (b ≫= k).
Proof. intros Hb Hk es. destruct b as [a|e]; [apply Hk|]. intros [=<-]. by apply Hb. Qed.
Lemma refuses_ok {A} (a : A) : refuses (Ok a).
Proof. by intros es. Qed.
Lemma header_param_refuses name r : refuses (header_param name r).
Proof.
  unfold header_param. intros es. destruct (Header r !! _) as [[|v [|v' l]]|]; [|destruct (bind_header name v)|..];
    intros [=<-]; by eexists.
Qed.
Lemma path_id_refuses r : refuses (path_id r).
Proof. unfold path_id. intros es. destruct (bind_path_uuid "id" r); intros [=<-]; by eexists. Qed.
Lemma query_param_refuses {A} (b : string → Request → bind_error + option A) name r : refuses (query_param b name r).
Proof. unfold query_param. intros es. destruct (b name r) as [[]|]; intros [=<-]; by eexists. Qed.
#[local] Hint Resolve refuses_bind refuses_ok header_param_refuses path_id_refuses query_param_refuses : refuses.
Lemma params_refuse r : refuses (read_params r) ∧ refuses (write_params r) ∧ refuses (list_params r) ∧
  refuses (list_templates_params r).
Proof. split_and!; repeat (apply refuses_bind; [auto with refuses|intros ?]); auto with refuses. Qed.
Lemma id_and_refuses {P} (params : Request → bound P) r : refuses (params r) → refuses (id_and params r).
Proof. intros Hp. apply refuses_bind; [auto with refuses|]. intros u. apply refuses_bind; [done|auto with refuses]. Qed.
Lemma wrapper_501 {P} (params : Request → bound P) (serve : P → Handler W) :
  (∀ r, refuses (params r)) → (∀ p, answered_501 (serve p)) → answered_501 (wrapper params serve).
Proof.
  intros Hp Hs r h w. unfold wrapper. destruct (params r) as [p|es] eqn:E; [apply Hs|].
  split; [done|]. right. by apply (Hp r).
Qed.
Lemma not_implemented_501 : answered_501 not_implemented.
Proof. intros r h w. split; [done|by left]. Qed.

(** The generated default serves every route of the document with 501 and an
    empty body, unless a parameter does not bind, and touches no state. *)
Theorem unimplemented_routes rt handler :
  (rt, handler) ∈ routes (Unimplemented (W := W)) → answered_501 handler.
Proof.
  assert (∀ r, refuses (read_params r) ∧ refuses (write_params r) ∧ refuses (list_params r) ∧
    refuses (list_templates_params r)) as Hp by apply params_refuse.
  intros Hin. unfold routes in Hin.
  repeat (apply elem_of_cons in Hin as [Hin|Hin]; [injection Hin as -> ->|]); [..|by apply elem_of_nil in Hin];
    try exact not_implemented_501; apply wrapper_501; try (intros r; try apply id_and_refuses; apply Hp);
    try (intros [u p]; exact not_implemented_501); intros p; exact not_implemented_501.
Qed.

(** Unfold a strict operation down to the executor it asks. *)
Ltac unfold_op :=
  cbv delta [strict_GetBatch strict_GetNotification strict_CancelNotification strict_GetNotificationTrace
    strict_ListNotifications strict_ListTemplates strict_GetTemplate strict_DeleteTemplate strict_GetJSONMetrics
    strict_GetPrometheusMetrics strict_CreateNotification strict_CreateBatch strict_CreateTemplate
    strict_ReplaceTemplate strict strict_server Server_GetBatch Server_GetNotification Server_CancelNotification
    Server_GetNotificationTrace Server_ListNotifications Server_ListTemplates Server_GetTemplate
    Server_DeleteTemplate Server_GetJSONMetrics Server_GetPrometheusMetrics Server_CreateNotification
    Server_CreateBatch Server_CreateTemplate Server_ReplaceTemplate]; cbn beta iota.

(** A server hands the error of an operation that was not wired to the error
    handler, which answers it with 501, and runs nothing for it. *)
Theorem unwired_operations (s : http_Server W) r h w :
  let refused := (RespondWithError r (Sentinel ErrNotImplemented), w) in
  (getBatch s = None → ∀ u p, strict_GetBatch s u p r h w = refused) ∧
  (getNotification s = None → ∀ u p, strict_GetNotification s u p r h w = refused) ∧
  (cancelNotification s = None → ∀ u p, strict_CancelNotification s u p r h w = refused) ∧
  (getNotificationTrace s = None → ∀ u p, strict_GetNotificationTrace s u p r h w = refused) ∧
  (listNotifications s = None → ∀ p, strict_ListNotifications s p r h w = refused) ∧
  (listTemplates s = None → ∀ p, strict_ListTemplates s p r h w = refused) ∧
  (getTemplate s = None → ∀ u p, strict_GetTemplate s u p r h w = refused) ∧
  (deleteTemplate s = None → ∀ u p, strict_DeleteTemplate s u p r h w = refused) ∧
  (jsonMetrics s = None → ∀ p, strict_GetJSONMetrics s p r h w = refused) ∧
  (prometheusGatherer s = None → strict_GetPrometheusMetrics s r h w = refused) ∧
  (createNotification s = None → ∀ p b, Decode decode_create zero_create (ReqBody r) = Ok b →
     strict_CreateNotification s p r h w = refused) ∧
  (createBatch s = None → ∀ p b, Decode decode_batch (mkCreateBatchRequest None [] []) (ReqBody r) = Ok b →
     strict_CreateBatch s p r h w = refused) ∧
  (createTemplate s = None → ∀ p b, Decode decode_template zero_template (ReqBody r) = Ok b →
     strict_CreateTemplate s p r h w = refused) ∧
  (replaceTemplate s = None → ∀ u p b, Decode decode_template zero_template (ReqBody r) = Ok b →
     strict_ReplaceTemplate s u p r h w = refused).
Proof.
  cbv zeta. split_and!; intros Hs; intros; unfold_op; unfold visited, wired; rewrite Hs;
    try done; match goal with Hb : Decode _ _ _ = _ |- _ => by rewrite Hb end.
Qed.
End defaults.
