(* ===== verification/ApiProcess.v ===== *)
(** The API process (cmd/api/main.go) with the production clock and id
    generator (internal/infrastructure/id): the executors behind the handlers,
    the chain of middlewares, and a request followed from the router to the
    database. *)

From S2P Require Import Prelude GoStrings RFC3339 Uuid Errors ValueObjects Notification Batch Template.
From S2P Require Import Json Ports RepoSpec CreateNotification CancelNotification CreateBatch Queries.
From S2P Require Import TemplateUseCases Http ApiTypes Handlers Middleware ApiServer Docs.

(** ** internal/infrastructure/id

    [NewV7] can fail with the random source; [k] numbers the calls. *)
Class UUIDSource := { NewV7 : nat → res uuid; NewV4 : nat → uuid }.
Definition newUUIDv7OrV4 `{UUIDSource} (k : nat) : string :=
  match NewV7 k with Ok u => uuid_text u | Err _ => uuid_text (NewV4 k) end.
Definition Generator `{UUIDSource} : IDGenerator := {|
  Gen_NotificationID := newUUIDv7OrV4; Gen_BatchID := newUUIDv7OrV4; Gen_TemplateID := newUUIDv7OrV4;
  Gen_LogID := newUUIDv7OrV4; Gen_CorrelationID k := uuid_text (NewV4 k) |}.
Lemma newUUIDv7OrV4_canonical `{UUIDSource} k : ∃ u, newUUIDv7OrV4 k = uuid_text u.
Proof. unfold newUUIDv7OrV4. destruct (NewV7 k); by eexists. Qed.

Section process.
Context {DB Q PR RL BC IS : Type}.
Context `{TextTemplate, GoogleUUID, TimeParse, UUIDSource, ParamBinding, Chi, IdempotencyStore IS,
  NotificationRepository DB, BatchRepository DB, TemplateRepository DB,
  NotificationLogRepository DB, Queue Q, Provider PR, RateLimiter RL, StatusBroadcaster BC, Clock}.
#[local] Existing Instance Generator.
Local Abbreviation W := (World DB Q PR RL BC).

(** The production executors; the probes of the database and Redis and the
    metrics registry are the caller's. *)
Definition server_options (pg_Ping redis_Ping : M W unit) (registry : M W (list metric_family)) :
    ServerOptions W := {|
  opt_CreateNotification := Some (λ inp, run (CreateNotification_Execute (mkCreateNotification true) inp));
  opt_CreateBatch := Some (λ inp, run (CreateBatch_Execute (mkCreateBatch true) inp));
  opt_GetNotification := Some (λ nid, run (GetNotification_Execute nid));
  opt_ListNotifications := Some (λ inp, run (ListNotifications_Execute inp));
  opt_CancelNotification := Some (λ nid, run (CancelNotification_Execute nid));
  opt_GetNotificationTrace := Some (λ nid, run (GetNotificationTrace_Execute nid));
  opt_GetBatch := Some (λ bid, run (GetBatch_Execute bid));
  opt_CreateTemplate := Some (λ inp, run (CreateTemplate_Execute inp));
  opt_GetTemplate := Some (λ tid, run (GetTemplate_Execute tid));
  opt_ListTemplates := Some (λ inp, run (ListTemplates_Execute inp));
  opt_ReplaceTemplate := Some (λ inp, run (ReplaceTemplate_Execute inp));
  opt_DeleteTemplate := Some (λ tid, run (DeleteTemplate_Execute tid));
  opt_ReadinessChecks := [pg_Ping; redis_Ping];
  opt_PrometheusGatherer := Some registry;
  opt_JsonMetrics := Some (ret (mkSnapshot 0 0 0 0 None)) |}.
Definition api_server pg_Ping redis_Ping registry : http_Server W :=
  NewServer (server_options pg_Ping redis_Ping registry).

(** The state of the process: the idempotency store and the world of the use
    cases, whose rate limiter is the inbound one. *)
Definition on_world (handler : Handler W) : Handler (IS * W) := λ r h '(st, w),
  let '(es, w) := handler r h w in (es, (st, w)).
Definition correlation_gen : IS * W → string * (IS * W) := λ '(st, w),
  (Gen_CorrelationID (w_fresh w), (st, set_fresh (S (w_fresh w)) w)).
Definition inbound_Allow (bucket : string) : M (IS * W) (bool * Duration) := λ '(st, w),
  let '(x, rl) := Limiter_Allow bucket (w_limiter w) in (x, (st, set_limiter rl w)).

(** The WebSocket route, for the [methods] chi knows, and the documentation. *)
Definition side_routes (methods : list string) (ws : Handler (IS * W)) (openapiSpecYAML : string) :
    list (string * string * Handler (IS * W)) :=
  map (λ m, (m, "/api/v1/ws/notifications", ws)) methods ++ MountDocs openapiSpecYAML.
(** The generated routes, then those of the side channel. *)
Definition api_routes (srv : http_Server W) (side : list (string * string * Handler (IS * W))) :
    list (string * string * Handler (IS * W)) :=
  map (λ '(rt, handler), (rt, on_world handler)) (routes (NewStrictHandler srv)) ++ side.
Definition api_router (Recoverer : Handler (IS * W) → Handler (IS * W)) (since : IS * W → Duration * (IS * W))
    (srv : http_Server W) (side : list (string * string * Handler (IS * W))) : Handler (IS * W) :=
  let rts := api_routes srv side in
  NewRouter Recoverer (mkConfig [
    Some (CorrelationIDMiddleware correlation_gen);
    Some (MetricsMiddleware (RoutePattern rts) since);
    Some (InboundRateLimitMiddleware inbound_Allow true);
    Some IdempotencyMiddleware]) (mux rts).

(** *** The way through the chain *)

(** The correlation id of a request, and the world after it was chosen. *)
Definition request_id (r : Request) (w : W) : string * W :=
  let cid := header_Get (Header r) correlationIDHeader in
  if bool_decide (cid = "") then (Gen_CorrelationID (w_fresh w), set_fresh (S (w_fresh w)) w) else (cid, w).
Definition identified (r : Request) (cid : string) : Request :=
  WithContext_of r (WithContext (Context_of r) cid).
Definition identified_header (h : header) (cid : string) : header := header_Set correlationIDHeader cid h.

Lemma respond_after_header h n v es :
  respond h (Header_Set n v :: es) = respond (header_Set n v h) es.
Proof. done. Qed.

Lemma correlation_serves (next : Handler (IS * W)) r h st w :
  CorrelationIDMiddleware correlation_gen next r h (st, w) =
  let '(cid, w1) := request_id r w in
  after [Header_Set correlationIDHeader cid] h (λ h, next (identified r cid) h (st, w1)).
Proof. unfold CorrelationIDMiddleware, request_id. by case_bool_decide. Qed.

(** A request without an idempotency key that the limiter does not refuse gets
    the response of its route's handler. *)
Lemma chain_serves Recoverer since srv side r h st w handler x rl :
  (∀ f r h s, Recoverer f r h s = f r h s) → (∀ s, (since s).2 = s) →
  header_Get (Header r) idempotencyHeader = "" →
  let '(cid, w1) := request_id r w in
  let r1 := identified r cid in
  Limiter_Allow ("ip:" +:+ clientIP r1)%string (w_limiter w1) = (x, rl) →
  (∀ d, x ≠ Ok (false, d)) →
  (∀ hd s, mux (api_routes srv side) r1 hd s = on_world handler r1 hd s) →
  let '(es, w2) := handler r1 (identified_header h cid) (set_limiter rl w1) in
  let '(out, s2) := api_router Recoverer since srv side r h (st, w) in
  respond h out = respond (identified_header h cid) (forwarded es) ∧ s2 = (st, w2).
Proof.
  intros Hrec Hsince Hkey. destruct (request_id r w) as [cid w1] eqn:Eid. intros r1 Hx Hok Hmux.
  unfold api_router, NewRouter. rewrite Hrec. cbn [Middlewares foldr].
  rewrite correlation_serves, Eid. fold r1. unfold after.
  change (header_after h [Header_Set correlationIDHeader cid]) with (identified_header h cid).
  set (h1 := identified_header h cid).
  unfold MetricsMiddleware.
  set (inner := InboundRateLimitMiddleware inbound_Allow true (IdempotencyMiddleware (mux (api_routes srv side)))).
  assert (let '(es, w2) := handler r1 h1 (set_limiter rl w1) in
          let '(out, s2) := inner r1 h1 (st, w1) in
          respond h1 (forwarded out) = respond h1 (forwarded es) ∧ s2 = (st, w2)) as Hin.
  { unfold inner, InboundRateLimitMiddleware. cbn [inbound_Allow].
    rewrite Hx.
    assert (∀ hd, IdempotencyMiddleware (mux (api_routes srv side)) r1 hd (st, set_limiter rl w1) =
                  on_world handler r1 hd (st, set_limiter rl w1)) as Hid.
    { intros hd. unfold IdempotencyMiddleware, serveIdempotent.
      rewrite bool_decide_true by exact Hkey. by rewrite Hmux. }
    destruct x as [[[|] d]|e]; [|by destruct (Hok d)|].
    - rewrite Hid. unfold on_world. by destruct (handler r1 h1 _) as [es w2].
    - unfold after. rewrite Hid. unfold on_world. change (header_after h1 [SlogWarn _]) with h1.
      destruct (handler r1 h1 _) as [es w2]. split; [|done].
      by rewrite (forwarded_telemetry_first [_]), (respond_telemetry_first h1 [_]) by by repeat constructor. }
  destruct (handler r1 h1 (set_limiter rl w1)) as [es w2].
  destruct (inner r1 h1 (st, w1)) as [out s2]. destruct Hin as [Hr ->].
  pose proof (statusTracker_respond h1 out) as Ht.
  destruct (through statusTracker_method _ out) as [t out1]. destruct Ht as (Ht & _ & _).
  pose proof (Hsince (st, w2)) as Hs. destruct (since (st, w2)) as [d s3]. simpl in Hs. subst s3.
  assert (respond h1 out1 = respond h1 (forwarded es)) as Hr' by congruence.
  split; [|done]. cbn [app]. rewrite respond_after_header. fold h1.
  rewrite (respond_telemetry h1 out1); [exact Hr'|by repeat constructor].
Qed.
End process.

(** ** POST /api/v1/notifications, end to end *)
Section post.
Context {DB Q PR RL BC IS : Type}.
Context `{TextTemplate, GoogleUUIDLaws, TimeParse, UUIDSource, ParamBinding, ChiLaws, IdempotencyStore IS,
  StoreLaws DB, Queue Q, Provider PR, RateLimiter RL, StatusBroadcaster BC, Clock}.
#[local] Existing Instance Generator.
Local Abbreviation W := (World DB Q PR RL BC).

Lemma route_of_create (srv : http_Server W) side r1 :
  Method r1 = "POST" → URL_Path r1 = "/api/v1/notifications" →
  mux (api_routes (IS := IS) srv side) r1 = on_world (siw_CreateNotification (NewStrictHandler srv)) r1.
Proof.
  intros Hm Hp. unfold mux. rewrite chi_match_literal.
  - rewrite Hm, Hp. unfold api_routes, routes. cbn [map app List.find fst].
    rewrite !bool_decide_false by done. by rewrite bool_decide_true.
  - rewrite Hm, Hp. unfold patterns, api_routes, routes. rewrite fmap_app. cbn [map fmap list_fmap fst].
    apply elem_of_app. left. pick_elem.
  - by rewrite Hp.
Qed.

(** The wire form of a freshly queued notification. *)
Lemma queued_wire inp db n :
  entity_for inp db n → (∀ tid, cn_TemplateID inp = Some tid → ∃ u, tid = uuid_text u) →
  (∀ k, representable (Clock_reading k)) → (∀ t, cn_ScheduledAt inp = Some t → representable t) →
  ∃ a ms, toAPINotification (queued_entity n) = Ok a ∧ ANotification_json a = Ok (JObj ms) ∧
    ("id", JStr (ID n)) ∈ ms ∧ ("status", JStr "queued") ∈ ms ∧
    ("channel", JStr (NChannel n)) ∈ ms ∧ ("recipient", JStr (Recipient n)) ∈ ms ∧
    ("content", JStr (Content n)) ∈ ms.
Proof.
  intros He Htid Hclock Hsched.
  destruct (ef_generated _ _ _ He) as [[j Hid] [k Hcreated]].
  destruct (newUUIDv7OrV4_canonical j) as [u Hu]. cbn [Gen_NotificationID Generator] in Hid. rewrite Hu in Hid.
  destruct (ef_fresh _ _ _ He) as (_ & _ & _ & Hretry & Hbatch & Hupd).
  assert (∃ tid, parse_opt_uuid "template id" (NTemplateID n) = Ok tid) as [tid Ht].
  { rewrite (ef_template _ _ _ He). destruct (cn_TemplateID inp) as [t|]; [|by eexists].
    destruct (Htid t eq_refl) as [v ->]. unfold parse_opt_uuid, parse_uuid.
    rewrite uuid_Parse_String. by eexists. }
  unfold toAPINotification. cbn [ID queued_entity with_status NBatchID NTemplateID].
  unfold parse_uuid at 1. rewrite Hid, uuid_Parse_String. cbn [on_error mbind result_mbind].
  rewrite Hbatch. cbn [parse_opt_uuid mbind result_mbind]. rewrite Ht. cbn [mbind result_mbind].
  eexists. pose proof (ANotification_encodes) as Henc.
  edestruct Henc as (ms & Hms & Hm); [|exists ms; split; [done|split; [exact Hms|exact Hm]]].
  unfold writable. cbn. rewrite Hcreated. split; [apply Hclock|]. split; [apply Hclock|].
  intros t. rewrite !elem_of_cons, elem_of_nil, Hretry, (ef_schedule _ _ _ He).
  intros Hin. apply Hsched. naive_solver.
Qed.

Lemma queued_answer inp db (w : W) n (w' : W) :
  created inp db w (Ok n) w' → (∀ tid, cn_TemplateID inp = Some tid → ∃ u, tid = uuid_text u) →
  (∀ k, representable (Clock_reading k)) → (∀ t, cn_ScheduledAt inp = Some t → representable t) →
  ∃ a ms, toAPINotification n = Ok a ∧ ANotification_json a = Ok (JObj ms) ∧
    ("id", JStr (ID n)) ∈ ms ∧ ("status", JStr "queued") ∈ ms ∧
    ("channel", JStr (NChannel n)) ∈ ms ∧ ("recipient", JStr (Recipient n)) ∈ ms ∧
    ("content", JStr (Content n)) ∈ ms.
Proof. inversion 1 as [| | |n0 k w0 He]; subst. by apply (queued_wire inp db n0). Qed.

(** What the client is told when the use case ended in [res]. *)
Definition create_answer (r : Request) (h : header) (body : CreateNotificationRequest)
    (res : res Notification) (resp : Response) : Prop :=
  match res with
  | Err e => resp = respond h (RespondWithError r e)
  | Ok n =>
      (∀ t, cr_ScheduledAt body = Some t → representable t) →
      rs_status resp = 202 ∧
      header_Get (rs_header resp) "Location" = ("/api/v1/notifications/" +:+ ID n)%string ∧
      header_Get (rs_header resp) "X-Correlation-ID" = CorrelationID n ∧
      ∃ ms, rs_body resp = (Marshal (JObj ms) +:+ newline)%string ∧
        ("id", JStr (ID n)) ∈ ms ∧ ("status", JStr "queued") ∈ ms ∧ ("channel", JStr (NChannel n)) ∈ ms ∧
        ("recipient", JStr (Recipient n)) ∈ ms ∧ ("content", JStr (Content n)) ∈ ms
  end.

Lemma strict_create_spec pg_Ping redis_Ping registry params r h (w : W) :
  (∀ k, representable (Clock_reading k)) →
  let '(es, w') := strict_CreateNotification (api_server pg_Ping redis_Ping registry) params r h w in
  match Decode decode_create zero_create (ReqBody r) with
  | Err e => w' = w ∧ es = RespondWithError r (Wrapped "can't decode JSON body" e)
  | Ok body => ∃ res,
      created (fromAPICreateNotificationRequest body params) (w_db w) w res w' ∧
      ∀ hd, create_answer r hd body res (respond hd (forwarded es))
  end.
Proof.
  intros Hclock. unfold strict_CreateNotification, strict.
  destruct (Decode decode_create zero_create (ReqBody r)) as [body|e]; [|done].
  unfold strict_server. cbn [ssi_CreateNotification ro_Params ro_Body].
  unfold visited, Server_CreateNotification, wired, required_body.
  cbn [createNotification api_server NewServer server_options opt_CreateNotification].
  set (inp := fromAPICreateNotificationRequest body params).
  pose proof (CreateNotification_created (mkCreateNotification true) inp w) as Hc.
  unfold wp in Hc. unfold bind.
  destruct (run (CreateNotification_Execute (mkCreateNotification true) inp) w) as [[n|e] w']; simpl in Hc;
    [|exists (Err e); split; [exact Hc|]; intros hd; by rewrite forwarded_final by apply RespondWithError_final].
  unfold map_notification, wrap_err, map_err, of_result, ret, bind.
  destruct (toAPINotification n) as [a|e] eqn:Ea; cbn [rp_Body].
  - destruct (Visit_CreateNotification202 _) as [es|e] eqn:Ev; (exists (Ok n); split; [exact Hc|]);
      intros hd Hs; destruct (queued_answer inp (w_db w) w n w' Hc) as (a' & ms & Ea' & Hms & Hin);
      try done; try (intros tid Htid; cbn in Htid; destruct (cr_TemplateId body); by simplify_eq/=; eexists);
      rewrite Ea in Ea'; injection Ea' as <-; unfold Visit_CreateNotification202, visit_json in Ev;
      cbn [rp_Body] in Ev; rewrite Hms in Ev; [|done].
    injection Ev as <-. cbn [rp_Location rp_Correlation opt_header app].
    rewrite forwarded_final by done.
    change [?a; ?b; ?c; ?d; ?e] with ([a; b; c] ++ [d; e]).
    rewrite respond_whole by first [done|repeat constructor].
    unfold header_after, new_writer. cbn [foldl write_event w_header rs_status rs_header rs_body].
    split; [done|]. split; [rewrite header_Get_Set_ne by (by vm_compute); by rewrite header_Get_Set|].
    split; [by rewrite header_Get_Set|]. by exists ms.
  - exists (Ok n). split; [exact Hc|]. intros hd Hs.
    destruct (queued_answer inp (w_db w) w n w' Hc) as (a' & ms & Ea' & _); try done.
    + intros tid Htid. cbn in Htid. destruct (cr_TemplateId body); simplify_eq/=. by eexists.
    + by rewrite Ea in Ea'.
Qed.

(** C32. POST /api/v1/notifications through the whole chain: a request without
    an idempotency key that the limiter does not refuse reaches the use case
    with its correlation id in the context.  A body that does not decode
    changes nothing and is answered by the error handler.  Otherwise the
    database, the queue and the audit trail end as the creation contract says;
    an error of the use case is answered by the error handler, and success by
    202 with the location of the row, its correlation id and a JSON document
    that shows the stored id, status, channel, recipient and content. *)
Theorem post_creates_notification Recoverer since pg_Ping redis_Ping registry side params r h (st : IS) (w : W) x rl :
  (∀ f r h s, Recoverer f r h s = f r h s) → (∀ s, (since s).2 = s) →
  (∀ k, representable (Clock_reading k)) →
  Method r = "POST" → URL_Path r = "/api/v1/notifications" →
  header_Get (Header r) idempotencyHeader = "" → write_params r = Ok params →
  let '(cid, w1) := request_id r w in
  Limiter_Allow ("ip:" +:+ clientIP r)%string (w_limiter w1) = (x, rl) → (∀ d, x ≠ Ok (false, d)) →
  let r1 := identified r cid in
  let h1 := identified_header h cid in
  let w2 := set_limiter rl w1 in
  let '(out, s') := api_router Recoverer since (api_server pg_Ping redis_Ping registry) side r h (st, w) in
  s'.1 = st ∧
  match Decode decode_create zero_create (ReqBody r) with
  | Err e => s'.2 = w2 ∧ respond h out = respond h1 (RespondWithError r1 (Wrapped "can't decode JSON body" e))
  | Ok body => ∃ res,
      created (fromAPICreateNotificationRequest body params) (w_db w2) w2 res s'.2 ∧
      create_answer r1 h1 body res (respond h out)
  end.
Proof.
  intros Hrec Hsince Hclock Hm Hp Hk Hpar.
  pose proof (chain_serves Recoverer since (api_server pg_Ping redis_Ping registry) side r h st w
    (siw_CreateNotification (NewStrictHandler (api_server pg_Ping redis_Ping registry))) x rl Hrec Hsince Hk) as Hchain.
  destruct (request_id r w) as [cid w1]. intros Hx Hok r1 h1 w2.
  specialize (Hchain Hx Hok). specialize (Hchain (λ hd s, f_equal (λ f, f hd s) (route_of_create _ side (identified r cid) Hm Hp))).
  unfold siw_CreateNotification, wrapper in Hchain. cbn [si_CreateNotification NewStrictHandler] in Hchain.
  change (write_params (identified r cid)) with (write_params r) in Hchain. rewrite Hpar in Hchain.
  pose proof (strict_create_spec pg_Ping redis_Ping registry params r1 h1 w2 Hclock) as Hspec.
  fold r1 h1 w2 in Hchain. change (ReqBody r1) with (ReqBody r) in Hspec.
  destruct (strict_CreateNotification _ params r1 h1 w2) as [es w3].
  destruct (api_router _ _ _ _ r h (st, w)) as [out s']. destruct Hchain as [Hr ->].
  split; [done|]. rewrite Hr. destruct (Decode decode_create zero_create (ReqBody r)) as [body|e].
  - destruct Hspec as (res & Hc & Ha). exists res. split; [exact Hc|apply Ha].
  - destruct Hspec as [-> ->]. by rewrite forwarded_final by apply RespondWithError_final.
Qed.
End post.
