(* ===== verification/ApiProbes.v ===== *)
(** The operational endpoints, followed from the router to what they ask: the
    probes, the metrics and the documentation; and what a server answers when
    an operation is not wired. *)

From S2P Require Import Prelude GoStrings RFC3339 Uuid Errors ValueObjects Notification Batch Template.
From S2P Require Import Json Ports RepoSpec CreateNotification CancelNotification CreateBatch Queries.
From S2P Require Import TemplateUseCases Http ApiTypes Handlers Middleware ApiServer Docs ApiProcess.

Lemma find_none_Forall {A} (f : A → bool) (l : list A) : Forall (λ x, f x = false) l → List.find f l = None.
Proof. induction 1 as [|x l Hx _ IH]; [done|]. simpl. by rewrite Hx. Qed.
Lemma find_app {A} (f : A → bool) (l l' : list A) :
  List.find f (l ++ l') = match List.find f l with Some x => Some x | None => List.find f l' end.
Proof. induction l as [|x l IH]; [done|]. simpl. by destruct (f x). Qed.

Section routes.
Context `{ChiLaws} {W : Type}.
(** A request for a path registered literally is served by the first handler
    registered for it. *)
Lemma mux_literal (rts : list (string * string * Handler W)) r handler :
  contains "{"%char (URL_Path r) = false →
  List.find (λ x, bool_decide (x.1 = (Method r, URL_Path r))) rts = Some ((Method r, URL_Path r), handler) →
  mux rts r = handler r.
Proof.
  intros Hp Hf. unfold mux. rewrite chi_match_literal; [by rewrite Hf| |exact Hp].
  apply List.find_some in Hf as [Hf _]. apply list_elem_of_In in Hf. exact (list_elem_of_fmap_2 fst _ _ Hf).
Qed.
End routes.

Section probes.
Context {DB Q PR RL BC IS : Type}.
Context `{TextTemplate, GoogleUUID, TimeParse, UUIDSource, ParamBinding, ChiLaws, IdempotencyStore IS,
  NotificationRepository DB, BatchRepository DB, TemplateRepository DB,
  NotificationLogRepository DB, Queue Q, Provider PR, RateLimiter RL, StatusBroadcaster BC, Clock}.
#[local] Existing Instance Generator.
Local Abbreviation W := (World DB Q PR RL BC).
Variables (pg_Ping redis_Ping : M W unit) (registry : M W (list metric_family))
  (methods : list string) (ws : Handler (IS * W)) (spec : string).
Local Abbreviation srv := (api_server pg_Ping redis_Ping registry).
Local Abbreviation side := (side_routes methods ws spec).

(** The handler of an operational path. *)
Definition operational (path : string) : option (Handler W) :=
  if bool_decide (path = "/healthz/live") then Some (siw_GetHealthzLive (NewStrictHandler srv))
  else if bool_decide (path = "/healthz/ready") then Some (siw_GetHealthzReady (NewStrictHandler srv))
  else if bool_decide (path = "/metrics") then Some (siw_GetPrometheusMetrics (NewStrictHandler srv))
  else if bool_decide (path = "/docs") then Some serveSwaggerUI
  else if bool_decide (path = "/docs/") then Some serveSwaggerUI
  else if bool_decide (path = "/docs/openapi.yaml") then Some (serveSpecYAML spec)
  else None.
Lemma operational_routed r handler : Method r = "GET" → operational (URL_Path r) = Some handler →
  ∀ hd s, mux (api_routes srv side) r hd s = on_world handler r hd s.
Proof.
  intros Hm Ho hd [st w]. unfold operational in Ho.
  assert (∀ path l, path ≠ "/api/v1/ws/notifications" →
    List.find (λ x : string * string * Handler (IS * W), bool_decide (x.1 = ("GET", path)))
      (map (λ m, (m, "/api/v1/ws/notifications", ws)) methods ++ l) =
    List.find (λ x, bool_decide (x.1 = ("GET", path))) l) as Hws.
  { intros path l Hp. rewrite find_app, find_none_Forall; [done|]. apply Forall_fmap, Forall_true.
    intros m. cbn. rewrite bool_decide_false; [done|]. intros [=]. by subst. }
  repeat case_bool_decide; simplify_eq;
    (erewrite mux_literal; [|match goal with Hp : URL_Path r = _ |- _ => by rewrite Hp end|
      match goal with Hp : URL_Path r = _ |- _ => rewrite Hm, Hp end;
      unfold api_routes, side_routes, routes; cbn [map app List.find fst];
      repeat (rewrite bool_decide_false by done); rewrite ?Hws by done; cbn [MountDocs List.find fst];
      repeat (rewrite bool_decide_false by done); by rewrite bool_decide_true]); done.
Qed.

Ltac serves Ho Hp handler :=
  unfold operational in Ho; rewrite Hp in Ho; repeat (rewrite bool_decide_false in Ho by done);
  rewrite bool_decide_true in Ho by done; apply (inj Some) in Ho; subst handler.

(** What the readiness probe finds: the database is asked first, Redis only
    when it answered. *)
Definition dependencies (w : W) : res unit * W :=
  match pg_Ping w with (Err e, w) => (Err e, w) | (Ok _, w) => redis_Ping w end.

Lemma respond_one h n v code body : informational code = false →
  let es := [Header_Set n v; WriteHeader code; Write body] in
  rs_status (respond h (forwarded es)) = code ∧ rs_body (respond h (forwarded es)) = body.
Proof.
  intros Hc es. rewrite forwarded_final by exact Hc.
  unfold es. change [?a; ?b; ?c] with ([a] ++ [b; c]). by rewrite respond_whole by first [exact Hc|repeat constructor].
Qed.
Lemma visit_health a : ∃ n v body, Visit_GetHealthzReady a =
  Ok [Header_Set n v; WriteHeader match a with Ready => 200 | NotReady => 503 end; Write body].
Proof.
  destruct a; unfold Visit_GetHealthzReady, Visit_GetHealthz200, visit_json, Visit_GetHealthzReady503;
    cbn [rp_Body rp_Location rp_Correlation opt_header app]; [by do 3 eexists|].
  assert (∃ j, AProblem_json not_ready_problem = Ok j) as [j ->] by (eexists; by vm_compute). by do 3 eexists.
Qed.
Lemma ready_answers r h w : ∃ n v body, siw_GetHealthzReady (NewStrictHandler srv) r h w =
  ([Header_Set n v; WriteHeader match (dependencies w).1 with Ok _ => 200 | Err _ => 503 end; Write body],
   (dependencies w).2).
Proof.
  unfold siw_GetHealthzReady, si_GetHealthzReady, NewStrictHandler, strict_GetHealthzReady, strict,
    strict_server, ssi_GetHealthzReady, visited, Server_GetHealthzReady, dependencies. cbn [api_server NewServer server_options readinessChecks
    opt_ReadinessChecks run_checks]. unfold bind, attempt, ret.
  destruct (visit_health Ready) as (n1 & v1 & b1 & E1), (visit_health NotReady) as (n2 & v2 & b2 & E2).
  destruct (pg_Ping w) as [[[]|e] w3]; cbn [fst snd]; [|rewrite E2; by do 3 eexists].
  destruct (redis_Ping w3) as [[[]|e] w4]; cbn [fst snd]; [rewrite E1|rewrite E2]; by do 3 eexists.
Qed.
Lemma scrape_answers r h w : siw_GetPrometheusMetrics (NewStrictHandler srv) r h w =
  (match (registry w).1 with
   | Err e => RespondWithError r (Wrapped "prometheus gather" e)
   | Ok mfs => match encode_families mfs with
               | Err e => RespondWithError r e
               | Ok text => [Header_Set "Content-Type" "text/plain"; WriteHeader 200; Write text]
               end
   end, (registry w).2).
Proof.
  unfold siw_GetPrometheusMetrics, si_GetPrometheusMetrics, NewStrictHandler, strict_GetPrometheusMetrics, strict,
    strict_server, ssi_GetPrometheusMetrics, visited, Server_GetPrometheusMetrics, wired. cbn [api_server NewServer server_options prometheusGatherer
    opt_PrometheusGatherer]. unfold bind, wrap_err, map_err, of_result.
  destruct (registry w) as [[mfs|e] w3]; cbn; [|done]. by destruct (encode_families mfs).
Qed.

(** The operational endpoints through the whole chain, for a request without an
    idempotency key that the limiter does not refuse.  The liveness probe asks
    nothing and answers 200.  The readiness probe answers 200 exactly when the
    database and Redis answered, 503 with a problem document otherwise.  The
    scrape answers the encoded registry, or the error of gathering or encoding
    it.  The documentation is the page and the embedded specification.  None of
    them changes more than its own probes do. *)
Theorem operational_endpoints Recoverer since r h (st : IS) (w : W) x rl handler :
  (∀ f r h s, Recoverer f r h s = f r h s) → (∀ s, (since s).2 = s) →
  Method r = "GET" → header_Get (Header r) idempotencyHeader = "" →
  operational (URL_Path r) = Some handler →
  let '(cid, w1) := request_id r w in
  Limiter_Allow ("ip:" +:+ clientIP r)%string (w_limiter w1) = (x, rl) → (∀ d, x ≠ Ok (false, d)) →
  let r1 := identified r cid in
  let h1 := identified_header h cid in
  let w2 := set_limiter rl w1 in
  let '(out, s') := api_router Recoverer since srv side r h (st, w) in
  let resp := respond h out in
  s'.1 = st ∧
  (URL_Path r = "/healthz/live" → s'.2 = w2 ∧ rs_status resp = 200) ∧
  (URL_Path r = "/healthz/ready" → s'.2 = (dependencies w2).2 ∧
     rs_status resp = match (dependencies w2).1 with Ok _ => 200 | Err _ => 503 end) ∧
  (URL_Path r = "/metrics" → s'.2 = (registry w2).2 ∧
     match (registry w2).1 with
     | Err e => resp = respond h1 (RespondWithError r1 (Wrapped "prometheus gather" e))
     | Ok mfs => match encode_families mfs with
                 | Err e => resp = respond h1 (RespondWithError r1 e)
                 | Ok text => rs_status resp = 200 ∧ rs_body resp = text
                 end
     end) ∧
  (URL_Path r ∈ ["/docs"; "/docs/"] → s'.2 = w2 ∧ rs_status resp = 200 ∧ rs_body resp = swaggerUIPage) ∧
  (URL_Path r = "/docs/openapi.yaml" → s'.2 = w2 ∧ rs_status resp = 200 ∧ rs_body resp = spec).
Proof.
  intros Hrec Hsince Hm Hk Ho.
  pose proof (chain_serves Recoverer since srv side r h st w handler x rl Hrec Hsince Hk) as Hchain.
  destruct (request_id r w) as [cid w1]. intros Hx Hok r1 h1 w2.
  specialize (Hchain Hx Hok (operational_routed (identified r cid) handler Hm Ho)). fold r1 h1 w2 in Hchain.
  destruct (handler r1 h1 w2) as [es w3] eqn:Eh. destruct (api_router _ _ _ _ r h (st, w)) as [out s'].
  destruct Hchain as [Hr ->]. cbn zeta. rewrite Hr. cbn [fst snd]. clear Hr out Hx Hok.
  split; [done|]. split_and!; intros Hp.
  - serves Ho Hp handler. apply pair_equal_spec in Eh as [<- <-]. split; [done|]. by apply respond_one.
  - serves Ho Hp handler. destruct (ready_answers r1 h1 w2) as (n & v & body & E). rewrite E in Eh.
    apply pair_equal_spec in Eh as [<- <-]. split; [done|]. apply respond_one. by destruct (dependencies w2).1.
  - serves Ho Hp handler. rewrite scrape_answers in Eh. apply pair_equal_spec in Eh as [<- <-].
    split; [done|]. destruct (registry w2).1 as [mfs|e];
      [|by rewrite forwarded_final by apply RespondWithError_final].
    destruct (encode_families mfs) as [text|e]; [by apply respond_one|].
    by rewrite forwarded_final by apply RespondWithError_final.
  - apply elem_of_cons in Hp as [Hp|Hp%list_elem_of_singleton]; serves Ho Hp handler;
      apply pair_equal_spec in Eh as [<- <-]; (split; [done|split; reflexivity]).
  - serves Ho Hp handler. apply pair_equal_spec in Eh as [<- <-]. split; [done|split; reflexivity].
Qed.
End probes.
