(* ===== verification/Lifecycle.v ===== *)
(** The life of the processes: [run] of cmd/reconciler, cmd/worker and cmd/api -
    what is opened in which order, which failure ends the start, what is done
    until the shutdown signal, and what is closed on every way out. *)

From S2P Require Import Prelude GoStrings Uuid Errors ValueObjects Notification Ports RepoSpec Reconcile.
From S2P Require Import Json Numbers Template Redis RateLimiter RedisStores Asynq Providers WorkerProcess.
From S2P Require Import Http ApiTypes Handlers Middleware ApiServer ApiProcess Metrics Telemetry Config.

(** ** Resources *)
Inductive resource :=
| SignalContext | TracerProvider | PgPool | RedisClient | AsynqQueue | MetricsServer | TickerC
| DepthQueue | ConsumerContext | MigrateHandle.
#[export] Instance resource_eq_dec : EqDecision resource.
Proof. solve_decision. Defined.
Inductive life :=
| Opened (r : resource)
| Closed (r : resource)
| Logged (level : Level) (msg : string) (attrs : list (string * Z))
| Printed (line : string).

(** A process: the world it works on and what it opened, closed and logged. *)
Record process (W : Type) := mkProcess { p_world : W; p_life : list life }.
Arguments mkProcess {W}.
Arguments p_world {W}.
Arguments p_life {W}.

Section programs.
Context {W : Type}.
Local Abbreviation P := (process W).

Definition note (l : life) : M P unit := modify (λ p, mkProcess (p_world p) (p_life p ++ [l])).
Definition log_info (msg : string) : M P unit := note (Logged LevelInfo msg []).
Definition on_world {A} (c : M W A) : M P A := zoom p_world (λ w p, mkProcess w (p_life p)) c.
(** [r := open(); defer r.Close(); body] *)
Definition inside {A} (r : resource) (body : M P A) : M P A :=
  note (Opened r);;; let* x := attempt body in note (Closed r);;; of_result x.
(** What the goroutines of a server do before the end, in order. *)
Definition serve {X} (one : X → W → W) (l : list X) : M P unit :=
  modify (λ p, mkProcess (foldl (λ w x, one x w) (p_world p) l) (p_life p)).
(** A panic unwinds through the deferred calls, as an error does. *)
Definition panic {A} (msg : string) : M P A := throw (Opaque ("panic: " +:+ msg)%string).

(** What the start of a process finds: the environment, whether the exporter
    and the pool can be built. *)
Record surroundings := mkSurroundings {
  LookupEnv : string → option string;
  tracing_Setup : TracingConfig → res unit;
  pgxpool_New : string → res unit;
}.
(** The start every binary shares, up to the pool; [name] is its service.
    Installing the logger changes nothing that is kept here. *)
Definition start {A} (env : surroundings) (name : string) (body : Config → M P A) : M P A :=
  let* cfg := wrap_err "load config" (of_result (Load (LookupEnv env))) in
  inside SignalContext (
    let* _ := wrap_err "setup tracing" (of_result (tracing_Setup env (mkTracingConfig name (OTLPEndpoint cfg)))) in
    inside TracerProvider (
      let* _ := wrap_err "postgres pool" (of_result (pgxpool_New env (DatabaseURL cfg))) in
      inside PgPool (body cfg))).
(** [main]: the exit code. *)
Definition main_exit (name : string) (run : M P unit) : M P Z :=
  let* x := attempt run in
  match x with
  | Ok _ => ret 0
  | Err _ => note (Logged LevelError (name +:+ " exited with error")%string []);;; ret 1
  end.
End programs.

(** ** cmd/reconciler *)
Section reconciler.
Context {DB Q PR RL BC : Type}.
Context `{NotificationRepository DB, BatchRepository DB, TemplateRepository DB, NotificationLogRepository DB,
  Queue Q, Provider PR, RateLimiter RL, StatusBroadcaster BC, Clock, IDGenerator}.
Local Abbreviation W := (World DB Q PR RL BC).
Local Abbreviation P := (process W).

Definition pass_counts (out : ReconcileOutput) : list (string * Z) :=
  [("stuck_processing_failed", StuckProcessingFailed out);
   ("overdue_retrying_reenqueued", OverdueRetryingReenqueued out);
   ("orphaned_pending_reenqueued", OrphanedPendingReenqueued out);
   ("stuck_queued_reenqueued", StuckQueuedReenqueued out)].
Definition runOnce : M P unit :=
  let* x := attempt (on_world (run Reconcile_Execute)) in
  let '(out, err) := match x with Ok y => y | Err e => (mkReconcileOutput 0 0 0 0, Some e) end in
  match err with
  | Some e =>
      if negb (errors_Is e LibErrCanceled)
      then note (Logged LevelError "reconciler pass failed" [])
      else note (Logged LevelInfo "reconciler pass complete" (pass_counts out))
  | None => note (Logged LevelInfo "reconciler pass complete" (pass_counts out))
  end.
(** [ticks] of the ticker are received before the context is done. *)
Fixpoint reconciler_loop (ticks : nat) : M P unit :=
  match ticks with
  | O => log_info "reconciler stopped cleanly"
  | S ticks => runOnce;;; reconciler_loop ticks
  end.
Definition NewTicker (d : Duration) : M P unit :=
  if d <=? 0 then panic "non-positive interval for NewTicker" else ret tt.
Definition reconciler_body (ticks : nat) (cfg : Config) : M P unit :=
  inside AsynqQueue (inside MetricsServer (
    NewTicker (ReconcilerInterval cfg);;;
    inside TickerC (log_info "reconciler started";;; runOnce;;; reconciler_loop ticks))).
Definition reconciler_run (env : surroundings) (ticks : nat) : M P unit :=
  start env "reconciler" (reconciler_body ticks).
End reconciler.

(** ** cmd/worker *)
Section worker.
Context {DB Q R BC N B : Type}.
Context `{StoreLaws DB, Asynq Q, Redis R, StatusBroadcaster BC, HTTPClient N, Gobreaker B,
  Clock, IDGenerator}.
#[local] Existing Instance asynq_queue.
Local Abbreviation W := (World DB Q (guarded B (outside N)) R BC).
Local Abbreviation P := (process W).

(** The processor on one task; what it returns is asynq's. *)
Definition handle_task (cfg : Config) (ws : Channel → list (option string * Duration))
    (x : context * Task) (w : W) : W := (worker_run cfg ws x.1 x.2 w).2.
(** [ending] is what [select] receives: an error of the asynq server, or the
    shutdown signal. *)
Definition worker_body ws (tasks : list (context * Task)) (ending : option error) (cfg : Config) : M P unit :=
  inside RedisClient (inside MetricsServer (inside DepthQueue (
    log_info "worker started";;;
    serve (handle_task cfg ws) tasks;;;
    match ending with
    | Some e => throw (Wrapped "worker server failed" e)
    | None => log_info "shutdown signal received";;; log_info "worker stopped cleanly"
    end))).
Definition worker_process (env : surroundings) ws tasks ending : M P unit :=
  start env "worker" (worker_body ws tasks ending).

(** [sampleQueueDepth]: a sample that fails is skipped.  [None] is a panic of
    the recorder. *)
Fixpoint set_depths {S} `{Prometheus S} (m : Metrics) (depths : list (string * Z)) (s : S) : option S :=
  match depths with
  | [] => Some s
  | (name, depth) :: depths => s ← Metrics_SetQueueDepth m name depth s; set_depths m depths s
  end.
Fixpoint sampleQueueDepth {S} `{Prometheus S} (m : Metrics) (ticks : nat) (x : Q * S) : option (Q * S) :=
  match ticks with
  | O => Some x
  | Datatypes.S ticks =>
      let '(depths, q) := sample_tick x.1 in
      s ← set_depths m depths x.2;
      sampleQueueDepth m ticks (q, s)
  end.
End worker.

(** ** cmd/api *)
Section api.
Context {DB Q PR RL BC IS : Type}.
Context `{TextTemplate, GoogleUUID, TimeParse, UUIDSource, ParamBinding, Chi, IdempotencyStore IS,
  NotificationRepository DB, BatchRepository DB, TemplateRepository DB,
  NotificationLogRepository DB, Queue Q, Provider PR, RateLimiter RL, StatusBroadcaster BC, Clock}.
#[local] Existing Instance Generator.
Local Abbreviation W := (World DB Q PR RL BC).
Local Abbreviation P := (process (IS * W)).
Variables (Recoverer : Handler (IS * W) → Handler (IS * W)) (since : IS * W → Duration * (IS * W))
  (pg_Ping redis_Ping : M W unit) (registry : M W (list metric_family))
  (side : list (string * string * Handler (IS * W))).

(** One request, from a fresh response writer. *)
Definition handle_request (x : Request * header) (s : IS * W) : IS * W :=
  (api_router Recoverer since (api_server pg_Ping redis_Ping registry) side x.1 x.2 s).2.
(** The consumer of the status channel runs beside the requests (Hub). *)
Definition api_body (requests : list (Request * header)) (ending : option error) (shutdown : res unit)
    (cfg : Config) : M P unit :=
  inside RedisClient (inside AsynqQueue (inside ConsumerContext (
    serve handle_request requests;;;
    match ending with
    | Some e => throw (Wrapped "http server failed" e)
    | None =>
        log_info "shutdown signal received";;;
        wrap_err "graceful shutdown" (of_result shutdown);;;
        log_info "api stopped cleanly"
    end))).
Definition api_run (env : surroundings) requests ending shutdown : M P unit :=
  start env "api" (api_body requests ending shutdown).
End api.

(** ** Everything opened is closed *)

(** Follow the openings: a resource is only closed as the last one opened. *)
Fixpoint closes (open : list resource) (l : list life) : option (list resource) :=
  match l with
  | [] => Some open
  | Opened r :: l => closes (r :: open) l
  | Closed r :: l =>
      match open with
      | r' :: open => if decide (r = r') then closes open l else None
      | [] => None
      end
  | (Logged _ _ _ | Printed _) :: l => closes open l
  end.
(** Every resource opened is closed again, in the reverse order. *)
Definition all_closed (l : list life) : Prop := ∀ open, closes open l = Some open.
Lemma closes_app open l l' : closes open (l ++ l') = (o ← closes open l; closes o l').
Proof.
  revert open. induction l as [|[r|r|? ? ?|?] l IH]; intros open; simpl; [done|apply IH| |apply IH|apply IH].
  destruct open as [|r' open]; [done|]. destruct (decide (r = r')); [apply IH|done].
Qed.
Lemma all_closed_app l l' : all_closed l → all_closed l' → all_closed (l ++ l').
Proof. intros Hl Hl' open. rewrite closes_app, Hl. apply Hl'. Qed.
Lemma all_closed_inside r l : all_closed l → all_closed (Opened r :: l ++ [Closed r]).
Proof. intros Hl open. simpl. rewrite closes_app, Hl. simpl. by rewrite decide_True. Qed.

Section tidy.
Context {W : Type}.
Local Abbreviation P := (process W).
(** From any state, [c] closes what it opens. *)
Definition tidy {A} (c : M P A) : Prop := ∀ p,
  wp c (λ _ p', ∃ new, p_life p' = p_life p ++ new ∧ all_closed new) p.

Lemma tidy_quiet {A} (c : M P A) : (∀ p, p_life (c p).2 = p_life p) → tidy c.
Proof. intros Hc p. exists []. by rewrite Hc, app_nil_r. Qed.
Lemma tidy_log lv msg l : tidy (note (W := W) (Logged lv msg l)).
Proof. intros p. by exists [Logged lv msg l]. Qed.
Lemma tidy_bind {A B} (k : A → M P B) (c : M P A) : tidy c → (∀ a, tidy (k a)) → tidy (bind c k).
Proof.
  intros Hc Hk p. apply wp_bind. eapply wp_mono; [apply Hc|]. intros [a|e] p1 (new & Hp1 & Hn); [|by exists new].
  eapply wp_mono; [apply Hk|]. intros r p2 (new2 & Hp2 & Hn2). exists (new ++ new2).
  rewrite Hp2, Hp1, app_assoc. split; [done|]. by apply all_closed_app.
Qed.
Lemma tidy_map_err {A} f (c : M P A) : tidy c → tidy (map_err f c).
Proof. intros Hc p. specialize (Hc p). unfold wp, map_err in *. by destruct (c p) as [[a|e] p']. Qed.
Lemma tidy_attempt {A} (c : M P A) : tidy c → tidy (attempt c).
Proof. intros Hc p. specialize (Hc p). unfold wp, attempt in *. by destruct (c p). Qed.
Lemma tidy_inside {A} r (c : M P A) : tidy c → tidy (inside r c).
Proof.
  intros Hc p. specialize (Hc (mkProcess (p_world p) (p_life p ++ [Opened r]))).
  unfold wp, inside, note, modify, attempt, of_result, bind in *. cbn [p_world p_life] in *.
  destruct (c _) as [x p']. cbn [fst snd p_life] in *. destruct Hc as (new & Hp & Hn).
  exists (Opened r :: new ++ [Closed r]). rewrite Hp, <-!app_assoc. split; [done|]. by apply all_closed_inside.
Qed.
Lemma tidy_start {A} env name (body : Config → M P A) : (∀ cfg, tidy (body cfg)) → tidy (start env name body).
Proof.
  intros Hb. unfold start, wrap_err. apply tidy_bind; [by apply tidy_map_err, tidy_quiet|]. intros cfg.
  apply tidy_inside, tidy_bind; [by apply tidy_map_err, tidy_quiet|]. intros _.
  apply tidy_inside, tidy_bind; [by apply tidy_map_err, tidy_quiet|]. intros _. apply tidy_inside, Hb.
Qed.
End tidy.
#[export] Hint Resolve tidy_log tidy_inside : tidy.

(** ** The reconciler sweeps until it is told to stop *)
Section sweeping.
Context {DB Q PR RL BC : Type}.
Context `{NotificationRepository DB, BatchRepository DB, TemplateRepository DB, NotificationLogRepository DB,
  Queue Q, Provider PR, RateLimiter RL, StatusBroadcaster BC, Clock, IDGenerator}.
Local Abbreviation W := (World DB Q PR RL BC).
Implicit Types w : W.

Definition pass (w : W) : W := (run Reconcile_Execute w).2.
(** What a pass logs: its counts, or that it failed. *)
Definition pass_log (w : W) : life :=
  match (run Reconcile_Execute w).1 with
  | Ok (out, Some e) =>
      if errors_Is e LibErrCanceled then Logged LevelInfo "reconciler pass complete" (pass_counts out)
      else Logged LevelError "reconciler pass failed" []
  | Ok (out, None) => Logged LevelInfo "reconciler pass complete" (pass_counts out)
  | Err e => if errors_Is e LibErrCanceled
             then Logged LevelInfo "reconciler pass complete" (pass_counts (mkReconcileOutput 0 0 0 0))
             else Logged LevelError "reconciler pass failed" []
  end.
Fixpoint passes (n : nat) (w : W) : list life * W :=
  match n with
  | O => ([], w)
  | S n => let '(l, w') := passes n (pass w) in (pass_log w :: l, w')
  end.

Lemma runOnce_passes p : runOnce p = (Ok tt, mkProcess (pass (p_world p)) (p_life p ++ [pass_log (p_world p)])).
Proof.
  unfold runOnce, bind, attempt, on_world, zoom, pass, pass_log.
  destruct (run Reconcile_Execute (p_world p)) as [[[out [e|]]|e] w]; cbn [fst snd];
    try (destruct (errors_Is e LibErrCanceled)); done.
Qed.
Lemma loop_passes n p : reconciler_loop n p =
  (Ok tt, mkProcess (passes n (p_world p)).2
            (p_life p ++ (passes n (p_world p)).1 ++ [Logged LevelInfo "reconciler stopped cleanly" []])).
Proof.
  revert p. induction n as [|n IH]; intros p; [done|]. cbn [reconciler_loop passes]. unfold bind.
  rewrite runOnce_passes, IH. cbn [p_world p_life].
  destruct (passes n (pass (p_world p))) as [l w']. cbn [fst snd]. by rewrite <-!app_assoc.
Qed.
Lemma tidy_runOnce : tidy (runOnce (DB:=DB) (Q:=Q) (PR:=PR) (RL:=RL) (BC:=BC)).
Proof.
  intros p. unfold wp. rewrite runOnce_passes. exists [pass_log (p_world p)]. split; [done|].
  unfold pass_log. by repeat case_match.
Qed.
Lemma tidy_loop n : tidy (reconciler_loop (DB:=DB) (Q:=Q) (PR:=PR) (RL:=RL) (BC:=BC) n).
Proof. induction n as [|n IH]; [apply tidy_log|]. apply tidy_bind; [apply tidy_runOnce|done]. Qed.
Lemma tidy_reconciler env ticks : tidy (reconciler_run (DB:=DB) (Q:=Q) (PR:=PR) (RL:=RL) (BC:=BC) env ticks).
Proof.
  apply tidy_start. intros cfg. do 2 apply tidy_inside.
  apply tidy_bind; [apply tidy_quiet; intros p; unfold NewTicker; by destruct (_ <=? _)|]. intros _.
  apply tidy_inside, tidy_bind; [apply tidy_log|]. intros _.
  apply tidy_bind; [apply tidy_runOnce|intros _; apply tidy_loop].
Qed.

(** Why a process did not start, when it did not. *)
Definition start_failure (env : surroundings) (name : string) : option error :=
  match Load (LookupEnv env) with
  | Err e => Some (Wrapped "load config" e)
  | Ok cfg =>
      match tracing_Setup env (mkTracingConfig name (OTLPEndpoint cfg)) with
      | Err e => Some (Wrapped "setup tracing" e)
      | Ok _ => match pgxpool_New env (DatabaseURL cfg) with
                | Err e => Some (Wrapped "postgres pool" e)
                | Ok _ => None
                end
      end
  end.
(** The entries a process logs. *)
Definition logged (l : list life) : list life :=
  filter (λ x, match x with Logged _ _ _ => true | _ => false end = true) l.
End sweeping.

Lemma logged_app l l' : logged (l ++ l') = logged l ++ logged l'.
Proof. apply filter_app. Qed.
Lemma passes_logged {DB Q PR RL BC : Type} `{NotificationRepository DB, BatchRepository DB,
    TemplateRepository DB, NotificationLogRepository DB, Queue Q, Provider PR, RateLimiter RL,
    StatusBroadcaster BC, Clock, IDGenerator} n (w : World DB Q PR RL BC) :
  logged (passes n w).1 = (passes n w).1.
Proof.
  revert w. induction n as [|n IH]; intros w; [done|]. cbn [passes].
  pose proof (IH (pass w)) as Hl. destruct (passes n (pass w)) as [ls w']. cbn [fst] in *.
  unfold logged in *. rewrite filter_cons_True; [by rewrite Hl|]. unfold pass_log. by repeat case_match.
Qed.

Section starting.
Context {W : Type}.
Local Abbreviation P := (process W).
Lemma inside_run {A} r (body : M P A) p :
  inside r body p = let '(x, p') := body (mkProcess (p_world p) (p_life p ++ [Opened r])) in
                    (x, mkProcess (p_world p') (p_life p' ++ [Closed r])).
Proof. unfold inside, bind, note, modify, attempt, of_result. by destruct (body _). Qed.
Lemma start_fails {A} env name (body : Config → M P A) p e : start_failure env name = Some e →
  (start env name body p).1 = Err e ∧ p_world (start env name body p).2 = p_world p ∧
  logged (drop (length (p_life p)) (p_life (start env name body p).2)) = [].
Proof.
  unfold start_failure, start, wrap_err, map_err, bind, of_result, inside, attempt, note, modify.
  destruct (Load _) as [cfg|e0]; [|intros [= <-]; by rewrite drop_all].
  destruct (tracing_Setup _ _) as [[]|e0]; cbn.
  - destruct (pgxpool_New _ _) as [[]|e0]; cbn; [done|]. intros [= <-].
    rewrite <-!app_assoc. by rewrite drop_app_length.
  - intros [= <-]. rewrite <-!app_assoc. by rewrite drop_app_length.
Qed.
Lemma start_runs {A} env name (body : Config → M P A) p : start_failure env name = None → ∃ cfg,
  Load (LookupEnv env) = Ok cfg ∧
  let q := mkProcess (p_world p) (p_life p ++ [Opened SignalContext; Opened TracerProvider; Opened PgPool]) in
  start env name body p = ((body cfg q).1, mkProcess (p_world (body cfg q).2)
    (p_life (body cfg q).2 ++ [Closed PgPool; Closed TracerProvider; Closed SignalContext])).
Proof.
  unfold start_failure, start, wrap_err, map_err, of_result. unfold bind at 1.
  destruct (Load _) as [cfg|e0]; [|done]. exists cfg. split; [done|].
  rewrite inside_run. unfold bind at 1. destruct (tracing_Setup _ _) as [[]|e0]; [|done].
  rewrite inside_run. unfold bind at 1. destruct (pgxpool_New _ _) as [[]|e0]; [|done].
  rewrite inside_run. cbn [p_world p_life]. rewrite <-!app_assoc. cbn [app].
  destruct (body cfg _) as [x p']. cbn. by rewrite <-!app_assoc.
Qed.
End starting.

(** What the body of the reconciler does, once started. *)
Lemma reconciler_body_runs {DB Q PR RL BC : Type} `{NotificationRepository DB, BatchRepository DB,
    TemplateRepository DB, NotificationLogRepository DB, Queue Q, Provider PR, RateLimiter RL,
    StatusBroadcaster BC, Clock, IDGenerator} ticks cfg (w : World DB Q PR RL BC) l :
  let '(x, p') := reconciler_body ticks cfg (mkProcess w l) in
  if 0 <? ReconcilerInterval cfg then
    x = Ok tt ∧ p_world p' = (passes (S ticks) w).2 ∧
    p_life p' = l ++ [Opened AsynqQueue; Opened MetricsServer; Opened TickerC;
                      Logged LevelInfo "reconciler started" []] ++ (passes (S ticks) w).1 ++
                [Logged LevelInfo "reconciler stopped cleanly" []; Closed TickerC; Closed MetricsServer; Closed AsynqQueue]
  else (∃ e, x = Err e) ∧ p_world p' = w ∧
    p_life p' = l ++ [Opened AsynqQueue; Opened MetricsServer; Closed MetricsServer; Closed AsynqQueue].
Proof.
  unfold reconciler_body. rewrite !inside_run. unfold bind at 1, NewTicker.
  rewrite Z.ltb_antisym. destruct (_ <=? 0); cbn [negb].
  - cbn. rewrite <-!app_assoc. by split; [eexists|].
  - cbn [ret]. rewrite inside_run. unfold bind at 1. cbn [log_info note modify p_world p_life].
    unfold bind. rewrite runOnce_passes, loop_passes. cbn [p_world p_life passes].
    destruct (passes ticks (pass w)) as [ls w']. cbn [fst snd p_world p_life]. by rewrite <-!app_assoc.
Qed.

(** C12. The reconciler process: when its configuration does not load, or the
    tracer or the pool cannot be built, it returns that error and makes no
    pass.  Otherwise - with an interval the ticker accepts - it makes one pass at
    once and one for every tick, however each of them ends, logs what each did,
    and returns without an error when it is told to stop.  In every case it
    closes what it opened, in the reverse order. *)
Theorem reconciler_keeps_sweeping {DB Q PR RL BC : Type} `{NotificationRepository DB, BatchRepository DB,
    TemplateRepository DB, NotificationLogRepository DB, Queue Q, Provider PR, RateLimiter RL,
    StatusBroadcaster BC, Clock, IDGenerator} env ticks (w : World DB Q PR RL BC) l :
  let '(x, p') := reconciler_run env ticks (mkProcess w l) in
  ∃ new, p_life p' = l ++ new ∧ all_closed new ∧
  match start_failure env "reconciler", Load (LookupEnv env) with
  | Some e, _ => x = Err e ∧ p_world p' = w ∧ logged new = []
  | None, Ok cfg =>
      if 0 <? ReconcilerInterval cfg then
        x = Ok tt ∧ p_world p' = (passes (S ticks) w).2 ∧
        logged new = [Logged LevelInfo "reconciler started" []] ++ (passes (S ticks) w).1 ++
                     [Logged LevelInfo "reconciler stopped cleanly" []]
      else (∃ e, x = Err e) ∧ p_world p' = w ∧ logged new = []
  | None, Err _ => False
  end.
Proof.
  pose proof (tidy_reconciler env ticks (mkProcess w l)) as Ht. unfold wp in Ht.
  destruct (start_failure env "reconciler") as [e|] eqn:Es.
  - pose proof (start_fails env "reconciler" (reconciler_body ticks) (mkProcess w l) e Es) as Hf.
    unfold reconciler_run in *. destruct (start _ _ _ _) as [x p']. cbn [fst snd p_life] in *.
    destruct Ht as (new & Hp & Hn), Hf as (-> & Hw & Hlog). exists new.
    by rewrite Hp, drop_app_length in Hlog.
  - destruct (start_runs env "reconciler" (reconciler_body ticks) (mkProcess w l) Es) as (cfg & Hcfg & Hrun).
    unfold reconciler_run in *. rewrite Hrun in *. rewrite Hcfg. cbn [p_world p_life fst snd] in *.
    pose proof (reconciler_body_runs ticks cfg w (l ++ [Opened SignalContext; Opened TracerProvider; Opened PgPool])) as Hb.
    destruct (reconciler_body _ _ _) as [x p']. cbn [p_world p_life fst snd] in *.
    destruct Ht as (new & Hp & Hn). exists new. split; [done|]. split; [done|].
    destruct (0 <? _); destruct Hb as (Hx & Hw & Hl); (split; [done|]; split; [done|]);
      rewrite Hl, <-!app_assoc in Hp; apply app_inv_head in Hp; rewrite <-Hp; [|done].
    rewrite !logged_app, passes_logged. done.
Qed.

(** ** The servers *)
Section servers.
Context {W : Type}.
Local Abbreviation P := (process W).

Lemma tidy_serve {X} (one : X → W → W) l : tidy (serve one l).
Proof. by apply tidy_quiet. Qed.
(** A server process that serves [l] and then ends by [finish]: its world is
    what serving made of it, and its result that of [finish] - or it did not
    start. *)
Definition served {X} (env : surroundings) (name : string) (one : Config → X → W → W) (l : list X)
    (result : res unit) (w : W) (life0 : list life) (out : res unit * P) : Prop :=
  let '(x, p') := out in
  ∃ new, p_life p' = life0 ++ new ∧ all_closed new ∧
  match start_failure env name, Load (LookupEnv env) with
  | Some e, _ => x = Err e ∧ p_world p' = w
  | None, Ok cfg => x = result ∧ p_world p' = foldl (λ w x, one cfg x w) w l
  | None, Err _ => False
  end.
Lemma start_served {X} env name one (l : list X) result body w life0 :
  (∀ cfg, tidy (body cfg)) →
  (∀ cfg q, (body cfg q).1 = result ∧ p_world (body cfg q).2 = foldl (λ w x, one cfg x w) (p_world q) l) →
  served env name one l result w life0 (start env name body (mkProcess w life0)).
Proof.
  intros Ht Hb. pose proof (tidy_start env name body Ht (mkProcess w life0)) as Hl. unfold wp in Hl.
  unfold served. destruct (start_failure env name) as [e|] eqn:Es.
  - destruct (start_fails env name body (mkProcess w life0) e Es) as (Hx & Hw & _).
    destruct (start _ _ _ _) as [x p']. destruct Hl as (new & Hp & Hn). by exists new.
  - destruct (start_runs env name body (mkProcess w life0) Es) as (cfg & Hcfg & Hrun).
    rewrite Hrun in *. rewrite Hcfg. cbn [p_world p_life fst snd] in *.
    destruct Hl as (new & Hp & Hn). exists new. split; [done|]. split; [done|]. apply Hb.
Qed.
End servers.

(** Discharge the parts of a body that only log or fail. *)
Ltac tidy_body := repeat first
  [ apply tidy_inside | apply tidy_log | apply tidy_serve | apply tidy_map_err | (apply tidy_bind; [|intros ?])
  | by apply tidy_quiet ].

(** The worker process: when it starts, the tasks asynq hands over before the
    end are run one after the other on the adapters of the process, and it
    returns an error exactly when the asynq server failed; what it opened is
    closed in every case. *)
Theorem worker_process_serves {DB Q R BC N B : Type} `{StoreLaws DB, Asynq Q, Redis R,
    StatusBroadcaster BC, HTTPClient N, Gobreaker B, Clock, IDGenerator} env ws tasks ending
    (w : World DB Q (guarded B (outside N)) R BC) l :
  served env "worker" (λ cfg, handle_task cfg ws) tasks
    (match ending with Some e => Err (Wrapped "worker server failed" e) | None => Ok tt end) w l
    (worker_process env ws tasks ending (mkProcess w l)).
Proof.
  apply start_served; [intros cfg; unfold worker_body; tidy_body; destruct ending; tidy_body|].
  intros cfg q. unfold worker_body. rewrite !inside_run. unfold bind at 1 2. cbn. by destruct ending.
Qed.
(** The API process, likewise; a shutdown that fails is reported. *)
Theorem api_process_serves {DB Q PR RL BC IS : Type} `{TextTemplate, GoogleUUID, TimeParse, UUIDSource,
    ParamBinding, Chi, IdempotencyStore IS, NotificationRepository DB, BatchRepository DB,
    TemplateRepository DB, NotificationLogRepository DB, Queue Q, Provider PR, RateLimiter RL,
    StatusBroadcaster BC, Clock} Recoverer since pg_Ping redis_Ping registry side env requests ending shutdown
    (s : IS * World DB Q PR RL BC) l :
  served env "api" (λ _, handle_request Recoverer since pg_Ping redis_Ping registry side) requests
    (match ending, shutdown with
     | Some e, _ => Err (Wrapped "http server failed" e)
     | None, Err e => Err (Wrapped "graceful shutdown" e)
     | None, Ok _ => Ok tt
     end) s l
    (api_run Recoverer since pg_Ping redis_Ping registry side env requests ending shutdown (mkProcess s l)).
Proof.
  apply start_served; [intros cfg; unfold api_body; tidy_body; destruct ending; tidy_body|].
  intros cfg q. unfold api_body. rewrite !inside_run. unfold bind at 1. cbn.
  by destruct ending, shutdown as [[]|err].
Qed.

(** [main] exits with 0 exactly when [run] returned no error. *)
Lemma main_exit_code {W} name (c : M (process W) unit) p :
  (main_exit name c p).1 = Ok (match (c p).1 with Ok _ => 0 | Err _ => 1 end).
Proof. unfold main_exit, bind, attempt. by destruct (c p) as [[[]|e] p']. Qed.

(** The sampler never panics: it only sets the gauges of the three queues. *)
Lemma sampleQueueDepth_runs {Q S : Type} `{AsynqLaws Q, PrometheusLaws S} ticks (q : Q) (s : S) :
  notificationsQueueDepth collectors ∈ registered s →
  ∃ q' s', sampleQueueDepth collectors ticks (q, s) = Some (q', s') ∧ registered s' = registered s.
Proof.
  assert (∀ depths s, notificationsQueueDepth collectors ∈ registered s → depths.*1 ⊆ queueNames →
    ∃ s', set_depths collectors depths s = Some s' ∧ registered s' = registered s) as Hset.
  { induction depths as [|[n d] depths IH]; intros s0 Hs0 Hn; cbn [set_depths]; [by exists s0|].
    destruct (update_law (notificationsQueueDepth collectors) [n] (SetTo (float_of_Z d)) s0)
      as (s1 & E & Hr & _); [done| |done|].
    { split; [done|]. apply Forall_singleton. assert (n ∈ queueNames) as Hin by (apply Hn; cbn; set_solver).
      unfold queueNames in Hin. repeat (apply elem_of_cons in Hin as [->|Hin]; [literal|]). by apply elem_of_nil in Hin. }
    unfold Metrics_SetQueueDepth. rewrite E. cbn [mbind option_bind]. rewrite <-Hr in *.
    destruct (IH s1) as (s2 & -> & Hr2); [done|cbn in Hn; set_solver|]. exists s2. by rewrite Hr2. }
  revert q s. induction ticks as [|ticks IH]; intros q s Hs; cbn [sampleQueueDepth fst snd]; [by exists q, s|].
  pose proof (QueueDepths_correct q) as Hd. unfold sample_tick.
  destruct (QueueDepths q) as [[ds|e] q1]; cbn [set_depths mbind option_bind]; [|by apply IH].
  destruct Hd as [_ Hd]. destruct (Hset ds s Hs) as (s1 & -> & Hr); [by destruct (Hd ds eq_refl) as [-> _]|].
  cbn [mbind option_bind]. destruct (IH q1 s1) as (q2 & s2 & -> & Hr2); [by rewrite Hr|].
  exists q2, s2. by rewrite Hr2.
Qed.
