(* ===== verification/Migrate.v ===== *)
(** The migrate command (cmd/migrate/main.go) over golang-migrate. *)

From S2P Require Import Prelude GoStrings Strconv Errors.
From S2P Require Import Numbers Telemetry Lifecycle Config.

(** golang-migrate on a database [D]: a version is a number with a dirty flag. *)
Class Migrator (D : Type) := {
  migrate_New : string → string → M D unit;
  migrate_Up : M D unit;
  migrate_Steps : Z → M D unit;
  migrate_Version : M D (Z * bool);
  migrate_Force : Z → M D unit;
}.
Section migrate.
Context {D : Type} `{Migrator D}.
Local Abbreviation P := (process D).

Definition migrationsPath : string := "file://db/migrations".
(** [if err != nil && !errors.Is(err, s) { return fmt.Errorf("label: %w", err) }] *)
Definition unless_is (s : sentinel) (label : string) {A} (c : M P A) (k : option A → M P unit) : M P unit :=
  let* x := attempt c in
  match x with
  | Ok a => k (Some a)
  | Err e => if errors_Is e s then k None else throw (Wrapped label e)
  end.
Definition runUp : M P unit :=
  unless_is LibErrNoChange "up" (on_world migrate_Up) (λ _, log_info "migrations applied").
Definition runDown (args : list string) : M P unit :=
  let* steps := match args with
                | [] => ret 1
                | a :: _ => match Atoi a with
                            | Some n => if n <? 1 then throw (Opaque "down steps must be a positive integer") else ret n
                            | None => throw (Opaque "down steps must be a positive integer")
                            end
                end in
  unless_is LibErrNoChange "down" (on_world (migrate_Steps (- steps)))
    (λ _, note (Logged LevelInfo "migrations rolled back" [("steps", steps)])).
(** Without a version the library returns zero and false. *)
Definition version_line (v : Z * bool) : string :=
  ("version=" +:+ FormatInt v.1 +:+ " dirty=" +:+ (if v.2 then "true" else "false"))%string.
Definition runVersion : M P unit :=
  unless_is LibErrNilVersion "version" (on_world migrate_Version)
    (λ v, note (Printed (version_line (default (0, false) v)))).
Definition runForce (args : list string) : M P unit :=
  match args with
  | [] => throw (Opaque "usage: migrate force <version>")
  | a :: _ =>
      match Atoi a with
      | None => throw (Opaque "force version must be an integer")
      | Some v =>
          wrap_err "force" (on_world (migrate_Force v));;;
          note (Logged LevelInfo "migration version forced" [("version", v)])
      end
  end.
Definition dispatch_command (cmd : string) (args : list string) : M P unit :=
  if bool_decide (cmd = "up") then runUp
  else if bool_decide (cmd = "down") then runDown args
  else if bool_decide (cmd = "version") then runVersion
  else if bool_decide (cmd = "force") then runForce args
  else throw (Opaque "unknown command").
(** [run]; the errors of [Close] are dropped. *)
Definition migrate_run (LookupEnv : string → option string) (Args : list string) : M P unit :=
  let* cfg := wrap_err "load config" (of_result (Load LookupEnv)) in
  match Args with
  | _ :: cmd :: args =>
      wrap_err "open migrate" (on_world (migrate_New migrationsPath (DatabaseURL cfg)));;;
      inside MigrateHandle (dispatch_command cmd args)
  | _ => throw (Opaque "usage: migrate <up|down|version|force> [args]")
  end.

(** ** What a command line asks for *)
Inductive action := ApplyAll | RollBack (steps : Z) | ShowVersion | SetVersion (v : Z).
Definition asked (cmd : string) (args : list string) : option action :=
  match args with
  | [] => if bool_decide (cmd = "up") then Some ApplyAll
          else if bool_decide (cmd = "down") then Some (RollBack 1)
          else if bool_decide (cmd = "version") then Some ShowVersion else None
  | a :: _ =>
      if bool_decide (cmd = "up") then Some ApplyAll
      else if bool_decide (cmd = "down") then n ← Atoi a; if n <? 1 then None else Some (RollBack n)
      else if bool_decide (cmd = "version") then Some ShowVersion
      else if bool_decide (cmd = "force") then v ← Atoi a; Some (SetVersion v) else None
  end.
Definition forget {A} (x : res A * D) : res unit * D :=
  (match x.1 with Ok _ => Ok tt | Err e => Err e end, x.2).
(** The one call it makes on the schema, and the error that is no failure. *)
Definition perform (a : action) : M D unit :=
  match a with
  | ApplyAll => migrate_Up
  | RollBack n => migrate_Steps (- n)
  | ShowVersion => λ d, forget (migrate_Version d)
  | SetVersion v => migrate_Force v
  end.
Definition tolerated (a : action) (e : error) : bool :=
  match a with
  | ApplyAll | RollBack _ => errors_Is e LibErrNoChange
  | ShowVersion => errors_Is e LibErrNilVersion
  | SetVersion _ => false
  end.

(** A command made one call: its result, the schema it left, its entry. *)
Definition performed (a : action) (p : P) (out : res unit * P) : Prop := ∃ label l,
  all_closed l ∧ out =
  (match (perform a (p_world p)).1 with
   | Ok _ => Ok tt
   | Err e => if tolerated a e then Ok tt else Err (Wrapped label e)
   end, mkProcess (perform a (p_world p)).2 (p_life p ++ l)).

Lemma unless_is_performs {A} a s label (c : M D A) (entry : option A → life) p :
  perform a (p_world p) = forget (c (p_world p)) → (∀ e, tolerated a e = errors_Is e s) →
  (∀ x, all_closed [entry x]) →
  performed a p (unless_is s label (on_world c) (λ x, note (entry x)) p).
Proof.
  intros Hp Ht Hl. unfold performed. rewrite Hp. unfold unless_is, bind, attempt, on_world, zoom, forget.
  destruct (c (p_world p)) as [[x|e] d]; cbn.
  - by exists label, [entry (Some x)].
  - rewrite Ht. destruct (errors_Is e s); [by exists label, [entry None]|].
    exists label, []. by rewrite app_nil_r.
Qed.
Lemma forget_unit (x : res unit * D) : forget x = x.
Proof. by destruct x as [[[]|e] d]. Qed.

Lemma runDown_performs n args p : (args = [] ∧ n = 1 ∨ ∃ a l, args = a :: l ∧ Atoi a = Some n ∧ 1 ≤ n) →
  performed (RollBack n) p (runDown args p).
Proof.
  intros Hn. assert (runDown args p = unless_is LibErrNoChange "down" (on_world (migrate_Steps (- n)))
    (λ _, note (Logged LevelInfo "migrations rolled back" [("steps", n)])) p) as ->.
  { unfold runDown, bind at 1. destruct Hn as [[-> ->]|(a & l & -> & Ha & Hn)]; [done|].
    rewrite Ha, (proj2 (Z.ltb_ge n 1)) by done. done. }
  apply (unless_is_performs _ _ _ _ (λ _, _)); [|done|done]. by rewrite forget_unit.
Qed.
Lemma dispatch_performs cmd args p :
  match asked cmd args with
  | None => ∃ e, dispatch_command cmd args p = (Err e, p)
  | Some a => performed a p (dispatch_command cmd args p)
  end.
Proof.
  unfold asked, dispatch_command.
  assert (performed ApplyAll p (runUp p)) as Hup.
  { apply (unless_is_performs _ _ _ _ (λ _, _)); [|done|done]. by rewrite forget_unit. }
  assert (performed ShowVersion p (runVersion p)) as Hversion by by apply unless_is_performs.
  destruct args as [|a args]; repeat case_bool_decide; subst; try done; try by eexists.
  - apply runDown_performs. auto.
  - destruct (Atoi a) as [n|] eqn:Ha; cbn [mbind option_bind].
    + destruct (n <? 1) eqn:Hn; [|apply runDown_performs; right; exists a, args; split_and!; [done..|lia]].
      unfold runDown, bind. rewrite Ha, Hn. by eexists.
    + unfold runDown, bind. rewrite Ha. by eexists.
  - unfold runForce. destruct (Atoi a) as [v|]; cbn [mbind option_bind]; [|by eexists].
    unfold wrap_err, map_err, bind, on_world, zoom, performed. cbn [perform].
    destruct (migrate_Force v (p_world p)) as [[[]|e] d]; cbn.
    + by exists "force", [Logged LevelInfo "migration version forced" [("version", v)]].
    + exists "force", []. by rewrite app_nil_r.
Qed.

(** The migrate command: a configuration that does not load, a missing
    command, a database that cannot be opened and a command or argument that
    does not parse - a roll-back of less than one step too - end in an error
    before any call on the schema.  Otherwise exactly the call the command
    line asks for is made, once, and its error is returned unless it only says
    that there was nothing to do; the handle is closed in every case. *)
Theorem migrate_outcomes LookupEnv Args (d : D) l :
  let '(x, p') := migrate_run LookupEnv Args (mkProcess d l) in
  (∃ new, p_life p' = l ++ new ∧ all_closed new) ∧
  match Load LookupEnv, Args with
  | Err e, _ => x = Err (Wrapped "load config" e) ∧ p_world p' = d
  | Ok cfg, _ :: cmd :: args =>
      match migrate_New migrationsPath (DatabaseURL cfg) d with
      | (Err e, d1) => x = Err (Wrapped "open migrate" e) ∧ p_world p' = d1
      | (Ok _, d1) =>
          match asked cmd args with
          | None => (∃ e, x = Err e) ∧ p_world p' = d1
          | Some a => p_world p' = (perform a d1).2 ∧
              (x = Ok tt ↔ match (perform a d1).1 with Ok _ => True | Err e => tolerated a e = true end)
          end
      end
  | Ok _, _ => (∃ e, x = Err e) ∧ p_world p' = d
  end.
Proof.
  unfold migrate_run, wrap_err, map_err, of_result. unfold bind at 1.
  assert (∃ new, l = l ++ new ∧ all_closed new) as Hnil by (exists []; by rewrite app_nil_r).
  destruct (Load LookupEnv) as [cfg|e]; [|done].
  destruct Args as [|a0 [|cmd args]]; [split; [exact Hnil|split; [by eexists|done]]..|].
  unfold bind, on_world, zoom. cbn [p_world p_life].
  destruct (migrate_New _ _ d) as [[[]|e] d1]; cbn [p_world p_life]; [|done].
  rewrite inside_run. cbn [p_world p_life].
  pose proof (dispatch_performs cmd args (mkProcess d1 (l ++ [Opened MigrateHandle]))) as Hd.
  destruct (asked cmd args) as [a|].
  - destruct Hd as (label & l' & Hl & ->). cbn [p_world p_life]. split.
    + exists (Opened MigrateHandle :: l' ++ [Closed MigrateHandle]). rewrite <-!app_assoc.
      split; [done|]. by apply all_closed_inside.
    + split; [done|]. destruct (perform a d1).1 as [[]|e]; [done|]. by destruct (tolerated a e).
  - destruct Hd as [e ->]. cbn [p_world p_life]. split; [|by split; [eexists|]].
    exists [Opened MigrateHandle; Closed MigrateHandle]. rewrite <-!app_assoc. split; [done|].
    apply (all_closed_inside _ []). by intros o.
Qed.
End migrate.
