(* ===== verification/Scenario.v ===== *)
(** A concrete deployment: a server that never fails, a queue that keeps its
    tasks in order, a provider that answers from a script, a token bucket and a
    log of published statuses.  The theorems that are stated for any adapter
    are applied to it here. *)

From S2P Require Import Prelude GoStrings RFC3339 Uuid Errors ValueObjects Notification Batch.
From S2P Require Import Template Ports RetryPolicy RepoSpec ProcessNotification.
From S2P Require Import CreateNotification CancelNotification Reconcile CreateBatch Queries.
From S2P Require Import TemplateUseCases Sql Postgres PostgresSpec Pagination Discipline System Liveness.
From S2P Require Import Budget.

(** ** The adapters *)

(** A [timestamptz] keeps microseconds. *)
#[export] Instance server : Server := {|
  srv_time := λ t, t - t mod 1000;
  srv_plan := λ A l, l;
  srv_locked := λ _ _, false;
  srv_name_le := String.leb;
  srv_jsonb := Some;
  srv_fault := λ _, NoFault |}.
#[export] Instance server_laws : ServerLaws.
Proof.
  split; [|done|by intros i e [|]]. intros t. simpl. Z.div_mod_to_equations. lia.
Qed.
#[export] Instance details : DetailsCodec := {|
  details_Marshal := λ _, Ok "{}"; details_Unmarshal := λ _, Ok ∅ |}.
#[export] Instance cursor_time : CursorTime := λ _, Err (Opaque "parsing time").

Record task := mkTask { task_notification : NotificationID; task_priority : Priority; task_at : option Time }.
#[export] Instance task_queue : Queue (list task) := {|
  Queue_Enqueue := λ nid p _ q, (Ok tt, q ++ [mkTask nid p None]);
  Queue_EnqueueScheduled := λ nid p at_ q, (Ok tt, q ++ [mkTask nid p (Some at_)]);
  Queue_Cancel := λ nid q, (Ok tt, filter (λ t, task_notification t ≠ nid) q) |}.
(** The script and the calls received. *)
#[export] Instance scripted : Provider (list DeliveryResult * list (Channel * string * string)) :=
  λ _ ch rcpt content s,
    let sent := s.2 ++ [(ch, rcpt, content)] in
    match s.1 with
    | r :: l => (r, (l, sent))
    | [] => (PermanentFailureResult "script exhausted" 400 0, ([], sent))
    end.
#[export] Instance bucket : RateLimiter nat := λ _ tokens,
  match tokens with O => (Ok (false, Second), O) | S k => (Ok (true, 0), k) end.
#[export] Instance status_log : StatusBroadcaster (list (NotificationID * Status)) := λ nid st l,
  (Ok tt, l ++ [(nid, st)]).
(** One reading a second, from the start of 2025. *)
#[export] Instance wall_clock : Clock := λ k, (1735689600 + Z.of_nat k) * Second.
Definition nth_id (k : nat) : string := uuid_text (uuid_of_N (N.of_nat k)).
#[export] Instance ids : IDGenerator := {|
  Gen_NotificationID := nth_id; Gen_BatchID := nth_id; Gen_TemplateID := nth_id;
  Gen_LogID := nth_id; Gen_CorrelationID := nth_id |}.

Abbreviation W := (World PG (list task) (list DeliveryResult * list (Channel * string * string)) nat
  (list (NotificationID * Status))).
Abbreviation state := (@sys PG (list task) (list DeliveryResult * list (Channel * string * string)) nat
  (list (NotificationID * Status))).

Definition sms_row (st : Status) (attempts : Z) (updated : Time) : notification_cols := {|
  c_batch_id := None; c_idempotency_key := None; c_correlation_id := "corr"; c_channel := "sms";
  c_priority := "high"; c_recipient := "+905551234567"; c_content := "hello"; c_status := st;
  c_attempts := attempts; c_last_error := ""; c_next_retry_at := None; c_scheduled_at := None;
  c_template_id := None; c_created_at := updated; c_updated_at := updated |}.
Definition row_key : uuid := uuid_of_N 700.
Definition row_id : NotificationID := uuid_text row_key.
(** One notification in status [st], and a provider that follows [script]. *)
Definition world (st : Status) (script : list DeliveryResult) : W :=
  mkWorld _ _ _ _ _
    (mkPG (mkData {[ row_key := sms_row st 0 (1735000000 * Second) ]} ∅ ∅ []) 0) [] (script, []) 3%nat [] 0 0 [].
Definition row_status (w : W) : option Status := NStatus <$> rows (w_db w) !! row_key.
Definition worker : ProcessNotification := mkProcessNotification true true.


(** Schedule a request for a day later than the clock. *)
Definition creator : CreateNotification := mkCreateNotification true.
Definition empty_world : W := mkWorld _ _ _ _ _ (mkPG (mkData ∅ ∅ ∅ []) 0) [] ([], []) 3%nat [] 0 0 [].
Definition sms_request : CreateNotificationInput := {|
  cn_Channel := "SMS "; cn_Priority := "high"; cn_Recipient := "+905551234567"; cn_Content := "hello";
  cn_IdempotencyKey := ""; cn_CorrelationID := ""; cn_ScheduledAt := None; cn_TemplateID := None;
  cn_TemplateVariables := None |}.
Definition tomorrow_request : ScheduleNotificationInput := {|
  sn_Channel := "sms"; sn_Priority := "low"; sn_Recipient := "+905551234567"; sn_Content := "later";
  sn_IdempotencyKey := ""; sn_CorrelationID := "c-1"; sn_ScheduledAt := (1735689600 + 86400) * Second;
  sn_TemplateID := None |}.
Definition batch_request : CreateBatchInput := {|
  cb_CorrelationID := "c-2";
  cb_Notifications := [mkCreateBatchItem "sms" "high" "+905551234567" "one" "" None;
                       mkCreateBatchItem "email" "low" "a@b.co" "two" "" None] |}.
Definition statuses_of (w : W) : list Status := (λ x, NStatus x.2) <$> map_to_list (rows (w_db w)).

Lemma CreateNotification_outcomes_witness :
  let run_it := run (CreateNotification_Execute creator sms_request) in
  wp run_it (created sms_request (w_db empty_world) empty_world) empty_world ∧
  is_Ok (run_it empty_world).1 = true ∧ statuses_of (run_it empty_world).2 = ["queued"] ∧
  length (w_queue (run_it empty_world).2) = 1%nat.
Proof. split; [apply CreateNotification_outcomes|]. vm_compute. done. Defined.

Lemma ScheduleNotification_guard_witness :
  let run_it := run (ScheduleNotification_Execute creator tomorrow_request) in
  wp run_it (λ r w', if bool_decide (Clock_reading 0 < sn_ScheduledAt tomorrow_request)
    then created (scheduled_create tomorrow_request) (w_db empty_world) empty_world r w'
    else r = Err (Sentinel ErrScheduledInPast) ∧ no_side_effect empty_world w') empty_world ∧
  task_at <$> w_queue (run_it empty_world).2 = [Some ((1735689600 + 86400) * Second)].
Proof.
  split; [apply (ScheduleNotification_guard creator tomorrow_request empty_world)|]. vm_compute. done.
Defined.

Lemma CancelNotification_outcomes_witness :
  let w := world "queued" [] in
  wp (run (CancelNotification_Execute row_id)) (cancelled row_id w) w ∧
  row_status (run (CancelNotification_Execute row_id) w).2 = Some "cancelled".
Proof. split; [apply CancelNotification_outcomes|]. vm_compute. done. Defined.

Lemma Reconcile_outcomes_witness :
  let w := world "processing" [] in
  wp (run Reconcile_Execute) (λ r w', pass_swept w r w' ∧ pass_done w r w') w ∧
  row_status (run Reconcile_Execute w).2 = Some "failed".
Proof. split; [apply Reconcile_outcomes|]. vm_compute. done. Defined.

Lemma CreateBatch_outcomes_witness :
  let run_it := run (CreateBatch_Execute (mkCreateBatch true) batch_request) in
  wp run_it (batch_created batch_request empty_world) empty_world ∧
  is_Ok (run_it empty_world).1 = true ∧ statuses_of (run_it empty_world).2 = ["queued"; "queued"].
Proof. split; [apply CreateBatch_outcomes|]. vm_compute. done. Defined.

Definition list_request : ListNotificationsInput := mkListNotificationsInput "Queued" "" None None None "" 0.
Lemma ListNotifications_outcomes_witness :
  let w := world "queued" [] in
  wp (run (ListNotifications_Execute list_request)) (listed list_request w) w ∧
  match (run (ListNotifications_Execute list_request) w).1 with
  | Ok (l, cursor) => ID <$> l = [row_id] ∧ cursor = ""
  | Err _ => False
  end.
Proof. split; [apply ListNotifications_outcomes|]. vm_compute. done. Defined.

(** ** The store *)
Lemma Postgres_keeps_the_contract_witness : StoreLaws PG ∧ srv_time 1234567 = 1234000.
Proof. split; [apply Postgres_keeps_the_contract|reflexivity]. Defined.

(** A notification of a batch, rendered from a template; both rows exist. *)
Definition new_notification : Notification := {|
  ID := uuid_text (uuid_of_N 42); NBatchID := Some (uuid_text (uuid_of_N 7)); IdempotencyKey := "key-1";
  CorrelationID := "corr"; NChannel := "email"; NPriority := "low"; Recipient := "a@b.co"; Content := "hello";
  NStatus := "pending"; Attempts := 0; LastError := ""; NextRetryAt := None; ScheduledAt := None;
  NTemplateID := Some (uuid_text (uuid_of_N 9)); CreatedAt := 1735689600 * Second;
  UpdatedAt := 1735689600 * Second |}.
Definition referenced : data := mkData ∅
  {[ uuid_of_N 7 := mkBatchCols "corr" (1735689600 * Second) ]}
  {[ uuid_of_N 9 := mkTemplateCols "welcome" "email" "hello" (1735689600 * Second) (1735689600 * Second) ]} [].
Lemma create_get_roundtrip_witness :
  (bind (Repo_Create new_notification) (λ _, Repo_Get (ID new_notification)) (mkPG referenced 0)).1
    = Ok new_notification.
Proof.
  destruct (create_get_roundtrip new_notification (uuid_of_N 42) (mkPG referenced 0)) as [Hr Hc].
  - done.
  - split_and!; try (vm_compute; reflexivity).
    + repeat constructor.
    + exists (uuid_of_N 7). split; [vm_compute; reflexivity|by eexists].
    + exists (uuid_of_N 9). split; [vm_compute; reflexivity|by eexists].
    + right. intros k c Hk. simpl in Hk. by rewrite lookup_empty in Hk.
  - vm_compute. reflexivity.
  - reflexivity.
  - rewrite Hr, Hc; [reflexivity|]. unfold canonical.
    split; [reflexivity|]. split; [intros ? [= <-]; by eexists|]. split; [intros ? [= <-]; by eexists|].
    split; [unfold in_int32; simpl; lia|]. by split_and!.
Defined.

(** ** Pages *)
Definition three_rows : data := mkData
  (list_to_map ((λ k, (uuid_of_N k, sms_row "queued" 0 ((1735000000 + Z.of_N k) * Second))) <$> [1; 2; 3]%N))
  ∅ ∅ [].
Definition any_filter : NotificationFilter := mkNotificationFilter None None None None None.
Definition stamped_row (x : uuid * notification_cols) : bool :=
  let t := c_created_at x.2 in let y := year_of_day (t / Second / 86400 + epoch_day) in
  (srv_time t =? t) && (0 <=? y) && (y <=? 9999).
Lemma three_rows_stamped : stamped three_rows.
Proof.
  intros k c Hk. apply elem_of_map_to_list, list_elem_of_In in Hk.
  assert (forallb stamped_row (map_to_list (t_notifications three_rows)) = true) as Hall
    by (vm_compute; reflexivity).
  rewrite forallb_forall in Hall. specialize (Hall _ Hk).
  apply andb_true_iff in Hall as [[Ht Hy]%andb_true_iff Hy']. unfold representable. simpl in *. lia.
Qed.
Lemma pagination_complete_witness :
  let M := matching any_filter None three_rows in
  NoDup M ∧ length M = 3%nat ∧
  (walk 4 any_filter "" 2 (mkPG three_rows 0)).1 = Ok (entities M).
Proof.
  pose proof (pagination_complete any_filter None 2 (mkPG three_rows 0) eq_refl ltac:(lia)
    three_rows_stamped ltac:(done)) as (Hnd & _ & _ & Hw).
  split; [exact Hnd|]. split; [vm_compute; reflexivity|]. exact Hw.
Defined.
Lemma cursor_roundtrip_witness : representable (1735689600 * Second + 5000) ∧
  decodeCursor (encodeCursor (1735689600 * Second + 5000) "a|b") = Ok (1735689600 * Second + 5000, "a|b").
Proof. split; [|apply cursor_roundtrip]; vm_compute; split; discriminate. Defined.

(** ** Interleavings *)
Lemma world_counters st script : counters_ok (world st script).
Proof.
  intros k n Hk. change (w_db (world st script)) with (w_db (world st [])) in Hk.
  rewrite lookup_rows in Hk. apply fmap_Some in Hk as (c & Hc & ->).
  cbn [world w_db pg_data t_notifications] in Hc.
  apply lookup_singleton_Some in Hc as [<- <-]. split; simpl; lia.
Qed.
(** Two workers are handed the same task and take turns, up to the first
    worker's call of the provider. *)
Definition race_start : W := world "queued" [DeliveredResult "m-1" 0].
Definition two_workers : state :=
  spawn (Process worker Background row_id) (spawn (Process worker Background row_id) (initial race_start)).
Definition turns (k : nat) : state := Nat.iter k (λ s, advance 1 (advance 0 s)) two_workers.
Lemma turns_reachable k : reachable race_start (turns k).
Proof.
  induction k as [|k IH]; [do 2 apply spawn_steps; apply rtc_refl|]. by do 2 apply advance_steps.
Qed.
Definition thread_of (s : state) (i : nat) : hold * proc unit :=
  default (Idle, Done (Ok tt)) (s_threads s !! i).
Lemma thread_of_lookup s i : (i <? length (s_threads s))%nat = true →
  s_threads s !! i = Some ((thread_of s i).1, (thread_of s i).2).
Proof.
  intros Hi%Nat.ltb_lt. apply lookup_lt_is_Some in Hi as [[g c] Ht].
  unfold thread_of. by rewrite Ht.
Qed.

Lemma send_needs_exclusive_claim_witness :
  let s := turns 10 in
  next_send (thread_of s 0).2 = Some (WithContext Background "corr", "sms", "+905551234567", "hello") ∧
  next_send (thread_of s 1).2 = None ∧
  ∃ n key_n, (thread_of s 0).1 = Claimed n ∧ key (ID n) = Some key_n ∧ others_free s 0 key_n.
Proof.
  intros s. assert (next_send (thread_of s 0).2 =
    Some (WithContext Background "corr", "sms", "+905551234567", "hello")) as Hn by (vm_compute; reflexivity).
  split; [exact Hn|]. split; [vm_compute; reflexivity|].
  destruct (send_needs_exclusive_claim race_start s 0 (thread_of s 0).1 (thread_of s 0).2
    (WithContext Background "corr") "sms" "+905551234567" "hello" (world_counters _ _) (turns_reachable 10))
    as (n & key_n & Hg & _ & _ & _ & Hk & _ & Hf);
    [apply thread_of_lookup; vm_compute; reflexivity|exact Hn|].
  exists n, key_n. by split_and!.
Defined.

Lemma sends_bounded_witness : let s := turns 11 in
  sent_of (s_sends s) row_key = 1 ∧ sent_of (s_sends s) row_key ≤ 5 ∧ Forall is_Some (s_sends s).
Proof.
  intros s. split; [vm_compute; reflexivity|].
  apply (sends_bounded race_start s row_key (world_counters _ _) (turns_reachable 11)).
Defined.

Lemma rows_follow_the_state_machine_witness :
  let s := turns 1 in let s' := advance 0 s in
  moves (s_rows s) (s_rows s') ∧ NStatus <$> s_rows s' !! row_key = Some "processing".
Proof.
  intros s s'. split; [|vm_compute; reflexivity].
  apply (rows_follow_the_state_machine race_start s s' (world_counters _ _) (turns_reachable 1)).
  apply advance_step. vm_compute. reflexivity.
Defined.

Lemma terminal_rows_stay_witness : let s := turns 20 in
  NStatus <$> s_rows s !! row_key = Some "delivered" ∧
  ∀ n, s_rows s !! row_key = Some n → ∃ n', s_rows (spawn ReconcilePass s) !! row_key = Some n' ∧ NStatus n' = NStatus n.
Proof.
  intros s. assert (NStatus <$> s_rows s !! row_key = Some "delivered") as Hst by (vm_compute; reflexivity).
  split; [exact Hst|]. intros n Hn.
  destruct (terminal_rows_stay race_start s (spawn ReconcilePass s) row_key n (world_counters _ _)
    (turns_reachable 20)) as (n' & Hn' & Hst' & _).
  - eapply rtc_once. destruct s. constructor.
  - exact Hn.
  - rewrite Hn in Hst. injection Hst as ->. reflexivity.
  - exists n'. exact (conj Hn' Hst').
Defined.

(** ** Progress *)
Definition healthy_pg : HealthyStore PG := pg_healthy (λ _, eq_refl).
#[export] Instance healthy_ports : HealthyPorts nat (list (NotificationID * Status)).
Proof. split; [|done]. by intros b [|s]. Qed.
(** A provider that is down for good, and a limiter with tokens to spare. *)
Definition down : DeliveryResult := TransientFailureResult "upstream unavailable" 503 0.
Definition unlucky : W := set_limiter 9%nat (world "queued" (replicate 9 down)).
Lemma fresh_ids : pg_ready 0 10 (w_db unlucky).
Proof.
  split.
  - intros i _. split; [done|]. exists (uuid_of_N (N.of_nat i)). by split; [apply id_key_text|constructor].
  - assert (forallb (λ x, forallb (λ y, bool_decide (id_key (nth_id x) = id_key (nth_id y) → x = y))
      (seq 0 10)) (seq 0 10) = true) as Hall by (vm_compute; reflexivity).
    intros i j Hi Hj. rewrite forallb_forall in Hall.
    assert (∀ x, (0 ≤ x < 0 + 10)%nat → In x (seq 0 10)) as Hin by (intros; apply in_seq; lia).
    pose proof (Hall i (Hin i Hi)) as Hrow. rewrite forallb_forall in Hrow.
    exact (bool_decide_eq_true_1 _ (Hrow j (Hin j Hj))).
Qed.

(** The reasons of a script of texts are text. *)
Lemma plain_script s : forallb (λ r, text_ok (Reason r)) s.1 = true → plain_reasons s.
Proof.
  intros Hs c ch rcpt content. unfold Provider_Send, scripted.
  destruct s.1 as [|r l]; [done|]. cbn [forallb] in Hs. by apply andb_true_iff in Hs as [Hr _].
Qed.

Lemma redelivery_settles_witness :
  deferred_runs worker Background row_id 5 unlucky = 0%nat ∧
  row_status (deliveries worker Background row_id 4 unlucky) = Some "retrying" ∧
  row_status (deliveries worker Background row_id 5 unlucky) = Some "failed" ∧
  ∃ n, rows (w_db (deliveries worker Background row_id 5 unlucky)) !! row_key = Some n ∧
    (NStatus n = StatusDelivered ∨ NStatus n = StatusFailed).
Proof.
  split; [vm_compute; reflexivity|]. split; [vm_compute; reflexivity|]. split; [vm_compute; reflexivity|].
  eapply (redelivery_settles (H6:=healthy_pg) worker Background row_id row_key
    (entity_of row_key (sms_row "queued" 0 (1735000000 * Second))) unlucky 5).
  - apply id_key_text.
  - split_and!; [apply id_key_text|done|done|done].
  - by left.
  - done.
  - done.
  - intros j Hj. do 5 (destruct j as [|j]; [apply plain_script; vm_compute; reflexivity|]). lia.
  - split; [by rewrite lookup_rows|]. apply fresh_ids.
  - vm_compute. lia.
Defined.

(** ** Termination *)

(** A delivery interleaved with a reconciler pass that crashes and a change of
    the outside: after 24 turns it has finished. *)
Definition busy_schedule : list (@event PG (list task) (list DeliveryResult * list (Channel * string * string)) nat
    (list (NotificationID * Status))) :=
  [Arrive ReconcilePass; Turn 1; Turn 1; Crash 1 (Opaque "killed"); Elsewhere (set_queue [])] ++
  replicate 24 (Turn 0).
Lemma request_terminates_witness :
  let s : state := initial (world "queued" [DeliveredResult "m-1" 0]) in
  max_calls (Process worker Background row_id) = scheduled 0 busy_schedule ∧
  finished 0 (exec_all (spawn (Process worker Background row_id) s) busy_schedule).
Proof.
  split; [by vm_compute|].
  apply (request_terminates (initial (world "queued" [DeliveredResult "m-1" 0]))
    (Process worker Background row_id) busy_schedule). by vm_compute.
Defined.
(** The bound is attained by a delivery that succeeds. *)
Example delivery_makes_24_calls :
  Z.of_nat (calls_made (program (Process worker Background row_id)) (world "queued" [DeliveredResult "m-1" 0])) =
  max_calls (Process worker Background row_id).
Proof. by vm_compute. Qed.
