(* ===== verification/MetricsScenario.v ===== *)
(** A registry for the collectors of Metrics.v, and the reports of a delivery
    seen on it. *)

From S2P Require Import Prelude GoStrings Json Numbers Errors ValueObjects Notification Ports RetryPolicy RepoSpec.
From S2P Require Import Uuid Sql Postgres PostgresSpec.
From S2P Require Import ProcessNotification Http Providers Metrics Reports Scenario.

(** The collectors registered and the series shown. *)
Definition registry : Type := list collector * gmap (string * list string) sample.
Definition names (s : registry) : list string := c_Name <$> s.1.
(** The registration of one collector: a plain gauge shows zero at once. *)
Definition show_new (c : collector) (m : gmap (string * list string) sample) : gmap (string * list string) sample :=
  match initial_sample (c_kind c) with Some x => <[(c_Name c, []) := x]> m | None => m end.
Definition without (cs : list collector) (m : gmap (string * list string) sample) :=
  filter (λ kv, kv.1.1 ∉ c_Name <$> cs) m.
#[export] Instance registry_ops : Prometheus registry := {|
  registered := fst;
  Gather := λ n vs s, if decide (n ∈ names s) then s.2 !! (n, vs) else None;
  MustRegister := λ cs s, if decide (NoDup (c_Name <$> cs ++ s.1))
                          then Some (cs ++ s.1, foldr show_new (without cs s.2) cs) else None;
  WithLabelValues := λ c vs u s, if decide (length vs = length (c_labels c) ∧ Forall valid_utf8 vs)
                                 then Some (s.1, partial_alter (updated_sample (c_kind c) u) (c_Name c, vs) s.2)
                                 else None |}.

Lemma shown_other cs m n vs : n ∉ c_Name <$> cs → foldr show_new m cs !! (n, vs) = m !! (n, vs).
Proof.
  induction cs as [|c cs IH]; [done|]. cbn [foldr fmap list_fmap]. intros Hn. unfold show_new at 1.
  destruct (initial_sample (c_kind c)); [rewrite lookup_insert_ne by set_solver|]; apply IH; set_solver.
Qed.
Lemma shown_new cs m c vs : NoDup (c_Name <$> cs) → (∀ c vs, c ∈ cs → m !! (c_Name c, vs) = None) → c ∈ cs →
  foldr show_new m cs !! (c_Name c, vs) = if bool_decide (vs = []) then initial_sample (c_kind c) else None.
Proof.
  induction cs as [|c0 cs IH]; [set_solver|]. cbn [foldr fmap list_fmap].
  intros [Hn Hnd]%NoDup_cons Hm [->|Hc]%elem_of_cons.
  - assert (foldr show_new m cs !! (c_Name c0, vs) = None) as Hnone.
    { rewrite shown_other by done. apply Hm. set_solver. }
    unfold show_new at 1. destruct (initial_sample (c_kind c0)) eqn:E; case_bool_decide as Hv; subst;
      [by rewrite lookup_insert_eq|rewrite lookup_insert_ne by congruence; done|done|done].
  - assert (c_Name c ≠ c_Name c0) as Hne.
    { intros Heq. apply Hn. rewrite <-Heq. by apply list_elem_of_fmap_2. }
    unfold show_new at 1. destruct (initial_sample (c_kind c0)); [rewrite lookup_insert_ne by congruence|];
      (apply IH; [done|set_solver|done]).
Qed.

#[export] Instance registry_laws : PrometheusLaws registry.
Proof.
  split.
  - intros n vs s Hn. cbn [Gather registry_ops]. by rewrite decide_False.
  - intros cs s Hnd. exists (cs ++ s.1, foldr show_new (without cs s.2) cs).
    cbn [MustRegister Gather registered registry_ops]. rewrite decide_True by done.
    assert (∀ c vs, c ∈ cs → without cs s.2 !! (c_Name c, vs) = None) as Hnone.
    { intros c vs Hc. apply map_lookup_filter_None. right. intros x _ Hx. apply Hx. simpl.
      by apply list_elem_of_fmap_2. }
    assert (NoDup (c_Name <$> cs)) as Hcs by (rewrite fmap_app in Hnd; by apply NoDup_app in Hnd as [? _]).
    split_and!; [done|done| |].
    + intros n vs Hn. unfold names. cbn [fst snd]. rewrite fmap_app. rewrite shown_other by done.
      destruct (decide (n ∈ c_Name <$> s.1)); [rewrite decide_True by set_solver|rewrite decide_False by set_solver; done].
      unfold without. rewrite map_lookup_filter. destruct (s.2 !! (n, vs)); [|done]. simpl.
      by rewrite option_guard_True.
    + intros c vs Hc. unfold names. cbn [fst snd].
      rewrite decide_True by (rewrite fmap_app; apply elem_of_app; left; by apply list_elem_of_fmap_2).
      by apply shown_new.
  - intros c vs u s Hc Hl _. exists (s.1, partial_alter (updated_sample (c_kind c) u) (c_Name c, vs) s.2).
    cbn [WithLabelValues Gather registered registry_ops] in *. rewrite decide_True by done. split_and!; [done|done|].
    intros n vs'. unfold names. cbn [fst snd].
    destruct (decide (n ∈ c_Name <$> s.1)) as [Hn|Hn].
    + case_bool_decide as He; [destruct He as [-> ->]; by rewrite lookup_partial_alter_eq|].
      rewrite lookup_partial_alter_ne; [done|]. intros [= <- <-]. by apply He.
    + case_bool_decide as He; [|done]. destruct He as [-> _]. exfalso. apply Hn. by apply list_elem_of_fmap_2.
  - intros c vs u s Hl. cbn [WithLabelValues registry_ops]. by rewrite decide_False.
Qed.

(** A delivery, scraped. *)
Definition delivered_run : W := (run (ProcessNotification_Execute worker Background row_id)
  (world "queued" [DeliveredResult "m-1" 0])).2.

Definition signals : list signal := (App <$> w_obs delivered_run) ++ [QueueDepth "high" 3; Clients 2; Clients 1].
Definition shown (n : string) (vs : list string) : option sample :=
  s0 ← New (([], ∅) : registry); s ← record_all collectors signals s0.2; Gather n vs s.
Lemma signals_plain : Forall plain_labels signals.
Proof.
  apply Forall_forall. intros x Hx c vs u Heff.
  assert (forallb (λ x, match effect collectors x with
    | Some (_, vs, _) => forallb (λ v, bool_decide (valid_utf8 v)) vs | None => true end) signals = true) as Hall
    by by vm_compute.
  rewrite forallb_forall in Hall. specialize (Hall x). rewrite <-list_elem_of_In, Heff in Hall.
  apply Forall_forall. intros v Hv. specialize (Hall Hx). rewrite forallb_forall in Hall.
  apply list_elem_of_In, Hall in Hv. by apply bool_decide_eq_true in Hv.
Qed.
Lemma registry_counts_reports_witness :
  (∃ s0 s, New (([], ∅) : registry) = Some (collectors, s0) ∧ record_all collectors signals s0 = Some s ∧
     counter_value (Gather "notifications_delivered_total" ["sms"] s) =
     occurrences (App (NotificationDelivered "sms")) signals) ∧
  shown "notifications_delivered_total" ["sms"] = Some (CounterIs 1) ∧
  shown "notifications_attempts_total" ["sms"; "success"] = Some (CounterIs 1) ∧
  shown "notifications_websocket_clients" [] = Some (GaugeIs (float_of_Z 1)).
Proof.
  split; [|by vm_compute].
  destruct (registry_counts_reports (([], ∅) : registry) signals) as (s0 & s & H0 & H1 & (_ & Hd & _) & _).
  - rewrite app_nil_r. apply names_distinct.
  - apply signals_plain.
  - exists s0, s. split; [exact H0|]. split; [exact H1|]. apply Hd.
Defined.
