(* ===== verification/WorkerScenario.v ===== *)
(** The worker process in a concrete deployment: the store and the queue of
    Scenario.v, Redis in memory, a network that records the requests it gets
    and answers from a script, and a breaker that counts failures. *)

From S2P Require Import Prelude GoStrings Uuid Json Errors ValueObjects Notification Ports RepoSpec.
From S2P Require Import ProcessNotification Sql Postgres PostgresSpec Redis RateLimiter Asynq Providers.
From S2P Require Import Numbers Config WorkerProcess Scenario.

#[local] Instance recorder : HTTPClient (list http_request * list http_response) := {
  NewRequest_error _ := None;
  client_Do req w := match w.2 with
                     | [] => (inl "dial tcp: i/o timeout", (w.1 ++ [req], []))
                     | resp :: rest => (inr resp, (w.1 ++ [req], rest))
                     end;
  time_Since w := (3 * Millisecond, w);
}.
#[local] Existing Instance demo_gobreaker.

Definition webhook_env : string → option string :=
  env_of [("DATABASE_URL", "postgres://db/app"); ("WEBHOOK_PROVIDER_URL", "https://hook.example")].
Definition webhook_cfg : Config :=
  match Load webhook_env with
  | Ok cfg => cfg
  | Err _ => mkConfig "" "" "" "" "" 0 0 0 "" "" 0 0 0 S754_nan "" 0 0 0 0 "" ""
  end.
Definition no_waits (ch : Channel) : list (option string * Duration) := [].
Definition worker_world : World PG (list task) (guarded demo_breaker (outside (list http_request * list http_response)))
    mem (list (NotificationID * Status)) :=
  let w := world "queued" [] in
  mkWorld _ _ _ _ _ (w_db w) []
    (mkGuarded (mkDemoBreaker 0 StateClosed no_counts 1 Minute 0 (worker_breaker webhook_cfg))
       (mkOutside ([], [mkHttpResponse 200 "200 OK" "{}" None]) (worker_registry webhook_cfg no_waits).2) [] [])
    (mkMem 0 ∅ [] []) [] 3%nat 0%nat [].
Definition worker_task : Task := (NewProcessNotificationTask row_id "high" "").1.

Lemma worker_posts_stored_row_witness :
  let w' := (worker_run webhook_cfg no_waits Background worker_task worker_world).2 in
  NStatus <$> rows (w_db w') !! row_key = Some "delivered" ∧
  (hr_url <$> (net w').1 = ["https://hook.example"]) ∧
  ((λ q, parse (hr_body q)) <$> (net w').1 =
    [Some (JObj [("to", JStr "+905551234567"); ("channel", JStr "sms"); ("content", JStr "hello")])]) ∧
  (∃ n, to_post webhook_cfg row_id worker_world = Some n) ∧
  posts_row webhook_cfg row_id worker_world w'.
Proof.
  split; [vm_compute; reflexivity|]. split; [vm_compute; reflexivity|]. split; [vm_compute; reflexivity|].
  split.
  { destruct (to_post webhook_cfg row_id worker_world) as [n|] eqn:E; [by exists n|]. exfalso.
    by vm_compute in E. }
  apply (worker_posts_stored_row webhook_cfg no_waits Background row_id "high" "" worker_world).
  - by vm_compute.
  - apply ascii_literal_valid. by vm_compute.
  - done.
Defined.
