(* ===== verification/ApiScenario.v ===== *)
(** The API process in a concrete deployment: the store and queue of
    Scenario.v, Redis for the idempotency entries, and simple instances of the
    third-party interfaces. *)

From S2P Require Import Prelude GoStrings RFC3339 Uuid Errors ValueObjects Notification Batch Template.
From S2P Require Import Json Ports RepoSpec CreateNotification Sql Postgres PostgresSpec Redis RateLimiter.
From S2P Require Import RedisStores Http ApiTypes Handlers Middleware ApiServer ApiProcess Scenario.

#[local] Instance demo_google : GoogleUUID := λ s,
  match pgtype_scan_text s with
  | Ok u => if decide (uuid_text u = s) then Ok u else Err (Opaque "invalid UUID format")
  | Err e => Err e
  end.
#[local] Instance demo_google_laws : GoogleUUIDLaws.
Proof.
  split.
  - intros u. unfold uuid_Parse, demo_google. pose proof (scan_text u) as Hs.
    unfold UUID_Scan, pgtype_scan in Hs. rewrite Hs. by rewrite decide_True.
  - intros s e He. unfold uuid_Parse, demo_google in He.
    destruct (pgtype_scan_text s) as [u|e'] eqn:E; [|injection He as <-; by apply (scan_foreign s)].
    case_decide; [done|]. injection He as <-. by intros s'.
Qed.
#[local] Instance demo_time : TimeParse := λ _, Err (Opaque "parsing time").
#[local] Instance demo_source : UUIDSource := {|
  NewV7 k := Ok (uuid_of_N (7000 + N.of_nat k)); NewV4 k := uuid_of_N (4000 + N.of_nat k) |}.
#[local] Instance demo_binding : ParamBinding := {|
  bind_header _ v := inr v; bind_path_uuid _ r := inl "invalid UUID";
  bind_query_string _ _ := inr None; bind_query_uuid _ _ := inr None;
  bind_query_time _ _ := inr None; bind_query_int _ _ := inr None |}.
(** Routes without parameters only. *)
#[local] Instance demo_chi : Chi := {|
  chi_match rs r := if decide ((Method r, URL_Path r) ∈ rs) then Some (Method r, URL_Path r) else None;
  chi_unmatched r := http_Error "404 page not found" 404 |}.
#[local] Instance demo_chi_laws : ChiLaws.
Proof.
  split; simpl; intros rs r.
  - intros rt Hrt. case_decide; by simplify_eq.
  - intros Hin _. by rewrite decide_True.
Qed.
#[local] Instance frozen_clock : Clock := λ _, 1735689600 * Second.
#[local] Existing Instance Generator.

Abbreviation process := (mem * World PG (list task) (list DeliveryResult * list (Channel * string * string)) nat
  (list (NotificationID * Status)))%type.
Definition no_elapsed : process → Duration * process := λ s, (0, s).
Definition api (r : Request) (s : process) : list event * process :=
  api_router (λ f, f) no_elapsed (api_server (ret tt) (ret tt) (ret [])) [] r ∅ s.
Definition post_body : string := Marshal (JObj [
  ("channel", JStr "sms"); ("recipient", JStr "+905551234567"); ("content", JStr "hello")]).
Definition post (headers : header) (body : string) : Request :=
  mkRequest "POST" "/api/v1/notifications" headers "10.0.0.7:5555" (Some (body, None)) Background.
Definition idle : process := (mkMem 5 ∅ [] [], empty_world).

(** The notification is stored and answered with 202. *)
Lemma post_creates_notification_witness :
  let '(out, s') := api (post ∅ post_body) idle in
  rs_status (respond ∅ out) = 202 ∧ statuses_of s'.2 = ["queued"] ∧
  match Decode decode_create zero_create (ReqBody (post ∅ post_body)) with
  | Err e => False
  | Ok body => ∃ res, create_answer (identified (post ∅ post_body) (uuid_text (uuid_of_N 4000)))
      (identified_header ∅ (uuid_text (uuid_of_N 4000))) body res (respond ∅ out)
  end.
Proof.
  assert (rs_status (respond ∅ (api (post ∅ post_body) idle).1) = 202 ∧
    statuses_of (api (post ∅ post_body) idle).2.2 = ["queued"]) as [H1 H2] by by vm_compute.
  pose proof (post_creates_notification (IS := mem) (λ f, f) no_elapsed (ret tt) (ret tt) (ret []) []
    (mkWriteParams None None) (post ∅ post_body) ∅ idle.1 idle.2 (Ok (true, 0)) 2%nat) as H.
  unfold api, idle in *. cbn [fst snd] in H.
  destruct (api_router _ _ _ _ _ _ _) as [out s'].
  split; [exact H1|]. split; [exact H2|]. clear H1 H2.
  assert (∀ k, representable (Clock_reading k)) as Hclock by (intros k; by vm_compute).
  specialize (H ltac:(done) ltac:(done) Hclock eq_refl eq_refl eq_refl eq_refl).
  change (request_id (post ∅ post_body) empty_world) with
    (uuid_text (uuid_of_N 4000), set_fresh 1%nat empty_world) in H. cbn beta iota in H.
  specialize (H eq_refl ltac:(done)). destruct H as [_ H].
  assert (∃ body, Decode decode_create zero_create (ReqBody (post ∅ post_body)) = Ok body) as [body Hb]
    by (eexists; by vm_compute).
  rewrite Hb in *. destruct H as (res & _ & Ha). by exists res.
Defined.

(** Without an X-Correlation-ID header the chain generates one id for the logs
    and the context, and the use case another, which the client receives. *)
Lemma generated_correlation_ids_differ :
  let resp := respond ∅ (api (post ∅ post_body) idle).1 in
  (request_id (post ∅ post_body) empty_world).1 = uuid_text (uuid_of_N 4000) ∧
  header_Get (rs_header resp) "X-Correlation-ID" = uuid_text (uuid_of_N 4001).
Proof. by vm_compute. Qed.

(** The fingerprint covers the body only: a key used to cancel one
    notification replays that response for the cancellation of another. *)
Definition cancel_request (nid : string) : Request :=
  mkRequest "PATCH" ("/api/v1/notifications/" +:+ nid +:+ "/cancel") (header_Set "Idempotency-Key" "k1" ∅)
    "10.0.0.7:5555" (Some ("", None)) Background.
Definition echo_path : Handler (mem * nat) := λ r _ '(s, n),
  ([WriteHeader 200; Write (URL_Path r)], (s, S n)).
Lemma key_is_not_scoped_by_path :
  let '(_, s1) := IdempotencyMiddleware echo_path (cancel_request "1") ∅ (demo_redis_store, 0%nat) in
  let '(out, s2) := IdempotencyMiddleware echo_path (cancel_request "2") ∅ s1 in
  rs_body (respond ∅ out) = "/api/v1/notifications/1/cancel" ∧ s2.2 = 1%nat.
Proof. by vm_compute. Qed.

(** The inbound limiter covers the probes too: once the address of the prober
    has used up its window, the liveness probe is answered with 429. *)
Lemma liveness_probe_is_rate_limited :
  let probe := mkRequest "GET" "/healthz/live" ∅ "10.0.0.7:5555" None Background in
  let exhausted : process := (idle.1, set_limiter 0%nat idle.2) in
  rs_status (respond ∅ (api probe idle).1) = 200 ∧
  rs_status (respond ∅ (api probe exhausted).1) = 429.
Proof. by vm_compute. Qed.
